(* ===== verification/_CoqProject ===== *)
-Q . S2P
Prelude.v
Types.v
Codec.v
Throttle.v
ClientPool.v
DataPath.v
PoolThreads.v
Redirect.v
Groups.v
Threads.v
Waiters.v
RaftStep.v
Metrics.v
Cluster.v
DataService.v
BindThreads.v
ReplCtx.v
Errors.v
ReplGroups.v
DataCluster.v
LogStore.v
LogThreads.v
StateManager.v
Lifecycle.v
ManagerApi.v
Settings.v
Examples.v
