(* ===== verification/Prelude.v ===== *)
(** * A verification of nuraft_mesg

    nuraft_mesg is the messaging layer that carries NuRaft's replication groups over
    gRPC: one process is a member of many RAFT groups, which share one gRPC server for
    incoming messages and one set of connections for outgoing ones.  This library is a
    shallow embedding of the code under [src/lib], [src/proto] and [src/flatb], and of the
    example application under [test_package], with theorems about it.

    ** The program and its model

    Outgoing.  NuRaft asks a group's [mesg_factory] for a client of a peer
    ([src/lib/factory.cpp], [src/proto/proto_mesg_factory.cpp]).  The client is a wrapper
    ([grpc_proto_client]) around a connection ([messaging_client]) that all groups share
    through the [group_factory].  RAFT messages and data-service requests go through
    wrappers; a failed call marks its connection, which is then replaced.  Incoming.
    [proto_service::raftStep] ([src/proto/proto_service.cpp]) checks a message, joins its
    group on request, and posts it to one of two thread pools, whose workers run NuRaft
    and answer.  Control.  [ManagerImpl] and [msg_service] ([src/lib/manager_impl.cpp],
    [src/lib/service.cpp]) create, join and leave groups and keep the gRPC server.
    Example.  [test_package] has a log store, a state manager, a state machine, a server
    and a command-line client.

    - [Prelude]: outcomes of C++ code ([outcome]: a value, an exception, or undefined
      behaviour such as a null dereference or an abort), the state monad [M] with its [wp]
      rules and tactics, machine integers, [std::map] operations, runs with their histories
      ([labelled_run]).
    - [Types]: common types, result codes, NuRaft's plain data, the interface of
      [boost::uuids] ([UuidOps], [UuidLaws]), server ids and method names
      ([include/nuraft_mesg/common.hpp], [src/lib/common_lib.hpp]).
    - [Codec]: protobuf messages and conversions ([src/proto]), and those of the
      FlatBuffers client ([src/flatb/flatb_client.cpp]).
    - [Throttle]: [grpc_status_to_nuraft_code] and [log_every_nth].
    - [ClientPool]: the factories.  Clients live in a heap indexed by construction order,
      which is also [get_id()]; the caches hold locations, so sharing is explicit.
    - [DataPath]: [send], completions (of the FlatBuffers client too), data-service requests.
    - [PoolThreads]: the lookups, requests and sends of [ClientPool] and [DataPath] as
      threads, cut at the locks of the factories ([client_factory_lock_type]).
    - [Redirect]: [add_server], [rem_server], [append_entry] and [respHandler]; the part
      before [future()] is a definition of its own, since answers may come before it.
    - [Groups]: [ManagerImpl], [msg_service] and the forwards of [src/lib/grpc_server.cpp]
      over one state, with the calls to the application and NuRaft as a trace.
    - [Threads]: the calls of [Groups] as threads, cut where the lock of the manager is
      released and at the operations of the concurrent map of servers.
    - [Waiters]: the lock and the condition variable of the manager: acquiring, releasing,
      falling asleep and notifying are steps of the threads ([cv_step]), time-outs and spurious
      wake-ups are steps of their surroundings ([cv_arrival]).
    - [RaftStep]: [proto_service] and its two thread pools.  A handler gives the list of what it
      does with its RPC ([rpc_action]: set the status, send the response, post it to a pool),
      so that answering twice, or not at all, can be said.
    - [Metrics]: the counters, histograms and gauges of the service and of its groups, on top
      of the steps of [RaftStep], with a clock and a history of posts, starts and executions.
    - [Cluster]: several processes: the messages of [Redirect]'s client are handled by the
      services of [RaftStep] and their answers come back to it.
    - [DataService]: [data_service_grpc], [start], [restart_server], registrations.
    - [BindThreads]: [bind] and [restart_server] as threads, cut where others can run.
    - [ReplCtx]: [repl_service_ctx] and [repl_service_ctx_grpc].
    - [Errors]: what callers are told when a destination, a peer, a connection or a group does
      not exist, over the operations of [DataPath], [ReplCtx] and [Groups].
    - [ReplGroups]: which replication context the state manager of a group has
      ([mesg_state_mgr::make_repl_ctx]), read off the trace of [Groups].
    - [DataCluster]: data-service requests between processes: the requests of [DataPath] meet
      the handlers that [DataService] registered, and [ReplCtx] sends their responses back.
    - [LogStore]: the example log store ([test_package/in_memory_log_store.cpp]), a map from
      indices to entries, with the dummy entry and the 64-bit arithmetic of the code.
    - [LogThreads]: the calls of [LogStore] as threads, cut where [logs_lock_] is released.
    - [StateManager]: the example state manager and state machine: files are a map from
      paths to JSON texts, and [commit] reads C strings.
    - [Lifecycle]: constructors and destructors of the factories and of [ManagerImpl], the
      worker pools, [init_messaging], the logger adapter, [mesg_state_mgr].
    - [ManagerApi]: the interface of [include/nuraft_mesg/nuraft_mesg.hpp] as the class
      [Manager], what it promises as the class [ManagerSpec], and [ManagerImpl] as an instance.
    - [Settings]: the schema of [src/lib/nuraft_mesg_config.fbs] with its defaults, and what the
      code does with the settings.
    - [Examples]: the client and the server of [test_package], on top of [Redirect],
      [Lifecycle] and [StateManager].

    ** What is shown

    - Refinement: the factories implement the contracts [transport] and [wrapper] in every
      reachable pool; identity, sharing and replacement of clients follow
      ([ClientPool]).  Any sequence of operations on the log store gives the results of the
      same operations on a list with a start index ([LogStore]), and the calls of several
      threads are linearizable: their history is one of calls on the list that happen at one
      moment each between invocation and return, as long as none removes what another is still
      to read ([LogThreads]).  Every sequence of calls of
      the public interface gives the answers of an abstract registry of groups, and clients of
      the interface are proved against the registry alone ([ManagerApi]).
    - Concurrency: in every interleaving the groups stay well-formed and the next section of
      every thread returns ([Threads]); lookups and requests of many threads never use a null client,
      wait only for locks whose holders can run, and return ([PoolThreads]); the manager's
      lock excludes, no wake-up for leadership is lost, and who waits for leadership is
      answered without a time-out once the process is elected ([Waiters]); handlers bound at
      any time are registered once no restart is under way ([BindThreads]).  That the threads
      of these files are the calls of the others when nothing interferes is a check of the
      models (for instance [Threads.alone_op], [PoolThreads.lone_lookup_is_call]).
    - Composition: a cluster operation ends with what the NuRaft server of the leader says,
      an invitation makes a process a member, and a message that reaches the wrong process
      is harmless and repairs the connection ([Cluster]).  Data requests never crash; a
      bidirectional one never uses a marked connection and recovers from failures, a
      unidirectional one does not look at the mark ([DataPath]).  A bidirectional request reaches exactly the handler bound for its group
      and name, also after restarts, and its future gets what the handler responds
      ([DataCluster]).  While a group is served, the context of its state manager points to the
      server that serves it, and requests through it carry the id of the group, if no state
      manager is given to two groups ([ReplGroups]).
    - Errors: a data request throws exactly when its destination is a member or a leader whose
      endpoint is not a UUID; otherwise it reports an unknown destination, and reports a peer
      as not found only if no connection to it can be made.  Calls for a group the process is not part of are refused, and a
      refused creation or join leaves nothing behind but a leadership flag ([Errors]).
    - Round trips: requests and responses survive the wire ([Codec]), a message goes
      from a client to the group's server and back ([RaftStep.raft_message_end_to_end]), a
      pack carries a log range to another store ([LogStore]), votes and configurations
      survive a restart ([StateManager]).
    - Equivalences: the FlatBuffers and the protobuf completion agree ([DataPath]), and so
      do [log_entries_ext] without a hint and [log_entries] ([LogStore]).  The service with
      metrics does what it does without, and counters, waiting times and group counters are
      those of its history ([Metrics]).
    - Bounds: whatever the settings, no pool runs more tasks than its threads; the counter of
      active RAFT threads is exact, and that of active I/O threads as far as an [int] goes
      ([Settings]).  A burst of [n] equal failures writes [log2 n + 1] lines ([Throttle]).
    - Invariants by induction over steps: the pools keep append-entries and install-snapshot
      messages apart from the others ([RaftStep]), groups are served by servers made for
      them ([Groups]), handlers are registered with the running server ([DataService]), a
      future gets at most one value, and gets it if the final answer comes after [future()]
      ([Redirect]); every manager that is started is well formed, and it shuts its RAFT
      servers down before its gRPC server ([Lifecycle]).
    - Functional contracts on every path: [joinRaftGroup], [leave_group], [respHandler],
      [get_peer_id], [get_raft_status].
    - Termination and its failure: the two pools answer every RPC they were given, once, after
      a bounded number of steps, and the RAFT pool its own messages without the I/O pool; without
      RAFT threads these are never answered ([RaftStep], [Settings]); one redirect suffices
      under a stable leader; mutual leader hints never end ([Redirect]); the example client
      stops at the first answer that is not "busy" if the library makes clients for a factory
      without data workers, and blocks if it makes none ([Examples]); [compact] ends for all
      indices but the largest ([LogStore]).
    - Defects, as theorems: overlapping joins lose the group's server, leadership outlives
      membership, a failed [join_group] forgets a foreign state manager, a command without
      an immediate result is submitted twice ([Groups]); a group left during a join keeps a
      server without a state manager ([Threads]); the notification of a new configuration
      can be missed, and that of a joining leader is never sent ([Waiters]); the client of a
      wrapper is assigned while a message is sent over it ([PoolThreads]); a bind during a
      restart meets a destroyed server or makes the restart throw ([BindThreads]); gauges
      never return to zero ([Metrics]); a leader
      hint without address crashes and a result that comes before [future()], such as that of an
      unreachable peer, is lost ([Redirect]); a
      moved context cursor is read past its end ([Codec]); a refused registration sticks
      ([DataService]); an unknown leader throws ([ReplCtx]); a manager whose server did not
      start crashes in its destructor ([Lifecycle]); a truncated pack is half applied, the
      last entry is read in two steps ([LogStore]); a compaction takes away what a batch read is
      still to return ([LogThreads]); failed saves lose or corrupt files
      ([StateManager]); the example server does not wait ([Examples]); a setting of 0 RAFT threads is taken
      literally ([Settings]).

    ** Parameters, bounds and fuel

    Code outside this repository is an argument: UUIDs, NuRaft's servers ([raft_ops],
    [step_ops], [raft_view]), serializers ([NuraftBytes], [LogLib]), message numbers
    ([MsgTypes]), defaults of NuRaft's classes ([NuraftDefaults]), the JSON library
    ([JsonLib]), the network ([net_env]), the gRPC clients that can be made
    ([Examples.make_client]), the application ([app_env]), the gRPC server
    ([grpc_lib]) and the delivery of generic calls ([GenericService]).  The answers of
    NuRaft's servers may depend on the history of the calls.  [ManagerApi.env_good] says of the
    surroundings of a manager that gRPC servers can be made and accept registrations, that
    the application makes state managers, and that NuRaft's servers answer.  The hypotheses are documented behaviour: printed UUIDs parse back and have
    36 characters, a hash has 64 bits, the empty string is no UUID, message numbers differ,
    a serialized log entry or JSON text is read back ([LogLibOk], [JsonLaws]).  That
    destroying a RAFT server destroys its listener is built into [Groups.join_publish];
    whether NuRaft's [shutdown()] releases the listener is a field of [app_env].  In [Cluster]
    a message reaches the process it is addressed to or none, except where a theorem says
    otherwise, and NuRaft's answers are functions of the request.  Each file has concrete
    instances for its witnesses.

    [Redirect.respHandler] has a nesting depth of 2: a handler runs inside another only for
    an error client, whose error never nests further, as the contract lemmas show.
    [Redirect.drive] counts the answers consumed; one attempt of the example client uses 2,
    which the theorem shows to be enough, and its loop ends with the list of answers it
    meets.  [PoolThreads.sections_left] bounds the sections of a thread by 5.  [LogStore.compact_fuel] is the number of indices to erase and one more, which is
    enough except for the largest index, where no fuel is.  Integers are [Z] with the wrap-around of their
    C++ width written out.

    ** Granularity of the concurrent models

    A section under a lock, or one operation on a concurrent map or atomic, is one step of
    its thread.  [Threads], [PoolThreads] and [LogThreads] let other threads run between any two sections,
    [Waiters] also between taking and releasing the manager's lock, and [BindThreads] between
    any two calls of a restart to the data service and the gRPC server.  The shared factory of
    [PoolThreads] has a lock of its own under which nothing else is locked, so a lookup in it
    is one section.  Where code touches shared data outside its lock, that access is a step of
    its own, and the theorem that two such accesses meet is among the defects; what the
    hardware makes of a data race is not modelled.

    ** Not modelled

    [pack] and [apply_pack] of the log store are single calls of [LogStore], not threads of
    [LogThreads]; [apply_pack] stores its entries one at a time and is not atomic.  The text of log messages and the version string; the parsing of command-line options; the
    loading of the settings from a file and their replacement at run time; registration of the
    metrics with the farm that collects them, and the counter [group_sends], which is
    incremented and read nowhere else.  [src/flatb/utils.hpp] is commented out, and [send_fb]
    has no implementation in the repository.  Class declarations in headers have no behaviour
    beyond the definitions of their members.  Transport, TLS and thread creation belong to the
    gRPC and sisl libraries, replication itself to NuRaft. *)

From stdpp Require Import base gmap strings list numbers sets.

Declare Scope mesg_scope.
Delimit Scope mesg_scope with mesg.
Create HintDb mesg.
Create Rewrite HintDb mesg.

(** ** Outcomes of C++ code

    A C++ call returns, throws an exception (the code modelled under a [try] block
    throws nothing but [std::runtime_error], which is what the handlers catch), or
    leaves the defined behaviour of the language: a null dereference, a failed
    [RELEASE_ASSERT] or an [abort()]. *)

Inductive outcome (A : Type) : Type :=
| Ret (a : A)
| Throw (what : string)
| Ub (what : string).
Arguments Ret {A} _.
Arguments Throw {A} _.
Arguments Ub {A} _.

(** Stateful code: the state a throwing call leaves behind is kept. *)
Definition M (S A : Type) : Type := S → outcome A * S.

#[export] Instance M_ret (S : Type) : MRet (M S) := λ A a s, (Ret a, s).
#[export] Instance M_bind (S : Type) : MBind (M S) := λ A B k m s,
  match m s with
  | (Ret a, s') => k a s'
  | (Throw e, s') => (Throw e, s')
  | (Ub e, s') => (Ub e, s')
  end.

#[export] Instance M_fmap (S : Type) : FMap (M S) := λ A B f m, m ≫= λ a, mret (f a).

Definition getS {S : Type} : M S S := λ s, (Ret s, s).
Definition gets {S A : Type} (f : S → A) : M S A := λ s, (Ret (f s), s).
Definition modify {S : Type} (f : S → S) : M S unit := λ s, (Ret tt, f s).
Definition throw {S A : Type} (what : string) : M S A := λ s, (Throw what, s).
Definition ub {S A : Type} (what : string) : M S A := λ s, (Ub what, s).

(** [try { m } catch (std::runtime_error const& e) { h(e.what()) }] *)
Definition try_catch {S A : Type} (m : M S A) (h : string → M S A) : M S A :=
  λ s, match m s with
       | (Throw e, s') => h e s'
       | r => r
       end.

(** Dereferencing a pointer: undefined behaviour when it is null. *)
Definition deref {S A : Type} (what : string) (p : option A) : M S A :=
  match p with
  | Some a => mret a
  | None => ub what
  end.

(** ** Weakest preconditions over [M] *)

Definition wp {S A : Type} (m : M S A) (Q : outcome A → S → Prop) (s : S) : Prop :=
  Q (m s).1 (m s).2.

(** ** Machine integers *)

Definition u16 (z : Z) : Z := (z mod 2 ^ 16)%Z.
Definition u32 (z : Z) : Z := (z mod 2 ^ 32)%Z.
Definition u64 (z : Z) : Z := (z mod 2 ^ 64)%Z.
Definition i32 (z : Z) : Z := ((z + 2 ^ 31) mod 2 ^ 32 - 2 ^ 31)%Z.
Definition i64 (z : Z) : Z := ((z + 2 ^ 63) mod 2 ^ 64 - 2 ^ 63)%Z.

Definition in_u32 (z : Z) : Prop := (0 ≤ z < 2 ^ 32)%Z.
Definition in_u64 (z : Z) : Prop := (0 ≤ z < 2 ^ 64)%Z.
Definition in_i32 (z : Z) : Prop := (- 2 ^ 31 ≤ z < 2 ^ 31)%Z.
Definition in_i64 (z : Z) : Prop := (- 2 ^ 63 ≤ z < 2 ^ 63)%Z.

(** ** [std::map::emplace] and [operator[]] *)

(** [emplace] leaves an existing entry alone and tells whether it inserted. *)
Definition emplace `{Countable K} {A : Type} (k : K) (a : A) (m : gmap K A)
  : gmap K A * bool :=
  match m !! k with
  | Some _ => (m, false)
  | None => (<[k:=a]> m, true)
  end.

(** [m[k]] default-inserts a missing key and yields the value. *)
Definition index_or `{Countable K} {A : Type} (d : A) (k : K) (m : gmap K A)
  : A * gmap K A :=
  match m !! k with
  | Some a => (a, m)
  | None => (d, <[k:=d]> m)
  end.

(** ** Lemmas *)

Section wp_rules.
Context {S A B : Type}.
Implicit Types (s : S).

Lemma wp_ret (a : A) Q s : Q (Ret a) s → wp (mret (M := M S) a) Q s.
Proof. done. Qed.

Lemma wp_bind (m : M S A) (k : A → M S B) Q s :
  wp m (λ o s', match o with
                | Ret a => wp (k a) Q s'
                | Throw e => Q (Throw e) s'
                | Ub e => Q (Ub e) s'
                end) s →
  wp (m ≫= k) Q s.
Proof.
  unfold wp, mbind, M_bind. by destruct (m s) as [[a|e|e] s'].
Qed.

Lemma wp_fmap (f : A → B) (m : M S A) Q s :
  wp m (λ o s', match o with
                | Ret a => Q (Ret (f a)) s'
                | Throw e => Q (Throw e) s'
                | Ub e => Q (Ub e) s'
                end) s →
  wp (f <$> m) Q s.
Proof. exact (wp_bind m (λ a, mret (f a)) Q s). Qed.

(** A run of a sequence, given the run of its first part. *)
Lemma run_bind (m : M S A) (k : A → M S B) s a s' :
  m s = (Ret a, s') → (m ≫= k) s = k a s'.
Proof. unfold mbind, M_bind. by intros ->. Qed.

Lemma bind_run (m : M S A) (k : A → M S B) s o s' :
  m s = (o, s') →
  (m ≫= k) s = match o with
               | Ret a => k a s'
               | Throw e => (Throw e, s')
               | Ub e => (Ub e, s')
               end.
Proof. unfold mbind, M_bind. intros ->. by destruct o. Qed.

Lemma run_fmap (f : A → B) (m : M S A) s a s' :
  m s = (Ret a, s') → (f <$> m) s = (Ret (f a), s').
Proof. exact (run_bind m (λ a, mret (f a)) s a s'). Qed.

Lemma wp_mono (m : M S A) (Q Q' : outcome A → S → Prop) s :
  wp m Q s → (∀ o s', Q o s' → Q' o s') → wp m Q' s.
Proof. unfold wp. auto. Qed.

Lemma wp_getS (Q : outcome S → S → Prop) s : Q (Ret s) s → wp getS Q s.
Proof. done. Qed.

Lemma wp_gets (f : S → A) Q s : Q (Ret (f s)) s → wp (gets f) Q s.
Proof. done. Qed.

Lemma wp_modify (f : S → S) Q s : Q (Ret tt) (f s) → wp (modify f) Q s.
Proof. done. Qed.

Lemma wp_throw e (Q : outcome A → S → Prop) s : Q (Throw e) s → wp (throw e) Q s.
Proof. done. Qed.

Lemma wp_ub e (Q : outcome A → S → Prop) s : Q (Ub e) s → wp (ub e) Q s.
Proof. done. Qed.

Lemma wp_try_catch (m : M S A) h Q s :
  wp m (λ o s', match o with
                | Throw e => wp (h e) Q s'
                | _ => Q o s'
                end) s →
  wp (try_catch m h) Q s.
Proof. unfold wp, try_catch. by destruct (m s) as [[a|e|e] s']. Qed.

Lemma wp_deref what (p : option A) (Q : outcome A → S → Prop) s :
  match p with Some a => Q (Ret a) s | None => Q (Ub what) s end →
  wp (deref what p) Q s.
Proof. by destruct p. Qed.

(** A [wp] fact about a run whose result is known. *)
Lemma wp_run (m : M S A) Q s o s' : wp m Q s → m s = (o, s') → Q o s'.
Proof. unfold wp. by intros HQ Hm; rewrite Hm in HQ. Qed.
End wp_rules.

(** One symbolic execution step of the goal's program. *)
Ltac wp_step :=
  lazymatch goal with
  | |- wp (_ ≫= _) _ _ => apply wp_bind
  | |- wp (_ <$> _) _ _ => apply wp_fmap
  | |- wp (mret _) _ _ => apply wp_ret
  | |- wp getS _ _ => apply wp_getS
  | |- wp (gets _) _ _ => apply wp_gets
  | |- wp (modify _) _ _ => apply wp_modify
  | |- wp (throw _) _ _ => apply wp_throw
  | |- wp (ub _) _ _ => apply wp_ub
  | |- wp (try_catch _ _) _ _ => apply wp_try_catch
  | |- wp (deref _ _) _ _ => apply wp_deref
  | |- wp (let (_, _) := ?p in _) _ _ => destruct p eqn:?
  | |- wp (match ?x with _ => _ end) _ _ => destruct x eqn:?
  end; cbn beta iota.

Ltac wp_auto := repeat first [ wp_step | progress cbn beta iota ].

Section ints.
Local Open Scope Z_scope.

Lemma u32_id z : in_u32 z → u32 z = z.
Proof. unfold in_u32, u32. intros. by apply Z.mod_small. Qed.

Lemma u64_id z : in_u64 z → u64 z = z.
Proof. unfold in_u64, u64. intros. by apply Z.mod_small. Qed.

Lemma i32_id z : in_i32 z → i32 z = z.
Proof. unfold in_i32, i32. intros. rewrite Z.mod_small; lia. Qed.

Lemma i64_id z : in_i64 z → i64 z = z.
Proof. unfold in_i64, i64. intros. rewrite Z.mod_small; lia. Qed.

Lemma u32_range z : in_u32 (u32 z).
Proof. unfold in_u32, u32. apply Z.mod_pos_bound. lia. Qed.

Lemma u64_range z : in_u64 (u64 z).
Proof. unfold in_u64, u64. apply Z.mod_pos_bound. lia. Qed.

Lemma i32_add z k : i32 (i32 z + k) = i32 (z + k).
Proof.
  unfold i32. replace ((z + 2 ^ 31) mod 2 ^ 32 - 2 ^ 31 + k + 2 ^ 31)%Z
    with ((z + 2 ^ 31) mod 2 ^ 32 + k)%Z by lia.
  rewrite Zplus_mod_idemp_l. do 2 f_equal. lia.
Qed.

Lemma i32_range z : in_i32 (i32 z).
Proof.
  unfold in_i32, i32. pose proof (Z.mod_pos_bound (z + 2 ^ 31) (2 ^ 32) ltac:(lia)). lia.
Qed.

Lemma i64_range z : in_i64 (i64 z).
Proof.
  unfold in_i64, i64. pose proof (Z.mod_pos_bound (z + 2 ^ 63) (2 ^ 64) ltac:(lia)). lia.
Qed.

(** A signed 64-bit value survives a detour through an unsigned field. *)
Lemma i64_u64 z : in_i64 z → i64 (u64 z) = z.
Proof.
  intros Hz. unfold i64, u64. rewrite Zplus_mod_idemp_l. by apply i64_id.
Qed.

(** [0 - code], in 32-bit two's complement, is an involution. *)
Lemma i32_opp_opp z : in_i32 z → i32 (0 - i32 (0 - z)) = z.
Proof.
  intros Hz. destruct (Z.eq_dec z (- 2 ^ 31)) as [->|Hne]; [vm_compute; done|].
  rewrite (i32_id (0 - z)) by (unfold in_i32 in *; lia).
  rewrite i32_id; unfold in_i32 in *; lia.
Qed.
End ints.

Section map_ops.
Context `{Countable K} {A : Type}.
Implicit Types (m : gmap K A) (k : K) (a : A).

Lemma emplace_None m k a : m !! k = None → emplace k a m = (<[k:=a]> m, true).
Proof. unfold emplace. by intros ->. Qed.

Lemma emplace_Some m k a b : m !! k = Some b → emplace k a m = (m, false).
Proof. unfold emplace. by intros ->. Qed.

Lemma emplace_lookup m k a : is_Some ((emplace k a m).1 !! k).
Proof.
  unfold emplace. destruct (m !! k) eqn:E; simpl; [by rewrite E|].
  rewrite lookup_insert_eq. eauto.
Qed.

Lemma emplace_lookup_ne m k k' a : k ≠ k' → (emplace k a m).1 !! k' = m !! k'.
Proof.
  intros Hne. unfold emplace. destruct (m !! k); simpl; [done|].
  by rewrite lookup_insert_ne.
Qed.

(** [emplace] keeps every entry. *)
Lemma emplace_old m k k' a b : m !! k' = Some b → (emplace k a m).1 !! k' = Some b.
Proof.
  intros Hb. destruct (decide (k = k')) as [<-|Hne]; [|by rewrite emplace_lookup_ne].
  unfold emplace. by rewrite Hb.
Qed.

(** Every entry after [emplace] is an old one or the new one. *)
Lemma emplace_inv m k k' a b :
  (emplace k a m).1 !! k' = Some b → m !! k' = Some b ∨ k = k' ∧ a = b.
Proof.
  unfold emplace. destruct (m !! k) eqn:E; simpl; [by left|].
  destruct (decide (k = k')) as [<-|Hne].
  - rewrite lookup_insert_eq. intros [= ->]. by right.
  - rewrite lookup_insert_ne by done. by left.
Qed.
End map_ops.

(** ** Histories *)

Section histories.
Context {St Ev : Type} (step : St → list Ev → St → Prop).

(** Runs of a step relation whose steps can be observed, with the history of what was
    observed, oldest first. *)
Inductive labelled_run (s : St) : list Ev → St → Prop :=
| run_nil : labelled_run s [] s
| run_snoc h s1 evs s2 :
    labelled_run s h s1 → step s1 evs s2 → labelled_run s (h ++ evs) s2.

Lemma run_app s h1 s1 h2 s2 :
  labelled_run s h1 s1 → labelled_run s1 h2 s2 → labelled_run s (h1 ++ h2) s2.
Proof.
  intros H1 H2. induction H2 as [|h s2 evs s3 _ IH Hs]; [by rewrite app_nil_r|].
  rewrite app_assoc. by eapply run_snoc.
Qed.
End histories.

#[export] Hint Resolve u32_range u64_range i32_range i64_range : mesg.
#[export] Hint Rewrite @lookup_insert_eq @lookup_delete_eq @insert_insert_eq : mesg.
