(* ===== verification/Types.v ===== *)
(** * Shared data types

    The types of [include/nuraft_mesg/common.hpp], the result codes, the
    plain data NuRaft hands to this library (messages, log entries, buffers,
    server configurations), and the interface of [boost::uuids], which the
    sources only call: UUIDs are an abstract countable type with a printer, a
    parser and a hash, and the laws the code relies on are a separate class. *)

From stdpp Require Import base gmap strings list numbers.
From Stdlib Require Import Strings.Byte.
From S2P Require Import Prelude.

(** ** UUIDs *)

(** [boost::uuids::uuid] with [to_string], [string_generator()] ([None] is the
    [std::runtime_error] it throws on a malformed string), [boost::hash], and
    the value-initialised UUID [peer_id_t()]. *)
Class UuidOps : Type := {
  uuid : Type;
  uuid_eq_dec :: EqDecision uuid;
  uuid_countable :: Countable uuid;
  uuid_to_string : uuid → string;
  string_generator : string → option uuid;
  uuid_hash : uuid → Z;
  uuid_nil : uuid;
}.

(** What [boost::uuids] documents: the printer's output parses back, it always
    has 36 characters, and a hash is a 64-bit [std::size_t]. *)
Class UuidLaws `{UuidOps} : Prop := {
  generator_to_string (u : uuid) : string_generator (uuid_to_string u) = Some u;
  to_string_length (u : uuid) : String.length (uuid_to_string u) = 36%nat;
  uuid_hash_range (u : uuid) : in_u64 (uuid_hash u);
}.

(** The empty string is not a UUID. *)
Class UuidNoEmpty `{UuidOps} : Prop :=
  generator_empty : string_generator EmptyString = None.

(** ** Result codes *)

(** [nuraft::cmd_result_code]: an [int] enumeration, so a cast may produce any
    32-bit value.  The enumerators are those of [src/flatb/raft_types.fbs],
    which keeps NuRaft's numbering. *)
Module code.
Definition OK : Z := 0.
Definition CANCELLED : Z := -1.
Definition TIMEOUT : Z := -2.
Definition NOT_LEADER : Z := -3.
Definition BAD_REQUEST : Z := -4.
Definition SERVER_ALREADY_EXISTS : Z := -5.
Definition CONFIG_CHANGING : Z := -6.
Definition SERVER_IS_JOINING : Z := -7.
Definition SERVER_NOT_FOUND : Z := -8.
Definition CANNOT_REMOVE_LEADER : Z := -9.
Definition SERVER_IS_LEAVING : Z := -10.
Definition TERM_MISMATCH : Z := -11.
Definition RESULT_NOT_EXIST_YET : Z := -10000.
Definition FAILED : Z := -32768.
Definition all : list Z :=
  [OK; CANCELLED; TIMEOUT; NOT_LEADER; BAD_REQUEST; SERVER_ALREADY_EXISTS;
   CONFIG_CHANGING; SERVER_IS_JOINING; SERVER_NOT_FOUND; CANNOT_REMOVE_LEADER;
   SERVER_IS_LEAVING; TERM_MISMATCH; RESULT_NOT_EXIST_YET; FAILED].
End code.

(** [ResultCode] of [src/proto/raft_types.proto], in the same order. *)
Definition proto_ResultCode : list Z :=
  [0; 1; 2; 3; 4; 5; 6; 7; 8; 9; 10; 11; 10000; 32768]%Z.

(** [folly::Expected< T, nuraft::cmd_result_code >] *)
Inductive Result (T : Type) : Type :=
| Value (t : T)
| Unexpected (c : Z).
Arguments Value {T} _.
Arguments Unexpected {T} _.

Abbreviation NullResult := (Result unit).

(** A result code as a result: [OK] is the unit value. *)
Definition code_result (c : Z) : NullResult :=
  if decide (c = code.OK) then Value tt else Unexpected c.

(** ** gRPC status *)

Inductive StatusCode :=
| ST_OK | ST_CANCELLED | ST_UNKNOWN | ST_INVALID_ARGUMENT | ST_DEADLINE_EXCEEDED
| ST_NOT_FOUND | ST_ALREADY_EXISTS | ST_PERMISSION_DENIED | ST_RESOURCE_EXHAUSTED
| ST_FAILED_PRECONDITION | ST_ABORTED | ST_OUT_OF_RANGE | ST_UNIMPLEMENTED
| ST_INTERNAL | ST_UNAVAILABLE | ST_DATA_LOSS | ST_UNAUTHENTICATED.

Record Status := mkStatus { error_code : StatusCode; error_message : string }.

Definition status_ok : Status := mkStatus ST_OK EmptyString.
Definition is_ok (s : Status) : bool :=
  match error_code s with ST_OK => true | _ => false end.

(** ** NuRaft's message types

    Only the enumerators the sources name; their numbers belong to NuRaft. *)
Class MsgTypes : Type := {
  append_entries_request : Z;
  install_snapshot_request : Z;
  join_cluster_request : Z;
  client_request : Z;
  add_server_request : Z;
  remove_server_request : Z;
  app_log : Z;
  cluster_server : Z;
}.

Class MsgTypesOk `{MsgTypes} : Prop := {
  msg_types_distinct :
    NoDup [append_entries_request; install_snapshot_request; join_cluster_request;
           client_request; add_server_request; remove_server_request];
  msg_types_range :
    Forall in_u32 [append_entries_request; install_snapshot_request; join_cluster_request;
                   client_request; add_server_request; remove_server_request];
  log_types_range : Forall in_i32 [app_log; cluster_server];
}.

(** ** NuRaft's data *)

(** [nuraft::buffer]: contents and cursor.  [data()] points at the cursor,
    [size()] is the size of the whole buffer. *)
Record buffer := mkBuffer { buf_bytes : list byte; buf_pos : nat }.

Definition buf_alloc (bs : list byte) : buffer := mkBuffer bs 0.
Definition buf_size (b : buffer) : nat := length (buf_bytes b).
Definition buf_rewind (b : buffer) : buffer := mkBuffer (buf_bytes b) 0.

(** Reading [n] bytes from [data()]; [None] runs past the allocation. *)
Definition buf_read (b : buffer) (n : nat) : option (list byte) :=
  if decide (buf_pos b + n ≤ buf_size b) then Some (take n (drop (buf_pos b) (buf_bytes b)))
  else None.

Record log_entry := mkEntry {
  le_term : Z;
  le_buf : buffer;
  le_val_type : Z;
  le_timestamp : Z;
}.

Record req_msg := mkReq {
  rq_term : Z;
  rq_type : Z;
  rq_src : Z;
  rq_dst : Z;
  rq_last_log_term : Z;
  rq_last_log_idx : Z;
  rq_commit_idx : Z;
  rq_log_entries : list log_entry;
}.

Record resp_msg := mkResp {
  rs_term : Z;
  rs_type : Z;
  rs_src : Z;
  rs_dst : Z;
  rs_next_idx : Z;
  rs_accepted : bool;
  rs_ctx : option buffer;
  rs_batch_hint : Z;
  rs_result_code : Z;
}.

Record srv_config := mkSrvConfig {
  sc_id : Z;
  sc_dc_id : Z;
  sc_endpoint : string;
  sc_aux : string;
  sc_learner : bool;
  sc_priority : Z;
  sc_new_joiner : bool;
}.

(** ** Operations on UUIDs *)

Section uuid_ops.
Context `{UuidOps}.

(** [uuid_hasher(server_addr) >> 33], returned as an [int32_t]. *)
Definition to_server_id (server_addr : uuid) : Z :=
  i32 (Z.shiftr (uuid_hash server_addr) 33).

(** The name one group's data-service method is registered under. *)
Definition get_generic_method_name (request_name : string) (group_id : uuid) : string :=
  request_name +:+ "|" +:+ uuid_to_string group_id.
End uuid_ops.

(** ** Lemmas *)

Lemma string_app_length (a b : string) :
  String.length (a +:+ b) = (String.length a + String.length b)%nat.
Proof. induction a as [|c a IH]; simpl; [done|by rewrite IH]. Qed.

Lemma string_app_assoc (a b c : string) : a +:+ (b +:+ c) = (a +:+ b) +:+ c.
Proof. induction a as [|x a IH]; [done|exact (f_equal (String x) IH)]. Qed.

Lemma string_app_inj_len (a b x y : string) :
  String.length x = String.length y → a +:+ x = b +:+ y → a = b ∧ x = y.
Proof.
  intros Hlen. revert b. induction a as [|c a IH]; intros [|d b] Heq; [done|..].
  - apply (f_equal String.length) in Heq. rewrite !string_app_length in Heq. simpl in Heq. lia.
  - apply (f_equal String.length) in Heq. rewrite !string_app_length in Heq. simpl in Heq. lia.
  - injection Heq as -> Heq. destruct (IH b Heq) as [-> ->]. done.
Qed.

Lemma string_app_inj_l (a b x y : string) :
  String.length a = String.length b → a +:+ x = b +:+ y → a = b ∧ x = y.
Proof.
  revert b. induction a as [|c a IH]; intros [|d b] Hlen Heq; simpl in *; [done..|].
  injection Hlen as Hlen. injection Heq as -> Heq. by destruct (IH b Hlen Heq) as [-> ->].
Qed.

Lemma buf_read_alloc bs : buf_read (buf_alloc bs) (length bs) = Some bs.
Proof.
  unfold buf_read, buf_size. simpl. rewrite decide_True by lia.
  by rewrite drop_0, take_ge by lia.
Qed.

Lemma buf_read_rewind b :
  buf_read (buf_rewind b) (buf_size (buf_rewind b)) = Some (buf_bytes b).
Proof. apply (buf_read_alloc (buf_bytes b)). Qed.

Section uuid_lemmas.
Context `{UuidOps} `{!UuidLaws}.

Lemma uuid_to_string_inj (u v : uuid) : uuid_to_string u = uuid_to_string v → u = v.
Proof.
  intros E. apply (f_equal string_generator) in E.
  rewrite !generator_to_string in E. congruence.
Qed.

(** Server ids are 31-bit, so they never collide with the negative ids that
    stand for an unknown leader. *)
Lemma to_server_id_nonneg (u : uuid) : (0 ≤ to_server_id u < 2 ^ 31)%Z.
Proof.
  unfold to_server_id. pose proof (uuid_hash_range u) as [Hlo Hhi].
  rewrite Z.shiftr_div_pow2 by lia.
  assert (0 ≤ uuid_hash u / 2 ^ 33 < 2 ^ 31)%Z as Hr.
  { split; [apply Z.div_pos; lia|]. apply Z.div_lt_upper_bound; [lia|].
    change (2 ^ 33 * 2 ^ 31)%Z with (2 ^ 64)%Z. done. }
  rewrite i32_id; [done|]. unfold in_i32. lia.
Qed.

Lemma method_name_inj (n1 n2 : string) (g1 g2 : uuid) :
  get_generic_method_name n1 g1 = get_generic_method_name n2 g2 → n1 = n2 ∧ g1 = g2.
Proof.
  unfold get_generic_method_name. intros E.
  apply string_app_inj_len in E as [-> E].
  - injection E as E. split; [done|by apply uuid_to_string_inj].
  - by rewrite !string_app_length, !to_string_length.
Qed.
End uuid_lemmas.

(** ** A concrete instance

    Three UUIDs with their canonical strings: the laws above can hold. *)
Module Demo.
Inductive demo_uuid := U0 | U1 | U2.

#[export] Instance demo_uuid_eq_dec : EqDecision demo_uuid.
Proof. solve_decision. Defined.

#[export] Instance demo_uuid_countable : Countable demo_uuid.
Proof.
  refine (inj_countable' (λ u, match u with U0 => 0 | U1 => 1 | U2 => 2 end)
            (λ n, match n with 0 => U0 | 1 => U1 | _ => U2 end) _).
  by intros [].
Defined.

Definition demo_to_string (u : demo_uuid) : string :=
  match u with
  | U0 => "00000000-0000-0000-0000-000000000000"
  | U1 => "11111111-1111-1111-1111-111111111111"
  | U2 => "22222222-2222-2222-2222-222222222222"
  end%string.

Definition demo_generator (s : string) : option demo_uuid :=
  if String.eqb s (demo_to_string U0) then Some U0
  else if String.eqb s (demo_to_string U1) then Some U1
  else if String.eqb s (demo_to_string U2) then Some U2
  else None.

Definition demo_hash (u : demo_uuid) : Z :=
  match u with U0 => 0 | U1 => 2 ^ 40 | U2 => 2 ^ 64 - 1 end%Z.

#[export] Instance demo_uuid_ops : UuidOps := {|
  uuid := demo_uuid;
  uuid_to_string := demo_to_string;
  string_generator := demo_generator;
  uuid_hash := demo_hash;
  uuid_nil := U0;
|}.

#[export] Instance demo_uuid_laws : UuidLaws.
Proof. split; intros []; by vm_compute. Qed.

#[export] Instance demo_uuid_no_empty : UuidNoEmpty.
Proof. done. Qed.

(** Distinct numbers for the message types. *)
#[export] Instance demo_msg_types : MsgTypes := {|
  append_entries_request := 3; install_snapshot_request := 16; join_cluster_request := 12;
  client_request := 5; add_server_request := 6; remove_server_request := 8;
  app_log := 1; cluster_server := 3;
|}.

#[export] Instance demo_msg_types_ok : MsgTypesOk.
Proof.
  split; simpl.
  - apply (bool_decide_unpack _). by vm_compute.
  - repeat constructor; done.
  - repeat constructor; done.
Qed.
End Demo.
