(* ===== verification/Codec.v ===== *)
(** * Wire translation

    Translation between NuRaft's messages and the protobuf messages
    ([src/proto/utils.hpp], [src/proto/proto_service.cpp],
    [src/proto/proto_mesg_factory.cpp]) and the FlatBuffers tables
    ([src/flatb/flatb_client.cpp]).  The generated classes are plain data:
    records with the fields of the [.proto] and [.fbs] schemas, where reading an
    unset protobuf submessage yields its default instance. *)

From stdpp Require Import base strings list numbers.
From Stdlib Require Import Strings.Byte.
From S2P Require Import Prelude Types.

(** ** Protobuf messages *)

Record RCMsgBase := mkBase { b_term : Z; b_type : Z; b_src : Z; b_dest : Z }.

Record LogEntry := mkLogEntry {
  l_term : Z;
  l_type : Z;
  l_buffer : list byte;
  l_timestamp : Z;
}.

Record RCRequest := mkRCRequest {
  q_last_log_term : Z;
  q_last_log_index : Z;
  q_commit_index : Z;
  q_log_entries : list LogEntry;
}.

Record RCResponse := mkRCResponse {
  p_next_index : Z;
  p_accepted : bool;
  p_context : list byte;
  p_dest_addr : string;
  p_result_code : Z;
  p_batch_size_hint : Z;
}.

Inductive req_resp :=
| NotSet
| RcRequest (r : RCRequest)
| RcResponse (r : RCResponse).

Record RaftMessage := mkRaftMessage { m_base : option RCMsgBase; m_req_resp : req_resp }.

Record RaftGroupMsg := mkRaftGroupMsg {
  g_group_id : string;
  g_msg : RaftMessage;
  g_intended_addr : string;
  g_group_type : string;
}.

Definition default_base : RCMsgBase := mkBase 0 0 0 0.
Definition default_request : RCRequest := mkRCRequest 0 0 0 [].
Definition default_message : RaftMessage := mkRaftMessage None NotSet.

Definition msg_base_of (m : RaftMessage) : RCMsgBase := default default_base (m_base m).

Definition rc_request_of (m : RaftMessage) : RCRequest :=
  match m_req_resp m with RcRequest r => r | _ => default_request end.

Definition has_rc_request (m : RaftMessage) : bool :=
  match m_req_resp m with RcRequest _ => true | _ => false end.

(** [grpc_resp]: a response that remembers the address of the new leader. *)
Record grpc_resp := mkGrpcResp { gr_resp : resp_msg; gr_dest_addr : string }.

(** ** NuRaft to protobuf *)

(** The header of a request or of a response. *)
Definition fromBaseRequest (term type src dst : Z) : RCMsgBase :=
  mkBase term (u32 type) src dst.

(** Rewinds the entry's (shared) buffer, then copies all of it: the rewound
    entry is returned next to the wire entry. *)
Definition fromLogEntry (entry : log_entry) : option (LogEntry * log_entry) :=
  let buf := buf_rewind (le_buf entry) in
  data ← buf_read buf (buf_size buf);
  Some (mkLogEntry (le_term entry) (i32 (le_val_type entry)) data (le_timestamp entry),
        mkEntry (le_term entry) buf (le_val_type entry) (le_timestamp entry)).

Definition fromRCRequest (rcmsg : req_msg) : option (RCRequest * req_msg) :=
  es ← mapM fromLogEntry (rq_log_entries rcmsg);
  Some (mkRCRequest (rq_last_log_term rcmsg) (rq_last_log_idx rcmsg) (rq_commit_idx rcmsg)
          (fst <$> es),
        mkReq (rq_term rcmsg) (rq_type rcmsg) (rq_src rcmsg) (rq_dst rcmsg)
          (rq_last_log_term rcmsg) (rq_last_log_idx rcmsg) (rq_commit_idx rcmsg)
          (snd <$> es)).

(** The message [grpc_base_client::send] builds, with the request as the
    conversion leaves it. *)
Definition request_message (req : req_msg) : option (RaftMessage * req_msg) :=
  '(rc, req') ← fromRCRequest req;
  Some (mkRaftMessage
          (Some (fromBaseRequest (rq_term req) (rq_type req) (rq_src req) (rq_dst req)))
          (RcRequest rc),
        req').

(** [None] when copying the context reads past its buffer: unlike
    [fromLogEntry], this one does not rewind first. *)
Definition fromRCResponse (rcmsg : resp_msg) : option RCResponse :=
  context ← match rs_ctx rcmsg with
            | Some ctx => buf_read ctx (buf_size ctx)
            | None => Some []
            end;
  Some {| p_next_index := rs_next_idx rcmsg;
          p_accepted := rs_accepted rcmsg;
          p_context := context;
          p_dest_addr := EmptyString;
          p_result_code := i32 (0 - rs_result_code rcmsg);
          p_batch_size_hint := u64 (rs_batch_hint rcmsg) |}.

(** ** Protobuf to NuRaft *)

Definition toLogEntry (log : LogEntry) : log_entry :=
  mkEntry (l_term log) (buf_alloc (l_buffer log)) (l_type log) (l_timestamp log).

(** [None] is the failed [assert(raft_msg.has_rc_request())] of a debug build;
    with [NDEBUG] the default request is read instead. *)
Definition toRequest (ndebug : bool) (raft_msg : RaftMessage) : option req_msg :=
  if negb ndebug && negb (has_rc_request raft_msg) then None
  else
    let base := msg_base_of raft_msg in
    let req := rc_request_of raft_msg in
    Some (mkReq (b_term base) (b_type base) (b_src base) (b_dest base)
            (q_last_log_term req) (q_last_log_index req) (q_commit_index req)
            (toLogEntry <$> q_log_entries req)).

(** [None] is the null pointer returned for a message without a response. *)
Definition toResponse (raft_msg : RaftMessage) : option grpc_resp :=
  match m_req_resp raft_msg with
  | RcResponse resp =>
      let base := msg_base_of raft_msg in
      let rc := i32 (0 - p_result_code resp) in
      let ctx := if decide (0 < length (p_context resp))%nat
                 then Some (buf_alloc (p_context resp)) else None in
      Some (mkGrpcResp
              (mkResp (b_term base) (b_type base) (b_src base) (b_dest base)
                 (p_next_index resp) (p_accepted resp) ctx
                 (i64 (p_batch_size_hint resp)) rc)
              (if decide (rc = code.NOT_LEADER) then p_dest_addr resp else EmptyString))
  | _ => None
  end.

(** ** FlatBuffers *)

Record FbLogEntry := mkFbLogEntry {
  fl_term : Z;
  fl_type : Z;
  fl_buffer : list byte;
  fl_timestamp : Z;
}.

Record FbRequest := mkFbRequest {
  fq_base : RCMsgBase;
  fq_last_log_term : Z;
  fq_last_log_index : Z;
  fq_commit_index : Z;
  fq_logs : list FbLogEntry;
}.

(** Fields of reference type are null when the sender left them out. *)
Record FbResponse := mkFbResponse {
  fp_base : option RCMsgBase;
  fp_next_index : Z;
  fp_accepted : bool;
  fp_dest_addr : option string;
  fp_result_code : Z;
  fp_context : option (list byte);
}.

Definition i16 (z : Z) : Z := ((z + 2 ^ 15) mod 2 ^ 16 - 2 ^ 15)%Z.

Definition fb_fromLogEntry (entry : log_entry) : option FbLogEntry :=
  let buf := buf_rewind (le_buf entry) in
  data ← buf_read buf (buf_size buf);
  Some (mkFbLogEntry (i64 (le_term entry)) (i16 (le_val_type entry)) data (le_timestamp entry)).

Definition fb_fromRequest (rcmsg : req_msg) : option FbRequest :=
  es ← mapM fb_fromLogEntry (rq_log_entries rcmsg);
  Some (mkFbRequest
          (mkBase (rq_term rcmsg) (u32 (rq_type rcmsg)) (rq_src rcmsg) (rq_dst rcmsg))
          (rq_last_log_term rcmsg) (rq_last_log_idx rcmsg) (rq_commit_idx rcmsg) es).

(** The code is not negated here: the [.fbs] enumeration is NuRaft's. *)
Definition fb_toResponse (resp : FbResponse) : outcome grpc_resp :=
  match fp_base resp with
  | None => Ub "null msg_base"
  | Some base =>
      let rc := fp_result_code resp in
      match (if decide (rc = code.NOT_LEADER) then fp_dest_addr resp else Some EmptyString) with
      | None => Ub "null dest_addr"
      | Some addr =>
          match fp_context resp with
          | None => Ub "null context"
          | Some context =>
              let ctx := if decide (0 < length context)%nat
                         then Some (buf_alloc context) else None in
              Ret (mkGrpcResp
                     (mkResp (b_term base) (b_type base) (b_src base) (b_dest base)
                        (fp_next_index resp) (fp_accepted resp) ctx 0 rc) addr)
          end
      end
  end.

(** ** Well-formed NuRaft messages: every field in the range of its C++ type *)

Definition wf_entry (e : log_entry) : Prop :=
  in_u64 (le_term e) ∧ in_i32 (le_val_type e) ∧ in_u64 (le_timestamp e).

Definition wf_req (r : req_msg) : Prop :=
  in_u64 (rq_term r) ∧ in_u32 (rq_type r) ∧ in_i32 (rq_src r) ∧ in_i32 (rq_dst r) ∧
  in_u64 (rq_last_log_term r) ∧ in_u64 (rq_last_log_idx r) ∧ in_u64 (rq_commit_idx r) ∧
  Forall wf_entry (rq_log_entries r).

Definition wf_resp (r : resp_msg) : Prop :=
  in_u64 (rs_term r) ∧ in_u32 (rs_type r) ∧ in_i32 (rs_src r) ∧ in_i32 (rs_dst r) ∧
  in_u64 (rs_next_idx r) ∧ in_i64 (rs_batch_hint r) ∧ in_i32 (rs_result_code r).

(** The request with every entry's cursor at the start of its buffer. *)
Definition rewind_entry (e : log_entry) : log_entry :=
  mkEntry (le_term e) (buf_rewind (le_buf e)) (le_val_type e) (le_timestamp e).

Definition rewind_req (r : req_msg) : req_msg :=
  mkReq (rq_term r) (rq_type r) (rq_src r) (rq_dst r) (rq_last_log_term r)
    (rq_last_log_idx r) (rq_commit_idx r) (rewind_entry <$> rq_log_entries r).

(** A context as the receiver sees it: an empty one is dropped. *)
Definition norm_ctx (c : option buffer) : option buffer :=
  match c with
  | Some b => if decide (0 < buf_size b)%nat then Some (buf_rewind b) else None
  | None => None
  end.

Definition norm_resp (r : resp_msg) : resp_msg :=
  mkResp (rs_term r) (rs_type r) (rs_src r) (rs_dst r) (rs_next_idx r) (rs_accepted r)
    (norm_ctx (rs_ctx r)) (rs_batch_hint r) (rs_result_code r).

(** ** Lemmas *)

Lemma fromLogEntry_total e :
  fromLogEntry e =
  Some (mkLogEntry (le_term e) (i32 (le_val_type e)) (buf_bytes (le_buf e)) (le_timestamp e),
        rewind_entry e).
Proof. unfold fromLogEntry. by rewrite buf_read_rewind. Qed.

Lemma mapM_fromLogEntry es :
  mapM fromLogEntry es =
  Some ((λ e, (mkLogEntry (le_term e) (i32 (le_val_type e)) (buf_bytes (le_buf e))
                 (le_timestamp e), rewind_entry e)) <$> es).
Proof. induction es as [|e es IH]; [done|].
  cbn [mapM]. by rewrite fromLogEntry_total, IH. Qed.

(** The conversion never fails, and only moves the entries' cursors. *)
Lemma fromRCRequest_total r :
  ∃ rc, fromRCRequest r = Some (rc, rewind_req r) ∧
        q_last_log_term rc = rq_last_log_term r ∧
        q_last_log_index rc = rq_last_log_idx r ∧
        q_commit_index rc = rq_commit_idx r ∧
        q_log_entries rc =
          (λ e, mkLogEntry (le_term e) (i32 (le_val_type e)) (buf_bytes (le_buf e))
                  (le_timestamp e)) <$> rq_log_entries r.
Proof.
  unfold fromRCRequest. rewrite mapM_fromLogEntry. simpl.
  rewrite <-!list_fmap_compose. by eexists.
Qed.

Lemma toLogEntry_rewind e :
  wf_entry e →
  toLogEntry (mkLogEntry (le_term e) (i32 (le_val_type e)) (buf_bytes (le_buf e))
                (le_timestamp e)) = rewind_entry e.
Proof. intros (_ & Ht & _). unfold toLogEntry; simpl. by rewrite i32_id. Qed.

Lemma fromRCResponse_ctx r :
  (∀ b, rs_ctx r = Some b → buf_pos b = 0%nat) →
  ∃ p, fromRCResponse r = Some p ∧
       p_context p = match rs_ctx r with Some b => buf_bytes b | None => [] end.
Proof.
  intros Hpos. unfold fromRCResponse.
  destruct (rs_ctx r) as [b|] eqn:E; simpl; [|by eexists].
  specialize (Hpos b eq_refl). destruct b as [bs pos]; simpl in *; subst pos.
  pose proof (buf_read_alloc bs) as Hb. unfold buf_alloc in Hb.
  change (buf_size (mkBuffer bs 0)) with (length bs). rewrite Hb. by eexists.
Qed.

(** Decoding the message built from an encoded request. *)
Lemma decode_encoded ndebug r rc :
  wf_req r → fromRCRequest r = Some (rc, rewind_req r) →
  toRequest ndebug (mkRaftMessage
    (Some (fromBaseRequest (rq_term r) (rq_type r) (rq_src r) (rq_dst r))) (RcRequest rc))
  = Some (rewind_req r).
Proof.
  intros (_ & Htype & _ & _ & _ & _ & _ & Hes) Hrc.
  destruct (fromRCRequest_total r) as (rc' & Hrc' & H1 & H2 & H3 & H4).
  rewrite Hrc in Hrc'. injection Hrc' as <-.
  unfold toRequest, rc_request_of, has_rc_request. simpl. rewrite andb_false_r. f_equal.
  unfold rewind_req. rewrite H1, H2, H3, H4, (u32_id _ Htype), <-list_fmap_compose. f_equal.
  apply list_fmap_ext. intros i e He. apply toLogEntry_rewind. by eapply Forall_lookup_1.
Qed.

(** Decoding the message built from an encoded response. *)
Lemma decode_response (r : resp_msg) (p : RCResponse) (addr : string) :
  wf_resp r →
  (∀ b, rs_ctx r = Some b → buf_pos b = 0%nat) →
  fromRCResponse r = Some p →
  toResponse (mkRaftMessage
                (Some (fromBaseRequest (rs_term r) (rs_type r) (rs_src r) (rs_dst r)))
                (RcResponse (mkRCResponse (p_next_index p) (p_accepted p) (p_context p) addr
                               (p_result_code p) (p_batch_size_hint p))))
  = Some (mkGrpcResp (norm_resp r)
            (if decide (rs_result_code r = code.NOT_LEADER) then addr else EmptyString)).
Proof.
  intros (_ & Htype & _ & _ & _ & Hhint & Hcode) Hpos Hp.
  destruct (fromRCResponse_ctx r Hpos) as (p' & Hp' & Hctx).
  rewrite Hp in Hp'. injection Hp' as <-. revert Hctx.
  unfold fromRCResponse in Hp.
  destruct (match rs_ctx r with Some ctx => buf_read ctx (buf_size ctx) | None => Some [] end)
    as [c|]; [|done]. injection Hp as <-. simpl. intros ->.
  unfold toResponse. simpl. rewrite i32_opp_opp, i64_u64, (u32_id _ Htype) by done.
  f_equal. f_equal. unfold norm_resp, norm_ctx. f_equal.
  destruct (rs_ctx r) as [[bs pos]|]; done.
Qed.

(** ** Properties *)

(** C39: A request survives the trip: what the server decodes from the message a
    client encoded is the client's request with rewound entry buffers, in debug
    and in release builds. *)
Theorem request_roundtrip (ndebug : bool) (r : req_msg) :
  wf_req r →
  ∃ m, request_message r = Some (m, rewind_req r) ∧ toRequest ndebug m = Some (rewind_req r).
Proof.
  intros Hwf. destruct (fromRCRequest_total r) as (rc & Hrc & _).
  eexists. unfold request_message. rewrite Hrc. split; [done|]. by apply decode_encoded.
Qed.

Lemma request_roundtrip_witness :
  ∃ m, request_message (mkReq 7 3 1 2 5 6 4 [mkEntry 7 (mkBuffer [x01; x02] 1) 1 9])
       = Some (m, mkReq 7 3 1 2 5 6 4 [mkEntry 7 (mkBuffer [x01; x02] 0) 1 9]) ∧
       toRequest false m = Some (mkReq 7 3 1 2 5 6 4 [mkEntry 7 (mkBuffer [x01; x02] 0) 1 9]).
Proof.
  apply (request_roundtrip false
           (mkReq 7 3 1 2 5 6 4 [mkEntry 7 (mkBuffer [x01; x02] 1) 1 9])).
  unfold wf_req, wf_entry, in_u64, in_u32, in_i32; simpl.
  repeat split; try lia. repeat constructor; simpl; lia.
Defined.

(** C38: A response survives the trip: whatever context-cursor-at-start response a
    server encodes, the client decodes the same response (an empty context
    becomes no context; a negative batch hint and every result code survive the
    unsigned and negated wire fields), and the redirect address is kept exactly
    for [NOT_LEADER]. *)
Theorem response_roundtrip (r : resp_msg) (p : RCResponse) (addr : string) :
  wf_resp r →
  (∀ b, rs_ctx r = Some b → buf_pos b = 0%nat) →
  fromRCResponse r = Some p →
  toResponse (mkRaftMessage
                (Some (fromBaseRequest (rs_term r) (rs_type r) (rs_src r) (rs_dst r)))
                (RcResponse (mkRCResponse (p_next_index p) (p_accepted p) (p_context p) addr
                               (p_result_code p) (p_batch_size_hint p))))
  = Some (mkGrpcResp (norm_resp r)
            (if decide (rs_result_code r = code.NOT_LEADER) then addr else EmptyString)).
Proof. apply decode_response. Qed.

Lemma response_roundtrip_witness :
  toResponse (mkRaftMessage (Some (fromBaseRequest 7 4 2 1))
                (RcResponse (mkRCResponse 5 false [x0a] "addr" 3 (2 ^ 64 - 1))))
  = Some (mkGrpcResp (mkResp 7 4 2 1 5 false (Some (mkBuffer [x0a] 0)) (-1) code.NOT_LEADER)
            "addr").
Proof.
  refine (response_roundtrip
            (mkResp 7 4 2 1 5 false (Some (mkBuffer [x0a] 0)) (-1) code.NOT_LEADER)
            (mkRCResponse 5 false [x0a] EmptyString 3 (2 ^ 64 - 1)) "addr" _ _ _).
  - unfold wf_resp, in_u64, in_u32, in_i32, in_i64; simpl. unfold code.NOT_LEADER. lia.
  - intros b Hb. by injection Hb as <-.
  - vm_compute. done.
Defined.

(** A response whose context cursor is not at the start cannot be encoded
    within bounds: the copy runs past the end of the context buffer. *)
Theorem response_context_overread (r : resp_msg) (b : buffer) :
  rs_ctx r = Some b → (0 < buf_pos b)%nat → fromRCResponse r = None.
Proof.
  intros Hctx Hpos. unfold fromRCResponse. rewrite Hctx.
  unfold buf_read. rewrite decide_False by lia. done.
Qed.

Lemma response_context_overread_witness :
  fromRCResponse (mkResp 7 4 2 1 5 true (Some (mkBuffer [x0a; x0b] 2)) 0 0) = None.
Proof.
  apply (response_context_overread _ (mkBuffer [x0a; x0b] 2)); [reflexivity|simpl; lia].
Defined.

(** The negation used on the wire maps NuRaft's result codes onto the
    [ResultCode] enumeration of the [.proto] schema, one by one, and back. *)
Theorem result_codes_agree :
  ((λ c, i32 (0 - c)) <$> code.all) = proto_ResultCode ∧
  ((λ c, i32 (0 - c)) <$> proto_ResultCode) = code.all.
Proof. split; reflexivity. Qed.

(** The FlatBuffers and the protobuf decoders agree on the same response: with
    every reference field present, the FlatBuffers decoder returns what the
    protobuf decoder returns for the response with the negated code and no batch
    hint. *)
Theorem flatb_proto_agree (base : RCMsgBase) (next : Z) (accepted : bool) (addr : string)
    (rc : Z) (context : list byte) :
  in_i32 rc →
  fb_toResponse (mkFbResponse (Some base) next accepted (Some addr) rc (Some context)) =
  match toResponse (mkRaftMessage (Some base)
           (RcResponse (mkRCResponse next accepted context addr (i32 (0 - rc)) 0))) with
  | Some g => Ret g
  | None => Ub "missing response"
  end.
Proof.
  intros Hrc. unfold toResponse, fb_toResponse. simpl. rewrite i32_opp_opp by done.
  by destruct (decide (rc = code.NOT_LEADER)).
Qed.

Lemma flatb_proto_agree_witness :
  fb_toResponse (mkFbResponse (Some (mkBase 1 4 2 3)) 9 true (Some "x") code.OK (Some []))
  = Ret (mkGrpcResp (mkResp 1 4 2 3 9 true None 0 code.OK) EmptyString).
Proof.
  rewrite (flatb_proto_agree (mkBase 1 4 2 3) 9 true "x" code.OK []);
    [reflexivity|unfold in_i32, code.OK; lia].
Defined.
