(* ===== verification/Throttle.v ===== *)
(** * Status conversion and throttled error logging

    [grpc_status_to_nuraft_code], [is_powerof2] and [log_every_nth] of
    [src/proto/proto_mesg_factory.cpp]. *)

From stdpp Require Import base gmap strings list numbers.
From S2P Require Import Prelude Types.

(** The NuRaft result code a failed data-service call completes with. *)
Definition grpc_status_to_nuraft_code (s : Status) : Z :=
  if is_ok s then code.OK
  else match error_code s with
       | ST_DEADLINE_EXCEEDED => code.TIMEOUT
       | ST_UNAVAILABLE | ST_NOT_FOUND => code.SERVER_NOT_FOUND
       | ST_CANCELLED | ST_ABORTED => code.CANCELLED
       | ST_FAILED_PRECONDITION => code.TERM_MISMATCH
       | ST_ALREADY_EXISTS => code.SERVER_ALREADY_EXISTS
       | ST_INVALID_ARGUMENT | ST_UNIMPLEMENTED | ST_UNAUTHENTICATED
       | ST_PERMISSION_DENIED | ST_RESOURCE_EXHAUSTED | ST_OUT_OF_RANGE => code.BAD_REQUEST
       | _ => code.FAILED
       end.

(** [v && ((v & (v - 1)) == 0)] on a [uint64_t]. *)
Definition is_powerof2 (v : Z) : bool :=
  negb (v =? 0)%Z && (Z.land v (u64 (v - 1)) =? 0)%Z.

Definition every_nth_sec : Z := 60.

Section throttle.
(** [get_elapsed_time_sec(since)], read at time [now]. *)
Context (get_elapsed_time_sec : Z → Z → Z).

(** The thread-local map: per message, how many failures since when. *)
Abbreviation t_errors_t := (gmap string (Z * Z)).

(** Returns the failure count when an error line is written. *)
Definition log_every_nth (now : Z) (addr : string) (status : Status) (t_errors : t_errors_t)
  : option Z * t_errors_t :=
  let msg := addr +:+ "-" +:+ error_message status in
  let '(failed_count, t_errors') :=
    match t_errors !! msg with
    | Some (n, since) =>
        if decide (get_elapsed_time_sec since now > every_nth_sec)%Z
        then (1%Z, <[msg := (1%Z, now)]> t_errors)
        else let n' := u64 (n + 1) in (n', <[msg := (n', since)]> t_errors)
    | None => (1%Z, <[msg := (1%Z, now)]> t_errors)
    end in
  (if is_powerof2 failed_count then Some failed_count else None, t_errors').

(** A burst of the same failure at the given times: the counts it logs. *)
Fixpoint log_burst (times : list Z) (addr : string) (status : Status) (t_errors : t_errors_t)
  : list Z * t_errors_t :=
  match times with
  | [] => ([], t_errors)
  | now :: rest =>
      let '(logged, t1) := log_every_nth now addr status t_errors in
      let '(more, t2) := log_burst rest addr status t1 in
      (option_list logged ++ more, t2)
  end.
End throttle.

(** ** Lemmas *)

Section pow2.
Local Open Scope Z_scope.

Lemma log2_pred_same (v k : Z) : (0 <= k)%Z → 2 ^ k < v → v < 2 ^ (k + 1) → Z.testbit (v - 1) k = true.
Proof.
  intros Hk Hlo Hhi. assert (0 < 2 ^ k) by (apply Z.pow_pos_nonneg; lia).
  assert (Z.log2 (v - 1) = k) as Hl.
  { apply Z.log2_unique; [done|]. rewrite <-Z.add_1_r. lia. }
  rewrite <-Hl. apply Z.bit_log2. lia.
Qed.

Lemma is_powerof2_spec v : in_u64 v → is_powerof2 v = true ↔ ∃ k, 0 <= k < 64 ∧ v = 2 ^ k.
Proof.
  intros [H0 H64]. unfold is_powerof2.
  destruct (Z.eqb_spec v 0) as [->|Hne]; simpl.
  { split; [done|]. intros (k & Hk & E). assert (0 < 2 ^ k) by (apply Z.pow_pos_nonneg; lia). lia. }
  rewrite u64_id by (unfold in_u64; lia). rewrite Z.eqb_eq.
  destruct (Z.log2_spec v ltac:(lia)) as [Hlo Hhi].
  pose proof (Z.log2_nonneg v) as Hk.
  assert (Z.log2 v < 64) as Hk64 by (apply Z.log2_lt_pow2; lia).
  rewrite <-Z.add_1_r in Hhi. split.
  - intros Hland. exists (Z.log2 v). split; [lia|].
    destruct (Z.eq_dec v (2 ^ Z.log2 v)) as [|Hgt]; [done|].
    exfalso. apply (f_equal (λ z, Z.testbit z (Z.log2 v))) in Hland.
    rewrite Z.land_spec, Z.bits_0, Z.bit_log2, log2_pred_same in Hland by lia. done.
  - intros (k & Hk' & ->). rewrite Z.sub_1_r, <-Z.ones_equiv, Z.land_ones by lia.
    apply Z.mod_same. apply Z.pow_nonzero; lia.
Qed.

Lemma log2_succ_powerof2 n : 0 < n → in_u64 (n + 1) →
  Z.log2 (n + 1) = Z.log2 n + (if is_powerof2 (n + 1) then 1 else 0).
Proof.
  intros Hn Hr. pose proof (is_powerof2_spec (n + 1) Hr) as Hp.
  destruct (is_powerof2 (n + 1)) eqn:E.
  - destruct (proj1 Hp eq_refl) as (k & Hk & Hnk). rewrite Hnk.
    rewrite Z.log2_pow2 by lia. replace n with (Z.pred (2 ^ k)) by lia.
    assert (0 < k) by (destruct (Z.eq_dec k 0) as [->|]; lia).
    rewrite Z.log2_pred_pow2 by done. lia.
  - destruct (Z.log2_succ_or n) as [Hs|Hs]; rewrite <-Z.add_1_r in Hs; [|lia].
    exfalso. apply Z.log2_eq_succ_iff_pow2 in Hs as [b Hb]; [|done].
    assert (false = true); [|done]. apply Hp. exists b.
    assert (0 <= b) by (destruct (Z.le_gt_cases 0 b); [done|]; rewrite Z.pow_neg_r in Hb; lia).
    split; [split; [done|]|lia]. apply (Z.pow_lt_mono_r_iff 2); [lia|lia|].
    destruct Hr. lia.
Qed.
End pow2.

Section burst.
Context (get_elapsed_time_sec : Z → Z → Z).
Local Open Scope Z_scope.

(** From count [n], a burst inside the window logs at the powers of two. *)
Lemma log_burst_from times addr status t n since :
  t !! (addr +:+ "-" +:+ error_message status) = Some (n, since) →
  0 < n → n + Z.of_nat (length times) < 2 ^ 64 →
  Forall (λ now, get_elapsed_time_sec since now <= every_nth_sec) times →
  Z.of_nat (length (log_burst get_elapsed_time_sec times addr status t).1)
  = Z.log2 (n + Z.of_nat (length times)) - Z.log2 n.
Proof.
  revert t n. induction times as [|now times IH]; intros t n Hlk Hn Hb Hw; simpl.
  { rewrite Z.add_0_r. lia. }
  inversion Hw as [|? ? Hnow Hw']; subst.
  assert (in_u64 (n + 1)) as Hin by (unfold in_u64; simpl in Hb; lia).
  unfold log_every_nth. rewrite Hlk, decide_False by lia. rewrite (u64_id _ Hin).
  set (t' := <[_ := (n + 1, since)]> t).
  specialize (IH t' (n + 1)).
  destruct (log_burst _ times addr status t') as [more t2] eqn:E. simpl in *.
  rewrite length_app, Nat2Z.inj_add, IH; [|by apply lookup_insert_eq|lia|lia|done].
  replace (n + 1 + Z.of_nat (length times)) with (n + Z.of_nat (S (length times))) by lia.
  rewrite (log2_succ_powerof2 n Hn Hin).
  destruct (is_powerof2 (n + 1)); simpl; lia.
Qed.
End burst.

(** ** Properties *)

(** Every gRPC status other than OK completes a call with an error code that is
    neither [OK] nor the still-pending marker, and OK completes it with [OK]. *)
Theorem status_code_sound (s : Status) :
  (grpc_status_to_nuraft_code s = code.OK ↔ error_code s = ST_OK) ∧
  grpc_status_to_nuraft_code s ≠ code.RESULT_NOT_EXIST_YET.
Proof. destruct s as [c m]. destruct c; vm_compute; intuition congruence. Qed.

(** [is_powerof2] decides exactly the powers of two a [uint64_t] can hold. *)
Theorem is_powerof2_correct (v : Z) :
  in_u64 v → (is_powerof2 v = true ↔ ∃ k, (0 ≤ k < 64)%Z ∧ v = (2 ^ k)%Z).
Proof. apply is_powerof2_spec. Qed.

Lemma is_powerof2_correct_witness :
  is_powerof2 (2 ^ 63) = true ↔ ∃ k, (0 ≤ k < 64)%Z ∧ (2 ^ 63)%Z = (2 ^ k)%Z.
Proof. apply (is_powerof2_correct (2 ^ 63)). unfold in_u64. lia. Defined.

(** C37: A burst of [n] identical failures inside one 60 second window writes exactly
    [log2 n + 1] error lines, starting with the first failure. *)
Theorem log_burst_count (elapsed : Z → Z → Z) (first : Z) (times : list Z)
    (addr : string) (status : Status) :
  (Z.of_nat (length (first :: times)) < 2 ^ 64)%Z →
  Forall (λ now, elapsed first now ≤ every_nth_sec)%Z times →
  Z.of_nat (length (log_burst elapsed (first :: times) addr status ∅).1)
  = (Z.log2 (Z.of_nat (length (first :: times))) + 1)%Z.
Proof.
  intros Hlen Hw. cbn [length] in *.
  pose proof (log_burst_from elapsed times addr status
    (<[addr +:+ "-" +:+ error_message status := (1%Z, first)]> ∅) 1 first) as Hb.
  cbn [log_burst]. unfold log_every_nth at 1. rewrite lookup_empty.
  change (is_powerof2 1) with true. cbv beta iota.
  destruct (log_burst elapsed times addr status _) as [more t2] eqn:E.
  cbn [fst option_list app length] in *.
  change (Z.log2 1) with 0%Z in Hb.
  rewrite !Nat2Z.inj_succ, <-!Z.add_1_l in *.
  rewrite length_app, Nat2Z.inj_add, Hb; [simpl (length _); lia|by apply lookup_insert_eq|lia|lia|done].
Qed.

Lemma log_burst_count_witness :
  Z.of_nat (length (log_burst (λ t now, now - t)%Z (100 :: [101; 110; 160])%Z "a"
                      (mkStatus ST_UNAVAILABLE "down") ∅).1) = 3%Z.
Proof.
  rewrite (log_burst_count (λ t now, now - t)%Z 100 [101; 110; 160]%Z "a"
             (mkStatus ST_UNAVAILABLE "down"));
    [reflexivity|simpl; lia|repeat constructor; unfold every_nth_sec; lia].
Defined.

(** Once the window has expired the next failure starts a new count and is
    logged, whatever the old count was; other messages' counters are untouched. *)
Theorem log_window_reset (elapsed : Z → Z → Z) (now n since : Z) (addr key : string)
    (status : Status) (t : gmap string (Z * Z)) :
  t !! (addr +:+ "-" +:+ error_message status) = Some (n, since) →
  (elapsed since now > every_nth_sec)%Z →
  let '(logged, t') := log_every_nth elapsed now addr status t in
  logged = Some 1%Z ∧
  t' !! (addr +:+ "-" +:+ error_message status) = Some (1%Z, now) ∧
  (key ≠ addr +:+ "-" +:+ error_message status → t' !! key = t !! key).
Proof.
  intros Hlk Hexp. unfold log_every_nth. rewrite Hlk, decide_True by done.
  split; [done|]. split; [by rewrite lookup_insert_eq|]. intros Hne. by rewrite lookup_insert_ne.
Qed.

Lemma log_window_reset_witness :
  let '(logged, t') := log_every_nth (λ t now, now - t)%Z 200 "a" (mkStatus ST_UNAVAILABLE "x")
                         {["a-x" := (7, 100)%Z]} in
  logged = Some 1%Z ∧ t' !! ("a-x" : string) = Some (1%Z, 200%Z) ∧
  (("k" : string) ≠ "a-x" → t' !! ("k" : string) = ({["a-x" := (7, 100)%Z]} : gmap string (Z * Z)) !! "k").
Proof.
  apply (log_window_reset (λ t now, now - t)%Z 200 7 100 "a" "k" (mkStatus ST_UNAVAILABLE "x")
           {["a-x" := (7, 100)%Z]}); [reflexivity|unfold every_nth_sec; lia].
Defined.
