(* ===== verification/ClientPool.v ===== *)
(** * The client pool: [grpc_factory], [group_factory] and [mesg_factory]

    [src/lib/client.hpp], [src/lib/factory.cpp] and the factories of
    [src/proto/proto_mesg_factory.cpp].  Clients are shared objects: every
    [mesg_factory] (one per RAFT group) caches [grpc_proto_client] wrappers that
    point to [messaging_client] transports, which all groups share through the
    cache of the one [group_factory].  The model keeps a heap of clients, so
    that identity, sharing and in-place updates are the code's.

    [grpc_factory] is abstract: [create_or_reinit_client] is written against a
    record of its virtual functions, which the two concrete factories supply. *)

From stdpp Require Import base gmap strings list numbers.
From S2P Require Import Prelude Types.

Section pool.
Context `{UuidOps}.

(** ** Clients *)

(** [grpc_proto_client]: the wrapper NuRaft holds for one peer of one group. *)
Record proto_client := mkProto {
  pc_client : option N;
  pc_group_id : uuid;
  pc_group_type : string;
  pc_client_addr : string;
}.

(** The classes derived from [grpc_base_client]. *)
Inductive client_obj :=
| MessagingClient (addr : string) (bad_service : Z)
| ProtoClient (pc : proto_client)
| ErrorClient.

(** The heap of clients; [client_counter] is the number of clients ever
    constructed, so the next client's location; the caches of the group factory
    and of every message factory. *)
Record pool := mkPool {
  heap : gmap N client_obj;
  client_counter : N;
  group_clients : gmap uuid (option N);
  mesg_clients : gmap N (gmap uuid (option N));
}.

(** [_client_id(_client_counter++)] on a [uint64_t] counter. *)
Definition get_id (l : N) : Z := u64 (Z.of_N l).

Definition new_client (o : client_obj) : M pool N := λ s,
  (Ret (client_counter s),
   mkPool (<[client_counter s := o]> (heap s)) (client_counter s + 1)
     (group_clients s) (mesg_clients s)).

(** ** The environment of a call

    [lookupEndpoint] asks the application for a peer's address (empty when it
    is unknown or gone); whether a channel is connected, and whether
    [sisl::GrpcAsyncClient::make] yields a client for an address, are the
    transport library's. *)
Record net_env := mkEnv {
  lookupEndpoint : uuid → string;
  is_connection_ready : N → bool;
  make_ok : string → bool;
}.

(** [engine_factory::lookupEndpoint]: the application may have been destroyed. *)
Definition engine_lookupEndpoint (application : option (uuid → string)) (client : uuid)
  : string :=
  match application with
  | Some lookup_peer => lookup_peer client
  | None => EmptyString
  end.

(** ** The abstract factory *)

(** A factory's cache and its virtual functions.  [create_client] and
    [reinit_client] get the slot [it->second] by reference: they return a result
    code and the slot's new contents. *)
Record grpc_factory := mkFactory {
  f_clients : pool → gmap uuid (option N);
  f_set_clients : gmap uuid (option N) → pool → pool;
  f_create : uuid → option N → M pool (Z * option N);
  f_reinit : uuid → option N → M pool (Z * option N);
}.

Definition create_or_reinit_client (F : grpc_factory) (client : uuid) (force_recreate : bool)
  : M pool (option N) :=
  clients ← gets (f_clients F);
  let '(clients', happened) := emplace client None clients in
  modify (f_set_clients F clients');;
  let do_create := happened || force_recreate in
  let slot := default None (clients' !! client) in
  r ← (if do_create then f_create F client slot else f_reinit F client slot);
  let '(err, slot') := r in
  modify (λ s, f_set_clients F (<[client := slot']> (f_clients F s)) s);;
  new_client ← (if decide (err ≠ code.OK)
                then l ← new_client ErrorClient; mret (Some l)
                else mret slot');
  match slot' with
  | None => modify (λ s, f_set_clients F (delete client (f_clients F s)) s)
  | Some _ => mret tt
  end;;
  mret new_client.

(** [create_client(std::string)], NuRaft's entry point: null on a bad UUID. *)
Definition create_client (F : grpc_factory) (client : string) : M pool (option N) :=
  match string_generator client with
  | Some u => create_or_reinit_client F u true
  | None => mret None
  end.

(** [create_or_reinit_client(std::string)] *)
Definition create_or_reinit_client_str (F : grpc_factory) (client : string)
  : M pool (option N) :=
  match string_generator client with
  | Some u => create_or_reinit_client F u false
  | None => mret None
  end.

(** ** [dynamic_pointer_cast] *)

Definition as_messaging (s : pool) (p : option N) : option N :=
  l ← p; match heap s !! l with Some (MessagingClient _ _) => Some l | _ => None end.

Definition as_proto (s : pool) (p : option N) : option (N * proto_client) :=
  l ← p; match heap s !! l with Some (ProtoClient pc) => Some (l, pc) | _ => None end.

Definition set_object (l : N) (o : client_obj) : M pool unit :=
  modify (λ s, mkPool (<[l := o]> (heap s)) (client_counter s) (group_clients s) (mesg_clients s)).

(** [grpc_proto_client::setClient] *)
Definition setClient (l : N) (pc : proto_client) (new_client : option N) : M pool unit :=
  set_object l (ProtoClient (mkProto new_client (pc_group_id pc) (pc_group_type pc)
                               (pc_client_addr pc))).

(** ** The group factory: one per process *)

Section group_factory.
Context (env : net_env).

Definition group_create_client (client : uuid) (raft_client : option N)
  : M pool (Z * option N) :=
  let endpoint := lookupEndpoint env client in
  if decide (endpoint = EmptyString) then mret (code.BAD_REQUEST, raft_client)
  else if make_ok env endpoint
  then l ← new_client (MessagingClient endpoint 0); mret (code.OK, Some l)
  else mret (code.CANCELLED, None).

Definition group_reinit_client (client : uuid) (raft_client : option N)
  : M pool (Z * option N) :=
  l ← deref "assert(raft_client)" raft_client;
  o ← gets (λ s, heap s !! l);
  match o with
  | Some (MessagingClient _ bad_service) =>
      if negb (is_connection_ready env l) || (0 <? bad_service)%Z
      then group_create_client client raft_client
      else mret (code.OK, raft_client)
  | _ => ub "null mesg_client"
  end.

Definition group_factory : grpc_factory := {|
  f_clients := group_clients;
  f_set_clients := λ m s, mkPool (heap s) (client_counter s) m (mesg_clients s);
  f_create := group_create_client;
  f_reinit := group_reinit_client;
|}.

(** ** The message factories: one per RAFT group *)

Definition mesg_clients_of (f : N) (s : pool) : gmap uuid (option N) :=
  default ∅ (mesg_clients s !! f).

Definition mesg_create_client (_group_id : uuid) (_group_type : string)
    (client : uuid) (raft_client : option N) : M pool (Z * option N) :=
  c ← create_or_reinit_client group_factory client false;
  m_client ← gets (λ s, as_messaging s c);
  match m_client with
  | None => mret (code.CANCELLED, raft_client)
  | Some m =>
      l ← new_client (ProtoClient (mkProto (Some m) _group_id _group_type
                                     (uuid_to_string client)));
      mret (code.OK, Some l)
  end.

Definition mesg_reinit_client (client : uuid) (raft_client : option N)
  : M pool (Z * option N) :=
  g_client ← gets (λ s, as_proto s raft_client);
  match g_client with
  | None => mret (code.BAD_REQUEST, raft_client)
  | Some (l, _) =>
      c ← create_or_reinit_client group_factory client false;
      m_client ← gets (λ s, as_messaging s c);
      match m_client with
      | None => mret (code.CANCELLED, raft_client)
      | Some m =>
          pc ← gets (λ s, as_proto s (Some l));
          match pc with
          | Some (l, pc) => setClient l pc (Some m);; mret (code.OK, raft_client)
          | None => ub "null g_client"
          end
      end
  end.

(** A message factory is its identity and its two constants. *)
Definition mesg_factory (f : N) (_group_id : uuid) (_group_type : string) : grpc_factory := {|
  f_clients := mesg_clients_of f;
  f_set_clients := λ m s, mkPool (heap s) (client_counter s) (group_clients s)
                            (<[f := m]> (mesg_clients s));
  f_create := mesg_create_client _group_id _group_type;
  f_reinit := mesg_reinit_client;
|}.
End group_factory.

(** ** The contract of the two factories

    What [mesg_factory.hpp] promises, as functions from pools to pools. *)

Definition healthy (env : net_env) (s : pool) (l : N) : bool :=
  match heap s !! l with
  | Some (MessagingClient _ bad) => is_connection_ready env l && negb (0 <? bad)%Z
  | _ => false
  end.

Definition alloc (o : client_obj) (s : pool) : pool :=
  mkPool (<[client_counter s := o]> (heap s)) (client_counter s + 1)
    (group_clients s) (mesg_clients s).

Definition with_group (m : gmap uuid (option N)) (s : pool) : pool :=
  mkPool (heap s) (client_counter s) m (mesg_clients s).

Definition with_mesg (f : N) (m : gmap uuid (option N)) (s : pool) : pool :=
  mkPool (heap s) (client_counter s) (group_clients s) (<[f := m]> (mesg_clients s)).

Definition with_object (l : N) (o : client_obj) (s : pool) : pool :=
  mkPool (<[l := o]> (heap s)) (client_counter s) (group_clients s) (mesg_clients s).

(** A new transport for a peer, published in the shared cache; an [ErrorClient]
    when the peer has no address or no client can be made for it. *)
Definition renew (env : net_env) (client : uuid) (s : pool) : N * pool :=
  if decide (lookupEndpoint env client = EmptyString)
  then (client_counter s, alloc ErrorClient s)
  else if make_ok env (lookupEndpoint env client)
  then (client_counter s,
        with_group (<[client := Some (client_counter s)]> (group_clients s))
          (alloc (MessagingClient (lookupEndpoint env client) 0) s))
  else (client_counter s,
        with_group (delete client (group_clients s)) (alloc ErrorClient s)).

(** The shared transport for a peer: the cached one while it is healthy,
    otherwise a new one, which replaces it for everybody. *)
Definition transport (env : net_env) (client : uuid) (force : bool) (s : pool) : N * pool :=
  match group_clients s !! client with
  | Some (Some l) => if negb force && healthy env s l then (l, s) else renew env client s
  | _ => renew env client s
  end.

(** The wrapper for a peer of one group: a cached wrapper keeps its identity and
    adopts the current transport, unless a new wrapper is forced. *)
Definition wrapper (env : net_env) (f : N) (gid : uuid) (gtype : string) (client : uuid)
    (force : bool) (s : pool) : N * pool :=
  let '(t, s1) := transport env client false s in
  match as_messaging s1 (Some t) with
  | None => (client_counter s1, with_mesg f (mesg_clients_of f s) (alloc ErrorClient s1))
  | Some m =>
      match mesg_clients_of f s !! client, force with
      | Some (Some l), false =>
          match heap s1 !! l with
          | Some (ProtoClient pc) =>
              (l, with_mesg f (mesg_clients_of f s)
                    (with_object l (ProtoClient (mkProto (Some m) (pc_group_id pc)
                                                   (pc_group_type pc) (pc_client_addr pc))) s1))
          | _ => (l, s1)
          end
      | _, _ =>
          (client_counter s1,
           with_mesg f (<[client := Some (client_counter s1)]> (mesg_clients_of f s))
             (alloc (ProtoClient (mkProto (Some m) gid gtype (uuid_to_string client))) s1))
      end
  end.

(** ** Well-formed pools *)

Definition is_messaging (s : pool) (l : N) : Prop :=
  ∃ addr bad, heap s !! l = Some (MessagingClient addr bad).

(** A transport no failed call has marked. *)
Definition unmarked (s : pool) (l : N) : Prop :=
  ∃ addr bad, heap s !! l = Some (MessagingClient addr bad) ∧ (bad ≤ 0)%Z.

Definition is_proto (s : pool) (l : N) : Prop :=
  ∃ pc, heap s !! l = Some (ProtoClient pc).

Record pool_wf (s : pool) : Prop := {
  wf_fresh : ∀ l o, heap s !! l = Some o → (l < client_counter s)%N;
  wf_group : ∀ p v, group_clients s !! p = Some v → ∃ l, v = Some l ∧ is_messaging s l;
  wf_mesg : ∀ f m p v, mesg_clients s !! f = Some m → m !! p = Some v →
            ∃ l, v = Some l ∧ is_proto s l;
  wf_proto : ∀ l pc, heap s !! l = Some (ProtoClient pc) →
             ∃ m, pc_client pc = Some m ∧ is_messaging s m;
}.

(** Clients are never replaced: a later pool has every client of an earlier one
    with the same class and the same constants. *)
Inductive same_client : client_obj → client_obj → Prop :=
| same_messaging addr b b' : same_client (MessagingClient addr b) (MessagingClient addr b')
| same_proto c c' gid gtype addr :
    same_client (ProtoClient (mkProto c gid gtype addr)) (ProtoClient (mkProto c' gid gtype addr))
| same_error : same_client ErrorClient ErrorClient.

(** Every wrapper a message factory caches for a peer is addressed to that peer. *)
Definition addressed_to (s : pool) (p : uuid) (l : N) : Prop :=
  ∃ c gid gtype, heap s !! l = Some (ProtoClient (mkProto c gid gtype (uuid_to_string p))).

Definition addressed (s : pool) : Prop :=
  ∀ f p l, mesg_clients_of f s !! p = Some (Some l) → addressed_to s p l.

Definition pool_le (s s' : pool) : Prop :=
  (client_counter s ≤ client_counter s')%N ∧
  ∀ l o, heap s !! l = Some o → ∃ o', heap s' !! l = Some o' ∧ same_client o o'.

Definition empty_pool : pool := mkPool ∅ 0 ∅ ∅.

(** [bad_service.fetch_add(1)] on an [std::atomic_uint]. *)
Definition bump_bad_service (l : N) : M pool unit := λ s,
  match heap s !! l with
  | Some (MessagingClient addr b) => set_object l (MessagingClient addr (u32 (b + 1))) s
  | _ => (Ret tt, s)
  end.

(** Everything that changes the pool: a lookup through the group factory or
    through a message factory, by NuRaft (forced) or by the data path, in any
    environment, and a failed call marking its transport. *)
Inductive pool_step (s : pool) : pool → Prop :=
| step_group env p force :
    pool_step s (create_or_reinit_client (group_factory env) p force s).2
| step_mesg env f gid gtype p force :
    pool_step s (create_or_reinit_client (mesg_factory env f gid gtype) p force s).2
| step_bad l :
    pool_step s (bump_bad_service l s).2.
End pool.

#[global] Arguments as_messaging : simpl never.
#[global] Arguments as_proto : simpl never.

(** ** Lemmas *)

Section pool_lemmas.
Context `{UuidOps}.
Implicit Types (s : pool) (env : net_env) (p : uuid) (l : N).

#[export] Instance same_client_refl : Reflexive same_client.
Proof. intros [addr b|[c gid gt a]|]; constructor. Qed.

#[export] Instance same_client_trans : Transitive same_client.
Proof. intros a b c Hab Hbc. destruct Hab; inversion Hbc; subst; constructor. Qed.

#[export] Instance pool_le_preorder : PreOrder pool_le.
Proof.
  split.
  - intros s. split; [done|]. intros l o Hl. exists o. done.
  - intros s1 s2 s3 [Hc1 H1] [Hc2 H2]. split; [lia|]. intros l o Hl.
    destruct (H1 l o Hl) as (o2 & Hl2 & Hs2). destruct (H2 l o2 Hl2) as (o3 & Hl3 & Hs3).
    exists o3. split; [done|by trans o2].
Qed.

Lemma heap_counter_fresh s : pool_wf s → heap s !! client_counter s = None.
Proof.
  intros Hwf. destruct (heap s !! client_counter s) as [o|] eqn:E; [|done].
  apply (wf_fresh s Hwf) in E. lia.
Qed.

Lemma is_messaging_lt s l : pool_wf s → is_messaging s l → (l < client_counter s)%N.
Proof. intros Hwf (a & b & Hl). by apply (wf_fresh s Hwf) in Hl. Qed.

Lemma is_proto_lt s l : pool_wf s → is_proto s l → (l < client_counter s)%N.
Proof. intros Hwf (pc & Hl). by apply (wf_fresh s Hwf) in Hl. Qed.

Lemma alloc_old s o l : pool_wf s → (l < client_counter s)%N → heap (alloc o s) !! l = heap s !! l.
Proof. intros Hwf Hl. simpl. rewrite lookup_insert_ne; [done|lia]. Qed.

Lemma alloc_is_messaging s o l : pool_wf s → is_messaging s l → is_messaging (alloc o s) l.
Proof.
  intros Hwf Hl. pose proof (is_messaging_lt s l Hwf Hl). destruct Hl as (a & b & Hl).
  exists a, b. by rewrite alloc_old.
Qed.

Lemma unmarked_messaging s l : unmarked s l → is_messaging s l.
Proof. intros (a & b & Hl & _). by exists a, b. Qed.

Lemma alloc_unmarked s o l : pool_wf s → unmarked s l → unmarked (alloc o s) l.
Proof.
  intros Hwf Hl. pose proof (is_messaging_lt s l Hwf (unmarked_messaging s l Hl)).
  destruct Hl as (a & b & Hl & Hb). exists a, b. by rewrite alloc_old.
Qed.

Lemma alloc_is_proto s o l : pool_wf s → is_proto s l → is_proto (alloc o s) l.
Proof.
  intros Hwf Hl. pose proof (is_proto_lt s l Hwf Hl). destruct Hl as (pc & Hl).
  exists pc. by rewrite alloc_old.
Qed.

Lemma alloc_le s o : pool_wf s → pool_le s (alloc o s).
Proof.
  intros Hwf. split; [simpl; lia|]. intros l o' Hl. exists o'.
  rewrite alloc_old; [done|done|]. by apply (wf_fresh s Hwf) in Hl.
Qed.

(** Allocating preserves well-formedness, as long as a new wrapper points to a
    transport. *)
Lemma alloc_wf s o :
  pool_wf s →
  (∀ pc, o = ProtoClient pc → ∃ m, pc_client pc = Some m ∧ is_messaging s m) →
  pool_wf (alloc o s).
Proof.
  intros Hwf Ho. split.
  - intros l o' Hl. simpl in *. destruct (decide (l = client_counter s)) as [->|Hne]; [lia|].
    rewrite lookup_insert_ne in Hl by done. apply (wf_fresh s Hwf) in Hl. lia.
  - intros p v Hp. destruct (wf_group s Hwf p v Hp) as (l & -> & Hl).
    exists l. split; [done|by apply alloc_is_messaging].
  - intros f m p v Hf Hp. destruct (wf_mesg s Hwf f m p v Hf Hp) as (l & -> & Hl).
    exists l. split; [done|by apply alloc_is_proto].
  - intros l pc Hl. simpl in Hl. destruct (decide (l = client_counter s)) as [->|Hne].
    + rewrite lookup_insert_eq in Hl. injection Hl as ->.
      destruct (Ho pc eq_refl) as (m & Hm & Hmm). exists m. split; [done|].
      by apply alloc_is_messaging.
    + rewrite lookup_insert_ne in Hl by done.
      destruct (wf_proto s Hwf l pc Hl) as (m & Hm & Hmm). exists m. split; [done|].
      by apply alloc_is_messaging.
Qed.

Lemma with_group_wf s m :
  pool_wf s → (∀ p v, m !! p = Some v → ∃ l, v = Some l ∧ is_messaging s l) →
  pool_wf (with_group m s).
Proof. intros [Hf Hg Hm Hp] Hm'. by split. Qed.

Lemma with_mesg_wf s f m :
  pool_wf s → (∀ p v, m !! p = Some v → ∃ l, v = Some l ∧ is_proto s l) →
  pool_wf (with_mesg f m s).
Proof.
  intros [Hf Hg Hm Hp] Hm'. split; [done|done| |done].
  intros f' m0 p v Hl Hv. simpl in Hl. destruct (decide (f = f')) as [<-|Hne].
  - rewrite lookup_insert_eq in Hl. injection Hl as <-. by apply (Hm' p).
  - rewrite lookup_insert_ne in Hl by done. by apply (Hm f' m0 p).
Qed.

(** Replacing a client by one of its class. *)
Lemma with_object_wf s l o o' :
  pool_wf s → heap s !! l = Some o → same_client o o' →
  (∀ pc, o' = ProtoClient pc → ∃ m, pc_client pc = Some m ∧ is_messaging s m) →
  pool_wf (with_object l o' s) ∧ pool_le s (with_object l o' s).
Proof.
  intros Hwf Hl Hsame Ho.
  assert (∀ k, is_messaging s k → is_messaging (with_object l o' s) k) as Hmsg.
  { intros k (a & b & Hk). unfold is_messaging. simpl.
    destruct (decide (k = l)) as [->|Hne]; [|rewrite lookup_insert_ne by done; by exists a, b].
    rewrite lookup_insert_eq. rewrite Hl in Hk. injection Hk as ->.
    inversion Hsame; subst. by exists a, b'. }
  assert (∀ k, is_proto s k → is_proto (with_object l o' s) k) as Hpro.
  { intros k (pc & Hk). unfold is_proto. simpl.
    destruct (decide (k = l)) as [->|Hne]; [|rewrite lookup_insert_ne by done; by exists pc].
    rewrite lookup_insert_eq. rewrite Hl in Hk. injection Hk as ->.
    inversion Hsame; subst. eauto. }
  split; [split|].
  - intros k ok Hk. simpl in *. destruct (decide (k = l)) as [->|Hne].
    + by apply (wf_fresh s Hwf) in Hl.
    + rewrite lookup_insert_ne in Hk by done. by apply (wf_fresh s Hwf) in Hk.
  - intros q v Hq. destruct (wf_group s Hwf q v Hq) as (k & -> & Hk). eauto.
  - intros f m q v Hf Hq. destruct (wf_mesg s Hwf f m q v Hf Hq) as (k & -> & Hk). eauto.
  - intros k pc Hk. simpl in Hk. destruct (decide (k = l)) as [->|Hne].
    + rewrite lookup_insert_eq in Hk. injection Hk as ->.
      destruct (Ho pc eq_refl) as (m & Hm & Hmm). eauto.
    + rewrite lookup_insert_ne in Hk by done.
      destruct (wf_proto s Hwf k pc Hk) as (m & Hm & Hmm). eauto.
  - split; [done|]. intros k ok Hk. simpl. destruct (decide (k = l)) as [->|Hne].
    + rewrite lookup_insert_eq. exists o'. split; [done|]. congruence.
    + rewrite lookup_insert_ne by done. by exists ok.
Qed.

(** ** The group factory implements the shared transport *)

Lemma mesg_of_wf s f p v :
  pool_wf s → mesg_clients_of f s !! p = Some v → ∃ l, v = Some l ∧ is_proto s l.
Proof.
  intros Hwf. unfold mesg_clients_of. destruct (mesg_clients s !! f) as [m|] eqn:E; simpl.
  - intros Hp. by apply (wf_mesg s Hwf f m p).
  - by rewrite lookup_empty.
Qed.

Lemma group_create_transport env p slot s :
  group_create_client env p slot s =
  (if decide (lookupEndpoint env p = EmptyString) then (Ret (code.BAD_REQUEST, slot), s)
   else if make_ok env (lookupEndpoint env p)
   then (Ret (code.OK, Some (client_counter s)),
         alloc (MessagingClient (lookupEndpoint env p) 0) s)
   else (Ret (code.CANCELLED, None), s)).
Proof.
  unfold group_create_client. destruct (decide _); [done|]. by destruct (make_ok _ _).
Qed.

Ltac renew_cases env p :=
  rewrite group_create_transport; simpl; unfold renew;
  destruct (decide (lookupEndpoint env p = EmptyString)); simpl;
  [|destruct (make_ok env (lookupEndpoint env p)); simpl]; unfold with_group, alloc; simpl.

Lemma group_refines env p force s :
  (∀ q v, group_clients s !! q = Some v → ∃ l, v = Some l ∧ is_messaging s l) →
  create_or_reinit_client (group_factory env) p force s =
  (Ret (Some (transport env p force s).1), (transport env p force s).2).
Proof.
  intros Hwf. destruct s as [h c g ms].
  unfold create_or_reinit_client, transport, mbind, M_bind, gets, emplace; simpl.
  destruct (g !! p) as [v|] eqn:Hp; simpl.
  - destruct (Hwf p v Hp) as (l & -> & a & b & Hl). simpl in Hl.
    rewrite Hp. simpl. destruct force; simpl.
    + renew_cases env p; rewrite ?(insert_id g p (Some l) Hp), ?delete_insert_eq; done.
    + unfold group_reinit_client, mbind, M_bind, gets, healthy; simpl. rewrite Hl; simpl.
      destruct (is_connection_ready env l), (0 <? b)%Z; simpl;
        [| by rewrite (insert_id g p (Some l) Hp) | |];
        renew_cases env p; rewrite ?(insert_id g p (Some l) Hp), ?delete_insert_eq; done.
  - rewrite lookup_insert_eq. simpl.
    renew_cases env p; rewrite ?insert_insert_eq, ?delete_insert_eq, ?(delete_id g p Hp); done.
Qed.

(** What a transport lookup guarantees: the pool stays well-formed, no existing
    client changes, no wrapper cache changes, and the result is either the
    published transport or a new [ErrorClient]. *)
Record transport_post (s : pool) (p : uuid) (t : N) (s' : pool) : Prop := {
  tp_wf : pool_wf s';
  tp_counter : (client_counter s ≤ client_counter s')%N;
  tp_mesg : mesg_clients s' = mesg_clients s;
  tp_heap : ∀ l o, heap s !! l = Some o → heap s' !! l = Some o;
  tp_result : (unmarked s' t ∧ group_clients s' !! p = Some (Some t)) ∨
              heap s' !! t = Some ErrorClient;
}.

Lemma alloc_heap_old s o l o' : pool_wf s → heap s !! l = Some o' → heap (alloc o s) !! l = Some o'.
Proof. intros Hwf Hl. rewrite alloc_old; [done|done|]. by apply (wf_fresh s Hwf) in Hl. Qed.

Lemma renew_post env p s : pool_wf s → transport_post s p (renew env p s).1 (renew env p s).2.
Proof.
  intros Hwf. unfold renew.
  assert (∀ a b, pool_wf (alloc (MessagingClient a b) s)) as Hmc by (intros; by apply alloc_wf).
  assert (pool_wf (alloc ErrorClient s)) as Hec by by apply alloc_wf.
  destruct (decide _); [|destruct (make_ok _ _)]; simpl.
  - split; [done|simpl; lia|done|by intros; apply alloc_heap_old|].
    right. apply lookup_insert_eq.
  - split; [|simpl; lia|done|by intros; apply alloc_heap_old|].
    + apply with_group_wf; [done|]. intros q v Hq. destruct (decide (p = q)) as [<-|Hne].
      * rewrite lookup_insert_eq in Hq. injection Hq as <-. eexists. split; [done|].
        eexists _, _. apply lookup_insert_eq.
      * rewrite lookup_insert_ne in Hq by done. by apply (wf_group _ (Hmc _ _) q).
    + left. simpl. split; [|by rewrite lookup_insert_eq].
      eexists _, _. split; [apply lookup_insert_eq|done].
  - split; [|simpl; lia|done|by intros; apply alloc_heap_old|].
    + apply with_group_wf; [done|]. intros q v Hq. apply lookup_delete_Some in Hq as [_ Hq].
      by apply (wf_group _ Hec q).
    + right. apply lookup_insert_eq.
Qed.

Lemma transport_spec env p force s :
  pool_wf s → transport_post s p (transport env p force s).1 (transport env p force s).2.
Proof.
  intros Hwf. unfold transport. pose proof (renew_post env p s Hwf) as Hr.
  destruct (group_clients s !! p) as [[l|]|] eqn:Hp; [|done|done].
  destruct (negb force && healthy env s l) eqn:Hh; [|done]. simpl.
  split; [done|done|done|done|]. left. split; [|done].
  apply andb_prop in Hh as [_ Hh]. unfold healthy in Hh.
  destruct (heap s !! l) as [[a b|pc|]|] eqn:Hl; try done. exists a, b. split; [done|].
  apply andb_prop in Hh as [_ Hh]. apply negb_true_iff, Z.ltb_ge in Hh. done.
Qed.

(** ** A message factory implements the per-group wrapper *)

Lemma as_messaging_Some s l : is_messaging s l → as_messaging s (Some l) = Some l.
Proof. intros (a & b & Hl). unfold as_messaging. simpl. by rewrite Hl. Qed.

Lemma as_messaging_error s l : heap s !! l = Some ErrorClient → as_messaging s (Some l) = None.
Proof. intros Hl. unfold as_messaging. simpl. by rewrite Hl. Qed.

Lemma mesg_clients_of_same f s s' :
  mesg_clients s' = mesg_clients s → mesg_clients_of f s' = mesg_clients_of f s.
Proof. unfold mesg_clients_of. by intros ->. Qed.

Lemma transport_with_mesg env p force f m s :
  transport env p force (with_mesg f m s) =
  ((transport env p force s).1, with_mesg f m (transport env p force s).2).
Proof.
  destruct s as [h c g ms].
  assert (renew env p (with_mesg f m (mkPool h c g ms)) =
          ((renew env p (mkPool h c g ms)).1, with_mesg f m (renew env p (mkPool h c g ms)).2))
    as Hr by (unfold renew; simpl; destruct (decide _); [|destruct (make_ok _ _)]; done).
  unfold transport. rewrite Hr. simpl.
  destruct (g !! p) as [[l|]|]; [|done|done].
  change (healthy env (with_mesg f m (mkPool h c g ms)) l) with (healthy env (mkPool h c g ms) l).
  by destruct (negb force && healthy env (mkPool h c g ms) l).
Qed.

(** The group factory's lookup, run from inside a message factory's. *)
Lemma group_refines_nested env p f m s :
  pool_wf s →
  create_or_reinit_client (group_factory env) p false (with_mesg f m s) =
  (Ret (Some (transport env p false s).1), with_mesg f m (transport env p false s).2).
Proof.
  intros Hwf. rewrite group_refines; [|apply (wf_group s Hwf)].
  by rewrite transport_with_mesg.
Qed.

Lemma as_messaging_cases env p s :
  pool_wf s →
  (as_messaging (transport env p false s).2 (Some (transport env p false s).1)
   = Some (transport env p false s).1 ∧
   is_messaging (transport env p false s).2 (transport env p false s).1) ∨
  as_messaging (transport env p false s).2 (Some (transport env p false s).1) = None.
Proof.
  intros Hwf. destruct (tp_result _ _ _ _ (transport_spec env p false s Hwf)) as [[Hm _]|He].
  - apply unmarked_messaging in Hm. left. split; [by apply as_messaging_Some|done].
  - right. by apply as_messaging_error.
Qed.

Lemma with_mesg_twice f m m' s : with_mesg f m (with_mesg f m' s) = with_mesg f m s.
Proof. unfold with_mesg. simpl. by rewrite insert_insert_eq. Qed.

Lemma mesg_clients_of_with f m s : mesg_clients_of f (with_mesg f m s) = m.
Proof. unfold mesg_clients_of. simpl. by rewrite lookup_insert_eq. Qed.

Lemma mesg_create_run env f gid gtype p slot m s :
  pool_wf s →
  mesg_create_client env gid gtype p slot (with_mesg f m s) =
  let '(t, s1) := transport env p false s in
  match as_messaging s1 (Some t) with
  | None => (Ret (code.CANCELLED, slot), with_mesg f m s1)
  | Some t => (Ret (code.OK, Some (client_counter s1)),
               with_mesg f m (alloc (ProtoClient (mkProto (Some t) gid gtype
                                                    (uuid_to_string p))) s1))
  end.
Proof.
  intros Hwf. unfold mesg_create_client, mbind, M_bind. rewrite group_refines_nested by done.
  destruct (transport env p false s) as [t s1] eqn:E. simpl. unfold gets.
  change (as_messaging (with_mesg f m s1) (Some t)) with (as_messaging s1 (Some t)).
  by destruct (as_messaging s1 (Some t)).
Qed.

Lemma mesg_reinit_run env f p l m s :
  pool_wf s → is_proto s l →
  mesg_reinit_client env p (Some l) (with_mesg f m s) =
  let '(t, s1) := transport env p false s in
  match as_messaging s1 (Some t), heap s1 !! l with
  | Some t, Some (ProtoClient pc) =>
      (Ret (code.OK, Some l),
       with_mesg f m (with_object l (ProtoClient (mkProto (Some t) (pc_group_id pc)
                        (pc_group_type pc) (pc_client_addr pc))) s1))
  | _, _ => (Ret (code.CANCELLED, Some l), with_mesg f m s1)
  end.
Proof.
  intros Hwf (pc & Hl). unfold mesg_reinit_client, mbind, M_bind, gets.
  unfold as_proto at 1. simpl. rewrite Hl. rewrite group_refines_nested by done.
  pose proof (tp_heap _ _ _ _ (transport_spec env p false s Hwf) l _ Hl) as Hl1.
  destruct (transport env p false s) as [t s1] eqn:E. simpl in *.
  change (as_messaging (with_mesg f m s1) (Some t)) with (as_messaging s1 (Some t)).
  rewrite Hl1. destruct (as_messaging s1 (Some t)) as [t'|]; [|done].
  unfold as_proto. simpl. by rewrite Hl1.
Qed.

Lemma mesg_refines env f gid gtype p force s :
  pool_wf s →
  create_or_reinit_client (mesg_factory env f gid gtype) p force s =
  (Ret (Some (wrapper env f gid gtype p force s).1), (wrapper env f gid gtype p force s).2).
Proof.
  intros Hwf. unfold create_or_reinit_client, wrapper. unfold mbind, M_bind, gets.
  cbn [f_clients f_set_clients f_create f_reinit mesg_factory].
  pose proof (as_messaging_cases env p s Hwf) as Hcases.
  pose proof (transport_spec env p false s Hwf) as Htp.
  assert (mesg_clients_of f s !! p = None ∨ ∃ l, mesg_clients_of f s !! p = Some (Some l) ∧
            is_proto s l) as [Hp|(l & Hp & Hl)].
  { destruct (mesg_clients_of f s !! p) as [v|] eqn:Hp; [|by left].
    destruct (mesg_of_wf s f p v Hwf Hp) as (l & -> & Hl). right. eauto. }
  - rewrite emplace_None by done. cbn [modify orb].
    rewrite lookup_insert_eq. cbn [default from_option].
    fold (with_mesg f (<[p:=None]> (mesg_clients_of f s)) s).
    rewrite mesg_create_run by done. rewrite Hp.
    destruct (transport env p false s) as [t s1]. simpl in *.
    destruct (as_messaging s1 (Some t)) as [t'|] eqn:Ht; simpl.
    + unfold with_mesg, alloc, mesg_clients_of; simpl.
      rewrite !lookup_insert_eq; simpl. rewrite !insert_insert_eq. by destruct force.
    + unfold with_mesg, alloc, mesg_clients_of in *; simpl.
      rewrite !lookup_insert_eq; simpl. rewrite !insert_insert_eq, delete_insert_eq, delete_id by done.
      done.
  - rewrite (emplace_Some _ _ _ _ Hp). cbn [modify orb]. rewrite Hp.
    change (default None (Some (Some l))) with (Some l).
    fold (with_mesg f (mesg_clients_of f s) s).
    destruct force; [rewrite mesg_create_run by done|rewrite mesg_reinit_run by done];
      destruct Hl as (pc & Hl); pose proof (tp_heap _ _ _ _ Htp l _ Hl) as Hl1;
      destruct (transport env p false s) as [t s1]; simpl in *; rewrite ?Hl1;
      (destruct (as_messaging s1 (Some t)) as [t'|] eqn:Ht; simpl;
       unfold with_mesg, with_object, alloc, mesg_clients_of in *; simpl;
       rewrite ?lookup_insert_eq; simpl; rewrite ?insert_insert_eq;
       rewrite ?(insert_id _ p (Some l) Hp); done).
Qed.

(** ** Guarantees of a wrapper lookup *)

Record wrapper_post (f : N) (s : pool) (p : uuid) (w : N) (s' : pool) : Prop := {
  wp_pool_wf : pool_wf s';
  wp_pool_le : pool_le s s';
  wp_other_factories : ∀ f', f' ≠ f → mesg_clients s' !! f' = mesg_clients s !! f';
  wp_result :
    heap s' !! w = Some ErrorClient ∧ mesg_clients_of f s' = mesg_clients_of f s ∨
    ∃ pc t, heap s' !! w = Some (ProtoClient pc) ∧ pc_client pc = Some t ∧
            unmarked s' t ∧ group_clients s' !! p = Some (Some t) ∧
            mesg_clients_of f s' !! p = Some (Some w);
}.

Section wrapper_cases.
Context (f : N) (gid : uuid) (gtype : string) (p : uuid).
Context (s s1 : pool) (t : N).
Context (Hwf : pool_wf s) (Htp : transport_post s p t s1).

Lemma cached_proto q v :
  mesg_clients_of f s !! q = Some v → ∃ l, v = Some l ∧ is_proto s1 l.
Proof.
  intros Hq. destruct (mesg_of_wf s f q v Hwf Hq) as (l & -> & pc & Hl).
  exists l. split; [done|]. exists pc. by apply (tp_heap _ _ _ _ Htp).
Qed.

Lemma transport_post_le : pool_le s s1.
Proof.
  split; [apply (tp_counter _ _ _ _ Htp)|]. intros l o Hl. exists o.
  split; [by apply (tp_heap _ _ _ _ Htp)|reflexivity].
Qed.

Lemma other_factories s2 m f' :
  f' ≠ f → mesg_clients s2 = mesg_clients s1 →
  mesg_clients (with_mesg f m s2) !! f' = mesg_clients s !! f'.
Proof.
  intros Hne Heq. simpl. rewrite lookup_insert_ne by done.
  by rewrite Heq, (tp_mesg _ _ _ _ Htp).
Qed.

Lemma error_wrapper_post :
  wrapper_post f s p (client_counter s1)
    (with_mesg f (mesg_clients_of f s) (alloc ErrorClient s1)).
Proof.
  pose proof (tp_wf _ _ _ _ Htp) as Hwf1.
  assert (pool_wf (alloc ErrorClient s1)) as Hwf2 by by apply alloc_wf.
  split.
  - apply with_mesg_wf; [done|]. intros q v Hq. destruct (cached_proto q v Hq) as (k & -> & Hk).
    exists k. split; [done|]. by apply alloc_is_proto.
  - trans s1; [apply transport_post_le|]. apply (alloc_le s1 _ Hwf1).
  - intros f' Hne. by apply other_factories.
  - left. split; [apply lookup_insert_eq|]. apply mesg_clients_of_with.
Qed.

Lemma new_wrapper_post :
  unmarked s1 t → group_clients s1 !! p = Some (Some t) →
  wrapper_post f s p (client_counter s1)
    (with_mesg f (<[p := Some (client_counter s1)]> (mesg_clients_of f s))
       (alloc (ProtoClient (mkProto (Some t) gid gtype (uuid_to_string p))) s1)).
Proof.
  intros Htm Htg. pose proof (tp_wf _ _ _ _ Htp) as Hwf1.
  assert (pool_wf (alloc (ProtoClient (mkProto (Some t) gid gtype (uuid_to_string p))) s1))
    as Hwf2 by (apply alloc_wf; [done|]; intros pc [= <-]; eauto using unmarked_messaging).
  split.
  - apply with_mesg_wf; [done|]. intros q v Hq. destruct (decide (p = q)) as [<-|Hne].
    + rewrite lookup_insert_eq in Hq. injection Hq as <-. eexists; split; [done|].
      eexists. apply lookup_insert_eq.
    + rewrite lookup_insert_ne in Hq by done. destruct (cached_proto q v Hq) as (l & -> & Hl).
      exists l. split; [done|]. by apply alloc_is_proto.
  - trans s1; [apply transport_post_le|]. apply (alloc_le s1 _ Hwf1).
  - intros f' Hne. by apply other_factories.
  - right. eexists _, t. split; [apply lookup_insert_eq|]. split; [done|].
    split; [by apply alloc_unmarked|]. split; [done|].
    rewrite mesg_clients_of_with. apply lookup_insert_eq.
Qed.

Lemma kept_wrapper_post l pc :
  unmarked s1 t → group_clients s1 !! p = Some (Some t) →
  mesg_clients_of f s !! p = Some (Some l) → heap s1 !! l = Some (ProtoClient pc) →
  wrapper_post f s p l
    (with_mesg f (mesg_clients_of f s)
       (with_object l (ProtoClient (mkProto (Some t) (pc_group_id pc) (pc_group_type pc)
                                      (pc_client_addr pc))) s1)).
Proof.
  intros (a & b & Htm & Hb) Htg Hp Hl. pose proof (tp_wf _ _ _ _ Htp) as Hwf1.
  destruct pc as [c0 g0 ty0 a0]. simpl.
  destruct (with_object_wf s1 l _ (ProtoClient (mkProto (Some t) g0 ty0 a0)) Hwf1 Hl)
    as [Hwf2 Hle2]; [constructor|intros pc [= <-]; exists t; split; [done|by exists a, b]|].
  split.
  - apply with_mesg_wf; [done|]. intros q v Hq.
    destruct (cached_proto q v Hq) as (k & -> & pck & Hk).
    exists k. split; [done|]. destruct (proj2 Hle2 k _ Hk) as (o' & Ho' & Hs).
    inversion Hs; subst; eexists; exact Ho'.
  - trans s1; [apply transport_post_le|done].
  - intros f' Hne. by apply other_factories.
  - right. eexists _, t. split; [apply lookup_insert_eq|]. split; [done|]. split.
    { exists a, b. split; [|done]. simpl. rewrite lookup_insert_ne; [done|].
      intros ->. congruence. }
    split; [done|]. by rewrite mesg_clients_of_with.
Qed.
End wrapper_cases.

Lemma wrapper_spec env f gid gtype p force s :
  pool_wf s →
  wrapper_post f s p (wrapper env f gid gtype p force s).1 (wrapper env f gid gtype p force s).2.
Proof.
  intros Hwf. unfold wrapper. pose proof (transport_spec env p false s Hwf) as Htp.
  destruct (transport env p false s) as [t s1]. simpl in Htp.
  destruct (tp_result _ _ _ _ Htp) as [[Htm Htg]|Hte].
  - rewrite (as_messaging_Some s1 t (unmarked_messaging _ _ Htm)).
    pose proof (new_wrapper_post f gid gtype p s s1 t Hwf Htp Htm Htg) as Hnew.
    destruct (mesg_clients_of f s !! p) as [[l|]|] eqn:Hp; [|done|done].
    destruct force; [done|].
    destruct (cached_proto f p s s1 t Hwf Htp p _ Hp) as (l' & [= <-] & pc & Hl). rewrite Hl.
    by apply (kept_wrapper_post f p s s1 t Hwf Htp).
  - rewrite (as_messaging_error s1 t Hte). by apply (error_wrapper_post f p s s1 t Hwf Htp).
Qed.
End pool_lemmas.

Section pool_reachable.
Context `{UuidOps}.
Implicit Types (s : pool) (env : net_env) (p : uuid) (l : N).

Lemma bump_wf l s : pool_wf s → pool_wf (bump_bad_service l s).2 ∧ pool_le s (bump_bad_service l s).2.
Proof.
  intros Hwf. unfold bump_bad_service.
  destruct (heap s !! l) as [[addr b|pc|]|] eqn:Hl; simpl; try done.
  apply (with_object_wf s l _ _ Hwf Hl); [constructor|done].
Qed.

Lemma pool_step_wf s s' : pool_wf s → pool_step s s' → pool_wf s' ∧ pool_le s s'.
Proof.
  intros Hwf [env p force|env f gid gtype p force|l].
  - rewrite group_refines by apply (wf_group s Hwf). simpl.
    pose proof (transport_spec env p force s Hwf) as Htp.
    split; [apply Htp|by eapply transport_post_le].
  - rewrite mesg_refines by done. simpl.
    destruct (wrapper_spec env f gid gtype p force s Hwf). done.
  - by apply bump_wf.
Qed.

Lemma empty_pool_wf : pool_wf empty_pool.
Proof. split; simpl; intros; by simplify_map_eq. Qed.

Lemma reachable_wf s : rtc pool_step empty_pool s → pool_wf s.
Proof.
  intros Hr. pose proof empty_pool_wf as H0. revert H0.
  induction Hr as [|s1 s2 s3 Hs _ IH]; [done|]. intros Hwf. apply IH.
  by eapply pool_step_wf.
Qed.

Lemma get_id_inj l l' :
  (Z.of_N l < 2 ^ 64)%Z → (Z.of_N l' < 2 ^ 64)%Z → get_id l = get_id l' → l = l'.
Proof.
  intros Hl Hl'. unfold get_id. rewrite !u64_id by (unfold in_u64; lia). lia.
Qed.

(** A forced lookup returns a client that did not exist. *)
Lemma forced_fresh env f gid gtype p s :
  pool_wf s → (client_counter s ≤ (wrapper env f gid gtype p true s).1)%N ∧
  ((wrapper env f gid gtype p true s).1 < client_counter (wrapper env f gid gtype p true s).2)%N.
Proof.
  intros Hwf. unfold wrapper. pose proof (transport_spec env p false s Hwf) as [_ Hc _ _ _].
  destruct (transport env p false s) as [t s1]. simpl in *.
  destruct (as_messaging s1 (Some t)); [destruct (mesg_clients_of f s !! p) as [[l|]|]|];
    simpl; lia.
Qed.

(** A healthy transport is found again, whatever group asks. *)
Lemma transport_again env p s :
  group_clients s !! p = Some (Some (transport env p false s).1) →
  healthy env s (transport env p false s).1 = true →
  transport env p false s = ((transport env p false s).1, s).
Proof.
  set (t := (transport env p false s).1). intros Hg Hh. unfold transport. by rewrite Hg, Hh.
Qed.
(** A cached wrapper is what an unforced lookup returns, unless it fails. *)
Lemma kept_or_error env f gid gtype p s l :
  pool_wf s → mesg_clients_of f s !! p = Some (Some l) →
  heap (wrapper env f gid gtype p false s).2 !! (wrapper env f gid gtype p false s).1
    = Some ErrorClient ∨
  (wrapper env f gid gtype p false s).1 = l.
Proof.
  intros Hwf Hl. unfold wrapper. pose proof (transport_spec env p false s Hwf) as Htp.
  destruct (transport env p false s) as [t1 s1]. simpl in Htp.
  destruct (cached_proto f p s s1 t1 Hwf Htp p _ Hl) as (? & [= <-] & pc1 & Hpc1).
  rewrite Hl, Hpc1. destruct (as_messaging s1 (Some t1)) as [m|]; [by right|].
  left. apply lookup_insert_eq.
Qed.

(** When no healthy transport is cached and the peer is reachable, a wrapper lookup
    makes a transport at the next location. *)
Lemma wrapper_renews env f gid gtype p force s :
  pool_wf s →
  (∀ l, group_clients s !! p = Some (Some l) → healthy env s l = false) →
  lookupEndpoint env p ≠ EmptyString → make_ok env (lookupEndpoint env p) = true →
  let '(w, s') := wrapper env f gid gtype p force s in
  group_clients s' !! p = Some (Some (client_counter s)) ∧
  heap s' !! client_counter s = Some (MessagingClient (lookupEndpoint env p) 0) ∧
  ∃ pc, heap s' !! w = Some (ProtoClient pc) ∧ pc_client pc = Some (client_counter s).
Proof.
  intros Hwf Hb Hep Hmk.
  assert (transport env p false s = renew env p s) as Htr.
  { unfold transport. destruct (group_clients s !! p) as [[l|]|]; [|done|done].
    by rewrite (Hb l eq_refl). }
  pose proof (transport_spec env p false s Hwf) as Htp. rewrite Htr in Htp.
  unfold wrapper. rewrite Htr.
  unfold renew in *. rewrite decide_False, Hmk in * by done. simpl in *.
  rewrite as_messaging_Some by (eexists _, _; apply lookup_insert_eq).
  destruct (mesg_clients_of f s !! p) as [v|] eqn:Hp.
  - destruct (cached_proto f p s _ _ Hwf Htp p v Hp) as (l & -> & pcl & Hl). simpl in Hl.
    assert (l ≠ client_counter s) by (intros ->; rewrite lookup_insert_eq in Hl; done).
    destruct force; [|rewrite Hl]; simpl; rewrite lookup_insert_eq; (split; [done|]).
    + rewrite (lookup_insert_ne _ (client_counter s + 1)%N), !lookup_insert_eq by lia. eauto.
    + rewrite (lookup_insert_ne _ l), !lookup_insert_eq by done. eauto.
  - simpl. rewrite lookup_insert_eq. split; [done|].
    rewrite (lookup_insert_ne _ (client_counter s + 1)%N), !lookup_insert_eq by lia. eauto.
Qed.

(** ** Addresses of wrappers *)

Lemma addressed_to_le s s' p l : pool_le s s' → addressed_to s p l → addressed_to s' p l.
Proof.
  intros [_ Hle] (c & gid & gtype & Hl). destruct (Hle _ _ Hl) as (o & Ho & Hsame).
  inversion Hsame; subst. eexists _, _, _. exact Ho.
Qed.

(** The caches of a later pool are old ones, or have one new entry. *)
Lemma addressed_le s s' :
  addressed s → pool_le s s' →
  (∀ f p l, mesg_clients_of f s' !! p = Some (Some l) →
            mesg_clients_of f s !! p = Some (Some l) ∨ addressed_to s' p l) →
  addressed s'.
Proof.
  intros Ha Hle Hm f p l Hl. destruct (Hm f p l Hl) as [Hold|]; [|done].
  by eapply addressed_to_le, Ha.
Qed.

(** The wrappers a lookup leaves in a cache: those it found, and one it made. *)
Lemma wrapper_mesg_clients env f gid gtype p force s q l :
  pool_wf s →
  mesg_clients_of f (wrapper env f gid gtype p force s).2 !! q = Some (Some l) →
  mesg_clients_of f s !! q = Some (Some l) ∨
  ∃ c, heap (wrapper env f gid gtype p force s).2 !! l
       = Some (ProtoClient (mkProto c gid gtype (uuid_to_string q))).
Proof.
  intros Hwf. unfold wrapper. pose proof (transport_spec env p false s Hwf) as Htp.
  destruct (transport env p false s) as [t s1]. simpl in Htp.
  assert (∀ m v, m = mesg_clients_of f s ∨ m = <[p := Some (client_counter s1)]> (mesg_clients_of f s) →
            m !! q = v → v = Some (Some l) →
            mesg_clients_of f s !! q = Some (Some l) ∨ q = p ∧ l = client_counter s1) as Hcase.
  { intros m v [->| ->] <- Hq; [by left|]. destruct (decide (p = q)) as [<-|Hne].
    - rewrite lookup_insert_eq in Hq. injection Hq as <-. by right.
    - rewrite lookup_insert_ne in Hq by done. by left. }
  destruct (as_messaging s1 (Some t)) as [m|].
  2:{ simpl. rewrite mesg_clients_of_with. by left. }
  destruct (mesg_clients_of f s !! p) as [[l0|]|] eqn:Hp; [destruct force|..]; simpl.
  1,3,4: rewrite mesg_clients_of_with; intros Hq;
    destruct (Hcase _ _ (or_intror eq_refl) eq_refl Hq) as [?|[-> ->]]; [by left|right; eexists; apply lookup_insert_eq].
  destruct (heap s1 !! l0) as [[| |]|]; simpl; rewrite ?mesg_clients_of_with;
    unfold mesg_clients_of at 1; rewrite ?(tp_mesg _ _ _ _ Htp); by left.
Qed.

Lemma addressed_step s s' : pool_wf s → addressed s → pool_step s s' → addressed s'.
Proof.
  intros Hwf Ha Hs. pose proof (pool_step_wf s s' Hwf Hs) as [_ Hle].
  apply (addressed_le s s' Ha Hle). intros f p l. destruct Hs as [env q force|env g gid gtype q force|c].
  - rewrite group_refines by apply (wf_group s Hwf). simpl.
    pose proof (transport_spec env q force s Hwf) as Htp. unfold mesg_clients_of.
    rewrite (tp_mesg _ _ _ _ Htp). by left.
  - rewrite mesg_refines by done. simpl. destruct (decide (f = g)) as [->|Hne].
    + intros [?|(c & ?)]%wrapper_mesg_clients; [by left| |done]. right. by eexists _, _, _.
    + unfold mesg_clients_of.
      rewrite (wp_other_factories _ _ _ _ _ (wrapper_spec env g gid gtype q force s Hwf) f Hne).
      by left.
  - unfold bump_bad_service. destruct (heap s !! c) as [[| |]|]; simpl; by left.
Qed.

Lemma reachable_addressed s : rtc pool_step empty_pool s → addressed s.
Proof.
  assert (addressed empty_pool) as H0.
  { intros f p l. unfold mesg_clients_of. simpl. rewrite lookup_empty. simpl.
    by rewrite lookup_empty. }
  pose proof empty_pool_wf as Hwf0. intros Hr. revert H0 Hwf0.
  induction Hr as [|s1 s2 s3 Hs _ IH]; [done|]. intros Ha Hwf.
  apply IH; [by eapply addressed_step|by eapply pool_step_wf].
Qed.
End pool_reachable.

(** ** Properties *)

Section pool_theorems.
Context `{UuidOps}.

(** C25: The group factory implements the shared-transport contract: for every pool
    reachable from the empty one, looking a peer up returns the cached transport
    while it is connected and unmarked, and otherwise makes a new one, publishes
    it for all groups, or hands out an error client. *)
Theorem group_factory_implements_transport (s : pool) (env : net_env) (p : uuid) (force : bool) :
  rtc pool_step empty_pool s →
  create_or_reinit_client (group_factory env) p force s =
  (Ret (Some (transport env p force s).1), (transport env p force s).2).
Proof. intros Hr. apply group_refines, wf_group. by apply reachable_wf. Qed.

(** C1: A message factory implements the wrapper contract: a cached wrapper keeps its
    identity and adopts the current shared transport, a missing or forced one is
    made anew, and a failed lookup leaves the cache alone. *)
Theorem mesg_factory_implements_wrapper (s : pool) (env : net_env) (f : N) (gid : uuid)
    (gtype : string) (p : uuid) (force : bool) :
  rtc pool_step empty_pool s →
  create_or_reinit_client (mesg_factory env f gid gtype) p force s =
  (Ret (Some (wrapper env f gid gtype p force s).1), (wrapper env f gid gtype p force s).2).
Proof. intros Hr. by apply mesg_refines, reachable_wf. Qed.

(** In every reachable pool the caches hold no null pointers, the group cache
    holds transports only, the message caches hold wrappers only, and every
    wrapper points to a transport, so no dynamic cast on the data path fails. *)
Theorem pool_invariant (s : pool) : rtc pool_step empty_pool s → pool_wf s.
Proof. apply reachable_wf. Qed.

(** C36: NuRaft's [create_client(string)] yields, for every address that is a UUID, a client whose
    [get_id()] differs from that of every client made before, as its stale-response check
    requires (for fewer than [2^64] clients); for any other address it yields none. *)
Theorem create_client_new_id (s : pool) (env : net_env) (f : N) (gid : uuid) (gtype : string)
    (addr : string) :
  rtc pool_step empty_pool s →
  match string_generator addr with
  | None => create_client (mesg_factory env f gid gtype) addr s = (Ret None, s)
  | Some _ =>
      ∃ w s', create_client (mesg_factory env f gid gtype) addr s = (Ret (Some w), s') ∧
        ((Z.of_N (client_counter s') ≤ 2 ^ 64)%Z →
         ∀ l, (l < client_counter s)%N → get_id l ≠ get_id w)
  end.
Proof.
  intros Hr%reachable_wf. unfold create_client. destruct (string_generator addr) as [u|]; [|done].
  rewrite mesg_refines by done.
  pose proof (forced_fresh env f gid gtype u s Hr) as [Hlo Hhi].
  destruct (wrapper env f gid gtype u true s) as [w s']. simpl in *. exists w, s'.
  split; [done|]. intros Hbound l Hl Hid. apply get_id_inj in Hid; lia.
Qed.

(** The data path keeps the identity of a cached wrapper and updates it in
    place: after a lookup that is not forced, the cached wrapper either still has
    its old contents next to an error client, or is returned itself, pointing to
    the transport now published for the peer. *)
Theorem reinit_preserves_identity (s : pool) (env : net_env) (f : N) (gid : uuid)
    (gtype : string) (p : uuid) (w : N) (s' : pool) (l : N) :
  rtc pool_step empty_pool s →
  mesg_clients_of f s !! p = Some (Some l) →
  create_or_reinit_client (mesg_factory env f gid gtype) p false s = (Ret (Some w), s') →
  (heap s' !! w = Some ErrorClient ∧ mesg_clients_of f s' !! p = Some (Some l)) ∨
  (w = l ∧ ∃ pc t, heap s' !! l = Some (ProtoClient pc) ∧ pc_client pc = Some t ∧
                   is_messaging s' t ∧ group_clients s' !! p = Some (Some t)).
Proof.
  intros Hr%reachable_wf Hl Hc. rewrite mesg_refines in Hc by done.
  pose proof (wrapper_spec env f gid gtype p false s Hr) as [_ _ _ Hres].
  destruct (wrapper env f gid gtype p false s) as [w0 s0] eqn:E. injection Hc as <- <-.
  simpl in Hres. destruct Hres as [[He Hm]|(pc & t & Hw & Hc & Ht & Hg & Hm)].
  - left. split; [done|]. by rewrite Hm.
  - right. destruct (kept_or_error env f gid gtype p s l Hr Hl) as [He|Hw0];
      rewrite E in *; simpl in *; [congruence|]. subst w0. eauto 9 using unmarked_messaging.
Qed.

(** Groups share transports: once one group has a wrapper over a healthy
    transport to a peer, every other group's lookup (forced or not) returns a
    wrapper over that same transport and publishes nothing new. *)
Theorem groups_share_transport (s s1 s2 : pool) (env : net_env) (f1 f2 : N) (g1 g2 : uuid)
    (ty1 ty2 : string) (p : uuid) (force1 force2 : bool) (w1 w2 t : N) (pc1 : proto_client) :
  rtc pool_step empty_pool s →
  create_or_reinit_client (mesg_factory env f1 g1 ty1) p force1 s = (Ret (Some w1), s1) →
  heap s1 !! w1 = Some (ProtoClient pc1) → pc_client pc1 = Some t →
  healthy env s1 t = true →
  create_or_reinit_client (mesg_factory env f2 g2 ty2) p force2 s1 = (Ret (Some w2), s2) →
  group_clients s2 = group_clients s1 ∧
  ∃ pc2, heap s2 !! w2 = Some (ProtoClient pc2) ∧ pc_client pc2 = Some t.
Proof.
  intros Hr%reachable_wf H1 Hw1 Ht Hh H2. rewrite mesg_refines in H1 by done.
  pose proof (wrapper_spec env f1 g1 ty1 p force1 s Hr) as [Hwf1 _ _ Hres1].
  destruct (wrapper env f1 g1 ty1 p force1 s) as [w1' s1']. injection H1 as <- <-. simpl in *.
  destruct Hres1 as [[He _]|(pc & t' & Hpc & Hct & Htm & Hg & _)]; [congruence|].
  rewrite Hw1 in Hpc. injection Hpc as <-. rewrite Ht in Hct. injection Hct as <-.
  rewrite mesg_refines in H2 by done.
  assert (transport env p false s1' = (t, s1')) as Htr by (unfold transport; by rewrite Hg, Hh).
  unfold wrapper in H2.
  rewrite Htr, (as_messaging_Some s1' t (unmarked_messaging _ _ Htm)) in H2.
  destruct (mesg_clients_of f2 s1' !! p) as [v|] eqn:Hp.
  - destruct (mesg_of_wf s1' f2 p v Hwf1 Hp) as (l & -> & pcl & Hl). rewrite Hl in H2.
    destruct force2; injection H2 as <- <-; simpl; (split; [done|]);
      rewrite lookup_insert_eq; by eexists.
  - injection H2 as <- <-. simpl. split; [done|]. rewrite lookup_insert_eq. by eexists.
Qed.

(** A broken transport is replaced: when the shared transport is disconnected or
    marked bad and the peer can be reached, the next lookup of any group returns a
    wrapper over a new, unmarked transport that did not exist before, and
    publishes it. *)
Theorem broken_transport_replaced (s s' : pool) (env : net_env) (f : N) (gid : uuid)
    (gtype : string) (p : uuid) (force : bool) (w : N) :
  rtc pool_step empty_pool s →
  (∀ l, group_clients s !! p = Some (Some l) → healthy env s l = false) →
  lookupEndpoint env p ≠ EmptyString → make_ok env (lookupEndpoint env p) = true →
  create_or_reinit_client (mesg_factory env f gid gtype) p force s = (Ret (Some w), s') →
  heap s !! client_counter s = None ∧
  group_clients s' !! p = Some (Some (client_counter s)) ∧
  heap s' !! client_counter s = Some (MessagingClient (lookupEndpoint env p) 0) ∧
  ∃ pc, heap s' !! w = Some (ProtoClient pc) ∧ pc_client pc = Some (client_counter s).
Proof.
  intros Hr%reachable_wf Hb Hep Hmk Hc. rewrite mesg_refines in Hc by done.
  split; [by apply heap_counter_fresh|].
  pose proof (wrapper_renews env f gid gtype p force s Hr Hb Hep Hmk) as Hren.
  destruct (wrapper env f gid gtype p force s) as [w0 s0]. by injection Hc as <- <-.
Qed.
End pool_theorems.

(** ** Witnesses *)

Import Demo.

Definition demo_env : net_env :=
  mkEnv (λ u, match u with U1 => "10.0.0.1:9000" | _ => EmptyString end)%string (λ _, true)
    (λ _, true).

(** One group has looked the peer [U1] up. *)
Definition demo_pool : pool :=
  (create_or_reinit_client (mesg_factory demo_env 7 U2 "type") U1 false empty_pool).2.

Lemma demo_pool_reachable : rtc pool_step empty_pool demo_pool.
Proof. apply rtc_once. apply step_mesg. Qed.

Lemma group_factory_witness :
  create_or_reinit_client (group_factory demo_env) U1 false demo_pool = (Ret (Some 0%N), demo_pool).
Proof.
  rewrite (group_factory_implements_transport demo_pool demo_env U1 false demo_pool_reachable).
  by vm_compute.
Defined.

Lemma mesg_factory_witness :
  (create_or_reinit_client (mesg_factory demo_env 7 U2 "type") U1 false demo_pool).1
  = Ret (Some 1%N).
Proof.
  rewrite (mesg_factory_implements_wrapper demo_pool demo_env 7 U2 "type" U1 false
             demo_pool_reachable).
  by vm_compute.
Defined.

Lemma pool_invariant_witness : pool_wf demo_pool ∧ heap demo_pool !! 0%N ≠ None.
Proof. split; [apply (pool_invariant demo_pool demo_pool_reachable)|by vm_compute]. Defined.

Lemma create_client_new_id_witness :
  ∃ w s', create_client (mesg_factory demo_env 7 U2 "type") (demo_to_string U1) demo_pool
            = (Ret (Some w), s') ∧ get_id 1 ≠ get_id w.
Proof.
  destruct (create_client_new_id demo_pool demo_env 7 U2 "type" (demo_to_string U1) demo_pool_reachable)
    as (w & s' & Hrun & Hid).
  exists w, s'. split; [exact Hrun|]. apply Hid; [|by vm_compute].
  vm_compute in Hrun. injection Hrun as _ <-. by vm_compute.
Defined.

Lemma reinit_preserves_identity_witness :
  let s' := (create_or_reinit_client (mesg_factory demo_env 7 U2 "type") U1 false demo_pool).2 in
  (heap s' !! 1%N = Some ErrorClient ∧ mesg_clients_of 7 s' !! U1 = Some (Some 1%N)) ∨
  (1%N = 1%N ∧ ∃ pc t, heap s' !! 1%N = Some (ProtoClient pc) ∧ pc_client pc = Some t ∧
                   is_messaging s' t ∧ group_clients s' !! U1 = Some (Some t)).
Proof.
  apply (reinit_preserves_identity demo_pool demo_env 7 U2 "type" U1 1%N _ 1%N
            demo_pool_reachable); by vm_compute.
Defined.

Lemma groups_share_transport_witness :
  let s2 := (create_or_reinit_client (mesg_factory demo_env 8 U0 "other") U1 true demo_pool).2 in
  group_clients s2 = group_clients demo_pool ∧
  ∃ pc2, heap s2 !! 2%N = Some (ProtoClient pc2) ∧ pc_client pc2 = Some 0%N.
Proof.
  apply (groups_share_transport empty_pool demo_pool _ demo_env 7 8 U2 U0 "type" "other" U1
            false true 1%N 2%N 0%N (@mkProto demo_uuid_ops (Some 0%N) U2 "type" (demo_to_string U1))
            (rtc_refl _ _)); by vm_compute.
Defined.

(** The same pool after a failed call marked the transport. *)
Definition demo_marked : pool := (bump_bad_service 0%N demo_pool).2.

Lemma broken_transport_replaced_witness :
  let s' := (create_or_reinit_client (mesg_factory demo_env 7 U2 "type") U1 false demo_marked).2 in
  heap demo_marked !! 2%N = None ∧ group_clients s' !! U1 = Some (Some 2%N) ∧
  heap s' !! 2%N = Some (MessagingClient "10.0.0.1:9000" 0) ∧
  ∃ pc, heap s' !! 1%N = Some (ProtoClient pc) ∧ pc_client pc = Some 2%N.
Proof.
  apply (broken_transport_replaced demo_marked _ demo_env 7 U2 "type" U1 false 1%N).
  - eapply rtc_r; [apply demo_pool_reachable|]. apply step_bad.
  - intros l Hl. vm_compute in Hl. injection Hl as <-. by vm_compute.
  - done.
  - done.
  - by vm_compute.
Defined.
