(* ===== verification/DataPath.v ===== *)
(** * Sending: RAFT messages and data-service requests

    [messaging_client], [grpc_proto_client], [grpc_base_client::send] and the
    data-service requests of [mesg_factory]
    ([src/proto/proto_mesg_factory.cpp]), over the pool of [ClientPool].  An RPC
    is issued by adding a call to the result; what its future does when the
    transport library completes it is a separate function. *)

From stdpp Require Import base gmap strings list numbers.
From Stdlib Require Import Strings.Byte.
From S2P Require Import Prelude Types Codec Throttle ClientPool.

(** ** Calls and completions *)

(** The settings the senders read ([src/lib/nuraft_mesg_config.fbs]). *)
Record mesg_cfg := mkCfg {
  raft_request_deadline_secs : Z;
  data_request_deadline_secs : Z;
}.

Abbreviation io_blob_list := (list (list byte)).

(** A gRPC call on a transport. *)
Inductive rpc_call :=
| CallRaftStep (client : N) (message : RaftGroupMsg) (deadline : Z)
| CallGeneric (client : N) (request_name : string) (cli_buf : io_blob_list) (deadline : Z).

Definition call_client (c : rpc_call) : N :=
  match c with CallRaftStep l _ _ => l | CallGeneric l _ _ _ => l end.

(** A future: already satisfied, or the calls it waits for. *)
Inductive pending :=
| Done (c : Z)
| Calls (cs : list rpc_call).

(** How the transport completes a call. *)
Inductive rpc_response (A : Type) :=
| RpcValue (a : A)
| RpcError (s : Status).
Arguments RpcValue {A} _.
Arguments RpcError {A} _.

(** The arguments NuRaft's handler is invoked with. *)
Record handler_args := mkHandler { h_resp : option grpc_resp; h_err : option string }.

Section data_path.
Context `{UuidOps}.
Context (cfg : mesg_cfg).

(** ** Messaging client *)

Definition messaging_data_service_request (l : N) (request_name : string)
    (cli_buf : io_blob_list) : pending :=
  Calls [CallGeneric l request_name cli_buf (data_request_deadline_secs cfg)].

(** Completion of a unidirectional request. *)
Definition unidirectional_complete {A : Type} (response : rpc_response A) : NullResult :=
  match response with
  | RpcError st => Unexpected (grpc_status_to_nuraft_code st)
  | RpcValue _ => Value tt
  end.

(** Completion of a bidirectional request: a failure marks the transport, if it
    is still alive, and reports an address to the throttled log. *)
Definition bidirectional_complete {A : Type} (alive : bool) (l : N) (response : rpc_response A)
  : M pool (Result A * option (string * Status)) :=
  match response with
  | RpcError st =>
      addr ← (if alive
              then bump_bad_service l;;
                   gets (λ s, match heap s !! l with
                              | Some (MessagingClient addr _) => addr
                              | _ => "unknown"
                              end)
              else mret "unknown"%string);
      mret (Unexpected (grpc_status_to_nuraft_code st), Some (addr, st))
  | RpcValue a => mret (Value a, None)
  end.

(** What [grpc_base_client::send] makes of a response: the arguments of NuRaft's
    handler. *)
Definition send_handler (response : RaftMessage) (status : Status) : handler_args :=
  if is_ok status
  then match toResponse response with
       | Some r => mkHandler (Some r) None
       | None => mkHandler None (Some "missing response"%string)
       end
  else mkHandler None (Some (error_message status)).

(** [send_grp]'s completion: a message sent to the wrong service marks the
    transport; the handler of [grpc_base_client::send] follows. *)
Definition send_complete (alive : bool) (l : N) (response : RaftMessage) (status : Status)
  : M pool handler_args :=
  (match error_code status with
   | ST_INVALID_ARGUMENT => if alive then bump_bad_service l else mret tt
   | _ => mret tt
   end);;
  mret (send_handler response status).

(** The completion of the FlatBuffers client's [send]: [toResponse] makes its message
    with [make_shared], so it is never missing. *)
Definition fb_send_complete (response : FbResponse) (status : Status) : outcome handler_args :=
  if is_ok status
  then match fb_toResponse response with
       | Ret r => Ret (mkHandler (Some r) None)
       | Throw e => Throw e
       | Ub e => Ub e
       end
  else Ret (mkHandler None (Some (error_message status))).

(** ** Protobuf client *)

Definition reinitRequired (s : pool) (pc : proto_client) : bool :=
  match pc_client pc with
  | None => true
  | Some c => match heap s !! c with
              | Some (MessagingClient _ bad_service) => (0 <? bad_service)%Z
              | _ => false
              end
  end.

Definition send_raft (pc : proto_client) (message : RaftMessage) : M pool rpc_call :=
  c ← deref "null _client" (pc_client pc);
  mret (CallRaftStep c
          (mkRaftGroupMsg (uuid_to_string (pc_group_id pc)) message (pc_client_addr pc)
             (pc_group_type pc))
          (raft_request_deadline_secs cfg)).

(** What [client->send(req, complete)] does: completes at once, or issues a call.
    Second component: the request, with its buffers rewound. *)
Inductive sent :=
| Completed (a : handler_args)
| Issued (c : rpc_call) (req : req_msg).

(** [grpc_error_client::send]: the handler runs at once. *)
Definition error_send : sent := Completed (mkHandler None (Some "Bad connection"%string)).

(** [rpc_client::send], by dynamic type.  [grpc_base_client::send] casts [this]
    to [grpc_proto_client], which a bare transport is not. *)
Definition send (client : option N) (req : req_msg) : M pool sent :=
  l ← deref "null client" client;
  o ← gets (λ s, heap s !! l);
  match o with
  | Some (ProtoClient pc) =>
      '(m, req') ← deref "buffer over-read" (request_message req);
      c ← send_raft pc m;
      mret (Issued c req')
  | Some ErrorClient => mret error_send
  | _ => ub "not a grpc_proto_client"
  end.

(** ** Message factory: data-service requests *)

Section requests.
Context (env : net_env) (f : N) (_group_id : uuid) (_group_type : string).

Let F := mesg_factory env f _group_id _group_type.

(** [g_client->data_service_request_*(...)]: both pointers are dereferenced. *)
Definition g_client_request (g_client : option (N * proto_client)) (request_name : string)
    (cli_buf : io_blob_list) : M pool pending :=
  '(_, pc) ← deref "null g_client" g_client;
  c ← deref "null _client" (pc_client pc);
  mret (messaging_data_service_request c (get_generic_method_name request_name _group_id) cli_buf).

(** The cold path both kinds of request share. *)
Definition create_and_request (p : uuid) (request_name : string) (cli_buf : io_blob_list)
  : M pool pending :=
  client ← create_or_reinit_client F p false;
  g_client ← gets (λ s, as_proto s client);
  match g_client with
  | None => mret (Done code.SERVER_NOT_FOUND)
  | Some _ => g_client_request g_client request_name cli_buf
  end.

(** One request per cached client.  [map_to_list] fixes some order in place of the
    order of uuids; nothing below depends on it. *)
Fixpoint request_all (clients : list (uuid * option N)) (request_name : string)
    (cli_buf : io_blob_list) : M pool (list rpc_call) :=
  match clients with
  | [] => mret []
  | (_, c) :: rest =>
      g_client ← gets (λ s, as_proto s c);
      r ← g_client_request g_client request_name cli_buf;
      cs ← request_all rest request_name cli_buf;
      mret (match r with Calls c => c | Done _ => [] end ++ cs)
  end.

Definition data_service_request_unidirectional (dest : option (Result uuid))
    (request_name : string) (cli_buf : io_blob_list) : M pool pending :=
  match dest with
  | Some (Unexpected err) => mret (Done err)
  | Some (Value p) =>
      clients ← gets (mesg_clients_of f);
      match clients !! p with
      | Some c =>
          g_client ← gets (λ s, as_proto s c);
          g_client_request g_client request_name cli_buf
      | None => create_and_request p request_name cli_buf
      end
  | None =>
      clients ← gets (mesg_clients_of f);
      cs ← request_all (map_to_list clients) request_name cli_buf;
      mret (Calls cs)
  end.

Definition data_service_request_bidirectional (dest : option (Result uuid))
    (request_name : string) (cli_buf : io_blob_list) : M pool pending :=
  match dest with
  | None => mret (Done code.BAD_REQUEST)
  | Some (Unexpected err) => mret (Done err)
  | Some (Value p) =>
      clients ← gets (mesg_clients_of f);
      match clients !! p with
      | Some c =>
          g_client ← gets (λ s, as_proto s c);
          '(_, pc) ← deref "null g_client" g_client;
          reinit ← gets (λ s, reinitRequired s pc);
          if negb reinit then g_client_request g_client request_name cli_buf
          else create_and_request p request_name cli_buf
      | None => create_and_request p request_name cli_buf
      end
  end.
End requests.

(** [folly::collectAll(calls)] of a broadcast: the results are dropped. *)
Definition broadcast_complete {A : Type} (responses : list (rpc_response A)) : NullResult :=
  let _ := unidirectional_complete <$> responses in Value tt.
End data_path.

(** ** Lemmas *)

Section data_path_lemmas.
Context `{UuidOps}.
Context (cfg : mesg_cfg).
Implicit Types (s : pool) (env : net_env) (p gid : uuid) (l t : N).

Definition generic_call (gid : uuid) (name : string) (buf : io_blob_list) (t : N) : rpc_call :=
  CallGeneric t (get_generic_method_name name gid) buf (data_request_deadline_secs cfg).

Lemma g_client_request_run gid name buf s l pc t :
  pc_client pc = Some t →
  g_client_request cfg gid (Some (l, pc)) name buf s = (Ret (Calls [generic_call gid name buf t]), s).
Proof. intros Hc. unfold g_client_request, mbind, M_bind. simpl. by rewrite Hc. Qed.

Lemma as_proto_Some s l pc :
  heap s !! l = Some (ProtoClient pc) → as_proto s (Some l) = Some (l, pc).
Proof. intros Hl. unfold as_proto. simpl. by rewrite Hl. Qed.

Lemma as_proto_error s l : heap s !! l = Some ErrorClient → as_proto s (Some l) = None.
Proof. intros Hl. unfold as_proto. simpl. by rewrite Hl. Qed.

(** A wrapper in a well-formed cache, with its transport. *)
Lemma cached_wrapper s f p c :
  pool_wf s → mesg_clients_of f s !! p = Some c →
  ∃ l pc t, c = Some l ∧ heap s !! l = Some (ProtoClient pc) ∧ pc_client pc = Some t ∧
            is_messaging s t.
Proof.
  intros Hwf Hp. destruct (mesg_of_wf s f p c Hwf Hp) as (l & -> & pc & Hl).
  destruct (wf_proto s Hwf l pc Hl) as (t & Ht & Hm). eauto 8.
Qed.

(** The cold path: the lookup's error client gives [SERVER_NOT_FOUND], its wrapper
    one call over an unmarked transport published for the peer. *)
Lemma create_and_request_spec env f gid gtype p name buf s :
  pool_wf s →
  ∃ r, create_and_request cfg env f gid gtype p name buf s
       = (Ret r, (wrapper env f gid gtype p false s).2) ∧
  (r = Done code.SERVER_NOT_FOUND ∧
   heap (wrapper env f gid gtype p false s).2 !! (wrapper env f gid gtype p false s).1
     = Some ErrorClient ∨
   ∃ t, r = Calls [generic_call gid name buf t] ∧
        unmarked (wrapper env f gid gtype p false s).2 t ∧
        group_clients (wrapper env f gid gtype p false s).2 !! p = Some (Some t)).
Proof.
  intros Hwf. pose proof (wrapper_spec env f gid gtype p false s Hwf) as [_ _ _ Hres].
  unfold create_and_request. unfold mbind at 1, M_bind at 1. rewrite mesg_refines by done.
  destruct (wrapper env f gid gtype p false s) as [w s1]. simpl in *.
  unfold mbind, M_bind, gets.
  destruct Hres as [[He _]|(pc & t & Hw & Hc & Hu & Hg & _)].
  - rewrite (as_proto_error _ _ He). eexists. split; [done|]. by left.
  - rewrite (as_proto_Some _ _ _ Hw), (g_client_request_run gid name buf s1 w pc t Hc).
    eexists. split; [done|]. right. eauto.
Qed.

Lemma unidirectional_cached env f gid gtype p name buf s l pc t :
  mesg_clients_of f s !! p = Some (Some l) → heap s !! l = Some (ProtoClient pc) →
  pc_client pc = Some t →
  data_service_request_unidirectional cfg env f gid gtype (Some (Value p)) name buf s
  = (Ret (Calls [generic_call gid name buf t]), s).
Proof.
  intros Hp Hl Ht. unfold data_service_request_unidirectional, mbind, M_bind, gets. rewrite Hp.
  rewrite (as_proto_Some _ _ _ Hl). by apply g_client_request_run.
Qed.

Lemma request_all_run gid name buf s (cl : list (uuid * option N)) :
  (∀ p c, (p, c) ∈ cl → ∃ l pc t, c = Some l ∧ heap s !! l = Some (ProtoClient pc) ∧
                                  pc_client pc = Some t) →
  ∃ ts, request_all cfg gid cl name buf s = (Ret (generic_call gid name buf <$> ts), s) ∧
        Forall2 (λ pcl t, ∃ l pc, pcl.2 = Some l ∧ heap s !! l = Some (ProtoClient pc) ∧
                                  pc_client pc = Some t) cl ts.
Proof.
  induction cl as [|[p c] cl IH]; intros Hcl.
  { exists []. split; [done|constructor]. }
  destruct (Hcl p c) as (l & pc & t & -> & Hl & Ht); [left|].
  destruct IH as (ts & Hrun & Hts). { intros p' c' Hin. apply (Hcl p'). by right. }
  exists (t :: ts). split; [|constructor; [by exists l, pc|done]].
  cbn [request_all]. unfold mbind, M_bind, gets. rewrite (as_proto_Some _ _ _ Hl).
  rewrite (g_client_request_run gid name buf s l pc t Ht), Hrun. done.
Qed.
End data_path_lemmas.

(** ** Properties *)

Section data_path_theorems.
Context `{UuidOps}.

(** No data-service request, of either kind, to any destination, crashes or
    throws in a reachable pool: every cast and pointer on the path is good. *)
Theorem data_requests_safe (cfg : mesg_cfg) (env : net_env) (f : N) (gid : uuid)
    (gtype : string) (dest : option (Result uuid)) (name : string) (buf : io_blob_list)
    (s : pool) :
  rtc pool_step empty_pool s →
  (∃ r s', data_service_request_unidirectional cfg env f gid gtype dest name buf s = (Ret r, s'))
  ∧ (∃ r s', data_service_request_bidirectional cfg env f gid gtype dest name buf s = (Ret r, s')).
Proof.
  intros Hwf%reachable_wf. destruct dest as [[p|e]|]; [|by split; eexists _, _|].
  - destruct (create_and_request_spec cfg env f gid gtype p name buf s Hwf) as (r & Hr & _).
    unfold data_service_request_unidirectional, data_service_request_bidirectional,
      mbind, M_bind, gets.
    destruct (mesg_clients_of f s !! p) as [c|] eqn:Hp; [|rewrite Hr; by split; eexists _, _].
    destruct (cached_wrapper s f p c Hwf Hp) as (l & pc & t & -> & Hl & Ht & _).
    rewrite (as_proto_Some _ _ _ Hl), (g_client_request_run cfg gid name buf s l pc t Ht).
    split; [by eexists _, _|]. simpl. destruct (reinitRequired s pc); simpl.
    + rewrite Hr. by eexists _, _.
    + rewrite (g_client_request_run cfg gid name buf s l pc t Ht). by eexists _, _.
  - split; [|by eexists _, _].
    destruct (request_all_run cfg gid name buf s (map_to_list (mesg_clients_of f s)))
      as (ts & Hrun & _).
    { intros p c Hin%elem_of_map_to_list.
      destruct (cached_wrapper s f p c Hwf Hin) as (l & pc & t & ? & ? & ? & _). eauto 8. }
    unfold data_service_request_unidirectional, mbind, M_bind, gets. rewrite Hrun.
    by eexists _, _.
Qed.

(** A bidirectional request to a peer is answered [SERVER_NOT_FOUND] without a call,
    or issues exactly one call, on the group's method name, over a transport that no
    earlier failure has marked. *)
Theorem bidirectional_over_unmarked (cfg : mesg_cfg) (env : net_env) (f : N) (gid : uuid)
    (gtype : string) (p : uuid) (name : string) (buf : io_blob_list) (s s' : pool) (r : pending) :
  rtc pool_step empty_pool s →
  data_service_request_bidirectional cfg env f gid gtype (Some (Value p)) name buf s = (Ret r, s') →
  r = Done code.SERVER_NOT_FOUND ∨
  ∃ t, r = Calls [generic_call cfg gid name buf t] ∧ unmarked s' t.
Proof.
  intros Hwf%reachable_wf Hr.
  destruct (create_and_request_spec cfg env f gid gtype p name buf s Hwf) as (r' & Hr' & Hcases).
  assert ((Ret r, s') = (Ret r', (wrapper env f gid gtype p false s).2) →
          r = Done code.SERVER_NOT_FOUND ∨
          ∃ t, r = Calls [generic_call cfg gid name buf t] ∧ unmarked s' t) as Hcold.
  { intros [= -> ->]. destruct Hcases as [[-> _]|(t & -> & Hu & _)]; [by left|right; eauto]. }
  unfold data_service_request_bidirectional, mbind, M_bind, gets in Hr.
  destruct (mesg_clients_of f s !! p) as [c|] eqn:Hp; [|apply Hcold; by rewrite <-Hr'].
  destruct (cached_wrapper s f p c Hwf Hp) as (l & pc & t & -> & Hl & Ht & a & b & Htm).
  rewrite (as_proto_Some _ _ _ Hl) in Hr. simpl in Hr. unfold reinitRequired in Hr.
  rewrite Ht, Htm in Hr. destruct (Z.ltb_spec 0 b) as [Hb|Hb]; simpl in Hr.
  - apply Hcold. by rewrite <-Hr'.
  - rewrite (g_client_request_run cfg gid name buf s l pc t Ht) in Hr. injection Hr as <- <-.
    right. exists t. split; [done|]. by exists a, b.
Qed.

(** C17: A failed bidirectional call is not repeated over the same connection: the failure
    completes with an error code and marks the transport, and the next bidirectional
    request to the peer, when the peer can be reached, goes over a new unmarked
    transport, through the wrapper NuRaft already holds.  A unidirectional request that comes
    before it does not look at the mark, and goes over the marked transport. *)
Theorem bidirectional_recovers (A : Type) (cfg : mesg_cfg) (env : net_env) (f : N) (gid : uuid)
    (gtype : string) (p : uuid) (name : string) (buf : io_blob_list) (s : pool) (l t : N)
    (pc : proto_client) (addr : string) (bad : Z) (st : Status) :
  rtc pool_step empty_pool s →
  mesg_clients_of f s !! p = Some (Some l) → heap s !! l = Some (ProtoClient pc) →
  pc_client pc = Some t → group_clients s !! p = Some (Some t) →
  heap s !! t = Some (MessagingClient addr bad) → (0 ≤ bad < 2 ^ 32 - 1)%Z →
  error_code st ≠ ST_OK →
  lookupEndpoint env p ≠ EmptyString → make_ok env (lookupEndpoint env p) = true →
  ∃ e s1 s2,
    bidirectional_complete (A := A) true t (RpcError st) s
      = (Ret (Unexpected e, Some (addr, st)), s1) ∧ e ≠ code.OK ∧
    data_service_request_unidirectional cfg env f gid gtype (Some (Value p)) name buf s1
      = (Ret (Calls [generic_call cfg gid name buf t]), s1) ∧ ¬ unmarked s1 t ∧
    data_service_request_bidirectional cfg env f gid gtype (Some (Value p)) name buf s1
      = (Ret (Calls [generic_call cfg gid name buf (client_counter s)]), s2) ∧
    heap s !! client_counter s = None ∧ unmarked s2 (client_counter s) ∧
    ∃ pc', heap s2 !! l = Some (ProtoClient pc') ∧ pc_client pc' = Some (client_counter s).
Proof.
  intros Hwf%reachable_wf Hp Hl Hc Hg Ht Hbad Hst Hep Hmk.
  assert (bump_bad_service t s = (Ret tt, with_object t (MessagingClient addr (bad + 1)) s))
    as Hbump.
  { unfold bump_bad_service. rewrite Ht. by rewrite u32_id by (unfold in_u32; lia). }
  exists (grpc_status_to_nuraft_code st), (with_object t (MessagingClient addr (bad + 1)) s).
  destruct (bump_wf t s Hwf) as [Hwf1 _]. rewrite Hbump in Hwf1. simpl in Hwf1.
  set (s1 := with_object t (MessagingClient addr (bad + 1)) s) in *.
  assert (l ≠ t) as Hne by congruence.
  assert (heap s1 !! l = Some (ProtoClient pc)) as Hl1 by (simpl; by rewrite lookup_insert_ne).
  assert (heap s1 !! t = Some (MessagingClient addr (bad + 1))) as Ht1 by apply lookup_insert_eq.
  assert (group_clients s1 !! p = Some (Some t)) as Hg1 by exact Hg.
  assert (mesg_clients_of f s1 !! p = Some (Some l)) as Hp1 by exact Hp.
  pose proof (heap_counter_fresh s Hwf) as Hfresh.
  change (client_counter s) with (client_counter s1) in *. clearbody s1.
  assert (∀ k, group_clients s1 !! p = Some (Some k) → healthy env s1 k = false) as Hunh.
  { intros k Hk. rewrite Hg1 in Hk. injection Hk as <-. unfold healthy. rewrite Ht1.
    destruct (Z.ltb_spec 0 (bad + 1)); [|lia]. apply andb_false_r. }
  pose proof (wrapper_renews env f gid gtype p false s1 Hwf1 Hunh Hep Hmk) as Hren.
  destruct (create_and_request_spec cfg env f gid gtype p name buf s1 Hwf1) as (r & Hr & Hcases).
  pose proof (kept_or_error env f gid gtype p s1 l Hwf1 Hp1) as Hkept.
  destruct (wrapper env f gid gtype p false s1) as [w s2]. simpl in *.
  destruct Hren as (Hg2 & Ht2 & pc' & Hw & Hpc').
  destruct Hkept as [He| ->]; [congruence|].
  exists s2. unfold bidirectional_complete, mbind, M_bind, gets. rewrite Hbump, Ht1.
  split; [done|]. split.
  { destruct st as [[] m]; simpl in *; done. }
  split; [|split; [|split; [|split; [done|]]]].
  - unfold data_service_request_unidirectional, mbind, M_bind, gets.
    rewrite Hp1, (as_proto_Some _ _ _ Hl1). by apply g_client_request_run.
  - intros (a & b & Hu & Hb). rewrite Ht1 in Hu. injection Hu as <- <-. lia.
  - destruct Hcases as [[_ He]|(t2 & -> & _ & Hg2')]; [congruence|].
    rewrite Hg2 in Hg2'. injection Hg2' as <-.
    unfold data_service_request_bidirectional, mbind, M_bind, gets.
    rewrite Hp1, (as_proto_Some _ _ _ Hl1). simpl. unfold reinitRequired. rewrite Hc, Ht1.
    destruct (Z.ltb_spec 0 (bad + 1)); [|lia]. exact Hr.
  - split; [|eauto]. eexists _, _. split; [exact Ht2|done].
Qed.

(** A broadcast issues exactly one call per cached peer, on the group's method name,
    over that peer's transport, leaves the pool alone, and completes successfully
    whatever the single calls return. *)
Theorem broadcast_reaches_all {A : Type} (cfg : mesg_cfg) (env : net_env) (f : N) (gid : uuid)
    (gtype : string) (name : string) (buf : io_blob_list) (s : pool)
    (responses : list (rpc_response A)) :
  rtc pool_step empty_pool s →
  broadcast_complete responses = Value tt ∧
  ∃ ts, data_service_request_unidirectional cfg env f gid gtype None name buf s
          = (Ret (Calls (generic_call cfg gid name buf <$> ts)), s) ∧
        Forall2 (λ pcl t, ∃ l pc, pcl.2 = Some l ∧ heap s !! l = Some (ProtoClient pc) ∧
                                  pc_client pc = Some t)
          (map_to_list (mesg_clients_of f s)) ts.
Proof.
  intros Hwf%reachable_wf. split; [done|].
  destruct (request_all_run cfg gid name buf s (map_to_list (mesg_clients_of f s)))
    as (ts & Hrun & Hts).
  { intros p c Hin%elem_of_map_to_list.
    destruct (cached_wrapper s f p c Hwf Hin) as (l & pc & t & ? & ? & ? & _). eauto 8. }
  exists ts. split; [|done].
  unfold data_service_request_unidirectional, mbind, M_bind, gets. by rewrite Hrun.
Qed.

(** A RAFT message sent through a wrapper is addressed to the wrapper's peer and group
    and carries a request the server decodes to the original one: the group message's
    UUIDs parse back, and so does the request. *)
Theorem send_addresses_peer `{!UuidLaws} (cfg : mesg_cfg) (s : pool) (l t : N) (p gid : uuid)
    (gtype : string) (req : req_msg) :
  heap s !! l = Some (ProtoClient (mkProto (Some t) gid gtype (uuid_to_string p))) →
  wf_req req →
  ∃ m d, send cfg (Some l) req s = (Ret (Issued (CallRaftStep t m d) (rewind_req req)), s) ∧
         string_generator (g_intended_addr m) = Some p ∧
         string_generator (g_group_id m) = Some gid ∧
         g_group_type m = gtype ∧
         toRequest true (g_msg m) = Some (rewind_req req).
Proof.
  intros Hl Hwf. destruct (fromRCRequest_total req) as (rc & Hrc & _).
  unfold send, mbind, M_bind, gets. simpl. rewrite Hl.
  unfold request_message. rewrite Hrc. simpl. eexists _, _. split; [done|]. simpl.
  rewrite !generator_to_string. split_and!; [done..|].
  by apply (decode_encoded true req rc).
Qed.

(** NuRaft's handler gets the same arguments from the FlatBuffers client as from the
    protobuf client, whatever the status, for a response with the same contents (which
    has no batch hint in FlatBuffers, and its result code negated in protobuf). *)
Theorem flatb_completion_agrees (alive : bool) (l : N) (base : RCMsgBase) (next : Z)
    (accepted : bool) (addr : string) (rc : Z) (context : list byte) (status : Status) (s : pool) :
  in_i32 rc →
  (send_complete alive l
     (mkRaftMessage (Some base) (RcResponse (mkRCResponse next accepted context addr (i32 (0 - rc)) 0)))
     status s).1 =
  fb_send_complete (mkFbResponse (Some base) next accepted (Some addr) rc (Some context)) status.
Proof.
  intros Hrc. unfold send_complete, send_handler, fb_send_complete, fb_toResponse, toResponse, mbind, M_bind. simpl.
  rewrite i32_opp_opp by done.
  assert (∀ m, m = bump_bad_service l ∨ m = mret tt → ∃ s', m s = (Ret tt, s')) as Hm.
  { intros m [-> | ->]; [|by eexists]. unfold bump_bad_service, set_object.
    destruct (heap s !! l) as [[]|]; by eexists. }
  destruct (Hm (match error_code status with
                | ST_INVALID_ARGUMENT => if alive then bump_bad_service l else mret tt
                | _ => mret tt
                end)) as (s' & ->); [destruct (error_code status), alive; auto|].
  simpl. destruct (is_ok status); [|done]. by destruct (decide (rc = code.NOT_LEADER)).
Qed.
End data_path_theorems.

(** ** Witnesses *)

Import Demo.

Definition demo_cfg : mesg_cfg := mkCfg 2 2.

Lemma data_requests_safe_witness :
  (∃ r s', data_service_request_unidirectional demo_cfg demo_env 7 U2 "type" None "ping" []
             demo_pool = (Ret r, s')) ∧
  (∃ r s', data_service_request_bidirectional demo_cfg demo_env 7 U2 "type" None "ping" []
             demo_pool = (Ret r, s')).
Proof.
  apply (data_requests_safe demo_cfg demo_env 7 U2 "type" None "ping" [] demo_pool
           demo_pool_reachable).
Defined.

Lemma bidirectional_over_unmarked_witness :
  Calls [CallGeneric 0 (get_generic_method_name "ping" U2) [] 2] = Done code.SERVER_NOT_FOUND ∨
  ∃ t, Calls [CallGeneric 0 (get_generic_method_name "ping" U2) [] 2]
       = Calls [generic_call demo_cfg U2 "ping" [] t] ∧ unmarked demo_pool t.
Proof.
  apply (bidirectional_over_unmarked demo_cfg demo_env 7 U2 "type" U1 "ping" [] demo_pool
           demo_pool _ demo_pool_reachable). by vm_compute.
Defined.

Lemma bidirectional_recovers_witness :
  ∃ e s1 s2,
    bidirectional_complete (A := nat) true 0 (RpcError (mkStatus ST_UNAVAILABLE "down")) demo_pool
      = (Ret (Unexpected e, Some ("10.0.0.1:9000"%string, mkStatus ST_UNAVAILABLE "down")), s1) ∧
    e ≠ code.OK ∧
    data_service_request_unidirectional demo_cfg demo_env 7 U2 "type" (Some (Value U1)) "ping" [] s1
      = (Ret (Calls [generic_call demo_cfg U2 "ping" [] 0]), s1) ∧ ¬ unmarked s1 0 ∧
    data_service_request_bidirectional demo_cfg demo_env 7 U2 "type" (Some (Value U1)) "ping" [] s1
      = (Ret (Calls [generic_call demo_cfg U2 "ping" [] (client_counter demo_pool)]), s2) ∧
    heap demo_pool !! client_counter demo_pool = None ∧ unmarked s2 (client_counter demo_pool) ∧
    ∃ pc', heap s2 !! 1%N = Some (ProtoClient pc') ∧ pc_client pc' = Some (client_counter demo_pool).
Proof.
  apply (bidirectional_recovers nat demo_cfg demo_env 7 U2 "type" U1 "ping" [] demo_pool 1 0
           (@mkProto demo_uuid_ops (Some 0%N) U2 "type" (demo_to_string U1)) "10.0.0.1:9000" 0
           (mkStatus ST_UNAVAILABLE "down") demo_pool_reachable);
    try (by vm_compute); lia.
Defined.

Lemma broadcast_reaches_all_witness :
  broadcast_complete [RpcError (A := nat) (mkStatus ST_UNAVAILABLE "down")] = Value tt ∧
  ∃ ts, data_service_request_unidirectional demo_cfg demo_env 7 U2 "type" None "ping" [] demo_pool
          = (Ret (Calls (generic_call demo_cfg U2 "ping" [] <$> ts)), demo_pool) ∧
        Forall2 (λ pcl t, ∃ l pc, pcl.2 = Some l ∧ heap demo_pool !! l = Some (ProtoClient pc) ∧
                                  pc_client pc = Some t)
          (map_to_list (mesg_clients_of 7 demo_pool)) ts.
Proof.
  apply (broadcast_reaches_all demo_cfg demo_env 7 U2 "type" "ping" [] demo_pool
           [RpcError (mkStatus ST_UNAVAILABLE "down")] demo_pool_reachable).
Defined.

Lemma send_addresses_peer_witness :
  ∃ m d, send demo_cfg (Some 1%N) (mkReq 7 3 1 2 5 6 4 []) demo_pool
         = (Ret (Issued (CallRaftStep 0 m d) (mkReq 7 3 1 2 5 6 4 [])), demo_pool) ∧
         string_generator (g_intended_addr m) = Some U1 ∧
         string_generator (g_group_id m) = Some U2 ∧
         g_group_type m = "type"%string ∧
         toRequest true (g_msg m) = Some (mkReq 7 3 1 2 5 6 4 []).
Proof.
  apply (send_addresses_peer demo_cfg demo_pool 1 0 U1 U2 "type" (mkReq 7 3 1 2 5 6 4 [])).
  - by vm_compute.
  - unfold wf_req, in_u64, in_u32, in_i32; simpl. repeat split; try lia. constructor.
Defined.

Lemma flatb_completion_agrees_witness :
  in_i32 code.OK ∧
  (send_complete true 0
     (mkRaftMessage (Some (mkBase 1 4 2 3)) (RcResponse (mkRCResponse 9 true [] "x" (i32 (0 - code.OK)) 0)))
     (mkStatus ST_INVALID_ARGUMENT "wrong service") demo_pool).1 =
  fb_send_complete (mkFbResponse (Some (mkBase 1 4 2 3)) 9 true (Some "x") code.OK (Some []))
    (mkStatus ST_INVALID_ARGUMENT "wrong service").
Proof.
  assert (in_i32 code.OK) as Hrc by (unfold in_i32, code.OK; lia).
  split; [exact Hrc|]. by apply (flatb_completion_agrees true 0 (mkBase 1 4 2 3) 9 true "x" code.OK []).
Defined.
