(* ===== verification/PoolThreads.v ===== *)
(** * Client lookups and data-service requests as threads

    [grpc_factory::create_or_reinit_client] ([src/lib/factory.cpp]) and the requests of
    [mesg_factory] ([src/proto/proto_mesg_factory.cpp]) at the granularity of the locks they
    take.  A lookup through a group's factory holds the factory's [_client_lock] while it
    asks the shared factory for a transport, so lookups of other groups, and failures that
    mark transports, come in between; while it does, its entry in the cache may be null.
    Requests read the cache with the lock shared.  [ClientPool] and [DataPath] have the same
    operations as single calls. *)

From stdpp Require Import base gmap strings list numbers relations.
From S2P Require Import Prelude Types Codec ClientPool DataPath.

Section pool_threads.
Context `{UuidOps}.
Context (cfg : mesg_cfg).

(** ** Sections *)

(** The lock is taken, and an entry made if there is none: whether to create a client, and
    what is in the slot. *)
Definition enter_section (f : N) (client : uuid) (force_recreate : bool) : M pool (bool * option N) :=
  clients ← gets (mesg_clients_of f);
  let '(clients', happened) := emplace client None clients in
  modify (with_mesg f clients');;
  mret (happened || force_recreate, default None (clients' !! client)).

(** What a lookup asks the shared factory for; it has a lock of its own. *)
Definition transport_section (env : net_env) (client : uuid) : M pool (option N) :=
  create_or_reinit_client (group_factory env) client false.

(** The end of [create_or_reinit_client], before the lock is released. *)
Definition finish_section (f : N) (client : uuid) (err : Z) (slot : option N) : M pool (option N) :=
  modify (λ s, with_mesg f (<[client := slot]> (mesg_clients_of f s)) s);;
  new_client ← (if decide (err ≠ code.OK)
                then l ← new_client ErrorClient; mret (Some l)
                else mret slot);
  match slot with
  | None => modify (λ s, with_mesg f (delete client (mesg_clients_of f s)) s)
  | Some _ => mret tt
  end;;
  mret new_client.

(** The rest of [mesg_factory::create_client] or [reinit_client] after the shared factory
    has answered [c], and the end of the lookup. *)
Definition publish_section (f : N) (_group_id : uuid) (_group_type : string) (client : uuid)
    (do_create : bool) (slot c : option N) : M pool (option N) :=
  m_client ← gets (λ s, as_messaging s c);
  r ← match m_client with
      | None => mret (code.CANCELLED, slot)
      | Some m =>
          if do_create
          then l ← new_client (ProtoClient (mkProto (Some m) _group_id _group_type
                                              (uuid_to_string client)));
               mret (code.OK, Some l)
          else
            pc ← gets (λ s, as_proto s slot);
            match pc with
            | Some (l, pc) => setClient l pc (Some m);; mret (code.OK, slot)
            | None => ub "null g_client"
            end
      end;
  let '(err, slot') := r in
  finish_section f client err slot'.

(** A cached client that can be used, with the lock shared; [None] when the request has to
    look the client up. *)
Definition read_section (bidirectional : bool) (f : N) (_group_id : uuid) (p : uuid)
    (request_name : string) (cli_buf : io_blob_list) : M pool (option pending) :=
  clients ← gets (mesg_clients_of f);
  match clients !! p with
  | Some c =>
      g_client ← gets (λ s, as_proto s c);
      '(l, pc) ← deref "null g_client" g_client;
      reinit ← gets (λ s, reinitRequired s pc);
      if bidirectional && reinit then mret None
      else Some <$> g_client_request cfg _group_id g_client request_name cli_buf
  | None => mret None
  end.

(** A broadcast, with the lock shared. *)
Definition broadcast_section (f : N) (_group_id : uuid) (request_name : string)
    (cli_buf : io_blob_list) : M pool pending :=
  clients ← gets (mesg_clients_of f);
  cs ← request_all cfg _group_id (map_to_list clients) request_name cli_buf;
  mret (Calls cs).

(** After a lookup, without a lock. *)
Definition request_section (_group_id : uuid) (client : option N) (request_name : string)
    (cli_buf : io_blob_list) : M pool pending :=
  g_client ← gets (λ s, as_proto s client);
  match g_client with
  | None => mret (Done code.SERVER_NOT_FOUND)
  | Some _ => g_client_request cfg _group_id g_client request_name cli_buf
  end.

(** ** Threads *)

(** A lookup: the factory and its constants, the peer, and what comes after it: nothing for
    NuRaft, the request of the data path. *)
Record client_lookup := mkLookup {
  lk_factory : N;
  lk_group : uuid;
  lk_type : string;
  lk_peer : uuid;
  lk_force : bool;
  lk_then : option (string * io_blob_list);
}.

(** Where a call is: [Asks] and [Publishes] hold the lock of the factory. *)
Inductive client_thread :=
| Reads (bidirectional : bool) (k : client_lookup) (request_name : string) (cli_buf : io_blob_list)
| Broadcasts (f : N) (gid : uuid) (request_name : string) (cli_buf : io_blob_list)
| Looks (k : client_lookup)
| Asks (k : client_lookup) (do_create : bool) (slot : option N)
| Publishes (k : client_lookup) (do_create : bool) (slot c : option N)
| Requests (k : client_lookup) (client : option N) (request_name : string) (cli_buf : io_blob_list)
| Sends (client : option N) (req : req_msg)
| Found (client : option N)
| Requested (r : pending)
| Sent (r : sent).

Record clients_state := mkClients {
  cs_pool : pool;
  cs_locked : gset N;
  cs_threads : list client_thread;
}.

(** After the lookup. *)
Definition looked_up (k : client_lookup) (client : option N) : client_thread :=
  match lk_then k with
  | None => Found client
  | Some (name, buf) => Requests k client name buf
  end.

(** Whether the client in a slot can be given another transport: the cast of
    [mesg_factory::reinit_client]. *)
Definition can_reinit (s : pool) (slot : option N) : bool :=
  match as_proto s slot with Some _ => true | None => false end.

Definition thread_section (env : net_env) (t : client_thread) : M pool client_thread :=
  match t with
  | Reads b k name buf =>
      r ← read_section b (lk_factory k) (lk_group k) (lk_peer k) name buf;
      mret (match r with
            | Some r => Requested r
            | None => Looks (mkLookup (lk_factory k) (lk_group k) (lk_type k) (lk_peer k) false
                               (Some (name, buf)))
            end)
  | Broadcasts f gid name buf => Requested <$> broadcast_section f gid name buf
  | Looks k =>
      '(d, slot) ← enter_section (lk_factory k) (lk_peer k) (lk_force k);
      mret (Asks k d slot)
  | Asks k d slot =>
      reinit ← gets (λ s, can_reinit s slot);
      if d || reinit
      then Publishes k d slot <$> transport_section env (lk_peer k)
      else looked_up k <$> finish_section (lk_factory k) (lk_peer k) code.BAD_REQUEST slot
  | Publishes k d slot c =>
      looked_up k <$> publish_section (lk_factory k) (lk_group k) (lk_type k) (lk_peer k) d slot c
  | Requests k client name buf => Requested <$> request_section (lk_group k) client name buf
  | Sends client req => Sent <$> send cfg client req
  | Found _ | Requested _ | Sent _ => mret t
  end.

Definition completed (t : client_thread) : bool :=
  match t with Found _ | Requested _ | Sent _ => true | _ => false end.

(** The lock a thread takes next, shared or not. *)
Definition wants (t : client_thread) : option N :=
  match t with
  | Reads _ k _ _ | Looks k => Some (lk_factory k)
  | Broadcasts f _ _ _ => Some f
  | _ => None
  end.

(** The lock a thread holds between its sections, and the peer it holds it for. *)
Definition holds (t : client_thread) : option (N * uuid) :=
  match t with
  | Asks k _ _ | Publishes k _ _ _ => Some (lk_factory k, lk_peer k)
  | _ => None
  end.

Definition relock (t t' : client_thread) (locked : gset N) : gset N :=
  match holds t, holds t' with
  | None, Some (f, _) => {[f]} ∪ locked
  | Some (f, _), None => locked ∖ {[f]}
  | _, _ => locked
  end.

(** A thread may run its next section. *)
Definition runnable (s : clients_state) (t : client_thread) : bool :=
  negb (completed t) &&
  match wants t with Some f => bool_decide (f ∉ cs_locked s) | None => true end.

Inductive client_step (i : nat) (s : clients_state) : clients_state → Prop :=
| client_runs env t t' w :
    cs_threads s !! i = Some t → runnable s t = true →
    thread_section env t (cs_pool s) = (Ret t', w) →
    client_step i s (mkClients w (relock t t' (cs_locked s)) (<[i := t']> (cs_threads s))).

(** The step, computed. *)
Definition step_thread (env : net_env) (i : nat) (s : clients_state) : option clients_state :=
  t ← cs_threads s !! i;
  if runnable s t
  then match thread_section env t (cs_pool s) with
       | (Ret t', w) => Some (mkClients w (relock t t' (cs_locked s)) (<[i := t']> (cs_threads s)))
       | _ => None
       end
  else None.

(** Sections a thread has left, at most. *)
Definition sections_left (t : client_thread) : nat :=
  match t with
  | Reads _ _ _ _ => 5
  | Looks _ => 4
  | Asks _ _ _ => 3
  | Publishes _ _ _ _ => 2
  | Broadcasts _ _ _ _ | Requests _ _ _ _ | Sends _ _ => 1
  | Found _ | Requested _ | Sent _ => 0
  end.

Definition any_client (s s' : clients_state) : Prop := ∃ i, client_step i s s'.

Definition begin (t : client_thread) (s : clients_state) : clients_state :=
  mkClients (cs_pool s) (cs_locked s) (cs_threads s ++ [t]).

(** Calls begin, NuRaft sends over clients it has been given; the shared factory is used by
    others; calls fail and mark transports. *)
Inductive clients_event (s : clients_state) : clients_state → Prop :=
| request_begins b k name buf : clients_event s (begin (Reads b k name buf) s)
| broadcast_begins f gid name buf : clients_event s (begin (Broadcasts f gid name buf) s)
| lookup_begins k : clients_event s (begin (Looks k) s)
| send_begins i client req :
    cs_threads s !! i = Some (Found client) → is_Some (request_message req) →
    clients_event s (begin (Sends client req) s)
| group_lookup env p force :
    clients_event s (mkClients (create_or_reinit_client (group_factory env) p force (cs_pool s)).2
                       (cs_locked s) (cs_threads s))
| transport_marked l :
    clients_event s (mkClients (bump_bad_service l (cs_pool s)).2 (cs_locked s) (cs_threads s)).

Definition clients_any (s s' : clients_state) : Prop :=
  any_client s s' ∨ clients_event s s'.

Definition clients_initial : clients_state := mkClients empty_pool ∅ [].

(** The wrapper whose [_client] the next section of a thread reads with no lock held, and the
    wrapper whose [_client] it assigns. *)
Definition reads_client (s : pool) (t : client_thread) : option N :=
  match t with
  | Requests _ client _ _ | Sends client _ => fst <$> as_proto s client
  | _ => None
  end.

Definition assigns_client (s : pool) (t : client_thread) : option N :=
  match t with
  | Publishes _ false slot c => _ ← as_messaging s c; fst <$> as_proto s slot
  | _ => None
  end.

(** The sections of a lookup, and of a request, with nothing in between. *)
Definition lookup_alone (env : net_env) (k : client_lookup) : M pool (option N) :=
  '(d, slot) ← enter_section (lk_factory k) (lk_peer k) (lk_force k);
  reinit ← gets (λ s, can_reinit s slot);
  if d || reinit
  then c ← transport_section env (lk_peer k);
       publish_section (lk_factory k) (lk_group k) (lk_type k) (lk_peer k) d slot c
  else finish_section (lk_factory k) (lk_peer k) code.BAD_REQUEST slot.

Definition request_alone (env : net_env) (bidirectional : bool) (k : client_lookup) (request_name : string)
    (cli_buf : io_blob_list) : M pool pending :=
  r ← read_section bidirectional (lk_factory k) (lk_group k) (lk_peer k) request_name cli_buf;
  match r with
  | Some r => mret r
  | None =>
      client ← lookup_alone env (mkLookup (lk_factory k) (lk_group k) (lk_type k) (lk_peer k) false
                                   (Some (request_name, cli_buf)));
      request_section (lk_group k) client request_name cli_buf
  end.
End pool_threads.

(** ** What holds between sections *)

Section clients_invariant.
Context `{UuidOps}.

(** The pool without the caches of the message factories. *)
Definition strip (s : pool) : pool := mkPool (heap s) (client_counter s) (group_clients s) ∅.

Definition core (s : pool) : Prop := pool_wf (strip s).

(** An entry that is not null. *)
Definition cached (s : pool) (v : option N) : Prop := ∃ l, v = Some l ∧ is_proto s l.

(** What a lookup may return. *)
Definition sendable (s : pool) (c : option N) : Prop :=
  ∃ l, c = Some l ∧ (is_proto s l ∨ heap s !! l = Some ErrorClient).

Definition thread_ok (s : pool) (t : client_thread) : Prop :=
  match t with
  | Asks _ d slot | Publishes _ d slot _ => cached s slot ∨ slot = None ∧ d = true
  | Found client => sendable s client
  | Requests _ client _ _ => sendable s client
  | Sends client req => sendable s client ∧ is_Some (request_message req)
  | _ => True
  end.

Record clients_inv (s : clients_state) : Prop := {
  ci_core : core (cs_pool s);
  ci_cache : ∀ f p v, mesg_clients_of f (cs_pool s) !! p = Some v →
             cached (cs_pool s) v ∨ ∃ i t, cs_threads s !! i = Some t ∧ holds t = Some (f, p);
  ci_threads : ∀ i t, cs_threads s !! i = Some t → thread_ok (cs_pool s) t;
  ci_one : ∀ i j t u f p q, cs_threads s !! i = Some t → cs_threads s !! j = Some u →
           holds t = Some (f, p) → holds u = Some (f, q) → i = j;
  ci_locked : ∀ f, f ∈ cs_locked s ↔ ∃ i t p, cs_threads s !! i = Some t ∧ holds t = Some (f, p);
}.

(** What a section that works for factory [f] leaves alone. *)
Record frame (f : N) (s s' : pool) : Prop := {
  fr_core : core s';
  fr_le : pool_le s s';
  fr_other : ∀ f', f' ≠ f → mesg_clients_of f' s' = mesg_clients_of f' s;
}.

(** What a section does to the caches, for the lock its thread holds before and after. *)
Inductive section_effect (s : pool) (t : client_thread) (s' : pool) (t' : client_thread) : Prop :=
| effect_keeps :
    core s' → pool_le s s' → mesg_clients s' = mesg_clients s → holds t' = holds t →
    section_effect s t s' t'
| effect_takes f p :
    frame f s s' → wants t = Some f → holds t = None → holds t' = Some (f, p) →
    (∀ q v, mesg_clients_of f s' !! q = Some v → q = p ∨ mesg_clients_of f s !! q = Some v) →
    section_effect s t s' t'
| effect_frees f p :
    frame f s s' → holds t = Some (f, p) → holds t' = None →
    (∀ q v, mesg_clients_of f s' !! q = Some v →
       cached s' v ∨ q ≠ p ∧ mesg_clients_of f s !! q = Some v) →
    section_effect s t s' t'.
End clients_invariant.

(** ** Sections run one after the other *)

Section alone.
Context `{UuidOps}.
Context (cfg : mesg_cfg).

Lemma as_proto_slot s slot l pc : as_proto s slot = Some (l, pc) → slot = Some l.
Proof.
  unfold as_proto. destruct slot as [l'|]; simpl; [|done].
  destruct (heap s !! l') as [[]|]; simpl; try done. by intros [= -> _].
Qed.

(** The sections of a lookup make up the call. *)
Lemma lookup_alone_run env k s :
  lookup_alone env k s =
  create_or_reinit_client (mesg_factory env (lk_factory k) (lk_group k) (lk_type k)) (lk_peer k)
    (lk_force k) s.
Proof.
  destruct k as [f gid gtype p force ?]. cbn [lk_factory lk_group lk_type lk_peer lk_force].
  unfold lookup_alone, enter_section, create_or_reinit_client at 1, mbind, M_bind, gets. cbn.
  destruct (emplace p None (mesg_clients_of f s)) as [cl happened]. cbn.
  set (slot := default None (cl !! p)). set (s1 := with_mesg f cl s).
  assert (mkPool (heap s) (client_counter s) (group_clients s) (<[f:=cl]> (mesg_clients s)) = s1) as -> by done.
  unfold can_reinit. destruct (happened || force); cbn [orb].
  - unfold mesg_create_client, transport_section, publish_section, mbind, M_bind, gets.
    destruct (create_or_reinit_client (group_factory env) p false s1) as [[c|e|e] s2]; [|done..].
    destruct (as_messaging s2 c) as [m|]; done.
  - unfold mesg_reinit_client, transport_section, publish_section, mbind, M_bind, gets.
    destruct (as_proto s1 slot) as [[l pc]|] eqn:Hpc; [|done].
    destruct (create_or_reinit_client (group_factory env) p false s1) as [[c|e|e] s2]; [|done..].
    destruct (as_messaging s2 c) as [m|]; [|done].
    rewrite (as_proto_slot _ _ _ _ Hpc). by destruct (as_proto s2 (Some l)) as [[]|].
Qed.

(** And the sections of a request. *)
Lemma request_alone_run env b k name buf s :
  request_alone cfg env b k name buf s =
  (if b then data_service_request_bidirectional else data_service_request_unidirectional)
    cfg env (lk_factory k) (lk_group k) (lk_type k) (Some (Value (lk_peer k))) name buf s.
Proof.
  destruct k as [f gid gtype p force ?]. cbn [lk_factory lk_group lk_type lk_peer lk_force].
  unfold request_alone, mbind, M_bind.
  assert (∀ s', match lookup_alone env (mkLookup f gid gtype p false (Some (name, buf))) s' with
                | (Ret a, s'') => request_section cfg gid a name buf s''
                | (Throw e, s'') => (Throw e, s'')
                | (Ub e, s'') => (Ub e, s'')
                end = create_and_request cfg env f gid gtype p name buf s') as Hcold.
  { intros s'. rewrite lookup_alone_run. done. }
  destruct b; unfold read_section, data_service_request_bidirectional, data_service_request_unidirectional,
    mbind, M_bind, gets; cbn; destruct (mesg_clients_of f s !! p) as [c|]; try apply Hcold;
    destruct (as_proto s c) as [[l pc]|] eqn:Hc; try done; cbn.
  - destruct (reinitRequired s pc); [apply Hcold|]. unfold g_client_request, mbind, M_bind. cbn.
    by destruct (pc_client pc).
  - unfold g_client_request, mbind, M_bind. cbn. by destruct (pc_client pc).
Qed.
End alone.

(** ** Each section, between the others *)

Section sections.
Context `{UuidOps}.
Context (cfg : mesg_cfg).
Implicit Types (s : pool) (env : net_env) (p gid : uuid) (f l : N) (slot c : option N) (t : client_thread).

Lemma is_proto_le s s' l : pool_le s s' → is_proto s l → is_proto s' l.
Proof.
  intros [_ Hle] [pc Hl]. destruct (Hle l _ Hl) as (o & Ho & Hsame).
  inversion Hsame; subst. eexists. done.
Qed.

Lemma cached_le s s' c : pool_le s s' → cached s c → cached s' c.
Proof. intros Hle (l & -> & Hl). exists l. split; [done|]. by eapply is_proto_le. Qed.

Lemma sendable_le s s' c : pool_le s s' → sendable s c → sendable s' c.
Proof.
  intros Hle (l & -> & [Hl|Hl]); exists l; (split; [done|]).
  - left. by eapply is_proto_le.
  - right. destruct Hle as [_ Hle]. destruct (Hle l _ Hl) as (o & Ho & Hsame).
    by inversion Hsame; subst.
Qed.

Lemma cached_sendable s c : cached s c → sendable s c.
Proof. intros (l & -> & Hl). exists l. auto. Qed.

Lemma thread_ok_le s s' t : pool_le s s' → thread_ok s t → thread_ok s' t.
Proof.
  intros Hle. destruct t; simpl; try done; eauto using sendable_le.
  - intros [?|?]; eauto using cached_le.
  - intros [?|?]; eauto using cached_le.
  - intros [??]; eauto using sendable_le.
Qed.

Lemma frame_refl f s : core s → frame f s s.
Proof. intros Hc. by split. Qed.

Lemma frame_trans f s1 s2 s3 : frame f s1 s2 → frame f s2 s3 → frame f s1 s3.
Proof.
  intros [_ Hle Ho] [Hc Hle' Ho']. split; [done|by etrans|].
  intros f' Hf'. by rewrite Ho', Ho.
Qed.

Lemma with_mesg_frame f m s : core s → frame f s (with_mesg f m s).
Proof.
  intros Hc. split; [done|change (pool_le s s); reflexivity|].
  intros f' Hf'. unfold mesg_clients_of. simpl. by rewrite lookup_insert_ne.
Qed.

Lemma alloc_frame f o s :
  core s → (∀ pc, o = ProtoClient pc → ∃ m, pc_client pc = Some m ∧ is_messaging s m) →
  frame f s (alloc o s).
Proof.
  intros Hc Ho. split; [by apply (alloc_wf (strip s))| |done].
  by apply (alloc_le (strip s)).
Qed.

Lemma with_object_frame f l o o' s :
  core s → heap s !! l = Some o → same_client o o' →
  (∀ pc, o' = ProtoClient pc → ∃ m, pc_client pc = Some m ∧ is_messaging s m) →
  frame f s (with_object l o' s).
Proof.
  intros Hc Hl Hs Ho. destruct (with_object_wf (strip s) l o o' Hc Hl Hs Ho) as [Hwf Hle].
  by split.
Qed.

Lemma mesg_clients_of_alloc f o s : mesg_clients_of f (alloc o s) = mesg_clients_of f s.
Proof. done. Qed.

(** The shared factory does not look at the caches of the others. *)
Lemma transport_strip env p force s :
  (transport env p force (strip s)).1 = (transport env p force s).1 ∧
  (transport env p force (strip s)).2 = strip (transport env p force s).2 ∧
  mesg_clients (transport env p force s).2 = mesg_clients s.
Proof.
  assert ((renew env p (strip s)).1 = (renew env p s).1 ∧
          (renew env p (strip s)).2 = strip (renew env p s).2 ∧
          mesg_clients (renew env p s).2 = mesg_clients s) as Hr
    by (unfold renew; destruct (decide _); [|destruct (make_ok _ _)]; done).
  unfold transport. change (group_clients (strip s)) with (group_clients s).
  destruct (group_clients s !! p) as [[l|]|]; [|done..].
  change (healthy env (strip s) l) with (healthy env s l).
  by destruct (negb force && healthy env s l).
Qed.

Lemma group_lookup_run env p force s :
  core s →
  ∃ l s', create_or_reinit_client (group_factory env) p force s = (Ret (Some l), s') ∧
          core s' ∧ pool_le s s' ∧ mesg_clients s' = mesg_clients s.
Proof.
  intros Hc. rewrite group_refines by apply (wf_group _ Hc).
  destruct (transport_strip env p force s) as (H1 & H2 & H3).
  pose proof (transport_spec env p force (strip s) Hc) as Htp.
  eexists _, _. split; [done|]. split_and!; [| |done].
  - unfold core. rewrite <- H2. apply Htp.
  - assert (pool_le (strip s) (strip (transport env p force s).2)) as Hle; [|done].
    rewrite <- H2. by eapply transport_post_le.
Qed.

(** An entry is made; it is null only if the client is to be created. *)
Lemma enter_run f p force s :
  core s → (∀ v, mesg_clients_of f s !! p = Some v → cached s v) →
  ∃ d slot s', enter_section f p force s = (Ret (d, slot), s') ∧ frame f s s' ∧
    (cached s' slot ∨ slot = None ∧ d = true) ∧
    (∀ q v, mesg_clients_of f s' !! q = Some v → q = p ∨ mesg_clients_of f s !! q = Some v).
Proof.
  intros Hc Hp. unfold enter_section, mbind, M_bind, gets, emplace. cbn.
  destruct (mesg_clients_of f s !! p) as [v|] eqn:Hv; cbn.
  - rewrite Hv. cbn. eexists _, _, _. split; [done|].
    split_and!; [by apply with_mesg_frame|left; by apply Hp|].
    intros q w. rewrite mesg_clients_of_with. auto.
  - rewrite lookup_insert_eq. cbn. eexists _, _, _. split; [done|].
    split_and!; [by apply with_mesg_frame|by right|].
    intros q w. rewrite mesg_clients_of_with. rewrite lookup_insert_Some. naive_solver.
Qed.

(** The end of a lookup: no null entry stays for the peer. *)
Lemma finish_run f p err slot s :
  core s → cached s slot ∨ slot = None ∧ err ≠ code.OK →
  ∃ client s', finish_section f p err slot s = (Ret client, s') ∧ frame f s s' ∧
    sendable s' client ∧
    (∀ q v, mesg_clients_of f s' !! q = Some v →
       cached s' v ∨ q ≠ p ∧ mesg_clients_of f s !! q = Some v).
Proof.
  intros Hc Hslot. set (s1 := with_mesg f (<[p:=slot]> (mesg_clients_of f s)) s).
  assert (frame f s s1) as Hf1 by by apply with_mesg_frame.
  assert (frame f s (alloc ErrorClient s1)) as Hf2.
  { eapply frame_trans; [done|]. by apply alloc_frame; [apply Hf1|]. }
  unfold finish_section, mbind, M_bind, modify. cbn. fold s1.
  destruct Hslot as [(l & -> & Hl)|[-> Herr]].
  - assert (∀ s2, frame f s s2 → mesg_clients_of f s2 = mesg_clients_of f s1 →
              ∀ q v, mesg_clients_of f s2 !! q = Some v →
              cached s2 v ∨ q ≠ p ∧ mesg_clients_of f s !! q = Some v) as Hcl.
    { intros s2 Hs2 -> q v. unfold s1. rewrite mesg_clients_of_with, lookup_insert_Some.
      intros [[<- <-]|?]; [left|naive_solver]. eapply cached_le; [apply Hs2|]. by exists l. }
    destruct (decide (err ≠ code.OK)); cbn; (eexists _, _; split; [done|]).
    + split_and!; [done| |by apply Hcl].
      eexists. split; [done|]. right. apply lookup_insert_eq.
    + split_and!; [done| |by apply Hcl]. apply cached_sendable. exists l. by split; [|apply Hl].
  - rewrite decide_True by done. cbn. eexists _, _. split; [done|]. split_and!.
    + eapply frame_trans; [exact Hf2|]. by apply with_mesg_frame, Hf2.
    + eexists. split; [done|]. right. apply lookup_insert_eq.
    + intros q v. rewrite mesg_clients_of_with. intros [Hne Hq]%lookup_delete_Some. right.
      split; [done|]. change (mesg_clients_of f s1 !! q = Some v) in Hq. unfold s1 in Hq.
      rewrite mesg_clients_of_with, lookup_insert_ne in Hq; done.
Qed.

Lemma publish_run f gid gtype p d slot c s :
  core s → cached s slot ∨ slot = None ∧ d = true →
  ∃ client s', publish_section f gid gtype p d slot c s = (Ret client, s') ∧ frame f s s' ∧
    sendable s' client ∧
    (∀ q v, mesg_clients_of f s' !! q = Some v →
       cached s' v ∨ q ≠ p ∧ mesg_clients_of f s !! q = Some v).
Proof.
  intros Hc Hslot. unfold publish_section. unfold mbind at 1, M_bind at 1, gets at 1.
  assert (∀ r s1, frame f s s1 → mesg_clients_of f s1 = mesg_clients_of f s →
            cached s1 r.2 ∨ r.2 = None ∧ r.1 ≠ code.OK →
            ∃ client s', finish_section f p r.1 r.2 s1 = (Ret client, s') ∧ frame f s s' ∧
              sendable s' client ∧
              (∀ q v, mesg_clients_of f s' !! q = Some v →
                 cached s' v ∨ q ≠ p ∧ mesg_clients_of f s !! q = Some v)) as Hend.
  { intros [err sl] s1 Hf Hm Hr. cbn [fst snd] in *.
    destruct (finish_run f p err sl s1) as (client & s' & -> & Hf' & Hs & Hcl);
      [apply Hf|done|]. rewrite Hm in Hcl. eexists _, _. split; [done|].
    split_and!; [by eapply frame_trans|done|done]. }
  destruct (as_messaging s c) as [m|] eqn:Hm.
  2:{ apply (Hend (code.CANCELLED, slot) s); [by apply frame_refl|done|].
      destruct Hslot as [?|[? _]]; [by left|by right]. }
  assert (is_messaging s m) as Hmsg.
  { unfold as_messaging in Hm. destruct c as [l|]; simpl in Hm; [|done].
    destruct (heap s !! l) as [[]|] eqn:Hl; simplify_eq. by eexists _, _. }
  destruct d.
  - set (o := ProtoClient (mkProto (Some m) gid gtype (uuid_to_string p))).
    apply (Hend (code.OK, Some (client_counter s)) (alloc o s)); [|done|].
    + apply alloc_frame; [done|]. intros pc [= <-]. by exists m.
    + left. eexists. split; [done|]. eexists. apply lookup_insert_eq.
  - destruct Hslot as [(l & -> & [c0 g0 t0 a0] & Hl)|[_ ?]]; [|done].
    unfold mbind, M_bind, gets. rewrite (as_proto_Some _ _ _ Hl). cbn.
    set (o := ProtoClient (mkProto (Some m) g0 t0 a0)).
    apply (Hend (code.OK, Some l) (with_object l o s)); [|done|].
    + eapply with_object_frame; [done|exact Hl|constructor|]. intros pc [= <-]. by exists m.
    + left. exists l. split; [done|]. eexists. apply lookup_insert_eq.
Qed.

Lemma wrapper_client s l pc :
  core s → heap s !! l = Some (ProtoClient pc) → ∃ m, pc_client pc = Some m.
Proof. intros Hc Hl. destruct (wf_proto _ Hc l pc Hl) as (m & Hm & _). by exists m. Qed.

Lemma read_run b f gid p name buf s :
  core s → (∀ v, mesg_clients_of f s !! p = Some v → cached s v) →
  ∃ r, read_section cfg b f gid p name buf s = (Ret r, s).
Proof.
  intros Hc Hp. unfold read_section, mbind, M_bind, gets.
  destruct (mesg_clients_of f s !! p) as [v|] eqn:Hv; [|by eexists].
  destruct (Hp v eq_refl) as (l & -> & pc & Hl). rewrite (as_proto_Some _ _ _ Hl). cbn.
  destruct (b && reinitRequired s pc); [by eexists|].
  destruct (wrapper_client s l pc Hc Hl) as [t Ht].
  rewrite (run_fmap _ _ _ _ _ (g_client_request_run cfg gid name buf s l pc t Ht)). by eexists.
Qed.

Lemma broadcast_run f gid name buf s :
  core s → (∀ p v, mesg_clients_of f s !! p = Some v → cached s v) →
  ∃ r, broadcast_section cfg f gid name buf s = (Ret r, s).
Proof.
  intros Hc Hp. unfold broadcast_section, mbind, M_bind, gets.
  destruct (request_all_run cfg gid name buf s (map_to_list (mesg_clients_of f s)))
    as (ts & -> & _); [|by eexists].
  intros p c Hin%elem_of_map_to_list. destruct (Hp p c Hin) as (l & -> & pc & Hl).
  destruct (wrapper_client s l pc Hc Hl) as [t Ht]. by exists l, pc, t.
Qed.

Lemma request_run gid client name buf s :
  core s → sendable s client → ∃ r, request_section cfg gid client name buf s = (Ret r, s).
Proof.
  intros Hc (l & -> & Hl). unfold request_section, mbind, M_bind, gets.
  destruct Hl as [[pc Hl]|Hl]; [|rewrite (as_proto_error _ _ Hl); by eexists].
  rewrite (as_proto_Some _ _ _ Hl). destruct (wrapper_client s l pc Hc Hl) as [t Ht].
  rewrite (g_client_request_run cfg gid name buf s l pc t Ht). by eexists.
Qed.

Lemma send_section_run client req s :
  core s → sendable s client → is_Some (request_message req) →
  ∃ r, send cfg client req s = (Ret r, s).
Proof.
  intros Hc (l & -> & Hl) [[m req'] Hreq]. unfold send, mbind, M_bind, gets. cbn.
  destruct Hl as [[pc Hl]|Hl]; rewrite Hl; [|by eexists].
  destruct (wrapper_client s l pc Hc Hl) as [t Ht]. rewrite Hreq. cbn.
  unfold send_raft, mbind, M_bind. rewrite Ht. cbn. by eexists.
Qed.
End sections.

(** ** The invariant *)

Section invariant.
Context `{UuidOps}.
Context (cfg : mesg_cfg).
Implicit Types (s : clients_state) (w : pool) (t u : client_thread) (f : N) (p : uuid).

Lemma looked_up_free k client : holds (looked_up k client) = None.
Proof. unfold looked_up. by destruct (lk_then k) as [[]|]. Qed.

Lemma looked_up_ok w k client : sendable w client → thread_ok w (looked_up k client).
Proof. unfold looked_up. by destruct (lk_then k) as [[]|]. Qed.

Lemma runnable_unlocked s t f : runnable s t = true → wants t = Some f → f ∉ cs_locked s.
Proof.
  unfold runnable. intros [_ Hw]%andb_prop Hf. rewrite Hf in Hw.
  by apply bool_decide_eq_true in Hw.
Qed.

(** With the lock free, nobody's entry is null. *)
Lemma unlocked_cached s f p v :
  clients_inv s → f ∉ cs_locked s → mesg_clients_of f (cs_pool s) !! p = Some v →
  cached (cs_pool s) v.
Proof.
  intros Hi Hf Hv. destruct (ci_cache s Hi f p v Hv) as [?|(i & t & Ht & Hh)]; [done|].
  destruct Hf. apply (ci_locked s Hi). by exists i, t, p.
Qed.

Lemma thread_runs env s i t :
  clients_inv s → cs_threads s !! i = Some t → runnable s t = true →
  ∃ t' w, thread_section cfg env t (cs_pool s) = (Ret t', w) ∧ thread_ok w t' ∧
          section_effect (cs_pool s) t w t'.
Proof.
  intros Hi Ht Hr. pose proof (ci_core s Hi) as Hc. pose proof (ci_threads s Hi i t Ht) as Hok.
  assert (∀ f p v, wants t = Some f → mesg_clients_of f (cs_pool s) !! p = Some v →
                   cached (cs_pool s) v) as Hfree
    by (intros f p v Hw; eapply unlocked_cached; [done|by eapply runnable_unlocked]).
  destruct t as [b k name buf|f gid name buf|k|k d slot|k d slot c|k c name buf|c req|c|r|r];
    simpl in Hok; try done; cbn [thread_section].
  - destruct (read_run cfg b (lk_factory k) (lk_group k) (lk_peer k) name buf (cs_pool s))
      as [r Hrun]; [done|by intros v; apply Hfree|].
    rewrite (run_bind _ _ _ _ _ Hrun). eexists _, _. split; [done|].
    by destruct r; split; try constructor.
  - destruct (broadcast_run cfg f gid name buf (cs_pool s)) as [r Hrun];
      [done|by intros p v; apply Hfree|].
    rewrite (run_fmap _ _ _ _ _ Hrun). eexists _, _. by repeat split; constructor.
  - destruct (enter_run (lk_factory k) (lk_peer k) (lk_force k) (cs_pool s))
      as (d & slot & w & Hrun & Hf & Hslot & Hcl); [done|by intros v; apply Hfree|].
    rewrite (run_bind _ _ _ _ _ Hrun). eexists _, _. split; [done|]. split; [done|].
    by eapply effect_takes.
  - unfold mbind, M_bind, gets. destruct (d || can_reinit (cs_pool s) slot) eqn:Hd.
    + destruct (group_lookup_run env (lk_peer k) false (cs_pool s) Hc) as (l & w & Hrun & Hc' & Hle & Hm).
      rewrite (run_fmap _ _ _ _ _ Hrun). eexists _, _. split; [done|].
      split; [by eapply (thread_ok_le _ _ (Asks k d slot))|by apply effect_keeps].
    + exfalso. apply orb_false_iff in Hd as [-> Hd].
      destruct Hok as [(l & -> & pc & Hl)|[_ ?]]; [|done].
      unfold can_reinit in Hd. by rewrite (as_proto_Some _ _ _ Hl) in Hd.
  - destruct (publish_run (lk_factory k) (lk_group k) (lk_type k) (lk_peer k) d slot c (cs_pool s))
      as (client & w & Hrun & Hf & Hs & Hcl); [done..|].
    rewrite (run_fmap _ _ _ _ _ Hrun). eexists _, _. split; [done|].
    split; [by apply looked_up_ok|]. eapply effect_frees; [done..|apply looked_up_free|done].
  - destruct (request_run cfg (lk_group k) c name buf (cs_pool s)) as [r Hrun]; [done..|].
    rewrite (run_fmap _ _ _ _ _ Hrun). eexists _, _. by repeat split; constructor.
  - destruct (send_section_run cfg c req (cs_pool s)) as [r Hrun]; [done|apply Hok..|].
    rewrite (run_fmap _ _ _ _ _ Hrun). eexists _, _. by repeat split; constructor.
Qed.

(** The threads after thread [i] has become [t']. *)
Lemma moved_lookup (ts : list client_thread) i t' j u :
  <[i := t']> ts !! j = Some u → j = i ∧ u = t' ∨ j ≠ i ∧ ts !! j = Some u.
Proof.
  destruct (decide (j = i)) as [->|Hne].
  - intros Hu. left. split; [done|]. apply list_lookup_insert_Some in Hu. naive_solver.
  - rewrite list_lookup_insert_ne by done. auto.
Qed.

Lemma moved_same (ts : list client_thread) i t t' :
  ts !! i = Some t → <[i := t']> ts !! i = Some t'.
Proof. intros Ht. apply list_lookup_insert_eq. by eapply lookup_lt_Some. Qed.

Section moved.
Context (s : clients_state) (i : nat) (t t' : client_thread) (w : pool).
Context (Hi : clients_inv s) (Ht : cs_threads s !! i = Some t).

(** A thread that holds a lock, among the threads before the section. *)
Lemma holder_before j u f p :
  holds t' = holds t → <[i := t']> (cs_threads s) !! j = Some u → holds u = Some (f, p) →
  ∃ u', cs_threads s !! j = Some u' ∧ holds u' = Some (f, p).
Proof. intros Hh [[-> ->]|[_ Hu]]%moved_lookup Hu'; [exists t|exists u]; by rewrite <-?Hh. Qed.

(** And among the threads after it. *)
Lemma holder_after j u f p :
  holds t' = holds t → cs_threads s !! j = Some u → holds u = Some (f, p) →
  ∃ u', <[i := t']> (cs_threads s) !! j = Some u' ∧ holds u' = Some (f, p).
Proof.
  intros Hh Hu Hu'. destruct (decide (j = i)) as [->|Hne].
  - exists t'. split; [by eapply moved_same|]. simplify_eq. by rewrite Hh.
  - exists u. by rewrite list_lookup_insert_ne.
Qed.

Lemma other_holder_after j u f p :
  holds t ≠ Some (f, p) → cs_threads s !! j = Some u → holds u = Some (f, p) →
  j ≠ i ∧ <[i := t']> (cs_threads s) !! j = Some u.
Proof.
  intros Hh Hu Hu'. assert (j ≠ i) as Hne by (intros ->; by simplify_eq).
  by rewrite list_lookup_insert_ne.
Qed.

Lemma moved_threads_ok :
  pool_le (cs_pool s) w → thread_ok w t' →
  ∀ j u, <[i := t']> (cs_threads s) !! j = Some u → thread_ok w u.
Proof.
  intros Hle Hok j u [[-> ->]|[_ Hu]]%moved_lookup; [done|].
  eapply thread_ok_le; [done|]. by apply (ci_threads s Hi j).
Qed.

Lemma keeps_inv :
  core w → pool_le (cs_pool s) w → mesg_clients w = mesg_clients (cs_pool s) →
  holds t' = holds t → thread_ok w t' →
  clients_inv (mkClients w (cs_locked s) (<[i := t']> (cs_threads s))).
Proof.
  intros Hc Hle Hm Hh Hok. split; simpl; [done| | | |].
  - intros f p v. rewrite (mesg_clients_of_same f _ _ Hm). intros Hv.
    destruct (ci_cache s Hi f p v Hv) as [Hca|(j & u & Hu & Hu')]; [left; by eapply cached_le|].
    right. destruct (holder_after j u f p Hh Hu Hu') as (u' & ? & ?). by exists j, u'.
  - by apply moved_threads_ok.
  - intros j k u u' f p q Hu Hu' Hp Hq.
    destruct (holder_before j u f p Hh Hu Hp) as (v & Hv & Hvp).
    destruct (holder_before k u' f q Hh Hu' Hq) as (v' & Hv' & Hvq).
    by apply (ci_one s Hi j k v v' f p q).
  - intros f. rewrite (ci_locked s Hi). split; intros (j & u & p & Hu & Hp).
    + destruct (holder_after j u f p Hh Hu Hp) as (u' & ? & ?). by exists j, u', p.
    + destruct (holder_before j u f p Hh Hu Hp) as (u' & ? & ?). by exists j, u', p.
Qed.

Lemma takes_inv f p :
  f ∉ cs_locked s → frame f (cs_pool s) w → holds t = None → holds t' = Some (f, p) →
  (∀ q v, mesg_clients_of f w !! q = Some v →
     q = p ∨ mesg_clients_of f (cs_pool s) !! q = Some v) →
  thread_ok w t' →
  clients_inv (mkClients w ({[f]} ∪ cs_locked s) (<[i := t']> (cs_threads s))).
Proof.
  intros Hf [Hc Hle Ho] Hh Hh' Hcl Hok.
  assert (∀ j u q, cs_threads s !! j = Some u → holds u ≠ Some (f, q)) as Hnone.
  { intros j u q Hu Hq. apply Hf, (ci_locked s Hi). by exists j, u, q. }
  assert (∀ g q v, (g ≠ f ∨ q ≠ p) → mesg_clients_of g w !! q = Some v →
                   mesg_clients_of g (cs_pool s) !! q = Some v) as Hold.
  { intros g q v Hne Hv. destruct (decide (g = f)) as [->|?]; [|by rewrite <-(Ho g)].
    destruct (Hcl q v Hv) as [->|?]; [naive_solver|done]. }
  split; simpl; [done| | | |].
  - intros g q v Hv. destruct (decide (g = f ∧ q = p)) as [[-> ->]|Hne].
    { right. exists i, t'. split; [by eapply moved_same|done]. }
    destruct (ci_cache s Hi g q v) as [?|(j & u & Hu & Hq)];
      [apply Hold; [destruct (decide (g = f)); naive_solver|done]|left; by eapply cached_le|].
    right. exists j, u. split; [|done]. eapply (other_holder_after j u g q); by rewrite ?Hh.
  - by apply moved_threads_ok.
  - intros j k u u' g q q' [[-> ->]|[_ Hu]]%moved_lookup [[-> ->]|[_ Hu']]%moved_lookup Hq Hq';
      [done|exfalso; simplify_eq; by eapply Hnone..|]. by apply (ci_one s Hi j k u u' g q q').
  - intros g. rewrite elem_of_union, elem_of_singleton, (ci_locked s Hi). split.
    + intros [->|(j & u & q & Hu & Hq)]; [exists i, t', p; split; [by eapply moved_same|done]|].
      exists j, u, q. split; [|done]. eapply (other_holder_after j u g q); by rewrite ?Hh.
    + intros (j & u & q & [[-> ->]|[_ Hu]]%moved_lookup & Hq); [left; by simplify_eq|].
      right. by exists j, u, q.
Qed.

Lemma frees_inv f p :
  frame f (cs_pool s) w → holds t = Some (f, p) → holds t' = None →
  (∀ q v, mesg_clients_of f w !! q = Some v →
     cached w v ∨ q ≠ p ∧ mesg_clients_of f (cs_pool s) !! q = Some v) →
  thread_ok w t' →
  clients_inv (mkClients w (cs_locked s ∖ {[f]}) (<[i := t']> (cs_threads s))).
Proof.
  intros [Hc Hle Ho] Hh Hh' Hcl Hok.
  assert (∀ j u q, cs_threads s !! j = Some u → holds u = Some (f, q) → j = i ∧ q = p) as Hone.
  { intros j u q Hu Hq. assert (j = i) as -> by by eapply (ci_one s Hi j i u t f q p).
    split; [done|]. by simplify_eq. }
  split; simpl; [done| | | |].
  - intros g q v Hv. destruct (decide (g = f)) as [->|Hne].
    + left. destruct (Hcl q v Hv) as [?|[Hne Hv']]; [done|].
      destruct (ci_cache s Hi f q v Hv') as [?|(j & u & Hu & Hq)]; [by eapply cached_le|].
      by destruct (Hone j u q Hu Hq).
    + rewrite (Ho g Hne) in Hv.
      destruct (ci_cache s Hi g q v Hv) as [?|(j & u & Hu & Hq)]; [left; by eapply cached_le|].
      right. exists j, u. split; [|done]. apply (other_holder_after j u g q); congruence.
  - by apply moved_threads_ok.
  - intros j k u u' g q q' [[-> ->]|[_ Hu]]%moved_lookup [[-> ->]|[_ Hu']]%moved_lookup Hq Hq';
      [done|congruence..|]. by apply (ci_one s Hi j k u u' g q q').
  - intros g. rewrite elem_of_difference, elem_of_singleton, (ci_locked s Hi). split.
    + intros [(j & u & q & Hu & Hq) Hne]. exists j, u, q. split; [|done].
      apply (other_holder_after j u g q); congruence.
    + intros (j & u & q & [[-> ->]|[Hne Hu]]%moved_lookup & Hq); [congruence|].
      split; [by exists j, u, q|]. intros ->. by destruct (Hone j u q Hu Hq).
Qed.
End moved.

Lemma client_step_inv i s s' : clients_inv s → client_step cfg i s s' → clients_inv s'.
Proof.
  intros Hi [env t t' w Ht Hr Hrun].
  destruct (thread_runs env s i t Hi Ht Hr) as (t2 & w2 & Hrun2 & Hok & He).
  rewrite Hrun in Hrun2. injection Hrun2 as <- <-. unfold relock.
  destruct He as [Hc Hle Hm Hh|f p Hf Hw Hh Hh' Hcl|f p Hf Hh Hh' Hcl].
  - rewrite Hh. assert (clients_inv (mkClients w (cs_locked s) (<[i:=t']> (cs_threads s)))) by by eapply (keeps_inv s i t).
    by destruct (holds t) as [[g q]|].
  - rewrite Hh, Hh'. apply (takes_inv s i t t' w Hi Ht f p); [by eapply runnable_unlocked|done..].
  - rewrite Hh, Hh'. by eapply frees_inv.
Qed.

Lemma begin_inv t s :
  clients_inv s → holds t = None → thread_ok (cs_pool s) t → clients_inv (begin t s).
Proof.
  intros Hi Hh Hok.
  assert (∀ i u f p, (cs_threads s ++ [t]) !! i = Some u → holds u = Some (f, p) →
                     cs_threads s !! i = Some u) as Hback.
  { intros i u f p [?|[_ Hu]]%lookup_app_Some Hp; [done|].
    apply list_lookup_singleton_Some in Hu as [_ <-]. congruence. }
  assert (∀ i u, cs_threads s !! i = Some u → (cs_threads s ++ [t]) !! i = Some u) as Hforth
    by (intros; by apply lookup_app_l_Some).
  split; simpl.
  - apply Hi.
  - intros f p v Hv. destruct (ci_cache s Hi f p v Hv) as [?|(i & u & ? & ?)]; [by left|].
    right. exists i, u. auto.
  - intros i u [Hu|[_ Hu]]%lookup_app_Some; [by eapply (ci_threads s Hi)|].
    by apply list_lookup_singleton_Some in Hu as [_ <-].
  - intros i j u u' f p q Hu Hu' Hp Hq. eapply (ci_one s Hi i j u u' f p q); eauto.
  - intros f. rewrite (ci_locked s Hi). split; intros (i & u & p & ? & ?); exists i, u, p; eauto.
Qed.

(** The pool changes, and the threads and caches stay. *)
Lemma outside_inv w s :
  clients_inv s → core w → pool_le (cs_pool s) w → mesg_clients w = mesg_clients (cs_pool s) →
  clients_inv (mkClients w (cs_locked s) (cs_threads s)).
Proof.
  intros Hi Hc Hle Hm. split; simpl; [done| | |apply Hi..].
  - intros f p v. rewrite (mesg_clients_of_same f _ _ Hm). intros Hv.
    destruct (ci_cache s Hi f p v Hv); [left; by eapply cached_le|by right].
  - intros i t Ht. eapply thread_ok_le; [done|]. by eapply (ci_threads s Hi).
Qed.

Lemma bump_strip l w :
  core w → core (bump_bad_service l w).2 ∧ pool_le w (bump_bad_service l w).2 ∧
           mesg_clients (bump_bad_service l w).2 = mesg_clients w.
Proof.
  intros Hc. destruct (bump_wf l (strip w) Hc) as [Hwf Hle].
  unfold bump_bad_service in *. change (heap (strip w)) with (heap w) in *.
  by destruct (heap w !! l) as [[]|].
Qed.

Lemma clients_event_inv s s' : clients_inv s → clients_event s s' → clients_inv s'.
Proof.
  intros Hi [b k name buf|f gid name buf|k|i client req Ht Hreq|env p force|l].
  - by apply begin_inv.
  - by apply begin_inv.
  - by apply begin_inv.
  - apply begin_inv; [done..|]. split; [|done]. exact (ci_threads s Hi i _ Ht).
  - destruct (group_lookup_run env p force (cs_pool s) (ci_core s Hi)) as (l & w & -> & Hc & Hle & Hm).
    by apply outside_inv.
  - destruct (bump_strip l (cs_pool s) (ci_core s Hi)) as (Hc & Hle & Hm). by apply outside_inv.
Qed.

Lemma clients_initial_inv : clients_inv clients_initial.
Proof.
  split; simpl.
  - exact empty_pool_wf.
  - intros f p v. unfold mesg_clients_of. simpl. by rewrite lookup_empty.
  - done.
  - done.
  - intros f. rewrite elem_of_empty. split; [done|]. by intros (i & t & p & ? & _).
Qed.

Lemma clients_reachable_inv s : rtc (clients_any cfg) clients_initial s → clients_inv s.
Proof.
  intros Hr. apply (rtc_ind_r clients_inv clients_initial) in Hr; [done|apply clients_initial_inv|].
  intros s1 s2 _ [[i Hs]|He] Hi; [by eapply client_step_inv|by eapply clients_event_inv].
Qed.

Lemma step_thread_sound env i s s' : step_thread cfg env i s = Some s' → client_step cfg i s s'.
Proof.
  unfold step_thread. destruct (cs_threads s !! i) as [t|] eqn:Ht; simpl; [|done].
  destruct (runnable s t) eqn:Hr; [|done].
  destruct (thread_section cfg env t (cs_pool s)) as [[t'|e|e] w] eqn:Hs; [|done..].
  intros [= <-]. by eapply client_runs.
Qed.

(** Running a thread, or leaving it when it cannot run, reaches a state. *)
Lemma step_reaches env i s :
  rtc (clients_any cfg) clients_initial s →
  rtc (clients_any cfg) clients_initial (default s (step_thread cfg env i s)).
Proof.
  intros Hr. destruct (step_thread cfg env i s) as [s'|] eqn:Hs; simpl; [|done].
  eapply rtc_r; [done|]. left. exists i. by eapply step_thread_sound.
Qed.

Lemma event_reaches s s' :
  rtc (clients_any cfg) clients_initial s → clients_event s s' →
  rtc (clients_any cfg) clients_initial s'.
Proof. intros Hr He. eapply rtc_r; [done|]. by right. Qed.

Lemma holder_runnable s t f p : holds t = Some (f, p) → runnable s t = true.
Proof. by destruct t. Qed.

(** With no lock held, the pool is well-formed. *)
Lemma quiet_wf s : clients_inv s → cs_locked s = ∅ → pool_wf (cs_pool s).
Proof.
  intros Hi Hl. destruct (ci_core s Hi) as [Hf Hg _ Hp]. split; [done|done| |done].
  intros f m p v Hm Hv. assert (cached (cs_pool s) v); [|done].
  eapply (unlocked_cached s f p v Hi); [rewrite Hl; set_solver|].
  unfold mesg_clients_of. by rewrite Hm.
Qed.

Lemma thread_section_left env t w t' w' :
  completed t = false → thread_section cfg env t w = (Ret t', w') →
  sections_left t' < sections_left t.
Proof.
  assert (∀ k c, sections_left (looked_up k c) ≤ 1) as Hk
    by (intros k c; unfold looked_up; destruct (lk_then k) as [[]|]; simpl; lia).
  assert (∀ A (g : A → client_thread) (m : M pool A) n,
            (∀ a, sections_left (g a) < n) → (g <$> m) w = (Ret t', w') → sections_left t' < n) as Hmap.
  { intros A g m n Hg Hrun. destruct (m w) as [[a|e|e] w1] eqn:Hm;
      [|by unfold fmap, M_fmap, mbind, M_bind in Hrun; rewrite Hm in Hrun..].
    rewrite (run_fmap _ _ _ _ _ Hm) in Hrun. by injection Hrun as <- _. }
  intros Hc. destruct t; simpl in Hc; try done; cbn [thread_section sections_left].
  - unfold mbind, M_bind. destruct (read_section _ _ _ _ _ _ _ w) as [[[r|]|e|e] w1];
      intros [= <- _]; simpl; lia.
  - apply Hmap. simpl. lia.
  - unfold mbind, M_bind. destruct (enter_section _ _ _ w) as [[[d slot]|e|e] w1];
      intros [= <- _]; simpl; lia.
  - unfold mbind at 1, M_bind at 1, gets. destruct (_ || _); apply Hmap; simpl; [lia|].
    intros c. specialize (Hk k c). lia.
  - apply Hmap. intros c'. specialize (Hk k c'). lia.
  - apply Hmap. simpl. lia.
  - apply Hmap. simpl. lia.
Qed.

Lemma any_client_left s s' :
  any_client cfg s s' →
  sum_list_with sections_left (cs_threads s') < sum_list_with sections_left (cs_threads s).
Proof.
  intros [i [env t t' w Ht Hr Hrun]]. simpl.
  assert (sections_left t' < sections_left t) as Hlt.
  { eapply thread_section_left; [|done]. unfold runnable in Hr.
    apply andb_prop in Hr as [Hr _]. by apply negb_true_iff in Hr. }
  revert Ht. generalize (cs_threads s). clear -Hlt. intros ts. revert i.
  induction ts as [|u ts IH]; intros [|i]; simpl; [done..|intros [= ->]; lia|].
  intros Hi. specialize (IH i Hi). lia.
Qed.
End invariant.

(** ** Properties *)

Section pool_threads_theorems.
Context `{UuidOps}.

(** C11: Requests, broadcasts, lookups and sends of many threads, over any number of groups, cut
    at the locks they take: a thread that has not returned either runs its next section,
    whatever the network answers, without a crash or an exception, or it waits for the lock
    of a factory that some other thread holds, and that thread can run. *)
Theorem interleaved_requests_never_crash (cfg : mesg_cfg) (s : clients_state) (i : nat)
    (t : client_thread) :
  rtc (clients_any cfg) clients_initial s →
  cs_threads s !! i = Some t → completed t = false →
  (runnable s t = true ∧ ∀ env, ∃ t' w, thread_section cfg env t (cs_pool s) = (Ret t', w)) ∨
  (∃ f j u p, wants t = Some f ∧ f ∈ cs_locked s ∧ j ≠ i ∧
     cs_threads s !! j = Some u ∧ holds u = Some (f, p) ∧
     ∀ env, ∃ u' w, thread_section cfg env u (cs_pool s) = (Ret u', w)).
Proof.
  intros Hr Ht Hc. apply clients_reachable_inv in Hr as Hi.
  destruct (runnable s t) eqn:Hrun.
  { left. split; [done|]. intros env. destruct (thread_runs cfg env s i t Hi Ht Hrun) as (t' & w & ? & _).
    by exists t', w. }
  right. unfold runnable in Hrun. rewrite Hc in Hrun. simpl in Hrun.
  destruct (wants t) as [f|] eqn:Hw; [|done].
  apply bool_decide_eq_false, dec_stable in Hrun.
  pose proof Hrun as Hf. apply (ci_locked s Hi) in Hf as (j & u & p & Hu & Hp).
  exists f, j, u, p. split_and!; try done.
  - intros ->. simplify_eq. by destruct t.
  - intros env. destruct (thread_runs cfg env s j u Hi Hu (holder_runnable s u f p Hp)) as (u' & w & ? & _).
    by exists u', w.
Qed.

(** C12: Once no call begins any more, all calls that have begun return: there is a bound on the
    sections that are run, and when no thread can run, every thread has returned and the
    pool is well-formed, with no null entry left in a cache. *)
Theorem begun_requests_return (cfg : mesg_cfg) (s s' : clients_state) (n : nat) :
  rtc (clients_any cfg) clients_initial s → nsteps (any_client cfg) n s s' →
  n ≤ sum_list_with sections_left (cs_threads s) ∧
  ((∀ s2, ¬ any_client cfg s' s2) →
   Forall (λ t, completed t = true) (cs_threads s') ∧ cs_locked s' = ∅ ∧ pool_wf (cs_pool s')).
Proof.
  intros Hr Hn. split.
  { clear Hr. induction Hn as [s|n s1 s2 s3 Hs _ IH]; [lia|]. apply any_client_left in Hs. lia. }
  assert (clients_inv s') as Hi.
  { apply (clients_reachable_inv cfg). etrans; [done|]. eapply rtc_subrel; [|by eapply rtc_nsteps_2].
    intros ???. by left. }
  intros Hstuck.
  assert (∀ i t, cs_threads s' !! i = Some t → runnable s' t = false) as Hno.
  { intros i t Ht. apply not_true_iff_false. intros Hrun.
    destruct (thread_runs cfg (mkEnv (λ _, ""%string) (λ _, false) (λ _, false)) s' i t Hi Ht Hrun)
      as (t' & w & Hs & _). eapply Hstuck. exists i. by econstructor. }
  assert (cs_locked s' = ∅) as Hl.
  { apply set_eq. intros f. split; [|done]. intros (i & t & p & Ht & Hp)%(ci_locked s' Hi).
    specialize (Hno i t Ht). by rewrite (holder_runnable s' t f p Hp) in Hno. }
  split_and!; [|done|].
  - apply Forall_lookup. intros i t Ht. specialize (Hno i t Ht). unfold runnable in Hno.
    rewrite Hl in Hno. destruct (completed t), (wants t); simpl in Hno; done.
  - by apply quiet_wf.
Qed.

(** The two models of a lookup agree when nobody disturbs it: from a well-formed pool, with the factory's
    lock free, its thread alone runs through the sections to the result and the pool of
    [create_or_reinit_client], and leaves the locks as they were. *)
Lemma lone_lookup_is_call (cfg : mesg_cfg) (env : net_env) (s : clients_state) (i : nat)
    (k : client_lookup) (client : option N) (w : pool) :
  pool_wf (cs_pool s) → cs_threads s !! i = Some (Looks k) → lk_factory k ∉ cs_locked s →
  create_or_reinit_client (mesg_factory env (lk_factory k) (lk_group k) (lk_type k)) (lk_peer k)
    (lk_force k) (cs_pool s) = (Ret client, w) →
  rtc (client_step cfg i) s
    (mkClients w (cs_locked s) (<[i := looked_up k client]> (cs_threads s))).
Proof.
  intros Hwf Hi Hf. rewrite <- lookup_alone_run. intros Hrun.
  assert (cs_locked s = ({[lk_factory k]} ∪ cs_locked s) ∖ {[lk_factory k]}) as Hl by set_solver.
  assert (core (cs_pool s)) as Hc by (destruct Hwf; split; [done|done|done|done]).
  destruct (enter_run (lk_factory k) (lk_peer k) (lk_force k) (cs_pool s))
    as (d & slot & w1 & Henter & Hfr & Hslot & _);
    [done|intros v Hv; exact (mesg_of_wf _ _ _ _ Hwf Hv)|].
  unfold lookup_alone in Hrun. rewrite (run_bind _ _ _ _ _ Henter) in Hrun.
  assert (d || can_reinit w1 slot = true) as Hd.
  { destruct Hslot as [(l & -> & pc & Hl')|[_ ->]]; [|done].
    unfold can_reinit. rewrite (as_proto_Some _ _ _ Hl'). apply orb_true_r. }
  unfold mbind at 1, M_bind at 1, gets in Hrun. rewrite Hd in Hrun.
  destruct (group_lookup_run env (lk_peer k) false w1 (fr_core _ _ _ Hfr)) as (c & w2 & Hask & _).
  rewrite (run_bind _ _ _ _ _ Hask) in Hrun.
  eapply rtc_l.
  { apply (client_runs cfg i s env (Looks k) (Asks k d slot) w1 Hi).
    - unfold runnable. simpl. by apply bool_decide_eq_true.
    - cbn [thread_section]. by rewrite (run_bind _ _ _ _ _ Henter). }
  eapply rtc_l.
  { eapply (client_runs cfg i _ env (Asks k d slot) (Publishes k d slot (Some c)) w2);
      [by eapply moved_same|done|]. cbn [thread_section cs_pool].
    unfold mbind at 1, M_bind at 1, gets. rewrite Hd. exact (run_fmap _ _ _ _ _ Hask). }
  eapply rtc_l; [|rewrite Hl at 1].
  { eapply (client_runs cfg i _ env (Publishes k d slot (Some c)) (looked_up k client) w);
      [by eapply moved_same; simpl; eapply moved_same|done|]. exact (run_fmap _ _ _ _ _ Hrun). }
  unfold relock. cbn [holds]. rewrite looked_up_free. cbn. rewrite !list_insert_insert_eq.
  apply rtc_refl.
Qed.
End pool_threads_theorems.

(** ** Witnesses *)

Module PoolThreadsDemo.
Import Demo.

Definition run_thread (i : nat) (s : clients_state) : clients_state :=
  default s (step_thread demo_cfg demo_env i s).

Definition demo_lookup (f : N) (force : bool) : client_lookup := mkLookup f U2 "type" U1 force None.

(** A client is created for NuRaft and found. *)
Definition demo_found : clients_state :=
  run_thread 0 (run_thread 0 (run_thread 0 (begin (Looks (demo_lookup 7 true)) clients_initial))).

(** NuRaft sends over it, a call over its transport fails, and a request comes. *)
Definition demo_arrived : clients_state :=
  let s1 := begin (Sends (Some 1%N) (mkReq 7 3 1 2 5 6 4 [])) demo_found in
  let s2 := mkClients (bump_bad_service 0%N (cs_pool s1)).2 (cs_locked s1) (cs_threads s1) in
  begin (Reads true (demo_lookup 7 false) "ping" []) s2.

(** The request has found the wrapper with a bad transport, and has a new transport for it. *)
Definition demo_race : clients_state :=
  run_thread 2 (run_thread 2 (run_thread 2 demo_arrived)).

Lemma demo_found_reachable : rtc (clients_any demo_cfg) clients_initial demo_found.
Proof. do 3 apply step_reaches. eapply event_reaches; [apply rtc_refl|apply lookup_begins]. Qed.

Lemma demo_arrived_reachable : rtc (clients_any demo_cfg) clients_initial demo_arrived.
Proof.
  eapply event_reaches; [|apply request_begins].
  eapply event_reaches; [|apply transport_marked].
  eapply event_reaches; [apply demo_found_reachable|].
  apply (send_begins demo_found 0); [by vm_compute|by eexists].
Qed.

Lemma demo_race_reachable : rtc (clients_any demo_cfg) clients_initial demo_race.
Proof. do 3 apply step_reaches. apply demo_arrived_reachable. Qed.

(** [setClient] is not synchronised with the sends: a state is reached in which one thread is
    about to assign the [_client] of a wrapper, with the factory's lock held, and another is
    about to read the same [_client] with no lock held, to send a Raft message; both run. *)
Theorem wrapper_client_race :
  ∃ s i j t u l,
    rtc (clients_any demo_cfg) clients_initial s ∧
    cs_threads s !! i = Some t ∧ cs_threads s !! j = Some u ∧
    runnable s t = true ∧ runnable s u = true ∧
    assigns_client (cs_pool s) t = Some l ∧ reads_client (cs_pool s) u = Some l.
Proof.
  exists demo_race, 2%nat, 1%nat. eexists _, _, 1%N.
  split; [apply demo_race_reachable|]. split_and!; by vm_compute.
Qed.

(** A second request waits for the one that has the lock. *)
Definition demo_waiting : clients_state :=
  begin (Reads true (demo_lookup 7 false) "ping" []) demo_race.

Lemma demo_waiting_reachable : rtc (clients_any demo_cfg) clients_initial demo_waiting.
Proof. eapply event_reaches; [apply demo_race_reachable|apply request_begins]. Qed.

Lemma interleaved_requests_witness :
  let t := Reads true (demo_lookup 7 false) "ping" [] in
  (runnable demo_waiting t = true ∧
   ∀ env, ∃ t' w, thread_section demo_cfg env t (cs_pool demo_waiting) = (Ret t', w)) ∨
  (∃ f j u p, wants t = Some f ∧ f ∈ cs_locked demo_waiting ∧ j ≠ 3%nat ∧
     cs_threads demo_waiting !! j = Some u ∧ holds u = Some (f, p) ∧
     ∀ env, ∃ u' w, thread_section demo_cfg env u (cs_pool demo_waiting) = (Ret u', w)).
Proof.
  apply (interleaved_requests_never_crash demo_cfg demo_waiting 3); [|by vm_compute..].
  apply demo_waiting_reachable.
Defined.

Lemma demo_found_idle s2 : ¬ any_client demo_cfg demo_found s2.
Proof.
  intros [i [env t t' w Ht Hr _]].
  replace (cs_threads demo_found) with [Found (H := demo_uuid_ops) (Some 1%N)] in Ht by by vm_compute.
  apply list_lookup_singleton_Some in Ht as [_ <-]. done.
Qed.

Definition demo_begun : clients_state := begin (Looks (demo_lookup 7 true)) clients_initial.

Lemma begun_requests_return_witness :
  3 ≤ sum_list_with sections_left (cs_threads demo_begun) ∧
  Forall (λ t, completed t = true) (cs_threads demo_found) ∧ cs_locked demo_found = ∅ ∧
  pool_wf (cs_pool demo_found).
Proof.
  destruct (begun_requests_return demo_cfg demo_begun demo_found 3) as [Hn Hq].
  - eapply event_reaches; [apply rtc_refl|apply lookup_begins].
  - do 3 (eapply nsteps_l;
      [exists 0%nat; apply (step_thread_sound demo_cfg demo_env); vm_compute; reflexivity|]).
    constructor.
  - split; [exact Hn|]. apply Hq, demo_found_idle.
Defined.
End PoolThreadsDemo.
