(* ===== verification/Redirect.v ===== *)
(** * Out-of-band cluster operations

    [grpc_factory::add_server], [rem_server] and [append_entry] of
    [src/lib/factory.cpp]: one request to a member of the cluster, whose
    response handler follows the leader hints of the answers until the request
    is settled.  The context [client_ctx] of one operation is part of the state;
    its promise is a sequence of shared states, because [future()] replaces the
    promise by a new one. *)

From stdpp Require Import base gmap strings list numbers relations.
From Stdlib Require Import Strings.Byte.
From S2P Require Import Prelude Types Codec ClientPool DataPath.

(** What NuRaft's serializers produce: [srv_config(id, endpoint).serialize()] and
    the bytes [buffer::put(int32_t)] stores. *)
Class NuraftBytes : Type := {
  serialize_srv_config : Z → string → list byte;
  put_int32 : Z → list byte;
}.

Section redirect.
Context `{UuidOps} `{MsgTypes} `{NuraftBytes}.

(** ** Messages *)

(** The three instances of [client_ctx< Payload >]. *)
Inductive payload :=
| AddServer (srv_id : Z)
| RemServer (srv_id : Z)
| AppendEntry (buf : buffer).

(** [createMessage], one case per specialisation. *)
Definition createMessage (p : payload) (srv_addr : uuid) : req_msg :=
  match p with
  | AddServer srv_id =>
      let srv_conf := serialize_srv_config (i32 srv_id) (uuid_to_string srv_addr) in
      mkReq 0 add_server_request 0 0 0 0 0 [mkEntry 0 (buf_alloc srv_conf) cluster_server 0]
  | RemServer srv_id =>
      mkReq 0 remove_server_request 0 0 0 0 0
        [mkEntry 0 (buf_alloc (put_int32 srv_id)) cluster_server 0]
  | AppendEntry buf =>
      mkReq 0 client_request 0 1 0 0 0 [mkEntry 0 buf app_log 0]
  end.

(** ** The context of one operation *)

(** [_promise] is the promise number [ctx_promise]; [promises] are the promises
    that have been given a value. *)
Record op_state := mkOp {
  op_pool : pool;
  cur_dest : Z;
  ctx_promise : nat;
  promises : gmap nat NullResult;
}.

Definition in_pool {A : Type} (m : M pool A) : M op_state A := λ s,
  let '(r, p) := m (op_pool s) in
  (r, mkOp p (cur_dest s) (ctx_promise s) (promises s)).

(** The constructor: a default-constructed promise is valid and unfulfilled. *)
Definition client_ctx (dest : Z) : M op_state unit :=
  modify (λ s, mkOp (op_pool s) dest 0 ∅).

(** [future()]: a new promise takes the place of the old one. *)
Definition future : M op_state nat := λ s,
  (Ret (S (ctx_promise s)), mkOp (op_pool s) (cur_dest s) (S (ctx_promise s)) (promises s)).

(** [set(code)]: fulfilling a promise twice throws. *)
Definition set (c : Z) : M op_state unit := λ s,
  match promises s !! ctx_promise s with
  | Some _ => (Throw "PromiseAlreadySatisfied", s)
  | None => (Ret tt, mkOp (op_pool s) (cur_dest s) (ctx_promise s)
                       (<[ctx_promise s := code_result c]> (promises s)))
  end.

Definition set_cur_dest (d : Z) : M op_state unit :=
  modify (λ s, mkOp (op_pool s) d (ctx_promise s) (promises s)).

(** ** The response handler *)

Section handler.
Context (cfg : mesg_cfg).
Context (p : payload) (_new_srv_addr : uuid).

(** A call in flight, with the request its handler keeps. *)
Abbreviation in_flight := (option (rpc_call * req_msg)).

(** [respHandler]; [depth] bounds the handlers that run inside one another, which
    happens when a client completes a request at once. *)
Fixpoint respHandler (depth : nat) (factory : grpc_factory) (a : handler_args)
  : M op_state in_flight :=
  match depth with
  | O => ub "handlers nested too deeply"
  | S depth' =>
      match h_err a, h_resp a with
      | Some _, Some rsp => set (rs_result_code (gr_resp rsp));; mret None
      | _, None => set code.SERVER_NOT_FOUND;; mret None
      | None, Some rsp =>
          dest ← gets cur_dest;
          if rs_accepted (gr_resp rsp) then set (rs_result_code (gr_resp rsp));; mret None
          else if decide (dest = rs_dst (gr_resp rsp))
          then set (rs_result_code (gr_resp rsp));; mret None
          else if decide (rs_dst (gr_resp rsp) < 0)%Z
          then set (rs_result_code (gr_resp rsp));; mret None
          else
            set_cur_dest (rs_dst (gr_resp rsp));;
            client ← in_pool (create_or_reinit_client_str factory (gr_dest_addr rsp));
            r ← in_pool (send cfg client (createMessage p _new_srv_addr));
            match r with
            | Issued c req => mret (Some (c, req))
            | Completed a' => respHandler depth' factory a'
            end
      end
  end.

(** ** The operations *)

(** Result of an operation: settled at once, or the promise its future belongs to. *)
Inductive async_result :=
| Immediate (r : NullResult)
| FutureOf (promise : nat).

(** [add_server], [rem_server] and [append_entry] up to and including
    [client->send(msg, handler)]; [false] when there is no client. *)
Definition start_request (factory : grpc_factory) (dest_cfg : srv_config)
  : M op_state (bool * in_flight) :=
  client ← in_pool (create_or_reinit_client_str factory (sc_endpoint dest_cfg));
  match client with
  | None => mret (false, None)
  | Some _ =>
      client_ctx (sc_id dest_cfg);;
      r ← in_pool (send cfg client (createMessage p _new_srv_addr));
      match r with
      | Issued c req => mret (true, Some (c, req))
      | Completed a => fl ← respHandler 2 factory a; mret (true, fl)
      end
  end.

(** The whole call, when the answer does not overtake it.  A gRPC worker may also run
    [respHandler] between the two parts: [start_request], then any [request_step]s,
    then [future]. *)
Definition cluster_request (factory : grpc_factory) (dest_cfg : srv_config)
  : M op_state (async_result * in_flight) :=
  '(ok, fl) ← start_request factory dest_cfg;
  if (ok : bool) then n ← future; mret (FutureOf n, fl)
  else mret (Immediate (Unexpected code.CANCELLED), None).
End handler.

Definition add_server (cfg : mesg_cfg) (factory : grpc_factory) (srv_id : Z) (srv_addr : uuid)
    (dest_cfg : srv_config) : M op_state (async_result * option (rpc_call * req_msg)) :=
  cluster_request cfg (AddServer srv_id) srv_addr factory dest_cfg.

Definition rem_server (cfg : mesg_cfg) (factory : grpc_factory) (srv_id : Z)
    (dest_cfg : srv_config) : M op_state (async_result * option (rpc_call * req_msg)) :=
  cluster_request cfg (RemServer (i32 srv_id)) uuid_nil factory dest_cfg.

Definition append_entry (cfg : mesg_cfg) (factory : grpc_factory) (buf : buffer)
    (dest_cfg : srv_config) : M op_state (async_result * option (rpc_call * req_msg)) :=
  cluster_request cfg (AppendEntry buf) uuid_nil factory dest_cfg.

(** ** Operations in progress *)

Record request := mkRequest { rq_op : op_state; rq_flight : option (rpc_call * req_msg) }.

(** What can happen to an operation once its request is sent, before and after its
    future is returned: the pool changes under it, or the call in flight is answered, in
    any network environment. *)
Inductive request_step (cfg : mesg_cfg) (p : payload) (addr : uuid) (f : N) (gid : uuid)
    (gtype : string) (r : request) : request → Prop :=
| request_pool s' :
    pool_step (op_pool (rq_op r)) s' →
    request_step cfg p addr f gid gtype r
      (mkRequest (mkOp s' (cur_dest (rq_op r)) (ctx_promise (rq_op r)) (promises (rq_op r)))
         (rq_flight r))
| request_answered env call a fl op' :
    rq_flight r = Some call →
    respHandler cfg p addr 2 (mesg_factory env f gid gtype) a (rq_op r) = (Ret fl, op') →
    request_step cfg p addr f gid gtype r (mkRequest op' fl).

(** A run against a cluster that answers every group message by [answer]: the calls
    made, and the state when nothing is in flight or [fuel] answers were consumed. *)
Fixpoint drive (cfg : mesg_cfg) (p : payload) (addr : uuid) (factory : grpc_factory)
    (answer : RaftGroupMsg → handler_args) (fuel : nat) (r : request)
  : outcome (list RaftGroupMsg * request) :=
  match fuel, rq_flight r with
  | S fuel', Some (CallRaftStep _ m _, _) =>
      match respHandler cfg p addr 2 factory (answer m) (rq_op r) with
      | (Ret fl, op') =>
          match drive cfg p addr factory answer fuel' (mkRequest op' fl) with
          | Ret (ms, r') => Ret (m :: ms, r')
          | o => o
          end
      | (Throw e, _) => Throw e
      | (Ub e, _) => Ub e
      end
  | _, _ => Ret ([], r)
  end.
End redirect.

(** ** The handler's contract *)

Section contract.
Context `{UuidOps} `{MsgTypes} `{NuraftBytes}.

(** What an answer means to an operation waiting for server [dest]: a final result
    code, or a server to try instead. *)
Definition verdict (dest : Z) (a : handler_args) : Z + grpc_resp :=
  match h_resp a with
  | None => inl code.SERVER_NOT_FOUND
  | Some r =>
      if bool_decide (h_err a = None ∧ rs_accepted (gr_resp r) = false ∧
                      rs_dst (gr_resp r) ≠ dest ∧ (0 ≤ rs_dst (gr_resp r))%Z)
      then inr r else inl (rs_result_code (gr_resp r))
  end.

(** A call that carries [req] to the peer [u], with what its handler keeps. *)
Definition carries (u : uuid) (req : req_msg) (x : rpc_call * req_msg) : Prop :=
  ∃ t m d, x = (CallRaftStep t m d, rewind_req req) ∧
           g_intended_addr m = uuid_to_string u ∧ toRequest true (g_msg m) = Some (rewind_req req).

(** The operation's promise gets [c], nothing else happens to its context. *)
Definition settled (s : op_state) (c : Z) (s' : op_state) : Prop :=
  ctx_promise s' = ctx_promise s ∧
  promises s' = <[ctx_promise s := code_result c]> (promises s).

Definition reachable_pool (s : pool) : Prop := rtc pool_step empty_pool s.

(** A peer the application knows an address for, to which a channel can be made. *)
Definition can_reach (env : net_env) (u : uuid) : Prop :=
  lookupEndpoint env u ≠ EmptyString ∧ make_ok env (lookupEndpoint env u) = true.
End contract.

(** ** Lemmas *)

Section redirect_lemmas.
Context `{UuidOps} `{MsgTypes} `{!MsgTypesOk} `{NuraftBytes}.
Context (cfg : mesg_cfg).
Implicit Types (s : pool) (env : net_env) (u gid : uuid) (l t : N).

Lemma createMessage_wf p addr : wf_req (createMessage p addr).
Proof.
  pose proof msg_types_range as Hm. pose proof log_types_range as Hl.
  rewrite !Forall_cons in Hm. destruct Hm as (_ & _ & _ & Hc & Ha & Hr & _).
  rewrite !Forall_cons in Hl. destruct Hl as (Happ & Hcl & _).
  assert (∀ buf ty, in_i32 ty → Forall wf_entry [mkEntry 0 buf ty 0]) as He.
  { intros buf ty Hty. apply Forall_singleton. unfold wf_entry, in_u64. simpl. split_and!; done || lia. }
  destruct p; unfold wf_req, in_u64, in_i32; simpl; split_and!; try done; try lia; by apply He.
Qed.

Lemma send_proto s l u req :
  pool_wf s → addressed_to s u l → wf_req req →
  ∃ x, send cfg (Some l) req s = (Ret (Issued x.1 x.2), s) ∧ carries u req x.
Proof.
  intros Hwf (c & gid & gtype & Hl) Hreq. destruct (wf_proto s Hwf _ _ Hl) as (t & Ht & _).
  simpl in Ht. subst c. destruct (fromRCRequest_total req) as (rc & Hrc & _).
  unfold send, mbind, M_bind, gets. simpl. rewrite Hl. unfold request_message. rewrite Hrc. simpl.
  eexists (_, _). split; [done|]. eexists _, _, _. split; [done|]. split; [done|].
  by apply decode_encoded.
Qed.

Lemma send_error s l req :
  heap s !! l = Some ErrorClient →
  send cfg (Some l) req s = (Ret (Completed (mkHandler None (Some "Bad connection"%string))), s).
Proof. intros Hl. unfold send, mbind, M_bind, gets. simpl. by rewrite Hl. Qed.

Lemma reachable_wrapper env f gid gtype u force s :
  reachable_pool s → reachable_pool (wrapper env f gid gtype u force s).2.
Proof.
  intros Hr. eapply rtc_r; [exact Hr|]. pose proof (step_mesg s env f gid gtype u force) as Hs.
  rewrite mesg_refines in Hs by by apply reachable_wf. done.
Qed.

(** A wrapper lookup followed by a send. *)
Lemma wrapper_send env f gid gtype u req s :
  reachable_pool s → wf_req req →
  let '(w, s') := wrapper env f gid gtype u false s in
  (∃ x, send cfg (Some w) req s' = (Ret (Issued x.1 x.2), s') ∧ carries u req x) ∨
  send cfg (Some w) req s' = (Ret (Completed (mkHandler None (Some "Bad connection"%string))), s')
  ∧ heap s' !! w = Some ErrorClient.
Proof.
  intros Hr Hreq. pose proof (reachable_wrapper env f gid gtype u false s Hr) as Hr'.
  pose proof (wrapper_spec env f gid gtype u false s (reachable_wf s Hr)) as [Hwf _ _ Hres].
  destruct (wrapper env f gid gtype u false s) as [w s']. simpl in *.
  destruct Hres as [[He _]|(pc & t & _ & _ & _ & _ & Hc)].
  - right. split; [by apply send_error|done].
  - left. apply send_proto; [done| |done]. by apply (reachable_addressed s' Hr' f).
Qed.

(** A peer that can be reached is not given an error client. *)
Lemma can_reach_wrapper env f gid gtype u s :
  pool_wf s → can_reach env u →
  heap (wrapper env f gid gtype u false s).2 !! (wrapper env f gid gtype u false s).1
    ≠ Some ErrorClient.
Proof.
  intros Hwf [Hep Hmk]. unfold wrapper. pose proof (transport_spec env u false s Hwf) as Htp.
  assert (heap (transport env u false s).2 !! (transport env u false s).1 ≠ Some ErrorClient) as Hne.
  { assert (heap (renew env u s).2 !! (renew env u s).1 ≠ Some ErrorClient) as Hre.
    { unfold renew. rewrite decide_False, Hmk by done. simpl. by rewrite lookup_insert_eq. }
    unfold transport in *. destruct (group_clients s !! u) as [[l|]|]; [|done|done].
    destruct (negb false && healthy env s l) eqn:Hh; [|done]. simpl in *. intros He.
    unfold healthy in Hh. by rewrite He in Hh. }
  destruct (transport env u false s) as [t s1]. simpl in *.
  destruct (tp_result _ _ _ _ Htp) as [[Hu _]|]; [|done].
  rewrite (as_messaging_Some s1 t (unmarked_messaging _ _ Hu)).
  destruct (mesg_clients_of f s !! u) as [[l|]|] eqn:Hl; simpl; rewrite ?lookup_insert_eq; [|done..].
  destruct (cached_proto f u s s1 t Hwf Htp u _ Hl) as (? & [= <-] & pc & Hpc). rewrite Hpc. simpl.
  by rewrite lookup_insert_eq.
Qed.

Lemma set_run (o : op_state) c :
  promises o !! ctx_promise o = None →
  set c o = (Ret tt, mkOp (op_pool o) (cur_dest o) (ctx_promise o)
                       (<[ctx_promise o := code_result c]> (promises o))).
Proof. intros Hn. unfold set. by rewrite Hn. Qed.

(** A final verdict: the promise is fulfilled, nothing is sent. *)
Lemma respHandler_settles p addr d F a (o : op_state) c :
  verdict (cur_dest o) a = inl c → promises o !! ctx_promise o = None →
  respHandler cfg p addr (S d) F a o =
  (Ret None, mkOp (op_pool o) (cur_dest o) (ctx_promise o)
               (<[ctx_promise o := code_result c]> (promises o))).
Proof.
  intros Hv Hn. destruct a as [[r|] err]; unfold verdict in Hv; cbn [h_resp h_err] in Hv.
  2:{ injection Hv as <-. destruct err; cbn [respHandler h_err h_resp]; unfold mbind, M_bind;
        by rewrite set_run. }
  case_bool_decide as Hc; [done|]. injection Hv as <-.
  assert ((set (rs_result_code (gr_resp r)) ;; mret None) o =
          (Ret (A := option (rpc_call * req_msg)) None,
           mkOp (op_pool o) (cur_dest o) (ctx_promise o)
             (<[ctx_promise o := code_result (rs_result_code (gr_resp r))]> (promises o)))) as Hset.
  { unfold mbind, M_bind. by rewrite set_run. }
  cbn [respHandler h_err h_resp]. destruct err as [e|]; [exact Hset|].
  unfold mbind at 1, M_bind at 1, gets.
  destruct (rs_accepted (gr_resp r)) eqn:Hacc; [exact Hset|].
  destruct (decide (cur_dest o = rs_dst (gr_resp r))) as [|Hne]; [exact Hset|].
  destruct (decide (rs_dst (gr_resp r) < 0)%Z) as [|Hge]; [exact Hset|].
  exfalso. apply Hc. split_and!; try done; lia.
Qed.

(** A redirecting verdict, up to the lookup of the new server. *)
Lemma respHandler_inr p addr d F a (o : op_state) r :
  verdict (cur_dest o) a = inr r →
  respHandler cfg p addr (S d) F a o =
  (client ← in_pool (create_or_reinit_client_str F (gr_dest_addr r));
   r ← in_pool (send cfg client (createMessage p addr));
   match r with
   | Issued c req => mret (Some (c, req))
   | Completed a' => respHandler cfg p addr d F a'
   end) (mkOp (op_pool o) (rs_dst (gr_resp r)) (ctx_promise o) (promises o)).
Proof.
  intros Hv. destruct a as [[r'|] err]; unfold verdict in Hv; cbn [h_resp h_err] in Hv; [|done].
  case_bool_decide as Hc; [|done]. injection Hv as <-. destruct Hc as (He & Hacc & Hne & Hge).
  cbn [respHandler h_err h_resp]. rewrite He. unfold mbind at 1, M_bind at 1, gets. rewrite Hacc.
  rewrite decide_False by done. by rewrite decide_False by lia.
Qed.

(** No address in a redirect: the null client is dereferenced. *)
Lemma respHandler_null p addr d F a (o : op_state) r :
  verdict (cur_dest o) a = inr r → string_generator (gr_dest_addr r) = None →
  (respHandler cfg p addr (S d) F a o).1 = Ub "null client".
Proof.
  intros Hv Hg. rewrite (respHandler_inr _ _ _ _ _ _ _ Hv).
  unfold create_or_reinit_client_str. by rewrite Hg.
Qed.

(** An address in a redirect: the request goes to that peer, or fails if it cannot
    be reached. *)
Lemma respHandler_follows p addr env f gid gtype a (o : op_state) r u :
  verdict (cur_dest o) a = inr r → string_generator (gr_dest_addr r) = Some u →
  reachable_pool (op_pool o) → promises o !! ctx_promise o = None →
  ∃ fl o', respHandler cfg p addr 2 (mesg_factory env f gid gtype) a o = (Ret fl, o') ∧
    op_pool o' = (wrapper env f gid gtype u false (op_pool o)).2 ∧
    cur_dest o' = rs_dst (gr_resp r) ∧
    ((∃ x, fl = Some x ∧ carries u (createMessage p addr) x ∧
           ctx_promise o' = ctx_promise o ∧ promises o' = promises o) ∨
     fl = None ∧ settled o code.SERVER_NOT_FOUND o' ∧ ¬ can_reach env u).
Proof.
  intros Hv Hg Hr Hn. rewrite (respHandler_inr _ _ _ _ _ _ _ Hv).
  unfold create_or_reinit_client_str. rewrite Hg. unfold mbind, M_bind, in_pool. simpl op_pool.
  rewrite mesg_refines by by apply reachable_wf.
  pose proof (wrapper_send env f gid gtype u (createMessage p addr) (op_pool o) Hr
                (createMessage_wf p addr)) as Hs.
  pose proof (can_reach_wrapper env f gid gtype u (op_pool o) (reachable_wf _ Hr)) as Hcr.
  destruct (wrapper env f gid gtype u false (op_pool o)) as [w s']. simpl in *.
  destruct Hs as [(x & Hx & Hcar)|[Hx He]]; rewrite Hx.
  - eexists _, _. split; [done|]. simpl. split_and!; [done..|]. left. destruct x. eauto.
  - simpl. unfold mbind, M_bind. rewrite set_run by done. simpl.
    eexists _, _. split; [done|]. simpl. split_and!; [done..|].
    right. split_and!; [done|done|]. intros Hc. by apply Hcr.
Qed.
End redirect_lemmas.

Section redirect_runs.
Context `{UuidOps} `{MsgTypes} `{!MsgTypesOk} `{NuraftBytes}.
Context (cfg : mesg_cfg) (p : payload) (addr : uuid).
Context (env : net_env) (f : N) (gid : uuid) (gtype : string).

Abbreviation F := (mesg_factory env f gid gtype).

(** A request that waits: a call in flight to [u] and an unset promise. *)
Record waiting (u : uuid) (d : Z) (n : nat) (r : request) : Prop := {
  w_pool : reachable_pool (op_pool (rq_op r));
  w_dest : cur_dest (rq_op r) = d;
  w_promise : ctx_promise (rq_op r) = n;
  w_unset : promises (rq_op r) !! n = None;
  w_flight : ∃ x, rq_flight r = Some x ∧ carries u (createMessage p addr) x;
}.

(** How an operation starts. *)
Lemma cluster_request_run dest_cfg u (o : op_state) :
  string_generator (sc_endpoint dest_cfg) = Some u → reachable_pool (op_pool o) →
  ∃ fl o', cluster_request cfg p addr F dest_cfg o = (Ret (FutureOf 1, fl), o') ∧
    ctx_promise o' = 1 ∧ reachable_pool (op_pool o') ∧
    ((∃ x, fl = Some x ∧ waiting u (sc_id dest_cfg) 1 (mkRequest o' fl)) ∨
     fl = None ∧ promises o' = {[0 := Unexpected code.SERVER_NOT_FOUND]} ∧ ¬ can_reach env u).
Proof.
  intros Hu Hr. unfold cluster_request, start_request, create_or_reinit_client_str. rewrite Hu.
  unfold mbind, M_bind, in_pool. rewrite mesg_refines by by apply reachable_wf.
  pose proof (wrapper_send cfg env f gid gtype u (createMessage p addr) (op_pool o) Hr
                (createMessage_wf p addr)) as Hs.
  pose proof (can_reach_wrapper env f gid gtype u (op_pool o) (reachable_wf _ Hr)) as Hcr.
  pose proof (reachable_wrapper env f gid gtype u false (op_pool o) Hr) as Hr'.
  destruct (wrapper env f gid gtype u false (op_pool o)) as [w s']. cbn [fst snd] in *.
  unfold client_ctx, modify. cbn [op_pool].
  destruct Hs as [(x & Hx & Hcar)|[Hx He]]; rewrite Hx.
  - eexists _, _. split; [done|]. cbn [ctx_promise op_pool]. split_and!; [done..|]. left.
    destruct x as [c req]. eexists. split; [done|]. split; try done. by eexists.
  - rewrite (respHandler_settles cfg p addr 1 F _ _ code.SERVER_NOT_FOUND) by done.
    eexists _, _. split; [done|]. cbn [ctx_promise op_pool promises]. split_and!; [done..|].
    right. split_and!; [done|done|]. intros Hc. by apply Hcr.
Qed.

(** One redirect from a waiting request to a peer that can be reached. *)
Lemma waiting_redirect u d n r a rsp v :
  waiting u d n r → verdict d a = inr rsp → string_generator (gr_dest_addr rsp) = Some v →
  can_reach env v →
  ∃ fl o', respHandler cfg p addr 2 F a (rq_op r) = (Ret fl, o') ∧
           waiting v (rs_dst (gr_resp rsp)) n (mkRequest o' fl).
Proof.
  intros [Hr Hd Hn Hun _] Hv Hg Hreach. subst d n.
  destruct (respHandler_follows cfg p addr env f gid gtype a (rq_op r) rsp v Hv Hg Hr Hun)
    as (fl & o' & Hrun & Hp & Hd & Hcase).
  destruct Hcase as [(x & -> & Hcar & Hn & Hps)|(_ & _ & Hno)]; [|done].
  eexists _, _. split; [done|]. split; cbn [rq_op rq_flight]; try done.
  - rewrite Hp. by apply reachable_wrapper.
  - by rewrite Hps.
  - by eexists.
Qed.

(** Driving a waiting request: its answer is handled. *)
Lemma drive_waiting answer fuel u d n r :
  waiting u d n r →
  ∃ m, g_intended_addr m = uuid_to_string u ∧
       toRequest true (g_msg m) = Some (rewind_req (createMessage p addr)) ∧
       drive cfg p addr F answer (S fuel) r =
       match respHandler cfg p addr 2 F (answer m) (rq_op r) with
       | (Ret fl, op') =>
           match drive cfg p addr F answer fuel (mkRequest op' fl) with
           | Ret (ms, r') => Ret (m :: ms, r')
           | o => o
           end
       | (Throw e, _) => Throw e
       | (Ub e, _) => Ub e
       end.
Proof.
  intros [_ _ _ _ (x & Hx & t & m & dl & -> & Ha & Hm)]. exists m. split_and!; [done..|].
  cbn [drive]. by rewrite Hx.
Qed.

(** A waiting request whose answer is final is settled. *)
Lemma waiting_settles u d n r a c :
  waiting u d n r → verdict d a = inl c →
  ∃ o', respHandler cfg p addr 2 F a (rq_op r) = (Ret None, o') ∧
        promises o' !! n = Some (code_result c) ∧ reachable_pool (op_pool o').
Proof.
  intros [Hr Hd Hn Hun _] Hv. subst d n. eexists. split; [by apply respHandler_settles|].
  simpl. split; [apply lookup_insert_eq|done].
Qed.
End redirect_runs.

Section redirect_invariant.
Context `{UuidOps} `{MsgTypes} `{!MsgTypesOk} `{NuraftBytes}.
Context (cfg : mesg_cfg) (p : payload) (addr : uuid) (f : N) (gid : uuid) (gtype : string).

(** An operation in progress, whose context holds promise [n]: while a call is in flight
    no promise has a value, and when nothing is in flight that promise alone has one. *)
Record op_inv (n : nat) (r : request) : Prop := {
  oi_pool : reachable_pool (op_pool (rq_op r));
  oi_promise : ctx_promise (rq_op r) = n;
  oi_flight : match rq_flight r with
              | Some _ => promises (rq_op r) = ∅
              | None => ∃ v, promises (rq_op r) = {[n := v]}
              end;
}.

(** What one answer does to an operation that waits. *)
Lemma op_inv_answer n r env a :
  op_inv n r → is_Some (rq_flight r) →
  let run := respHandler cfg p addr 2 (mesg_factory env f gid gtype) a (rq_op r) in
  match verdict (cur_dest (rq_op r)) a with
  | inl c => run.1 = Ret None ∧ promises run.2 = {[n := code_result c]} ∧
             op_inv n (mkRequest run.2 None)
  | inr rsp =>
      match string_generator (gr_dest_addr rsp) with
      | None => run.1 = Ub "null client"
      | Some u => ∃ fl, run.1 = Ret fl ∧ op_inv n (mkRequest run.2 fl) ∧
          (fl = None → promises run.2 = {[n := Unexpected code.SERVER_NOT_FOUND]})
      end
  end.
Proof.
  intros [Hp Hn Hf] [x Hx] run. rewrite Hx in Hf.
  assert (promises (rq_op r) !! ctx_promise (rq_op r) = None) as Hun by by rewrite Hf.
  destruct (verdict (cur_dest (rq_op r)) a) as [c|rsp] eqn:Hv.
  { unfold run. rewrite (respHandler_settles cfg p addr 1 _ a _ c Hv Hun). cbn [fst snd promises].
    rewrite Hf, insert_empty, Hn. split_and!; [done..|].
    split; cbn [rq_op op_pool ctx_promise promises rq_flight]; eauto. }
  destruct (string_generator (gr_dest_addr rsp)) as [u|] eqn:Hg.
  2:{ by apply (respHandler_null cfg p addr 1 _ _ _ rsp). }
  destruct (respHandler_follows cfg p addr env f gid gtype a _ rsp u Hv Hg Hp Hun)
    as (fl & o' & Hrun & Hpool & _ & Hcase).
  unfold run. rewrite Hrun. cbn [fst snd]. exists fl. split; [done|].
  assert (reachable_pool (op_pool o')) as Hp' by (rewrite Hpool; by apply reachable_wrapper).
  destruct Hcase as [(y & -> & _ & Hn' & Hps)|(-> & [Hn' Hps] & _)];
    rewrite Hf in Hps; (split; [split|]); cbn [rq_op rq_flight]; rewrite ?Hn', ?Hps; try done.
  - rewrite insert_empty, Hn. eauto.
  - intros _. by rewrite insert_empty, Hn.
Qed.

Lemma op_inv_step n r r' :
  op_inv n r → request_step cfg p addr f gid gtype r r' → op_inv n r'.
Proof.
  intros Hi [s' Hs|env call a fl op' Hfl Hrun].
  - destruct Hi as [Hp Hn Hf].
    split; cbn [rq_op op_pool ctx_promise promises rq_flight]; try done. by eapply rtc_r.
  - pose proof (op_inv_answer n r env a Hi (mk_is_Some _ _ Hfl)) as Ha. cbv zeta in Ha.
    rewrite Hrun in Ha. cbn [fst snd] in Ha.
    destruct (verdict _ a) as [c|rsp]; [by destruct Ha as ([= ->] & _ & ?)|].
    destruct (string_generator _); [|done]. by destruct Ha as (? & [= ->] & ? & _).
Qed.

Lemma op_inv_steps n r r' :
  op_inv n r → rtc (request_step cfg p addr f gid gtype) r r' → op_inv n r'.
Proof. intros Hi Hr. induction Hr; [done|]. eauto using op_inv_step. Qed.

Lemma start_request_inv env dest_cfg (o o1 : op_state) fl :
  reachable_pool (op_pool o) →
  start_request cfg p addr (mesg_factory env f gid gtype) dest_cfg o = (Ret (true, fl), o1) →
  op_inv 0 (mkRequest o1 fl).
Proof.
  unfold start_request, create_or_reinit_client_str. intros Hr Hs.
  destruct (string_generator (sc_endpoint dest_cfg)) as [u|]; [|done].
  revert Hs. unfold mbind, M_bind, in_pool. rewrite mesg_refines by by apply reachable_wf.
  pose proof (wrapper_send cfg env f gid gtype u (createMessage p addr) (op_pool o) Hr
                (createMessage_wf p addr)) as Hs.
  pose proof (reachable_wrapper env f gid gtype u false (op_pool o) Hr) as Hr'.
  destruct (wrapper env f gid gtype u false (op_pool o)) as [w s']. cbn [fst snd] in *.
  unfold client_ctx, modify. cbn [op_pool].
  destruct Hs as [(x & Hx & _)|[Hx _]]; rewrite Hx.
  - intros [= <- <-]. by split.
  - rewrite (respHandler_settles cfg p addr 1 _ _ _ code.SERVER_NOT_FOUND) by done.
    intros [= <- <-]. split; [done..|]. cbn [rq_flight rq_op promises]. rewrite insert_empty. eauto.
Qed.

(** Nothing in flight, nothing changes but the pool. *)
Lemma idle_steps r r' :
  rq_flight r = None → rtc (request_step cfg p addr f gid gtype) r r' →
  rq_flight r' = None ∧ promises (rq_op r') = promises (rq_op r).
Proof.
  intros Hf Hr. induction Hr as [|r1 r2 r3 Hs _ IH]; [done|].
  destruct Hs as [s' Hs|env call a fl op' Hfl _]; [|by rewrite Hf in Hfl].
  by destruct (IH Hf) as [? ->].
Qed.
End redirect_invariant.

(** ** Clusters *)

Section clusters.
Context `{UuidOps}.

(** An answer that hands the request on to server [d] at peer [v]. *)
Definition hands_on (d : Z) (v : uuid) (a : handler_args) : Prop :=
  ∃ r, a = mkHandler (Some r) None ∧ rs_accepted (gr_resp r) = false ∧
       rs_dst (gr_resp r) = d ∧ gr_dest_addr r = uuid_to_string v.

(** Everybody knows the leader: it settles every request with [c], and all others
    hand requests on to it. *)
Definition stable_leader (leader : uuid) (d c : Z) (answer : RaftGroupMsg → handler_args) : Prop :=
  ∀ m, if decide (g_intended_addr m = uuid_to_string leader)
       then ∀ d', verdict d' (answer m) = inl c
       else hands_on d leader (answer m).

(** Two servers that take each other for the leader. *)
Definition mutual_hints (u1 u2 : uuid) (d1 d2 : Z) (answer : RaftGroupMsg → handler_args) : Prop :=
  ∀ m, (g_intended_addr m = uuid_to_string u1 → hands_on d2 u2 (answer m)) ∧
       (g_intended_addr m = uuid_to_string u2 → hands_on d1 u1 (answer m)).

Lemma hands_on_verdict `{!UuidLaws} d v a d0 :
  hands_on d v a → d ≠ d0 → (0 ≤ d)%Z →
  ∃ r, verdict d0 a = inr r ∧ rs_dst (gr_resp r) = d ∧
       string_generator (gr_dest_addr r) = Some v.
Proof.
  intros (r & -> & Hacc & Hd & Haddr) Hne Hge. exists r. unfold verdict. cbn [h_resp h_err].
  rewrite bool_decide_true by (split_and!; [done|done|by rewrite Hd|by rewrite Hd]).
  rewrite Haddr. split_and!; [done..|]. apply generator_to_string.
Qed.

Lemma mutual_hints_sym u1 u2 d1 d2 answer :
  mutual_hints u1 u2 d1 d2 answer → mutual_hints u2 u1 d2 d1 answer.
Proof. intros Hm m. destruct (Hm m). done. Qed.

Lemma toResponse_no_address m r :
  toResponse m = Some r → rs_result_code (gr_resp r) ≠ code.NOT_LEADER →
  gr_dest_addr r = EmptyString.
Proof.
  unfold toResponse. destruct (m_req_resp m); try done. intros [= <-]. simpl.
  intros Hne. by rewrite decide_False.
Qed.

(** A waiting request bounces between the two servers. *)
Lemma ping_pong `{MsgTypes} `{!MsgTypesOk} `{NuraftBytes} `{!UuidLaws} cfg p addr env f gid gtype
    answer fuel u1 u2 d1 d2 n r :
  can_reach env u1 → can_reach env u2 → (0 ≤ d1)%Z → (0 ≤ d2)%Z → d1 ≠ d2 →
  mutual_hints u1 u2 d1 d2 answer → waiting p addr u1 d1 n r →
  ∃ ms r', drive cfg p addr (mesg_factory env f gid gtype) answer fuel r = Ret (ms, r') ∧
           length ms = fuel ∧ is_Some (rq_flight r') ∧ promises (rq_op r') !! n = None.
Proof.
  revert u1 u2 d1 d2 r.
  induction fuel as [|fuel IH]; intros u1 u2 d1 d2 r Hr1 Hr2 Hd1 Hd2 Hne Hm Hw.
  { destruct Hw as [_ _ _ Hun (x & Hx & _)]. exists [], r. by rewrite Hx. }
  destruct (drive_waiting cfg p addr env f gid gtype answer fuel u1 d1 n r Hw) as (m & Hma & _ & ->).
  destruct (hands_on_verdict _ _ _ d1 (proj1 (Hm m) Hma) (not_eq_sym Hne) Hd2) as (rsp & Hv & Hrd & Hg).
  destruct (waiting_redirect cfg p addr env f gid gtype u1 d1 n r _ rsp u2 Hw Hv Hg Hr2)
    as (fl & o' & -> & Hw'). rewrite Hrd in Hw'.
  destruct (IH u2 u1 d2 d1 _ Hr2 Hr1 Hd2 Hd1 (not_eq_sym Hne) (mutual_hints_sym _ _ _ _ _ Hm) Hw')
    as (ms & r' & -> & Hlen & Hfl & Hun).
  exists (m :: ms), r'. simpl. by rewrite Hlen.
Qed.
(** A request to a member of a cluster with a stable leader, answer by answer. *)
Lemma stable_leader_run `{MsgTypes} `{!MsgTypesOk} `{NuraftBytes} `{!UuidLaws} (cfg : mesg_cfg) (p : payload) (addr : uuid)
    (env : net_env) (f : N) (gid : uuid) (gtype : string) (dest_cfg : srv_config) (o : op_state)
    (u leader : uuid) (d c : Z) (answer : RaftGroupMsg → handler_args) :
  reachable_pool (op_pool o) →
  string_generator (sc_endpoint dest_cfg) = Some u →
  can_reach env u → can_reach env leader →
  (0 ≤ d)%Z → u = leader ∨ sc_id dest_cfg ≠ d →
  stable_leader leader d c answer →
  let F := mesg_factory env f gid gtype in
  ∃ n fl o' ms r,
    cluster_request cfg p addr F dest_cfg o = (Ret (FutureOf n, fl), o') ∧
    drive cfg p addr F answer 2 (mkRequest o' fl) = Ret (ms, r) ∧
    length ms ≤ 2 ∧
    Forall (λ m, toRequest true (g_msg m) = Some (rewind_req (createMessage p addr))) ms ∧
    rq_flight r = None ∧ promises (rq_op r) !! n = Some (code_result c) ∧
    reachable_pool (op_pool (rq_op r)).
Proof.
  intros Hr Hu Hru Hrl Hd Hid Hst F.
  destruct (cluster_request_run cfg p addr env f gid gtype dest_cfg u o Hu Hr)
    as (fl & o' & Hrun & _ & _ & [(x & -> & Hw)|(_ & _ & ?)]); [|done].
  exists 1, (Some x), o'. subst F.
  destruct (drive_waiting cfg p addr env f gid gtype answer 1 u _ 1 _ Hw) as (m & Hm & Hmr & ->).
  pose proof (Hst m) as Hans. rewrite Hm in Hans. case_decide as Hul.
  - destruct (waiting_settles cfg p addr env f gid gtype _ _ 1 _ (answer m) c Hw (Hans _))
      as (o2 & -> & Hset & Hpool).
    exists [m], (mkRequest o2 None). split_and!; simpl; auto.
  - assert (sc_id dest_cfg ≠ d) as Hne by (destruct Hid as [->|]; done).
    destruct (hands_on_verdict _ _ _ (sc_id dest_cfg) Hans (not_eq_sym Hne) Hd) as (rsp & Hv & Hrd & Hg).
    destruct (waiting_redirect cfg p addr env f gid gtype _ _ 1 _ _ rsp leader Hw Hv Hg Hrl)
      as (fl2 & o2 & -> & Hw2).
    destruct (drive_waiting cfg p addr env f gid gtype answer 0 leader _ 1 _ Hw2) as (m2 & Hm2 & Hmr2 & ->).
    pose proof (Hst m2) as Hans2. rewrite decide_True in Hans2 by done.
    destruct (waiting_settles cfg p addr env f gid gtype _ _ 1 _ (answer m2) c Hw2 (Hans2 _))
      as (o3 & -> & Hset & Hpool).
    exists [m; m2], (mkRequest o3 None). split_and!; simpl; auto.
Qed.
End clusters.

(** ** Properties *)

Section redirect_theorems.
Context `{UuidOps} `{MsgTypes} `{!MsgTypesOk} `{NuraftBytes}.

(** C28: The response handler does what its answer means.  A final answer (an error, an
    accepted request, a server that names itself, or no known leader) fulfils the
    operation's promise with the answer's code and sends nothing.  A leader hint with
    an address sends the same request to that peer and leaves the promise alone, or
    settles with [SERVER_NOT_FOUND] if the peer cannot be reached.  A leader hint
    whose address is not a UUID dereferences a null client. *)
Theorem resp_handler_contract (cfg : mesg_cfg) (p : payload) (addr : uuid) (env : net_env) (f : N)
    (gid : uuid) (gtype : string) (a : handler_args) (o : op_state) :
  reachable_pool (op_pool o) → promises o !! ctx_promise o = None →
  let run := respHandler cfg p addr 2 (mesg_factory env f gid gtype) a o in
  match verdict (cur_dest o) a with
  | inl c => run.1 = Ret None ∧ settled o c run.2 ∧ op_pool run.2 = op_pool o
  | inr r =>
      match string_generator (gr_dest_addr r) with
      | None => run.1 = Ub "null client"
      | Some u =>
          cur_dest run.2 = rs_dst (gr_resp r) ∧ reachable_pool (op_pool run.2) ∧
          ((∃ x, run.1 = Ret (Some x) ∧ carries u (createMessage p addr) x ∧
                 promises run.2 = promises o) ∨
           run.1 = Ret None ∧ settled o code.SERVER_NOT_FOUND run.2 ∧ ¬ can_reach env u)
      end
  end.
Proof.
  intros Hr Hn run. destruct (verdict (cur_dest o) a) as [c|r] eqn:Hv.
  - unfold run. by rewrite (respHandler_settles cfg p addr 1 _ a o c Hv Hn).
  - destruct (string_generator (gr_dest_addr r)) as [u|] eqn:Hg; [|by apply (respHandler_null _ _ _ 1 _ _ _ r)].
    destruct (respHandler_follows cfg p addr env f gid gtype a o r u Hv Hg Hr Hn)
      as (fl & o' & Hrun & Hp & Hd & Hcase).
    unfold run. rewrite Hrun. cbn [fst snd]. split; [done|].
    split; [rewrite Hp; by apply reachable_wrapper|].
    destruct Hcase as [(x & -> & Hc & _ & Hps)|(-> & Hset & Hno)]; [left; by eexists|by right].
Qed.

(** C13: The future of a cluster operation gets at most one value, and gets it from the
    first final answer that arrives after [future()] was called.  Let answers arrive, and
    the pool change, in any way before and after [future()] is called (line 208, 223 or
    239).  While a call is in flight no promise of the operation has a value.  Once none
    is, exactly one promise has one, it never changes again, and it is the promise of the
    returned future exactly when a call was still in flight at [future()]: otherwise the
    future never gets a value.  A final answer gives the future its code; a leader hint
    to a peer that cannot be reached gives it [SERVER_NOT_FOUND]; any other hint leaves a
    call in flight; and a hint whose address is not a UUID crashes the handler. *)
Theorem future_settled_at_most_once (cfg : mesg_cfg) (p : payload) (addr : uuid) (env : net_env)
    (f : N) (gid : uuid) (gtype : string) (dest_cfg : srv_config) (o o1 o2 : op_state) (n : nat)
    (fl : option (rpc_call * req_msg)) (r0 r r' : request) :
  reachable_pool (op_pool o) →
  start_request cfg p addr (mesg_factory env f gid gtype) dest_cfg o = (Ret (true, fl), o1) →
  rtc (request_step cfg p addr f gid gtype) (mkRequest o1 fl) r0 →
  future (rq_op r0) = (Ret n, o2) →
  rtc (request_step cfg p addr f gid gtype) (mkRequest o2 (rq_flight r0)) r →
  rtc (request_step cfg p addr f gid gtype) r r' →
  match rq_flight r with
  | Some _ =>
      promises (rq_op r) = ∅ ∧
      ∀ env' a,
        let run := respHandler cfg p addr 2 (mesg_factory env' f gid gtype) a (rq_op r) in
        match verdict (cur_dest (rq_op r)) a with
        | inl c => run.1 = Ret None ∧ promises run.2 = {[n := code_result c]}
        | inr rsp =>
            match string_generator (gr_dest_addr rsp) with
            | None => run.1 = Ub "null client"
            | Some u => (∃ x, run.1 = Ret (Some x) ∧ promises run.2 = ∅) ∨
                run.1 = Ret None ∧ promises run.2 = {[n := Unexpected code.SERVER_NOT_FOUND]}
            end
        end
  | None =>
      ∃ k v, promises (rq_op r) = {[k := v]} ∧ promises (rq_op r') = {[k := v]} ∧
             rq_flight r' = None ∧ (k = n ↔ is_Some (rq_flight r0))
  end.
Proof.
  intros Hr Hs Hr0 Hfut Hr1 Hr2.
  pose proof (op_inv_steps cfg p addr f gid gtype _ _ _
                (start_request_inv cfg p addr f gid gtype env dest_cfg o o1 fl Hr Hs) Hr0) as Hi0.
  destruct Hi0 as [Hp0 Hn0 Hf0]. injection Hfut as <- <-. rewrite Hn0 in *.
  destruct (rq_flight r) as [x|] eqn:Hfl.
  - assert (is_Some (rq_flight r0)) as [y Hy].
    { destruct (rq_flight r0) eqn:E; [done|].
      destruct (idle_steps cfg p addr f gid gtype (mkRequest _ None) r eq_refl Hr1). congruence. }
    rewrite Hy in *.
    assert (op_inv 1 r) as Hi.
    { refine (op_inv_steps cfg p addr f gid gtype _ _ _ _ Hr1). by split. }
    split; [by pose proof (oi_flight _ _ Hi) as Hf; rewrite Hfl in Hf|]. intros env' a run.
    pose proof (op_inv_answer cfg p addr f gid gtype 1 r env' a Hi (mk_is_Some _ _ Hfl)) as Ha.
    fold run in Ha. cbv zeta in Ha. destruct (verdict _ a) as [c|rsp]; [by destruct Ha as (? & ? & _)|].
    destruct (string_generator _); [|done]. destruct Ha as ([z|] & Hrun & Hi' & Hz); [left|right].
    + exists z. split; [done|]. apply (oi_flight _ _ Hi').
    + split; [done|]. by apply Hz.
  - destruct (idle_steps cfg p addr f gid gtype r r' Hfl Hr2) as [-> ->].
    destruct (rq_flight r0) as [y|] eqn:Hy.
    + assert (op_inv 1 r) as Hi.
      { refine (op_inv_steps cfg p addr f gid gtype _ _ _ _ Hr1). by split. }
      pose proof (oi_flight _ _ Hi) as Hf. rewrite Hfl in Hf. destruct Hf as (v & Hv).
      exists 1, v. by rewrite Hv.
    + destruct (idle_steps cfg p addr f gid gtype (mkRequest _ None) r eq_refl Hr1) as [_ Hps].
      destruct Hf0 as (v & Hv). exists 0, v. rewrite Hps. cbn [rq_op promises].
      split_and!; [done..|]. split; [done|by intros [? ?]].
Qed.

(** C21: With a stable leader an operation ends after at most one redirect: whichever
    member is asked, at most two calls are made, each carrying the same request, and
    the future gets the leader's result. *)
Theorem stable_leader_settles `{!UuidLaws} (cfg : mesg_cfg) (p : payload) (addr : uuid)
    (env : net_env) (f : N) (gid : uuid) (gtype : string) (dest_cfg : srv_config) (o : op_state)
    (u leader : uuid) (d c : Z) (answer : RaftGroupMsg → handler_args) :
  reachable_pool (op_pool o) →
  string_generator (sc_endpoint dest_cfg) = Some u →
  can_reach env u → can_reach env leader →
  (0 ≤ d)%Z → u = leader ∨ sc_id dest_cfg ≠ d →
  stable_leader leader d c answer →
  let F := mesg_factory env f gid gtype in
  ∃ n fl o' ms r,
    cluster_request cfg p addr F dest_cfg o = (Ret (FutureOf n, fl), o') ∧
    drive cfg p addr F answer 2 (mkRequest o' fl) = Ret (ms, r) ∧
    length ms ≤ 2 ∧
    Forall (λ m, toRequest true (g_msg m) = Some (rewind_req (createMessage p addr))) ms ∧
    rq_flight r = None ∧ promises (rq_op r) !! n = Some (code_result c).
Proof.
  intros. destruct (stable_leader_run cfg p addr env f gid gtype dest_cfg o u leader d c answer)
    as (n & fl & o' & ms & r & Hrun & Hdrive & Hlen & Hms & Hfl & Hset & _); [done..|].
  by exists n, fl, o', ms, r.
Qed.

(** Redirects are not bounded: while two servers that can be reached take each other for
    the leader, the operation sends its request back and forth for ever and its future
    stays without a value, however many answers it has consumed. *)
Theorem mutual_hints_never_settle `{!UuidLaws} (cfg : mesg_cfg) (p : payload) (addr : uuid)
    (env : net_env) (f : N) (gid : uuid) (gtype : string) (dest_cfg : srv_config) (o : op_state)
    (u1 u2 : uuid) (d2 : Z) (answer : RaftGroupMsg → handler_args) (fuel : nat) :
  reachable_pool (op_pool o) →
  string_generator (sc_endpoint dest_cfg) = Some u1 →
  can_reach env u1 → can_reach env u2 →
  (0 ≤ sc_id dest_cfg)%Z → (0 ≤ d2)%Z → sc_id dest_cfg ≠ d2 →
  mutual_hints u1 u2 (sc_id dest_cfg) d2 answer →
  let F := mesg_factory env f gid gtype in
  ∃ n fl o' ms r,
    cluster_request cfg p addr F dest_cfg o = (Ret (FutureOf n, fl), o') ∧
    drive cfg p addr F answer fuel (mkRequest o' fl) = Ret (ms, r) ∧
    length ms = fuel ∧ is_Some (rq_flight r) ∧ promises (rq_op r) !! n = None.
Proof.
  intros Hr Hu Hr1 Hr2 Hd1 Hd2 Hne Hans F.
  destruct (cluster_request_run cfg p addr env f gid gtype dest_cfg u1 o Hu Hr)
    as (fl & o' & Hrun & _ & _ & [(x & -> & Hw)|(_ & _ & ?)]); [|done].
  exists 1, (Some x), o'. subst F.
  destruct (ping_pong cfg p addr env f gid gtype answer fuel u1 u2 (sc_id dest_cfg) d2 1 _ Hr1 Hr2
              Hd1 Hd2 Hne Hans Hw) as (ms & r & Hdr & Hlen & Hfl & Hun).
  by exists ms, r.
Qed.

(** A leader hint without [NOT_LEADER] crashes the client: an answer that was not
    accepted, with another code than [NOT_LEADER], that names a server other than the one
    asked, is decoded without its address, and the handler dereferences the null client
    made from the empty address. *)
Theorem hint_without_address_crashes `{!UuidNoEmpty} (cfg : mesg_cfg) (p : payload) (addr : uuid)
    (factory : grpc_factory) (m : RaftMessage) (r : grpc_resp) (o : op_state) :
  toResponse m = Some r →
  rs_accepted (gr_resp r) = false → rs_result_code (gr_resp r) ≠ code.NOT_LEADER →
  rs_dst (gr_resp r) ≠ cur_dest o → (0 ≤ rs_dst (gr_resp r))%Z →
  (respHandler cfg p addr 2 factory (mkHandler (Some r) None) o).1 = Ub "null client".
Proof.
  intros Hm Hacc Hc Hne Hge. apply (respHandler_null cfg p addr 1 factory _ o r).
  - unfold verdict. cbn [h_resp h_err]. by rewrite bool_decide_true.
  - rewrite (toResponse_no_address m r Hm Hc). apply generator_empty.
Qed.

(** An operation on a peer that cannot be reached loses its result: the error client
    completes the request before [future()] replaces the promise, so the future that is
    returned never gets a value, although [SERVER_NOT_FOUND] was set. *)
Theorem unreachable_result_lost (cfg : mesg_cfg) (p : payload) (addr : uuid) (env : net_env) (f : N)
    (gid : uuid) (gtype : string) (dest_cfg : srv_config) (o o' : op_state) (n : nat) (r : request) :
  reachable_pool (op_pool o) →
  cluster_request cfg p addr (mesg_factory env f gid gtype) dest_cfg o
    = (Ret (FutureOf n, None), o') →
  rtc (request_step cfg p addr f gid gtype) (mkRequest o' None) r →
  promises o' !! 0 = Some (Unexpected code.SERVER_NOT_FOUND) ∧
  rq_flight r = None ∧ promises (rq_op r) !! n = None.
Proof.
  intros Hr Hc Hs. destruct (idle_steps cfg p addr f gid gtype (mkRequest o' None) r eq_refl Hs) as [Hf Hps].
  destruct (string_generator (sc_endpoint dest_cfg)) as [u|] eqn:Hu.
  2:{ unfold cluster_request, start_request, create_or_reinit_client_str in Hc. by rewrite Hu in Hc. }
  destruct (cluster_request_run cfg p addr env f gid gtype dest_cfg u o Hu Hr)
    as (fl & o1 & Hrun & _ & _ & Hcase).
  rewrite Hrun in Hc. injection Hc as <- -> <-. simpl in Hps.
  destruct Hcase as [(? & ? & _)|(_ & Hset & _)]; [done|].
  rewrite Hps, Hset. split_and!; [apply lookup_singleton_eq|done|by rewrite lookup_singleton_ne].
Qed.
End redirect_theorems.

(** ** Witnesses *)

Import Demo.

Module RedirectDemo.
#[export] Instance demo_bytes : NuraftBytes := {|
  serialize_srv_config := λ _ _, [x01];
  put_int32 := λ _, [x00; x00; x00; x00];
|}.

(** Two members that can be reached, and one that cannot. *)
Definition two_peers : net_env :=
  mkEnv (λ u, match u with U0 => EmptyString | U1 => "10.0.0.1:9000" | U2 => "10.0.0.2:9000" end)%string
    (λ _, true) (λ _, true).

Definition fresh_op : op_state := mkOp empty_pool 0 0 ∅.
Definition member (id : Z) (u : demo_uuid) : srv_config :=
  mkSrvConfig id 0 (demo_to_string u) EmptyString false 1 false.

Definition hint (d : Z) (u : demo_uuid) : handler_args :=
  mkHandler (Some (mkGrpcResp (mkResp 1 0 d d 0 false None 0 code.NOT_LEADER) (demo_to_string u))) None.
Definition accepted : handler_args :=
  mkHandler (Some (mkGrpcResp (mkResp 1 0 2 2 0 true None 0 code.OK) EmptyString)) None.

(** The member [U2], with id 2, leads. *)
Definition led (m : RaftGroupMsg) : handler_args :=
  if decide (g_intended_addr m = demo_to_string U2) then accepted else hint 2 U2.

(** The members [U1], with id 1, and [U2] point at each other. *)
Definition bouncing (m : RaftGroupMsg) : handler_args :=
  if decide (g_intended_addr m = demo_to_string U1) then hint 2 U2 else hint 1 U1.
End RedirectDemo.
Import RedirectDemo.

Lemma resp_handler_contract_witness :
  promises fresh_op !! 0 = None ∧
  (respHandler demo_cfg (AddServer 3) U0 2 (mesg_factory two_peers 7 U0 "type") (hint 2 U2)
     fresh_op).1 ≠ Ret None.
Proof.
  split; [done|].
  pose proof (resp_handler_contract demo_cfg (AddServer 3) U0 two_peers 7 U0 "type" (hint 2 U2)
                fresh_op (rtc_refl _ _) (lookup_empty _)) as Hc.
  replace (verdict (cur_dest fresh_op) (hint 2 U2))
    with (inr (A := Z) (mkGrpcResp (mkResp 1 0 2 2 0 false None 0 code.NOT_LEADER) (demo_to_string U2)))
    in Hc by by vm_compute.
  simpl gr_dest_addr in Hc.
  replace (string_generator (demo_to_string U2)) with (Some (U2 : uuid)) in Hc by by vm_compute.
  destruct Hc as (_ & _ & [(x & -> & _)|(_ & _ & Hno)]); [done|].
  exfalso. apply Hno. split; by vm_compute.
Defined.

(** An answer after [future()] was called, and the same answer before. *)
Lemma future_settled_at_most_once_witness :
  let F := mesg_factory two_peers 7 U0 "type" in
  let start := start_request demo_cfg (AddServer 3) U0 F (member 1 U1) fresh_op in
  let late := (respHandler demo_cfg (AddServer 3) U0 2 F accepted (future start.2).2).2 in
  let early := (respHandler demo_cfg (AddServer 3) U0 2 F accepted start.2).2 in
  (∃ k v, promises late = {[k := v]} ∧ (k = 1 ↔ true)) ∧
  (∃ k v, promises (future early).2 = {[k := v]} ∧ (k = 1 ↔ false)).
Proof.
  intros F start late early.
  destruct start as [[[[] [x|]]|e|e] o1] eqn:Hs; subst start; try (by vm_compute in Hs).
  assert (∀ o o', respHandler demo_cfg (AddServer 3) U0 2 F accepted o = (Ret None, o') →
    request_step demo_cfg (AddServer 3) U0 7 U0 "type" (mkRequest o (Some x)) (mkRequest o' None))
    as Hstep by (intros; by eapply request_answered).
  assert (respHandler demo_cfg (AddServer 3) U0 2 F accepted (future o1).2 = (Ret None, late)) as Hl
    by (vm_compute in Hs; injection Hs as _ <-; by vm_compute).
  assert (respHandler demo_cfg (AddServer 3) U0 2 F accepted o1 = (Ret None, early)) as He
    by (vm_compute in Hs; injection Hs as _ <-; by vm_compute).
  assert (ctx_promise o1 = 0 ∧ ctx_promise early = 0) as [Hn Hn']
    by (vm_compute in Hs; injection Hs as _ <-; by vm_compute).
  split.
  - destruct (future_settled_at_most_once (H := demo_uuid_ops) demo_cfg (AddServer 3) U0 two_peers 7 U0
                "type" (member 1 U1) fresh_op o1 (future o1).2 1 (Some x) (mkRequest o1 (Some x))
                (mkRequest late None) (mkRequest late None) (rtc_refl _ _) Hs (rtc_refl _ _))
      as (k & v & Hk & _ & _ & Hkn); [by unfold future; simpl; rewrite Hn|by apply rtc_once, Hstep|done|].
    exists k, v. split; [done|]. split; [done|]. intros _. by apply Hkn.
  - destruct (future_settled_at_most_once (H := demo_uuid_ops) demo_cfg (AddServer 3) U0 two_peers 7 U0
                "type" (member 1 U1) fresh_op o1 (future early).2 1 (Some x) (mkRequest early None)
                (mkRequest (future early).2 None) (mkRequest (future early).2 None) (rtc_refl _ _) Hs)
      as (k & v & Hk & _ & _ & Hkn);
      [by apply rtc_once, Hstep|by unfold future; simpl; rewrite Hn'|done..|].
    exists k, v. split; [done|]. split; [|done]. intros Hk1. by apply Hkn in Hk1 as [? ?].
Defined.

Lemma stable_leader_settles_witness :
  ∃ n fl o' ms r,
    cluster_request demo_cfg (AddServer 3) U0 (mesg_factory two_peers 7 U0 "type") (member 1 U1)
      fresh_op = (Ret (FutureOf n, fl), o') ∧
    drive demo_cfg (AddServer 3) U0 (mesg_factory two_peers 7 U0 "type") led 2 (mkRequest o' fl)
      = Ret (ms, r) ∧
    length ms ≤ 2 ∧
    Forall (λ m, toRequest true (g_msg m) = Some (rewind_req (createMessage (AddServer 3) U0))) ms ∧
    rq_flight r = None ∧ promises (rq_op r) !! n = Some (Value tt).
Proof.
  apply (stable_leader_settles (H := demo_uuid_ops) demo_cfg (AddServer 3) U0 two_peers 7 U0 "type" (member 1 U1) fresh_op
           U1 U2 2 code.OK led (rtc_refl _ _)); try (by vm_compute); try (split; by vm_compute).
  - right. done.
  - intros m. unfold led. simpl. case_decide; [by intros d'|]. by eexists.
Defined.

Lemma mutual_hints_never_settle_witness :
  ∃ n fl o' ms r,
    cluster_request demo_cfg (AddServer 3) U0 (mesg_factory two_peers 7 U0 "type") (member 1 U1)
      fresh_op = (Ret (FutureOf n, fl), o') ∧
    drive demo_cfg (AddServer 3) U0 (mesg_factory two_peers 7 U0 "type") bouncing 1000
      (mkRequest o' fl) = Ret (ms, r) ∧
    length ms = 1000 ∧ is_Some (rq_flight r) ∧ promises (rq_op r) !! n = None.
Proof.
  apply (mutual_hints_never_settle (H := demo_uuid_ops) demo_cfg (AddServer 3) U0 two_peers 7 U0 "type" (member 1 U1)
           fresh_op U1 U2 2 bouncing 1000 (rtc_refl _ _)); try (by vm_compute);
    try (split; by vm_compute).
  intros m. unfold bouncing. simpl. split; intros ->; simpl; by eexists.
Defined.

Lemma hint_without_address_crashes_witness :
  ∃ r, toResponse (mkRaftMessage (Some (mkBase 1 0 2 2))
                     (RcResponse (mkRCResponse 0 false [] (demo_to_string U2) 6 0))) = Some r ∧
  (respHandler demo_cfg (AddServer 3) U0 2 (mesg_factory two_peers 7 U0 "type")
     (mkHandler (Some r) None) fresh_op).1 = Ub "null client".
Proof.
  eexists. split; [by vm_compute|].
  apply (hint_without_address_crashes (H := demo_uuid_ops) demo_cfg (AddServer 3) U0 _
           (mkRaftMessage (Some (mkBase 1 0 2 2))
              (RcResponse (mkRCResponse 0 false [] (demo_to_string U2) 6 0))));
    by vm_compute.
Defined.

Lemma unreachable_result_lost_witness :
  let run := cluster_request demo_cfg (AddServer 3) U1 (mesg_factory two_peers 7 U0 "type")
               (member 0 U0) fresh_op in
  run.1 = Ret (FutureOf 1, None) ∧
  promises run.2 !! 0 = Some (Unexpected code.SERVER_NOT_FOUND) ∧ promises run.2 !! 1 = None.
Proof.
  intros run. split; [by vm_compute|].
  destruct (unreachable_result_lost (H := demo_uuid_ops) demo_cfg (AddServer 3) U1 two_peers 7 U0 "type" (member 0 U0)
              fresh_op run.2 1 (mkRequest run.2 None) (rtc_refl _ _)) as (H1 & _ & H2);
    [by vm_compute|apply rtc_refl|]. by split.
Defined.
