(* ===== verification/Groups.v ===== *)
(** * Groups: the manager and the messaging service

    [ManagerImpl] ([src/lib/manager_impl.cpp]) and [msg_service]
    ([src/lib/service.cpp]), which call each other: joining, creating and leaving
    RAFT groups, leadership and membership requests, and the RAFT events NuRaft
    reports.  One state record holds the maps of both classes, the RAFT servers
    that exist, and the calls made to the application and to NuRaft, in order.
    State managers, RAFT servers and client factories are identified by numbers. *)

From stdpp Require Import base gmap strings list numbers relations.
From S2P Require Import Prelude Types.

(** [nuraft::raft_params], which is only passed on. *)
Class RaftParams : Type := raft_params : Type.

Section groups.
Context `{UuidOps} `{RaftParams}.

(** ** State *)

(** [nuraft::context], with the group its listener was made for. *)
Record raft_context := mkContext {
  cx_group : uuid;
  cx_type : string;
  cx_params : raft_params;
  cx_smgr : N;
  cx_factory : N;
}.

(** Calls that leave this library. *)
Inductive effect :=
| CreateStateMgr (srv_id : Z) (g : uuid) (smgr : option N)
| BecomeReady (smgr : N)
| SetManager (smgr : N)
| MakeReplCtx (smgr server factory : N)
| StopServer (server : N)
| ShutdownServer (server : N)
| PermanentDestroy (smgr : N)
| Leave (smgr : N)
| NotifyAll
| AddSrv (server : N) (c : srv_config)
| RemoveSrv (server : N) (member_id : Z)
| AppendLogs (server : N) (logs : list buffer)
| RequestLeadership (server : N)
| YieldLeadership (server : N) (immediate : bool) (successor_id : Z).

(** [contexts] has every RAFT server made, [configs] what each reports as its
    cluster, [next_id] names the next object. *)
Record world := mkWorld {
  state_mgr_types : gmap string raft_params;
  state_managers : gmap uuid (option N);
  is_leader : gmap uuid bool;
  raft_servers : gmap uuid N;
  contexts : gmap N raft_context;
  configs : gmap N (list srv_config);
  next_id : N;
  trace : list effect;
}.

Definition set_types (m : gmap string raft_params) (w : world) : world :=
  mkWorld m (state_managers w) (is_leader w) (raft_servers w) (contexts w) (configs w)
    (next_id w) (trace w).
Definition set_managers (m : gmap uuid (option N)) (w : world) : world :=
  mkWorld (state_mgr_types w) m (is_leader w) (raft_servers w) (contexts w) (configs w)
    (next_id w) (trace w).
Definition set_leader (m : gmap uuid bool) (w : world) : world :=
  mkWorld (state_mgr_types w) (state_managers w) m (raft_servers w) (contexts w) (configs w)
    (next_id w) (trace w).
Definition set_servers (m : gmap uuid N) (w : world) : world :=
  mkWorld (state_mgr_types w) (state_managers w) (is_leader w) m (contexts w) (configs w)
    (next_id w) (trace w).
Definition set_configs (m : gmap N (list srv_config)) (w : world) : world :=
  mkWorld (state_mgr_types w) (state_managers w) (is_leader w) (raft_servers w) (contexts w) m
    (next_id w) (trace w).

Definition emit (e : effect) : M world unit := modify (λ w,
  mkWorld (state_mgr_types w) (state_managers w) (is_leader w) (raft_servers w) (contexts w)
    (configs w) (next_id w) (trace w ++ [e])).

Definition fresh : M world N := λ w,
  (Ret (next_id w),
   mkWorld (state_mgr_types w) (state_managers w) (is_leader w) (raft_servers w) (contexts w)
     (configs w) (next_id w + 1) (trace w)).

(** [std::make_shared< nuraft::raft_server >(ctx)] *)
Definition make_server (ctx : raft_context) : M world N :=
  n ← fresh;
  modify (λ w, mkWorld (state_mgr_types w) (state_managers w) (is_leader w) (raft_servers w)
                 (<[n := ctx]> (contexts w)) (configs w) (next_id w) (trace w));;
  mret n.

(** ** Configuration and environment *)

Record service_cfg := mkServiceCfg {
  _srv_id : Z;
  _data_service_enabled : bool;
  _default_group_type : string;
}.

(** Whether the manager the service points to still exists; the application's
    [create_state_mgr], if the application still exists; whether NuRaft's
    [shutdown()] gives up the RPC listener of the server. *)
Record app_env := mkAppEnv {
  manager_alive : bool;
  create_state_mgr : option (Z → uuid → option N);
  releases_listener : bool;
}.

Context (cfg : service_cfg).

(** ** [ManagerImpl::group_init] *)

Definition group_init (env : app_env) (srv_id : Z) (group_id : uuid) (group_type : string)
  : M world (Z * option raft_context) :=
  types ← gets state_mgr_types;
  match types !! group_type with
  | None => mret (code.SERVER_NOT_FOUND, None)
  | Some params =>
      mgrs ← gets state_managers;
      let '(mgrs', happened) := emplace group_id None mgrs in
      modify (set_managers mgrs');;
      (if happened : bool
       then create ← deref "application is gone" (create_state_mgr env);
            emit (CreateStateMgr srv_id group_id (create srv_id group_id));;
            modify (λ w, set_managers (<[group_id := create srv_id group_id]> (state_managers w)) w)
       else mret tt);;
      slot ← gets (λ w, default None (state_managers w !! group_id));
      smgr ← deref "null state manager" slot;
      emit (BecomeReady smgr);;
      emit (SetManager smgr);;
      factory ← fresh;
      mret (code.OK, Some (mkContext group_id group_type params smgr factory))
  end.

(** ** [msg_service] *)

Definition shutdown_for (group_id : uuid) : M world unit :=
  servers ← gets raft_servers;
  match servers !! group_id with
  | Some _ => modify (λ w, set_servers (delete group_id (raft_servers w)) w)
  | None => mret tt
  end.

(** The destructor of [msg_group_listner], whose reference to the service is weak. *)
Definition msg_group_listner_destroy (svc_alive : bool) (_group : uuid) : M world unit :=
  if svc_alive then shutdown_for _group else mret tt.

(** [joinRaftGroup] up to the creation of the RAFT server: a result code to return,
    or the context to go on with. *)
Definition join_prepare (env : app_env) (srv_id : Z) (group_id : uuid) (group_type : string)
  : M world (Z + raft_context) :=
  if negb (manager_alive env) then mret (inl code.CANCELLED)
  else
    let g_type := if decide (group_type = EmptyString) then _default_group_type cfg else group_type in
    servers ← gets raft_servers;
    match servers !! group_id with
    | Some _ => mret (inl code.OK)
    | None =>
        '(err, ctx) ← group_init env srv_id group_id g_type;
        if decide (err ≠ code.OK) then mret (inl err)
        else c ← deref "null context" ctx; mret (inr c)
    end.

(** The rest of [joinRaftGroup].  When another thread has published a server for the
    group meanwhile, the new server is destroyed on return, and with it, because
    NuRaft's server owns its context, the listener, whose destructor calls
    [shutdown_for]. *)
Definition join_publish (group_id : uuid) (ctx : raft_context) : M world Z :=
  server ← make_server ctx;
  servers ← gets raft_servers;
  match servers !! group_id with
  | None =>
      modify (λ w, set_servers (<[group_id := server]> (raft_servers w)) w);;
      if _data_service_enabled cfg
      then emit (MakeReplCtx (cx_smgr ctx) server (cx_factory ctx))
      else mret tt
  | Some _ => msg_group_listner_destroy true (cx_group ctx)
  end;;
  mret code.OK.

Definition joinRaftGroup (env : app_env) (srv_id : Z) (group_id : uuid) (group_type : string)
  : M world Z :=
  r ← join_prepare env srv_id group_id group_type;
  match r with
  | inl err => mret err
  | inr ctx => join_publish group_id ctx
  end.

(** [stop_server()], [shutdown()], and the listener's destructor if NuRaft drops it. *)
Definition stop_raft_server (env : app_env) (group_id : uuid) (server : N) : M world unit :=
  emit (StopServer server);;
  emit (ShutdownServer server);;
  if releases_listener env then msg_group_listner_destroy true group_id else mret tt.

Definition svc_leave_group (env : app_env) (group_id : uuid) : M world unit :=
  servers ← gets raft_servers;
  match servers !! group_id with
  | Some server => stop_raft_server env group_id server
  | None => mret tt
  end.

Fixpoint stop_all (env : app_env) (servers : list (uuid * N)) : M world unit :=
  match servers with
  | [] => mret tt
  | (g, n) :: rest => stop_raft_server env g n;; stop_all env rest
  end.

Definition svc_shutdown (env : app_env) : M world unit :=
  servers ← gets raft_servers;
  stop_all env (map_to_list servers).

(** A NuRaft command: its result code now, and the one it ends with. *)
Record cmd_result := mkCmdResult { get_result_code : Z; final_result_code : Z }.

(** What NuRaft's servers answer to the requests of the service, given the calls made
    before. *)
Record raft_ops := mkRaftOps {
  add_srv : list effect → N → srv_config → outcome (option cmd_result);
  remove_srv : list effect → N → Z → outcome (option cmd_result);
  raft_append_entries : list effect → N → list buffer → outcome (option cmd_result);
  request_leadership : list effect → N → outcome bool;
}.

Context (ops : raft_ops).

(** ** [grpc_server] *)

(** A call of NuRaft: it is made, and answered. *)
Definition raft_call {A : Type} (e : effect) (answer : list effect → outcome A) : M world A :=
  history ← gets trace;
  _ ← emit e;
  ((λ w, (answer history, w)) : M world A).

Definition server_add_srv (n : N) (c : srv_config) : M world (option cmd_result) :=
  raft_call (AddSrv n c) (λ history, add_srv ops history n c).

Definition server_yield_leadership (n : N) (immediate : bool) : M world unit :=
  emit (YieldLeadership n immediate (-1)).

Definition server_request_leadership (n : N) : M world bool :=
  raft_call (RequestLeadership n) (λ history, request_leadership ops history n).

Definition server_get_srv_config_all (n : N) : M world (list srv_config) :=
  gets (λ w, default [] (configs w !! n)).

Definition server_rem_srv (n : N) (member_id : Z) : M world (option cmd_result) :=
  raft_call (RemoveSrv n member_id) (λ history, remove_srv ops history n member_id).

Definition server_append_entries (n : N) (logs : list buffer) : M world (option cmd_result) :=
  raft_call (AppendLogs n logs) (λ history, raft_append_entries ops history n logs).

(** ** Requests to a group's server *)

Definition svc_get_srv_config_all (group_id : uuid) : M world (list srv_config) :=
  servers ← gets raft_servers;
  match servers !! group_id with
  | Some n => server_get_srv_config_all n
  | None => mret []
  end.

(** [CONTINUE_RESP(resp)] followed by the return of [SERVER_NOT_FOUND], which an
    exception falls through to: the value the returned future has in the end.  The macro
    has its argument twice, so the call is made again when the first one has no result
    yet, and the future waits for the second. *)
Definition continue_resp (resp : M world (option cmd_result)) : M world NullResult :=
  try_catch
    (r ← resp;
     r ← deref "null command result" r;
     if decide (get_result_code r ≠ code.RESULT_NOT_EXIST_YET)
     then mret (code_result (get_result_code r))
     else
       r' ← resp;
       r' ← deref "null command result" r';
       mret (code_result (final_result_code r')))
    (λ _, mret (Unexpected code.SERVER_NOT_FOUND)).

Definition svc_add_member (group_id : uuid) (c : srv_config) : M world NullResult :=
  servers ← gets raft_servers;
  match servers !! group_id with
  | Some n => continue_resp (server_add_srv n c)
  | None => mret (Unexpected code.SERVER_NOT_FOUND)
  end.

Definition svc_rem_member (group_id : uuid) (member_id : Z) : M world NullResult :=
  servers ← gets raft_servers;
  match servers !! group_id with
  | Some n => continue_resp (server_rem_srv n member_id)
  | None => mret (Unexpected code.SERVER_NOT_FOUND)
  end.

Definition svc_append_entries (group_id : uuid) (logs : list buffer) : M world NullResult :=
  servers ← gets raft_servers;
  match servers !! group_id with
  | Some n => continue_resp (server_append_entries n logs)
  | None => mret (Unexpected code.SERVER_NOT_FOUND)
  end.

Definition svc_become_leader (group_id : uuid) : M world bool :=
  servers ← gets raft_servers;
  match servers !! group_id with
  | Some n => try_catch (server_request_leadership n) (λ _, mret false)
  | None => mret false
  end.

(** ** [ManagerImpl] *)

(** [register_mgr_type]; registering a type again fails a [DEBUG_ASSERT], which only a
    debug build checks. *)
Definition register_mgr_type (ndebug : bool) (group_type : string) (params : raft_params)
  : M world unit :=
  types ← gets state_mgr_types;
  let '(types', happened) := emplace group_type params types in
  modify (set_types types');;
  if negb ndebug && negb happened then ub "Re-register?" else mret tt.

Definition lookup_state_manager (group_id : uuid) : M world (option N) :=
  gets (λ w, default None (state_managers w !! group_id)).

Definition exit_group (group_id : uuid) : M world unit :=
  mgr ← lookup_state_manager group_id;
  match mgr with
  | Some smgr => emit (Leave smgr)
  | None => mret tt
  end.

(** [nuraft::cb_func::Type], the cases the handler names. *)
Inductive cb_type :=
| RemovedFromCluster | JoinedCluster | NewConfig | BecomeLeader | BecomeFollower
| SaveSnapshot | FollowerLost | OtherEvent.

(** [_is_leader[group_id] = b] *)
Definition assign_leader (group_id : uuid) (b : bool) : M world unit :=
  modify (λ w, set_leader (<[group_id := b]> (is_leader w)) w).

Definition generic_raft_event_handler (group_id : uuid) (type : cb_type) (my_id leader_id : Z)
  : M world unit :=
  match type with
  | RemovedFromCluster => exit_group group_id
  | JoinedCluster => assign_leader group_id (bool_decide (leader_id = my_id))
  | NewConfig => emit NotifyAll
  | BecomeLeader => assign_leader group_id true;; emit NotifyAll
  | BecomeFollower => assign_leader group_id false
  | SaveSnapshot | FollowerLost | OtherEvent => mret tt
  end.

(** [mesg_state_mgr::internal_raft_event_handler]: nothing after the manager is gone;
    [None] is [ReturnNull], otherwise the state manager's own answer. *)
Definition internal_raft_event_handler {R : Type} (env : app_env) (raft_event : cb_type → R)
    (group_id : uuid) (type : cb_type) (my_id leader_id : Z) : M world (option R) :=
  if manager_alive env
  then generic_raft_event_handler group_id type my_id leader_id;; mret (Some (raft_event type))
  else mret None.

(** [_config_change.wait_for(lk, timeout, pred)]: the predicate is checked at once, after
    every event that wakes the thread, and when the time is over.  [events] are what
    other threads do while this one waits, each with whether it is woken after it. *)
Fixpoint wait_loop (pred : M world bool) (events : list (M world unit * bool)) : M world bool :=
  match events with
  | [] => pred
  | (event, wakes) :: rest =>
      event;;
      if wakes : bool
      then b ← pred; if (b : bool) then mret true else wait_loop pred rest
      else wait_loop pred rest
  end.

Definition wait_for (pred : M world bool) (events : list (M world unit * bool)) : M world bool :=
  b ← pred;
  if (b : bool) then mret true else wait_loop pred events.

(** [[this, g_id]() { return _is_leader[g_id]; }] *)
Definition leader_flag (group_id : uuid) : M world bool :=
  m ← gets is_leader;
  let '(b, m') := index_or false group_id m in
  modify (set_leader m');;
  mret b.

(** The synchronous part of a call: its result, or the continuation that the future
    still has to run. *)
Inductive async_result :=
| Immediate (r : NullResult)
| Deferred.

Definition create_group (env : app_env) (group_id : uuid) (group_type : string)
  : M world async_result :=
  modify (λ w, set_leader (emplace group_id false (is_leader w)).1 w);;
  err ← joinRaftGroup env (_srv_id cfg) group_id group_type;
  mret (if decide (err ≠ code.OK) then Immediate (Unexpected err) else Deferred).

Definition create_group_deferred (group_id : uuid) (events : list (M world unit * bool))
  : M world NullResult :=
  b ← wait_for (leader_flag group_id) events;
  mret (if (b : bool) then Value tt else Unexpected code.CANCELLED).

Definition join_group (env : app_env) (group_id : uuid) (group_type : string) (smgr : option N)
  : M world NullResult :=
  modify (λ w, set_managers (emplace group_id smgr (state_managers w)).1 w);;
  err ← joinRaftGroup env (_srv_id cfg) group_id group_type;
  if decide (err ≠ code.OK)
  then modify (λ w, set_managers (delete group_id (state_managers w)) w);;
       mret (Unexpected err)
  else mret (Value tt).

Definition become_leader (group_id : uuid) : M world async_result :=
  b ← leader_flag group_id;
  mret (if (b : bool) then Immediate (Value tt) else Deferred).

Definition become_leader_deferred (group_id : uuid) (events : list (M world unit * bool))
  : M world NullResult :=
  requested ← svc_become_leader group_id;
  if negb requested then mret (Unexpected code.CANCELLED)
  else
    b ← wait_for (leader_flag group_id) events;
    mret (if (b : bool) then Value tt else Unexpected code.TIMEOUT).

(** [add_member(group_id, srv_config)]: the command's result, then the wait until the
    new member shows in the group's configuration. *)
Definition in_config (group_id : uuid) (endpoint : string) : M world bool :=
  cfgs ← svc_get_srv_config_all group_id;
  mret (existsb (λ c, bool_decide (endpoint = sc_endpoint c)) cfgs).

Definition add_member_config (group_id : uuid) (c : srv_config)
    (events : list (M world unit * bool)) : M world NullResult :=
  cmd_result ← svc_add_member group_id c;
  match cmd_result with
  | Unexpected e => mret (Unexpected e)
  | Value _ =>
      b ← wait_for (in_config group_id (sc_endpoint c)) events;
      mret (if (b : bool) then Value tt else Unexpected code.CANCELLED)
  end.

(** [add_member(group_id, new_id)]; [make_srv_config] is NuRaft's constructor. *)
Definition add_member (make_srv_config : Z → string → srv_config) (group_id new_id : uuid)
    (events : list (M world unit * bool)) : M world NullResult :=
  add_member_config group_id (make_srv_config (to_server_id new_id) (uuid_to_string new_id)) events.

Definition rem_member (group_id old_id : uuid) : M world NullResult :=
  svc_rem_member group_id (to_server_id old_id).

Definition append_entries (group_id : uuid) (buf : list buffer) : M world NullResult :=
  svc_append_entries group_id buf.

(** [append_peers]: [load_config] is the state manager's. *)
Definition append_peers (load_config : N → option (list srv_config)) (group_id : uuid)
    (servers : list uuid) : M world (list uuid) :=
  mgrs ← gets state_managers;
  match mgrs !! group_id with
  | None => mret servers
  | Some smgr =>
      smgr ← deref "null state manager" smgr;
      match load_config smgr with
      | None => mret servers
      | Some cfgs =>
          match mapM (λ c, string_generator (sc_endpoint c)) cfgs with
          | Some peers => mret (servers ++ peers)
          | None => throw "invalid uuid string"
          end
      end
  end.

Definition leave_group (env : app_env) (group_id : uuid) : M world unit :=
  mgrs ← gets state_managers;
  match mgrs !! group_id with
  | None => mret tt
  | Some _ =>
      svc_leave_group env group_id;;
      mgrs' ← gets state_managers;
      match mgrs' !! group_id with
      | Some smgr =>
          smgr ← deref "null state manager" smgr;
          emit (PermanentDestroy smgr);;
          modify (λ w, set_managers (delete group_id (state_managers w)) w)
      | None => mret tt
      end
  end.

(** [logstore_id]; [UINT32_MAX] for an unknown group. *)
Definition logstore_id (get_logstore_id : N → Z) (group_id : uuid) : M world Z :=
  mgrs ← gets state_managers;
  match mgrs !! group_id with
  | Some smgr => smgr ← deref "null state manager" smgr; mret (get_logstore_id smgr)
  | None => mret (2 ^ 32 - 1)%Z
  end.

(** ** Runs

    Joins of several threads overlap: [pending] are the joins that have prepared a
    context and not yet published a server. *)
Record system := mkSystem { sys_world : world; pending : list (uuid * raft_context) }.

Inductive system_step : system → system → Prop :=
| sys_prepare env srv_id g t w w' c ps :
    join_prepare env srv_id g t w = (Ret (inr c), w') →
    system_step (mkSystem w ps) (mkSystem w' ((g, c) :: ps))
| sys_refused env srv_id g t w w' e ps :
    join_prepare env srv_id g t w = (Ret (inl e), w') →
    system_step (mkSystem w ps) (mkSystem w' ps)
| sys_publish g c w w' r ps1 ps2 :
    join_publish g c w = (Ret r, w') →
    system_step (mkSystem w (ps1 ++ (g, c) :: ps2)) (mkSystem w' (ps1 ++ ps2))
| sys_create env g t w w' r ps :
    create_group env g t w = (Ret r, w') →
    system_step (mkSystem w ps) (mkSystem w' ps)
| sys_join env g t smgr w w' r ps :
    join_group env g t (Some smgr) w = (Ret r, w') →
    system_step (mkSystem w ps) (mkSystem w' ps)
| sys_leave env g w w' ps :
    leave_group env g w = (Ret tt, w') →
    system_step (mkSystem w ps) (mkSystem w' ps)
| sys_released g w w' ps :
    shutdown_for g w = (Ret tt, w') →
    system_step (mkSystem w ps) (mkSystem w' ps)
| sys_shutdown env w w' ps :
    svc_shutdown env w = (Ret tt, w') →
    system_step (mkSystem w ps) (mkSystem w' ps)
| sys_event g type my_id leader_id w w' ps :
    generic_raft_event_handler g type my_id leader_id w = (Ret tt, w') →
    system_step (mkSystem w ps) (mkSystem w' ps)
| sys_register ndebug t params w w' ps :
    register_mgr_type ndebug t params w = (Ret tt, w') →
    system_step (mkSystem w ps) (mkSystem w' ps)
| sys_config m w ps :
    system_step (mkSystem w ps) (mkSystem (set_configs m w) ps).

Definition initial : system := mkSystem (mkWorld ∅ ∅ ∅ ∅ ∅ ∅ 0 []) [].

(** Every registered state manager exists, every group is served by a server that was
    made for it, and every server was made with the parameters registered for its type
    and with a state manager that was made ready and given the manager. *)
Definition context_ok (w : world) (c : raft_context) : Prop :=
  state_mgr_types w !! cx_type c = Some (cx_params c) ∧
  BecomeReady (cx_smgr c) ∈ trace w ∧ SetManager (cx_smgr c) ∈ trace w.

Record groups_wf (y : system) : Prop := {
  gw_managers : ∀ g v, state_managers (sys_world y) !! g = Some v → is_Some v;
  gw_servers : ∀ g n, raft_servers (sys_world y) !! g = Some n →
               ∃ c, contexts (sys_world y) !! n = Some c ∧ cx_group c = g;
  gw_contexts : ∀ n c, contexts (sys_world y) !! n = Some c →
                (n < next_id (sys_world y))%N ∧ context_ok (sys_world y) c;
  gw_pending : ∀ g c, (g, c) ∈ pending y → cx_group c = g ∧ context_ok (sys_world y) c;
}.
End groups.

(** ** Lemmas *)

Section groups_lemmas.
Context `{UuidOps} `{RaftParams}.
Context (cfg : service_cfg).
Implicit Types (w : world) (g : uuid) (c : raft_context).

(** Registered types and the servers made stay, the trace grows. *)
Record world_le w w' : Prop := {
  wl_types : ∀ t p, state_mgr_types w !! t = Some p → state_mgr_types w' !! t = Some p;
  wl_trace : ∀ e, e ∈ trace w → e ∈ trace w';
  wl_contexts : ∀ n c, contexts w !! n = Some c → contexts w' !! n = Some c;
}.

#[export] Instance world_le_preorder : PreOrder world_le.
Proof. split; [by split|]. intros w1 w2 w3 [] []. split; auto. Qed.

(** More calls, and nothing else. *)
Lemma world_le_trace w w' es :
  state_mgr_types w' = state_mgr_types w → contexts w' = contexts w → trace w' = trace w ++ es →
  world_le w w'.
Proof.
  intros Ht Hc He. split; rewrite ?Ht, ?Hc, ?He; [done| |done]. intros e Hin. apply elem_of_app. by left.
Qed.

Record world_wf w : Prop := {
  ww_managers : ∀ g v, state_managers w !! g = Some v → is_Some v;
  ww_servers : ∀ g n, raft_servers w !! g = Some n →
               ∃ c, contexts w !! n = Some c ∧ cx_group c = g;
  ww_contexts : ∀ n c, contexts w !! n = Some c → (n < next_id w)%N ∧ context_ok w c;
}.

Lemma context_ok_le w w' c : world_le w w' → context_ok w c → context_ok w' c.
Proof. intros [Ht He _] (? & ? & ?). split_and!; auto. Qed.

(** A world that differs from a well-formed one in entries that are well-formed. *)
Lemma world_wf_update w w' :
  world_wf w → world_le w w' → (next_id w ≤ next_id w')%N →
  (∀ g v, state_managers w' !! g = Some v → state_managers w !! g = Some v ∨ is_Some v) →
  (∀ g n, raft_servers w' !! g = Some n → raft_servers w !! g = Some n ∨
          ∃ c, contexts w' !! n = Some c ∧ cx_group c = g) →
  (∀ n c, contexts w' !! n = Some c → contexts w !! n = Some c ∨
          (n < next_id w')%N ∧ context_ok w' c) →
  world_wf w'.
Proof.
  intros [Hm Hs Hc] Hle Hn Hm' Hs' Hc'. split.
  - intros g v Hv. destruct (Hm' g v Hv); eauto.
  - intros g n Hg. destruct (Hs' g n Hg) as [Hold|]; [|done].
    destruct (Hs g n Hold) as (c & ? & ?). exists c. split; [by apply (wl_contexts w w')|done].
  - intros n c Hcn. destruct (Hc' n c Hcn) as [Hold|]; [|done].
    destruct (Hc n c Hold) as [? Hok]. split; [lia|]. by eapply context_ok_le.
Qed.

(** A call that returns leaves a well-formed world behind. *)
Definition good {A : Type} (w : world) (o : outcome A) (w' : world) : Prop :=
  match o with Ret _ => world_wf w' ∧ world_le w w' | _ => True end.

Definition keeps {A : Type} (m : M world A) : Prop := ∀ w, world_wf w → wp m (good w) w.

Lemma keeps_ret {A : Type} (a : A) : keeps (mret a).
Proof. intros w Hwf. by apply wp_ret. Qed.

Lemma keeps_bind {A B : Type} (m : M world A) (k : A → M world B) :
  keeps m → (∀ a, keeps (k a)) → keeps (m ≫= k).
Proof.
  intros Hm Hk w Hwf. apply wp_bind. eapply wp_mono; [by apply Hm|].
  intros [a|e|e] w1; try done. intros [Hwf1 Hle1].
  eapply wp_mono; [by apply Hk|]. intros [b|e|e] w2; try done. intros [? ?].
  split; [done|]. by etrans.
Qed.

Lemma keeps_gets {A : Type} (f : world → A) : keeps (gets f).
Proof. intros w Hwf. by apply wp_gets. Qed.

Lemma keeps_deref {A : Type} what (p : option A) : keeps (deref what p).
Proof. intros w Hwf. apply wp_deref. by destruct p. Qed.

Lemma keeps_ub {A : Type} e : keeps (ub (A := A) e).
Proof. intros w Hwf. by apply wp_ub. Qed.

Lemma keeps_throw {A : Type} e : keeps (throw (A := A) e).
Proof. intros w Hwf. by apply wp_throw. Qed.

Lemma keeps_emit e : keeps (emit e).
Proof.
  intros w Hwf. apply wp_modify.
  assert (world_le w (emit e w).2) as Hle by by apply (world_le_trace _ _ [e]).
  split; [|done]. by apply (world_wf_update w); simpl; auto.
Qed.

Lemma keeps_set_leader f : keeps (modify (λ w, set_leader (f w) w)).
Proof.
  intros w Hwf. apply wp_modify. split; [|done]. by apply (world_wf_update w); simpl; auto.
Qed.

Lemma keeps_delete_server g : keeps (modify (λ w, set_servers (delete g (raft_servers w)) w)).
Proof.
  intros w Hwf. apply wp_modify. split; [|done]. apply (world_wf_update w); simpl; auto; [done|].
  intros g' n Hg. apply lookup_delete_Some in Hg as [_ Hg]. by left.
Qed.

Lemma keeps_set_managers f :
  (∀ w g v, f w !! g = Some v → state_managers w !! g = Some v ∨ is_Some v) →
  keeps (modify (λ w, set_managers (f w) w)).
Proof.
  intros Hf w Hwf. apply wp_modify. split; [|done]. by apply (world_wf_update w); simpl; auto.
Qed.
End groups_lemmas.

#[export] Hint Resolve keeps_ret keeps_gets keeps_deref keeps_ub keeps_throw keeps_emit
  keeps_set_leader keeps_delete_server : mesg.
#[export] Hint Extern 2 (keeps (_ ≫= _)) => apply keeps_bind; [|intro] : mesg.
#[export] Hint Extern 3 (keeps (match ?x with _ => _ end)) => destruct x : mesg.

Section groups_ops.
Context `{UuidOps} `{RaftParams}.
Context (cfg : service_cfg).
Implicit Types (w : world) (g : uuid) (c : raft_context).

Lemma keeps_shutdown_for g : keeps (shutdown_for g).
Proof. unfold shutdown_for. auto 6 with mesg. Qed.

Lemma keeps_stop env g n : keeps (stop_raft_server env g n).
Proof. unfold stop_raft_server. pose proof (keeps_shutdown_for g). auto 8 with mesg. Qed.

Lemma keeps_svc_leave env g : keeps (svc_leave_group env g).
Proof. unfold svc_leave_group. pose proof keeps_stop. auto 8 with mesg. Qed.

Lemma keeps_svc_shutdown env : keeps (svc_shutdown env).
Proof.
  unfold svc_shutdown. apply keeps_bind; [auto with mesg|]. intros servers.
  induction (map_to_list servers) as [|[g n] l IH]; simpl; [auto with mesg|].
  apply keeps_bind; [apply keeps_stop|done].
Qed.

Lemma keeps_event g type my_id leader_id : keeps (generic_raft_event_handler g type my_id leader_id).
Proof.
  unfold generic_raft_event_handler, exit_group, lookup_state_manager, assign_leader.
  destruct type; auto 8 with mesg.
Qed.

Lemma keeps_delete_manager g :
  keeps (modify (λ w, set_managers (delete g (state_managers w)) w)).
Proof.
  apply keeps_set_managers. intros w g' v Hg. apply lookup_delete_Some in Hg as [_ Hg]. by left.
Qed.

Lemma keeps_leave env g : keeps (leave_group env g).
Proof.
  unfold leave_group. pose proof keeps_svc_leave. pose proof keeps_delete_manager.
  auto 15 with mesg.
Qed.

Lemma keeps_register ndebug t params : keeps (register_mgr_type ndebug t params).
Proof.
  intros w Hwf. unfold register_mgr_type, wp, mbind, M_bind, gets, modify.
  pose proof (λ t', emplace_old (state_mgr_types w) t t' params) as Hold.
  destruct (emplace t params (state_mgr_types w)) as [m b]. simpl in *.
  destruct (negb ndebug && negb b); simpl; [done|].
  assert (world_le w (set_types m w)) as Hle by (split; simpl; auto).
  split; [|done]. by apply (world_wf_update w); simpl; auto.
Qed.

(** ** Closed forms of joining *)

(** The state manager [group_init] works with: a registered one, or the one the
    application makes. *)
Definition resolve (env : app_env) (srv_id : Z) g w : option N :=
  match state_managers w !! g with
  | Some v => v
  | None => create ← create_state_mgr env; create srv_id g
  end.

Definition init_trace (srv_id : Z) g (sm : N) w : list effect :=
  (match state_managers w !! g with Some _ => [] | None => [CreateStateMgr srv_id g (Some sm)] end)
  ++ [BecomeReady sm; SetManager sm].

Definition init_world (srv_id : Z) g (sm : N) w : world :=
  mkWorld (state_mgr_types w) (<[g := Some sm]> (state_managers w)) (is_leader w) (raft_servers w)
    (contexts w) (configs w) (next_id w + 1) (trace w ++ init_trace srv_id g sm w).

Lemma group_init_unknown env srv_id g t w :
  state_mgr_types w !! t = None →
  group_init env srv_id g t w = (Ret (code.SERVER_NOT_FOUND, None), w).
Proof. intros Ht. unfold group_init, mbind, M_bind, gets. by rewrite Ht. Qed.

Lemma group_init_run env srv_id g t params sm w :
  state_mgr_types w !! t = Some params → resolve env srv_id g w = Some sm →
  group_init env srv_id g t w =
  (Ret (code.OK, Some (mkContext g t params sm (next_id w))), init_world srv_id g sm w).
Proof.
  intros Ht Hsm. unfold group_init, init_world, init_trace, resolve in *.
  unfold mbind, M_bind, gets, modify. rewrite Ht.
  destruct (state_managers w !! g) as [v|] eqn:Hg.
  - subst v. rewrite (emplace_Some _ _ _ _ Hg). simpl. rewrite Hg. simpl.
    unfold fresh. simpl. by rewrite (insert_id _ _ _ Hg), <-app_assoc.
  - rewrite (emplace_None _ _ _ Hg). destruct (create_state_mgr env) as [create|]; [|done].
    simpl in *. rewrite insert_insert_eq, lookup_insert_eq. simpl. rewrite Hsm. simpl.
    unfold fresh. simpl. by rewrite <-!app_assoc.
Qed.

Lemma group_init_crash env srv_id g t params w :
  state_mgr_types w !! t = Some params → resolve env srv_id g w = None →
  ∃ e, (group_init env srv_id g t w).1 = Ub e.
Proof.
  intros Ht Hsm. unfold group_init, resolve in *. unfold mbind, M_bind, gets, modify. rewrite Ht.
  destruct (state_managers w !! g) as [v|] eqn:Hg.
  - subst v. rewrite (emplace_Some _ _ _ _ Hg). simpl. rewrite Hg. by eexists.
  - rewrite (emplace_None _ _ _ Hg). destruct (create_state_mgr env) as [create|]; [|by eexists].
    simpl in *. rewrite insert_insert_eq, lookup_insert_eq. simpl. rewrite Hsm. by eexists.
Qed.

(** The type a join asks for. *)
Definition join_type (group_type : string) : string :=
  if decide (group_type = EmptyString) then _default_group_type cfg else group_type.

Lemma join_prepare_run env srv_id g gt params sm w :
  manager_alive env = true → raft_servers w !! g = None →
  state_mgr_types w !! join_type gt = Some params → resolve env srv_id g w = Some sm →
  join_prepare cfg env srv_id g gt w =
  (Ret (inr (mkContext g (join_type gt) params sm (next_id w))), init_world srv_id g sm w).
Proof.
  intros Ha Hs Ht Hsm. unfold join_prepare. rewrite Ha. cbn [negb]. fold (join_type gt).
  unfold mbind, M_bind, gets. rewrite Hs. by rewrite (group_init_run _ _ _ _ _ _ _ Ht Hsm).
Qed.

(** The ways a join ends early. *)
Lemma join_prepare_early env srv_id g gt w e w' :
  join_prepare cfg env srv_id g gt w = (Ret (inl e), w') →
  w' = w ∧ (manager_alive env = false ∧ e = code.CANCELLED ∨
            manager_alive env = true ∧ is_Some (raft_servers w !! g) ∧ e = code.OK ∨
            manager_alive env = true ∧ raft_servers w !! g = None ∧
              state_mgr_types w !! join_type gt = None ∧ e = code.SERVER_NOT_FOUND).
Proof.
  unfold join_prepare. fold (join_type gt). destruct (manager_alive env); cbn [negb].
  2:{ intros [= <- <-]. eauto. }
  unfold mbind at 1, M_bind at 1, gets. destruct (raft_servers w !! g) as [n|].
  { intros [= <- <-]. split; [done|]. right. left. eauto. }
  unfold mbind, M_bind. destruct (state_mgr_types w !! join_type gt) as [params|] eqn:Ht.
  2:{ rewrite group_init_unknown by done. simpl. intros [= <- <-]. split; [done|]. right. right. eauto. }
  destruct (resolve env srv_id g w) as [sm|] eqn:Hsm.
  - by rewrite (group_init_run _ _ _ _ _ _ _ Ht Hsm).
  - destruct (group_init_crash _ _ _ _ _ _ Ht Hsm) as (e' & He).
    destruct (group_init env srv_id g (join_type gt) w) as [o w1]. simpl in He. by subst o.
Qed.

(** How a join goes on. *)
Lemma join_prepare_inr env srv_id g gt w c w' :
  join_prepare cfg env srv_id g gt w = (Ret (inr c), w') →
  ∃ params sm, manager_alive env = true ∧ raft_servers w !! g = None ∧
    state_mgr_types w !! join_type gt = Some params ∧ resolve env srv_id g w = Some sm ∧
    c = mkContext g (join_type gt) params sm (next_id w) ∧ w' = init_world srv_id g sm w.
Proof.
  intros Hj. destruct (manager_alive env) eqn:Ha.
  2:{ unfold join_prepare in Hj. by rewrite Ha in Hj. }
  destruct (raft_servers w !! g) as [n|] eqn:Hs.
  { unfold join_prepare in Hj. rewrite Ha in Hj. cbn [negb] in Hj.
    unfold mbind at 1, M_bind at 1, gets in Hj. by rewrite Hs in Hj. }
  destruct (state_mgr_types w !! join_type gt) as [params|] eqn:Ht.
  2:{ unfold join_prepare in Hj. rewrite Ha in Hj. cbn [negb] in Hj. fold (join_type gt) in Hj.
      unfold mbind, M_bind, gets in Hj. rewrite Hs in Hj. by rewrite group_init_unknown in Hj. }
  destruct (resolve env srv_id g w) as [sm|] eqn:Hsm.
  - rewrite (join_prepare_run _ _ _ _ _ _ _ Ha Hs Ht Hsm) in Hj. injection Hj as <- <-. eauto 10.
  - destruct (group_init_crash _ _ _ _ _ _ Ht Hsm) as (e' & He).
    unfold join_prepare in Hj. rewrite Ha in Hj. cbn [negb] in Hj. fold (join_type gt) in Hj.
    unfold mbind, M_bind, gets in Hj. rewrite Hs in Hj.
    destruct (group_init env srv_id g (join_type gt) w) as [o w1]. simpl in He. by subst o.
Qed.

Definition publish_world g c w : world :=
  mkWorld (state_mgr_types w) (state_managers w) (is_leader w) (<[g := next_id w]> (raft_servers w))
    (<[next_id w := c]> (contexts w)) (configs w) (next_id w + 1)
    (trace w ++ if _data_service_enabled cfg
                then [MakeReplCtx (cx_smgr c) (next_id w) (cx_factory c)] else []).

Lemma join_publish_run g c w :
  raft_servers w !! g = None → join_publish cfg g c w = (Ret code.OK, publish_world g c w).
Proof.
  intros Hs. unfold join_publish, publish_world, make_server, fresh, mbind, M_bind, gets, modify.
  simpl. rewrite Hs. by destruct (_data_service_enabled cfg); simpl; rewrite ?app_nil_r.
Qed.

(** A join that nothing interferes with. *)
Lemma joinRaftGroup_run env srv_id g gt params sm w :
  manager_alive env = true → raft_servers w !! g = None →
  state_mgr_types w !! join_type gt = Some params → resolve env srv_id g w = Some sm →
  joinRaftGroup cfg env srv_id g gt w =
  (Ret code.OK, publish_world g (mkContext g (join_type gt) params sm (next_id w))
                  (init_world srv_id g sm w)).
Proof.
  intros Ha Hs Ht Hsm. unfold joinRaftGroup, mbind at 1, M_bind at 1.
  rewrite (join_prepare_run env srv_id g gt params sm w Ha Hs Ht Hsm). by rewrite join_publish_run.
Qed.

(** A join that finds the group served takes the other server down. *)
Definition lost_world g c w : world :=
  mkWorld (state_mgr_types w) (state_managers w) (is_leader w) (delete g (raft_servers w))
    (<[next_id w := c]> (contexts w)) (configs w) (next_id w + 1) (trace w).

Lemma join_publish_loser g c n w :
  raft_servers w !! g = Some n → cx_group c = g →
  join_publish cfg g c w = (Ret code.OK, lost_world g c w).
Proof.
  intros Hs <-. unfold join_publish, lost_world, make_server, fresh, mbind, M_bind, gets, modify.
  simpl. rewrite Hs. unfold shutdown_for, mbind, M_bind, gets. simpl. by rewrite Hs.
Qed.

Lemma init_world_wf srv_id g sm t params k w :
  world_wf w → state_mgr_types w !! t = Some params →
  world_wf (init_world srv_id g sm w) ∧ world_le w (init_world srv_id g sm w) ∧
  context_ok (init_world srv_id g sm w) (mkContext g t params sm k).
Proof.
  intros Hwf Ht.
  assert (world_le w (init_world srv_id g sm w)) as Hle by by eapply world_le_trace.
  split_and!; [|done|].
  - apply (world_wf_update w); simpl; auto; [lia|]. intros g' v Hv.
    destruct (decide (g = g')) as [<-|Hne].
    + rewrite lookup_insert_eq in Hv. injection Hv as <-. right. by eexists.
    + rewrite lookup_insert_ne in Hv by done. by left.
  - unfold context_ok. simpl. unfold init_trace.
    split_and!; [done|rewrite !elem_of_app, !elem_of_cons; auto 8..].
Qed.

Lemma join_publish_wf g c w :
  world_wf w → context_ok w c → cx_group c = g →
  wp (join_publish cfg g c) (good w) w.
Proof.
  intros Hwf Hc Hg. pose proof Hc as Hc0. unfold wp.
  assert (∀ m (tr : list effect), let w' := mkWorld (state_mgr_types w) (state_managers w) (is_leader w) m
     (<[next_id w := c]> (contexts w)) (configs w) (next_id w + 1) (trace w ++ tr) in
     (∀ g' n, m !! g' = Some n → raft_servers w !! g' = Some n ∨ g' = g ∧ n = next_id w) →
     world_wf w' ∧ world_le w w') as Hgen.
  { intros m tr w' Hm. assert (world_le w w') as Hle.
    { split; [done|intros e He; simpl; apply elem_of_app; by left|]. intros n c' Hn.
      destruct (ww_contexts w Hwf n c' Hn). simpl. by rewrite lookup_insert_ne by lia. }
    split; [|done]. apply (world_wf_update w); simpl; auto; [lia|..].
    - intros g' n Hn. destruct (Hm g' n Hn) as [?|[-> ->]]; [by left|right].
      exists c. by rewrite lookup_insert_eq.
    - intros n c' Hn. destruct (decide (n = next_id w)) as [->|Hne].
      + rewrite lookup_insert_eq in Hn. injection Hn as <-. right. split; [lia|].
        by eapply context_ok_le.
      + rewrite lookup_insert_ne in Hn by done. by left. }
  destruct (raft_servers w !! g) as [n|] eqn:Hs.
  - rewrite (join_publish_loser g c n w Hs Hg). simpl. unfold lost_world.
    rewrite <-(app_nil_r (trace w)). apply Hgen. intros g' n' Hn.
    apply lookup_delete_Some in Hn as [_ Hn]. by left.
  - rewrite (join_publish_run g c w Hs). simpl. apply Hgen. intros g' n' Hn.
    destruct (decide (g = g')) as [<-|Hne].
    + rewrite lookup_insert_eq in Hn. injection Hn as <-. by right.
    + rewrite lookup_insert_ne in Hn by done. by left.
Qed.

Lemma keeps_join env srv_id g gt : keeps (joinRaftGroup cfg env srv_id g gt).
Proof.
  intros w Hwf. unfold joinRaftGroup. apply wp_bind. unfold wp at 1.
  destruct (join_prepare cfg env srv_id g gt w) as [[[e|c]|e|e] w'] eqn:Hj; simpl; try done.
  - apply join_prepare_early in Hj as [-> _]. by apply wp_ret.
  - apply join_prepare_inr in Hj as (params & sm & _ & _ & Ht & _ & -> & ->).
    destruct (init_world_wf srv_id g sm _ params (next_id w) w Hwf Ht) as (Hwf' & Hle & Hok).
    eapply wp_mono; [by apply join_publish_wf|].
    intros [a|e|e] w2; try done. intros [? ?]. split; [done|]. by etrans.
Qed.

Lemma keeps_create env g gt : keeps (create_group cfg env g gt).
Proof. unfold create_group. pose proof keeps_join. auto 8 with mesg. Qed.

Lemma keeps_join_group env g gt sm : keeps (join_group cfg env g gt (Some sm)).
Proof.
  unfold join_group. pose proof keeps_join. pose proof keeps_delete_manager.
  apply keeps_bind; [|auto 8 with mesg].
  apply keeps_set_managers. intros w g' v Hv. apply emplace_inv in Hv as [?|[_ <-]]; eauto.
Qed.

Lemma keeps_run {A : Type} (m : M world A) w a w' :
  keeps m → world_wf w → m w = (Ret a, w') → world_wf w' ∧ world_le w w'.
Proof. intros Hk Hwf Hm. by apply (wp_run m (good w) w (Ret a) w' (Hk w Hwf)). Qed.

Lemma groups_wf_split y :
  groups_wf y ↔ world_wf (sys_world y) ∧
    ∀ g c, (g, c) ∈ pending y → cx_group c = g ∧ context_ok (sys_world y) c.
Proof. split; [intros []; split; [split|]; done|intros [[] ?]; by split]. Qed.

(** A call that keeps worlds well-formed keeps the pending joins. *)
Lemma groups_wf_run {A : Type} (m : M world A) w a w' ps :
  keeps m → m w = (Ret a, w') → groups_wf (mkSystem w ps) → groups_wf (mkSystem w' ps).
Proof.
  intros Hk Hm [Hwf Hp]%groups_wf_split. apply groups_wf_split.
  destruct (keeps_run m w a w' Hk Hwf Hm) as [? Hle]. split; [done|].
  intros g c Hc. destruct (Hp g c Hc). split; [done|]. by eapply context_ok_le.
Qed.

Lemma system_step_wf y y' : system_step cfg y y' → groups_wf y → groups_wf y'.
Proof.
  intros Hs. destruct Hs as [env srv_id g t w w' c ps Hj|env srv_id g t w w' e ps Hj
    |g c w w' r ps1 ps2 Hj|env g t w w' r ps Hr|env g t sm w w' r ps Hr|env g w w' ps Hr
    |g w w' ps Hr|env w w' ps Hr|g ty m l w w' ps Hr|nd t params w w' ps Hr|m w ps].
  - intros [Hwf Hp]%groups_wf_split. apply groups_wf_split.
    apply join_prepare_inr in Hj as (params & sm & _ & _ & Ht & _ & -> & ->).
    destruct (init_world_wf srv_id g sm _ params (next_id w) w Hwf Ht) as (Hwf' & Hle & Hok).
    split; [done|]. intros g' c' [[= -> ->]|Hc]%elem_of_cons; [done|].
    destruct (Hp g' c' Hc). split; [done|]. by eapply context_ok_le.
  - by apply join_prepare_early in Hj as [-> _].
  - intros [Hwf Hp]%groups_wf_split. apply groups_wf_split. simpl in *.
    destruct (Hp g c) as [Hg Hok]; [apply elem_of_app; right; left|].
    pose proof (join_publish_wf g c w Hwf Hok Hg) as Hw. unfold wp in Hw. rewrite Hj in Hw.
    destruct Hw as [Hwf' Hle]. split; [done|]. intros g' c' Hc.
    destruct (Hp g' c') as [? ?];
      [apply elem_of_app in Hc as [?|?]; apply elem_of_app; [by left|right; by right]|]. split; [done|]. by eapply context_ok_le.
  - eapply groups_wf_run; [apply keeps_create|done].
  - eapply groups_wf_run; [apply keeps_join_group|done].
  - eapply groups_wf_run; [apply keeps_leave|done].
  - eapply groups_wf_run; [apply keeps_shutdown_for|done].
  - eapply groups_wf_run; [apply keeps_svc_shutdown|done].
  - eapply groups_wf_run; [apply keeps_event|done].
  - eapply groups_wf_run; [apply keeps_register|done].
  - intros [[Hm Hsv Hc] Hp]%groups_wf_split. apply groups_wf_split. by split; [split|].
Qed.
End groups_ops.

Section groups_waits.
Context `{UuidOps} `{RaftParams}.
Implicit Types (w : world) (g : uuid).

(** A predicate that reads a fact of the world and keeps it. *)
Definition observes (pred : M world bool) (P : world → bool → Prop) : Prop :=
  ∀ w, ∃ b w', pred w = (Ret b, w') ∧ P w' b.

Lemma wait_loop_observes pred P events w b w' :
  observes pred P → wait_loop pred events w = (Ret b, w') → P w' b.
Proof.
  intros Hp. revert w. induction events as [|[ev wakes] evs IH]; intros w; simpl.
  { destruct (Hp w) as (b' & w1 & -> & HP). by intros [= <- <-]. }
  unfold mbind, M_bind. destruct (ev w) as [[[]|e|e] w1]; try done.
  destruct wakes; [|apply IH]. destruct (Hp w1) as (b' & w2 & -> & HP).
  destruct b'; [by intros [= <- <-]|apply IH].
Qed.

Lemma wait_for_observes pred P events w b w' :
  observes pred P → wait_for pred events w = (Ret b, w') → P w' b.
Proof.
  intros Hp. unfold wait_for, mbind, M_bind. destruct (Hp w) as (b' & w1 & -> & HP).
  destruct b'; [by intros [= <- <-]|by apply wait_loop_observes].
Qed.

Lemma leader_flag_run g w :
  ∃ b w', leader_flag g w = (Ret b, w') ∧ is_leader w' !! g = Some b ∧
          b = default false (is_leader w !! g).
Proof.
  unfold leader_flag, index_or, mbind, M_bind, gets, modify.
  destruct (is_leader w !! g) as [b|] eqn:Hg; eexists _, _; split; try done; simpl.
  by rewrite lookup_insert_eq.
Qed.

Lemma leader_flag_observes g : observes (leader_flag g) (λ w b, is_leader w !! g = Some b).
Proof. intros w. destruct (leader_flag_run g w) as (b & w' & ? & ? & _). eauto. Qed.

(** The servers of a group, as its RAFT server reports them. *)
Definition members w g : list srv_config :=
  match raft_servers w !! g with Some n => default [] (configs w !! n) | None => [] end.

Lemma in_config_observes g endpoint :
  observes (in_config g endpoint)
    (λ w b, b = true ↔ ∃ c, c ∈ members w g ∧ sc_endpoint c = endpoint).
Proof.
  intros w. exists (existsb (λ c, bool_decide (endpoint = sc_endpoint c)) (members w g)), w.
  split.
  { unfold in_config, svc_get_srv_config_all, members, mbind, M_bind, gets. simpl.
    by destruct (raft_servers w !! g). }
  rewrite existsb_exists. split.
  - intros (c & Hc & He%bool_decide_eq_true). exists c. by rewrite list_elem_of_In.
  - intros (c & Hc & <-). exists c. rewrite <-list_elem_of_In. by rewrite bool_decide_true.
Qed.

(** A world after more calls. *)
Definition traced (es : list effect) w : world :=
  mkWorld (state_mgr_types w) (state_managers w) (is_leader w) (raft_servers w) (contexts w)
    (configs w) (next_id w) (trace w ++ es).

Lemma raft_call_run {A : Type} e (answer : list effect → outcome A) w :
  raft_call e answer w = (answer (trace w), traced [e] w).
Proof. done. Qed.

(** How often a command is submitted, and what its future gets. *)
Lemma continue_resp_run e answer w :
  let run := continue_resp (raft_call e answer) w in
  match answer (trace w) with
  | Ret (Some r) =>
      if decide (get_result_code r ≠ code.RESULT_NOT_EXIST_YET)
      then run = (Ret (code_result (get_result_code r)), traced [e] w)
      else match answer (trace w ++ [e]) with
           | Ret (Some r') => run = (Ret (code_result (final_result_code r')), traced [e; e] w)
           | Throw _ => run = (Ret (Unexpected code.SERVER_NOT_FOUND), traced [e; e] w)
           | _ => ∃ x, run.1 = Ub x
           end
  | Throw _ => run = (Ret (Unexpected code.SERVER_NOT_FOUND), traced [e] w)
  | _ => ∃ x, run.1 = Ub x
  end.
Proof.
  unfold continue_resp, try_catch, mbind, M_bind. rewrite raft_call_run.
  destruct (answer (trace w)) as [[r|]|x|x]; simpl; try (by eexists).
  destruct (decide (get_result_code r ≠ code.RESULT_NOT_EXIST_YET)); [done|].
  simpl. unfold traced.
  destruct (answer (trace w ++ [e])) as [[r'|]|x|x]; simpl; rewrite <-?app_assoc; by eexists.
Qed.

(** The leadership a sequence of events leaves a group with. *)
Fixpoint role_after (g : uuid) (events : list (uuid * cb_type * Z * Z)) (b : option bool)
  : option bool :=
  match events with
  | [] => b
  | (g', type, my_id, leader_id) :: rest =>
      role_after g rest
        (if decide (g = g') then
           match type with
           | BecomeLeader => Some true
           | BecomeFollower => Some false
           | JoinedCluster => Some (bool_decide (leader_id = my_id))
           | _ => b
           end
         else b)
  end.

Fixpoint handle_events (events : list (uuid * cb_type * Z * Z)) : M world unit :=
  match events with
  | [] => mret tt
  | (g, type, my_id, leader_id) :: rest =>
      generic_raft_event_handler g type my_id leader_id;; handle_events rest
  end.

Lemma event_run g type my_id leader_id w :
  ∃ w', generic_raft_event_handler g type my_id leader_id w = (Ret tt, w') ∧
        ∀ g', is_leader w' !! g' = role_after g' [(g, type, my_id, leader_id)] (is_leader w !! g').
Proof.
  assert (∀ (m : gmap uuid bool) g' b, <[g:=b]> m !! g' = if decide (g' = g) then Some b else m !! g') as Hins.
  { intros m g' b. destruct (decide (g' = g)) as [->|Hne];
      [apply lookup_insert_eq|by apply lookup_insert_ne]. }
  destruct type; simpl; unfold exit_group, lookup_state_manager, assign_leader, mbind, M_bind, gets, modify.
  1: destruct (default None (state_managers w !! g)).
  all: eexists; split; [done|]; intros g'; simpl; rewrite ?Hins; by destruct (decide (g' = g)).
Qed.
End groups_waits.

Section groups_leave.
Context `{UuidOps} `{RaftParams}.

(** Leaving a group with a state manager. *)
Lemma leave_run (env : app_env) (g : uuid) (w : world) (sm : N) :
  state_managers w !! g = Some (Some sm) →
  ∃ w', leave_group env g w = (Ret tt, w') ∧
    state_managers w' = delete g (state_managers w) ∧
    raft_servers w' = (if releases_listener env then delete g (raft_servers w) else raft_servers w) ∧
    is_leader w' = is_leader w ∧ state_mgr_types w' = state_mgr_types w ∧
    trace w' = trace w ++
      (match raft_servers w !! g with
       | Some n => [StopServer n; ShutdownServer n]
       | None => []
       end) ++ [PermanentDestroy sm].
Proof.
  intros Hg. unfold leave_group, mbind, M_bind, gets. rewrite Hg.
  unfold svc_leave_group, mbind, M_bind, gets. destruct (raft_servers w !! g) as [n|] eqn:Hs.
  - unfold stop_raft_server, mbind, M_bind. simpl. destruct (releases_listener env).
    + unfold shutdown_for, mbind, M_bind, gets. simpl. rewrite Hs. simpl. rewrite Hg. simpl.
      eexists. split; [done|]. simpl. by rewrite <-!app_assoc.
    + simpl. rewrite Hg. simpl. eexists. split; [done|]. simpl. by rewrite <-!app_assoc.
  - simpl. rewrite Hg. simpl. eexists. split; [done|]. simpl. split_and!; try done.
    destruct (releases_listener env); [by rewrite delete_id|done].
Qed.

Lemma stop_run (env : app_env) (g : uuid) (n : N) (w : world) :
  ∃ w', stop_raft_server env g n w = (Ret tt, w') ∧
        trace w' = trace w ++ [StopServer n; ShutdownServer n].
Proof.
  unfold stop_raft_server, msg_group_listner_destroy, shutdown_for, mbind, M_bind, gets. simpl.
  destruct (releases_listener env); simpl; [destruct (raft_servers w !! g)|];
    (eexists; split; [done|]); simpl; by rewrite <-app_assoc.
Qed.

Lemma stop_all_run (env : app_env) (gs : list (uuid * N)) (w : world) :
  ∃ w', stop_all env gs w = (Ret tt, w') ∧
        trace w' = trace w ++ flat_map (λ gn, [StopServer gn.2; ShutdownServer gn.2]) gs.
Proof.
  revert w. induction gs as [|[g n] gs IH]; intros w.
  { exists w. by rewrite app_nil_r. }
  destruct (stop_run env g n w) as (w1 & Hw1 & Ht1). destruct (IH w1) as (w2 & Hw2 & Ht2).
  exists w2. cbn [stop_all]. unfold mbind, M_bind. rewrite Hw1. split; [done|].
  by rewrite Ht2, Ht1, <-app_assoc.
Qed.
End groups_leave.

(** ** Properties *)

Section groups_theorems.
Context `{UuidOps} `{RaftParams}.

(** In every state that joins of any number of threads, group creation and removal,
    RAFT events, listener releases and type registrations lead to, no registered state
    manager is null, a group is served by a server that was made for that group, and
    every server runs with the parameters registered for its type and with a state
    manager that was told to become ready and given the manager. *)
Theorem groups_invariant (cfg : service_cfg) (y : system) :
  rtc (system_step cfg) initial y → groups_wf y.
Proof.
  intros Hr. assert (groups_wf initial) as Hinit.
  { split; simpl; try (intros; by simplify_map_eq). intros g c Hc. by apply elem_of_nil in Hc. }
  revert Hinit. induction Hr as [|y1 y2 y3 Hs _ IH]; [done|]. intros Hwf.
  apply IH. by eapply system_step_wf.
Qed.

(** C18: What [joinRaftGroup] does, on every path.  Without a manager it is cancelled; a
    group that is served is left alone; an unknown type (the default type standing in
    for an empty one) is refused and nothing changes; otherwise the state manager
    registered for the group, or a new one from the application, is made ready, and a
    new server with it and with the type's parameters serves the group.  It crashes
    exactly when no state manager can be had. *)
Theorem join_contract (cfg : service_cfg) (env : app_env) (srv_id : Z) (g : uuid)
    (group_type : string) (w : world) :
  let run := joinRaftGroup cfg env srv_id g group_type w in
  let type := join_type cfg group_type in
  if negb (manager_alive env) then run = (Ret code.CANCELLED, w) else
  match raft_servers w !! g with
  | Some _ => run = (Ret code.OK, w)
  | None =>
      match state_mgr_types w !! type, resolve env srv_id g w with
      | None, _ => run = (Ret code.SERVER_NOT_FOUND, w)
      | Some _, None => ∃ e, run.1 = Ub e
      | Some params, Some sm =>
          run.1 = Ret code.OK ∧
          raft_servers run.2 = <[g := (next_id w + 1)%N]> (raft_servers w) ∧
          contexts run.2 = <[(next_id w + 1)%N := mkContext g type params sm (next_id w)]> (contexts w) ∧
          state_managers run.2 = <[g := Some sm]> (state_managers w) ∧
          is_leader run.2 = is_leader w ∧
          trace run.2 = trace w ++ init_trace srv_id g sm w ++
            (if _data_service_enabled cfg
             then [MakeReplCtx sm (next_id w + 1) (next_id w)] else [])
      end
  end.
Proof.
  intros run type. destruct (manager_alive env) eqn:Ha; cbn [negb].
  2:{ subst run. unfold joinRaftGroup, join_prepare. by rewrite Ha. }
  destruct (raft_servers w !! g) as [n|] eqn:Hs.
  { subst run. unfold joinRaftGroup, join_prepare, mbind, M_bind, gets. rewrite Ha. simpl.
    by rewrite Hs. }
  destruct (state_mgr_types w !! type) as [params|] eqn:Ht.
  2:{ subst run. unfold joinRaftGroup, join_prepare. rewrite Ha. fold (join_type cfg group_type).
      fold type. unfold mbind, M_bind, gets. simpl. rewrite Hs. by rewrite group_init_unknown. }
  destruct (resolve env srv_id g w) as [sm|] eqn:Hsm.
  - subst run. rewrite (joinRaftGroup_run cfg env srv_id g group_type params sm w Ha Hs Ht Hsm).
    simpl. by rewrite <-app_assoc.
  - subst run. unfold joinRaftGroup, join_prepare. rewrite Ha. fold (join_type cfg group_type).
    fold type. unfold mbind, M_bind, gets. simpl. rewrite Hs.
    destruct (group_init_crash env srv_id g type params w Ht Hsm) as (e & He).
    destruct (group_init env srv_id g type w) as [o w1]. simpl in He. subst o. by exists e.
Qed.

(** C29: Leaving a group the process is not part of does nothing.  Leaving any other group
    stops and shuts down its server, if it has one, before the state manager is told to
    destroy its state and is forgotten; when NuRaft's shutdown gives up the listener,
    the group is no longer served.  Other groups keep their managers and servers. *)
Theorem leave_contract (env : app_env) (g : uuid) (w : world) :
  (∀ v, state_managers w !! g = Some v → is_Some v) →
  match state_managers w !! g with
  | Some (Some sm) =>
      ∃ w', leave_group env g w = (Ret tt, w') ∧
        state_managers w' = delete g (state_managers w) ∧
        raft_servers w' = (if releases_listener env then delete g (raft_servers w) else raft_servers w) ∧
        trace w' = trace w ++
          (match raft_servers w !! g with
           | Some n => [StopServer n; ShutdownServer n]
           | None => []
           end) ++ [PermanentDestroy sm]
  | _ => leave_group env g w = (Ret tt, w)
  end.
Proof.
  intros Hv. destruct (state_managers w !! g) as [v|] eqn:Hg.
  - destruct (Hv v eq_refl) as [sm ->].
    destruct (leave_run env g w sm Hg) as (w' & Hw & Hm & Hs & _ & _ & Htr). by exists w'.
  - unfold leave_group, mbind, M_bind, gets. by rewrite Hg.
Qed.

(** The leadership flag of a group is what the group's last leadership event said:
    after any sequence of RAFT events the map agrees, for every group, with a reading
    of that group's events alone. *)
Theorem leader_flag_tracks_events (events : list (uuid * cb_type * Z * Z)) (w : world) :
  ∃ w', handle_events events w = (Ret tt, w') ∧
        ∀ g, is_leader w' !! g = role_after g events (is_leader w !! g).
Proof.
  revert w. induction events as [|[[[g type] my_id] leader_id] events IH]; intros w.
  { by exists w. }
  destruct (event_run g type my_id leader_id w) as (w1 & Hw1 & Hl1).
  destruct (IH w1) as (w2 & Hw2 & Hl2). exists w2.
  cbn [handle_events]. unfold mbind, M_bind. rewrite Hw1. split; [done|].
  intros g'. rewrite Hl2, Hl1. done.
Qed.

(** The futures of [create_group] and [become_leader] tell the truth: whatever happens
    while they wait, success means that the process is recorded as the group's leader
    when they return, and the timeout codes that it is not. *)
Theorem await_reports_leadership (ops : raft_ops) (g : uuid) (events : list (M world unit * bool))
    (w w' : world) (r : NullResult) :
  (create_group_deferred g events w = (Ret r, w') →
   r = Value tt ∧ is_leader w' !! g = Some true ∨
   r = Unexpected code.CANCELLED ∧ is_leader w' !! g = Some false) ∧
  (become_leader_deferred ops g events w = (Ret r, w') →
   r = Value tt ∧ is_leader w' !! g = Some true ∨
   r = Unexpected code.TIMEOUT ∧ is_leader w' !! g = Some false ∨
   r = Unexpected code.CANCELLED ∧ svc_become_leader ops g w = (Ret false, w')).
Proof.
  split.
  - unfold create_group_deferred, mbind, M_bind.
    destruct (wait_for (leader_flag g) events w) as [[b|e|e] w1] eqn:Hw; try done.
    apply (wait_for_observes _ _ _ _ _ _ (leader_flag_observes g)) in Hw.
    intros [= <- <-]. destruct b; eauto.
  - unfold become_leader_deferred, mbind, M_bind.
    destruct (svc_become_leader ops g w) as [[b|e|e] w1] eqn:Hb; try done.
    destruct b; simpl; [|intros [= <- <-]; eauto].
    destruct (wait_for (leader_flag g) events w1) as [[b|e|e] w2] eqn:Hw; try done.
    apply (wait_for_observes _ _ _ _ _ _ (leader_flag_observes g)) in Hw.
    intros [= <- <-]. destruct b; eauto.
Qed.

(** [add_member] reports success only once the new member is in the configuration its
    group's server reports, and reports the command's own error otherwise. *)
Theorem add_member_reports_membership (ops : raft_ops) (g : uuid) (c : srv_config)
    (events : list (M world unit * bool)) (w w' : world) (r : NullResult) :
  add_member_config ops g c events w = (Ret r, w') →
  match r with
  | Value _ => ∃ c', c' ∈ members w' g ∧ sc_endpoint c' = sc_endpoint c
  | Unexpected e =>
      (∃ w1, svc_add_member ops g c w = (Ret (Unexpected e), w1)) ∨
      e = code.CANCELLED ∧ ¬ ∃ c', c' ∈ members w' g ∧ sc_endpoint c' = sc_endpoint c
  end.
Proof.
  unfold add_member_config, mbind, M_bind.
  destruct (svc_add_member ops g c w) as [[[u|e]|e|e] w1] eqn:Ha; try done.
  2:{ intros [= <- <-]. eauto. }
  destruct (wait_for (in_config g (sc_endpoint c)) events w1) as [[b|e|e] w2] eqn:Hw; try done.
  apply (wait_for_observes _ _ _ _ _ _ (in_config_observes g (sc_endpoint c))) in Hw.
  intros [= <- <-]. destruct b; [by apply Hw|]. right. split; [done|].
  intros Hex%Hw. done.
Qed.

(** A command whose result is not there yet is submitted twice: [CONTINUE_RESP] evaluates
    its argument once for the result code and once more to wait.  Entries appended to a
    group are then appended twice, and adding a server reports what became of the second
    request, whatever the first one led to. *)
Theorem pending_command_sent_twice (ops : raft_ops) (g : uuid) (logs : list buffer)
    (c : srv_config) (events : list (M world unit * bool)) (w : world) (n : N)
    (r1 r2 : cmd_result) :
  raft_servers w !! g = Some n →
  get_result_code r1 = code.RESULT_NOT_EXIST_YET →
  (raft_append_entries ops (trace w) n logs = Ret (Some r1) →
   raft_append_entries ops (trace w ++ [AppendLogs n logs]) n logs = Ret (Some r2) →
   append_entries ops g logs w =
   (Ret (code_result (final_result_code r2)), traced [AppendLogs n logs; AppendLogs n logs] w)) ∧
  (add_srv ops (trace w) n c = Ret (Some r1) →
   add_srv ops (trace w ++ [AddSrv n c]) n c = Ret (Some r2) →
   final_result_code r2 ≠ code.OK →
   add_member_config ops g c events w =
   (Ret (Unexpected (final_result_code r2)), traced [AddSrv n c; AddSrv n c] w)).
Proof.
  intros Hs Hr1. split.
  - intros H1 H2. unfold append_entries, svc_append_entries, mbind, M_bind, gets. rewrite Hs.
    pose proof (continue_resp_run (AppendLogs n logs)
                  (λ h, raft_append_entries ops h n logs) w) as Hrun.
    cbn in Hrun. rewrite H1, H2 in Hrun. by rewrite decide_False in Hrun by tauto.
  - intros H1 H2 Hne.
    pose proof (continue_resp_run (AddSrv n c) (λ h, add_srv ops h n c) w) as Hrun.
    cbn in Hrun. rewrite H1, H2 in Hrun. rewrite decide_False in Hrun by tauto.
    unfold add_member_config, svc_add_member, mbind, M_bind, gets. rewrite Hs.
    unfold server_add_srv. rewrite Hrun. unfold code_result. by rewrite decide_False by done.
Qed.

(** Leadership outlives membership: after the leader of a group leaves it, the flag
    stays, so [become_leader] on the group it no longer serves succeeds at once, and a
    group created again under the same id reports leadership without any election. *)
Theorem stale_leader_after_leave (cfg : service_cfg) (env : app_env) (g : uuid)
    (group_type : string) (w : world) (sm sm' : N) (create : Z → uuid → option N)
    (params : raft_params) :
  is_leader w !! g = Some true → state_managers w !! g = Some (Some sm) →
  releases_listener env = true → manager_alive env = true →
  create_state_mgr env = Some create → create (_srv_id cfg) g = Some sm' →
  state_mgr_types w !! join_type cfg group_type = Some params →
  ∃ w1 w2, leave_group env g w = (Ret tt, w1) ∧
    state_managers w1 !! g = None ∧ raft_servers w1 !! g = None ∧
    (become_leader g w1).1 = Ret (Immediate (Value tt)) ∧
    create_group cfg env g group_type w1 = (Ret Deferred, w2) ∧
    (create_group_deferred g [] w2).1 = Ret (Value tt).
Proof.
  intros Hl Hm Hrel Ha Hc Hsm Ht.
  destruct (leave_run env g w sm Hm) as (w1 & Hw1 & Hm1 & Hs1 & Hl1 & Ht1 & _).
  rewrite Hrel in Hs1. rewrite <- Hl1 in Hl. clear Hl1. rename Hl into Hl1.
  assert (raft_servers w1 !! g = None) as Hs1' by (rewrite Hs1; apply lookup_delete_eq).
  assert (state_managers w1 !! g = None) as Hm1' by (rewrite Hm1; apply lookup_delete_eq).
  exists w1. set (w1' := set_leader (emplace g false (is_leader w1)).1 w1).
  assert (is_leader w1' !! g = Some true) as Hl1' by by apply emplace_old.
  assert (resolve env (_srv_id cfg) g w1' = Some sm') as Hres.
  { unfold resolve. simpl. by rewrite Hm1', Hc. }
  assert (state_mgr_types w1' !! join_type cfg group_type = Some params) as Ht'
    by by (simpl; rewrite Ht1).
  eexists. split_and!; [done|done|done|..].
  - unfold become_leader, leader_flag, index_or, mbind, M_bind, gets, modify. simpl. by rewrite Hl1.
  - unfold create_group, mbind, M_bind, modify. fold w1'. unfold joinRaftGroup, mbind, M_bind.
    rewrite (join_prepare_run cfg env _ g group_type params sm' w1' Ha Hs1' Ht' Hres).
    rewrite join_publish_run by done. done.
  - unfold create_group_deferred, wait_for, leader_flag, index_or, mbind, M_bind, gets, modify.
    cbn [is_leader publish_world init_world]. by rewrite Hl1'.
Qed.

(** Two joins of the same group that overlap leave it unserved: both find no server and
    prepare one, the first publishes its server, the second finds it, and the listener of
    the server it drops takes the published one down; both report success. *)
Theorem overlapping_joins_lose_group (cfg : service_cfg) (env : app_env) (srv_id : Z) (g : uuid)
    (group_type : string) (w : world) (sm : N) (params : raft_params) :
  manager_alive env = true → raft_servers w !! g = None →
  state_mgr_types w !! join_type cfg group_type = Some params →
  resolve env srv_id g w = Some sm →
  ∃ c1 c2 w1 w2 w3 w4,
    join_prepare cfg env srv_id g group_type w = (Ret (inr c1), w1) ∧
    join_prepare cfg env srv_id g group_type w1 = (Ret (inr c2), w2) ∧
    join_publish cfg g c1 w2 = (Ret code.OK, w3) ∧
    join_publish cfg g c2 w3 = (Ret code.OK, w4) ∧
    is_Some (raft_servers w3 !! g) ∧ raft_servers w4 !! g = None.
Proof.
  intros Ha Hs Ht Hres. do 6 eexists.
  split; [by apply (join_prepare_run cfg env srv_id g group_type params sm w)|].
  split; [apply (join_prepare_run cfg env srv_id g group_type params sm); try done|].
  { unfold resolve. simpl. by rewrite lookup_insert_eq. }
  split; [by apply join_publish_run|].
  split; [apply (join_publish_loser cfg g _ (next_id w + 1 + 1)%N); [|done]|];
    simpl; rewrite ?lookup_insert_eq, ?lookup_delete_eq; [done|].
  split; [by eexists|done].
Qed.

(** A failed [join_group] forgets a state manager it did not add: joining a group whose
    state manager is already registered, with an unknown type, unregisters that state
    manager, without telling it. *)
Theorem failed_join_drops_manager (cfg : service_cfg) (env : app_env) (g : uuid)
    (group_type : string) (smgr : option N) (sm : N) (w : world) :
  manager_alive env = true → state_managers w !! g = Some (Some sm) →
  raft_servers w !! g = None → state_mgr_types w !! join_type cfg group_type = None →
  join_group cfg env g group_type smgr w =
  (Ret (Unexpected code.SERVER_NOT_FOUND), set_managers (delete g (state_managers w)) w).
Proof.
  intros Ha Hm Hs Ht. unfold join_group, mbind, M_bind, modify.
  rewrite (emplace_Some _ _ _ _ Hm). cbn [fst].
  unfold joinRaftGroup, join_prepare, mbind, M_bind, gets. rewrite Ha. cbn [negb].
  fold (join_type cfg group_type). cbn [raft_servers set_managers]. rewrite Hs.
  by rewrite group_init_unknown.
Qed.

(** Shutting the service down stops and shuts down every server exactly once. *)
Theorem shutdown_stops_every_server (env : app_env) (w : world) :
  ∃ w' gs, svc_shutdown env w = (Ret tt, w') ∧
    gs ≡ₚ map_to_list (raft_servers w) ∧
    trace w' = trace w ++ flat_map (λ gn, [StopServer gn.2; ShutdownServer gn.2]) gs.
Proof.
  unfold svc_shutdown, mbind, M_bind, gets.
  destruct (stop_all_run env (map_to_list (raft_servers w)) w) as (w' & Hw' & Ht).
  exists w', (map_to_list (raft_servers w)). split; [exact Hw'|]. by split.
Qed.
End groups_theorems.

(** ** Witnesses *)

Import Demo.

Module GroupsDemo.
#[export] Instance demo_params : RaftParams := nat.

Definition demo_service : service_cfg := mkServiceCfg 7 true "default".
Definition demo_app : app_env := mkAppEnv true (Some (λ _ _, Some 100%N)) true.
Definition empty_world : world := sys_world initial.

(** A process with the default type registered, that created and leads the group [U1]. *)
Definition typed_world : world := (register_mgr_type true "default" 5 empty_world).2.
Definition member_world : world := (create_group demo_service demo_app U1 "" typed_world).2.
Definition leader_world : world := (generic_raft_event_handler U1 BecomeLeader 7 7 member_world).2.
Definition demo_election : list (M world unit * bool) :=
  [(generic_raft_event_handler U1 BecomeLeader 7 7, true)].

(** RAFT servers that accept every request at once. *)
Definition demo_ops : raft_ops :=
  mkRaftOps (λ _ _ _, Ret (Some (mkCmdResult code.OK code.OK)))
    (λ _ _ _, Ret (Some (mkCmdResult code.OK code.OK)))
    (λ _ _ _, Ret (Some (mkCmdResult code.RESULT_NOT_EXIST_YET code.OK))) (λ _ _, Ret true).
End GroupsDemo.
Import GroupsDemo.

Lemma groups_invariant_witness : groups_wf (mkSystem leader_world []) ∧ raft_servers leader_world !! U1 = Some 1%N.
Proof.
  split; [|by vm_compute]. apply (groups_invariant demo_service).
  apply (rtc_l _ _ (mkSystem typed_world [])).
  { apply (sys_register demo_service true "default"%string 5). by vm_compute. }
  apply (rtc_l _ _ (mkSystem member_world [])).
  { apply (sys_create demo_service demo_app U1 ""%string typed_world member_world Deferred).
    by vm_compute. }
  apply rtc_once. apply (sys_event (H := demo_uuid_ops) demo_service U1 BecomeLeader 7 7). by vm_compute.
Defined.

Lemma leave_contract_witness :
  ∃ w', leave_group demo_app U1 leader_world = (Ret tt, w') ∧
    state_managers w' = delete U1 (state_managers leader_world) ∧
    raft_servers w' = delete U1 (raft_servers leader_world) ∧
    trace w' = trace leader_world ++ [StopServer 1; ShutdownServer 1] ++ [PermanentDestroy 100].
Proof.
  apply (leave_contract demo_app U1 leader_world).
  intros v. vm_compute. intros [= <-]. by eexists.
Defined.

Lemma await_reports_leadership_witness :
  is_leader (create_group_deferred U1 demo_election member_world).2 !! U1 = Some true.
Proof.
  set (w' := (create_group_deferred (H := demo_uuid_ops) U1 demo_election member_world).2).
  destruct (await_reports_leadership (H := demo_uuid_ops) demo_ops U1 demo_election member_world w' (Value tt))
    as [Hc _].
  destruct Hc as [[_ Hl]|[? _]]; [by vm_compute|exact Hl|done].
Defined.

(** The event of the new member [U2] showing in the group's configuration. *)
Definition demo_member : srv_config := mkSrvConfig 2 0 (demo_to_string U2) EmptyString false 1 false.
Definition demo_events : list (M world unit * bool) :=
  [(modify (set_configs {[1%N := [demo_member]]}), true)].

Lemma add_member_reports_membership_witness :
  ∃ c', c' ∈ members (add_member_config demo_ops U1 demo_member demo_events leader_world).2 U1 ∧
        sc_endpoint c' = sc_endpoint demo_member.
Proof.
  apply (add_member_reports_membership (H := demo_uuid_ops) demo_ops U1 demo_member demo_events leader_world _ (Value tt)).
  by vm_compute.
Defined.

Lemma stale_leader_after_leave_witness :
  ∃ w1 w2, leave_group demo_app U1 leader_world = (Ret tt, w1) ∧
    state_managers w1 !! U1 = None ∧ raft_servers w1 !! U1 = None ∧
    (become_leader U1 w1).1 = Ret (Immediate (Value tt)) ∧
    create_group demo_service demo_app U1 "" w1 = (Ret Deferred, w2) ∧
    (create_group_deferred U1 [] w2).1 = Ret (Value tt).
Proof.
  apply (stale_leader_after_leave demo_service demo_app U1 "" leader_world 100 100
           (λ _ _, Some 100%N) 5); by vm_compute.
Defined.

Lemma overlapping_joins_lose_group_witness :
  ∃ c1 c2 w1 w2 w3 w4,
    join_prepare demo_service demo_app 7 U1 "" typed_world = (Ret (inr c1), w1) ∧
    join_prepare demo_service demo_app 7 U1 "" w1 = (Ret (inr c2), w2) ∧
    join_publish demo_service U1 c1 w2 = (Ret code.OK, w3) ∧
    join_publish demo_service U1 c2 w3 = (Ret code.OK, w4) ∧
    is_Some (raft_servers w3 !! U1) ∧ raft_servers w4 !! U1 = None.
Proof.
  apply (overlapping_joins_lose_group demo_service demo_app 7 U1 "" typed_world 100 5);
    by vm_compute.
Defined.

(** A group whose listener was released keeps its state manager. *)
Definition unserved_world : world := (shutdown_for U1 leader_world).2.

Lemma failed_join_drops_manager_witness :
  join_group demo_service demo_app U1 "other" (Some 200%N) unserved_world =
  (Ret (Unexpected code.SERVER_NOT_FOUND),
   set_managers (delete U1 (state_managers unserved_world)) unserved_world).
Proof.
  apply (failed_join_drops_manager demo_service demo_app U1 "other" (Some 200%N) 100 unserved_world);
    by vm_compute.
Defined.

(** A leader that takes its time over a request and refuses a second one to add a server. *)
Definition slow_ops : raft_ops :=
  mkRaftOps
    (λ history _ _, if existsb (λ e, match e with AddSrv _ _ => true | _ => false end) history
                    then Ret (Some (mkCmdResult code.SERVER_IS_JOINING code.SERVER_IS_JOINING))
                    else Ret (Some (mkCmdResult code.RESULT_NOT_EXIST_YET code.OK)))
    (λ _ _ _, Ret (Some (mkCmdResult code.RESULT_NOT_EXIST_YET code.OK)))
    (λ _ _ _, Ret (Some (mkCmdResult code.RESULT_NOT_EXIST_YET code.OK))) (λ _ _, Ret true).

Lemma pending_command_sent_twice_witness :
  append_entries slow_ops U1 [] leader_world =
    (Ret (Value tt), traced [AppendLogs 1 []; AppendLogs 1 []] leader_world) ∧
  (add_member_config slow_ops U1 demo_member demo_events leader_world).1 =
    Ret (Unexpected code.SERVER_IS_JOINING).
Proof.
  split.
  - apply (pending_command_sent_twice (H := demo_uuid_ops) slow_ops U1 [] demo_member demo_events
             leader_world 1 (mkCmdResult code.RESULT_NOT_EXIST_YET code.OK)
             (mkCmdResult code.RESULT_NOT_EXIST_YET code.OK)); by vm_compute.
  - destruct (pending_command_sent_twice (H := demo_uuid_ops) slow_ops U1 [] demo_member demo_events
                leader_world 1 (mkCmdResult code.RESULT_NOT_EXIST_YET code.OK)
                (mkCmdResult code.SERVER_IS_JOINING code.SERVER_IS_JOINING)) as [_ Hadd];
      [by vm_compute|done|]. rewrite Hadd; [done|by vm_compute|by vm_compute|done].
Defined.
