(* ===== verification/Threads.v ===== *)
(** * Calls of the manager as threads

    The operations of [ManagerImpl] and [msg_service] ([src/lib/manager_impl.cpp],
    [src/lib/service.cpp]) at the granularity at which threads interleave: a section
    under [_manager_lock], or one operation of the concurrent map of RAFT servers, is
    atomic, and other threads run in between.  [Groups] has the same operations as
    single calls; a thread that runs alone does what they do. *)

From stdpp Require Import base gmap strings list numbers relations.
From S2P Require Import Prelude Types Groups.

(** ** Threads *)

Section thread.
Context `{UuidOps} `{RaftParams}.

(** A thread has finished, or runs an atomic section and goes on with its result. *)
Inductive thread (A : Type) : Type :=
| Finished (a : A)
| Atomic {B : Type} (m : M world B) (k : B → thread A).
Arguments Finished {A} _.
Arguments Atomic {A B} _ _.

Fixpoint thread_bind {A B : Type} (f : A → thread B) (t : thread A) : thread B :=
  match t with
  | Finished a => f a
  | Atomic m k => Atomic m (λ b, thread_bind f (k b))
  end.

#[export] Instance thread_ret : MRet thread := λ A a, Finished a.
#[export] Instance thread_mbind : MBind thread := λ A B f t, thread_bind f t.

(** One atomic section. *)
Definition atomically {A : Type} (m : M world A) : thread A := Atomic m Finished.

(** A thread that no other thread disturbs. *)
Fixpoint alone {A : Type} (t : thread A) : M world A :=
  match t with
  | Finished a => mret a
  | Atomic m k => b ← m; alone (k b)
  end.

(** ** The operations *)

Context (cfg : service_cfg) (ops : raft_ops).

(** [msg_service::joinRaftGroup] *)
Definition join_thread (env : app_env) (srv_id : Z) (group_id : uuid) (group_type : string)
  : thread Z :=
  if negb (manager_alive env) then mret code.CANCELLED
  else
    let g_type := if decide (group_type = EmptyString) then _default_group_type cfg else group_type in
    it ← atomically (gets (λ w, raft_servers w !! group_id));
    match it with
    | Some _ => mret code.OK
    | None =>
        '(err, ctx) ← atomically (group_init env srv_id group_id g_type);
        if decide (err ≠ code.OK) then mret err
        else
          ctx ← atomically (deref "null context" ctx);
          server ← atomically (make_server ctx);
          happened ← atomically (λ w,
            let '(servers, happened) := emplace group_id server (raft_servers w) in
            (Ret happened, set_servers servers w));
          (if happened : bool
           then if _data_service_enabled cfg
                then atomically (emit (MakeReplCtx (cx_smgr ctx) server (cx_factory ctx)))
                else mret tt
           else atomically (msg_group_listner_destroy true (cx_group ctx)));;
          mret code.OK
    end.

(** [_config_change.wait_for(lk, timeout, pred)]: the predicate is checked at once, each
    time the thread is woken, [wakeups] times here, and when the time is over. *)
Fixpoint checks (pred : M world bool) (n : nat) : thread bool :=
  match n with
  | O => atomically pred
  | S n => b ← atomically pred; if b : bool then mret true else checks pred n
  end.

Definition wait_thread (pred : M world bool) (wakeups : nat) : thread bool :=
  checks pred (S wakeups).

Definition create_group_thread (env : app_env) (group_id : uuid) (group_type : string)
    (wakeups : nat) : thread NullResult :=
  atomically (modify (λ w, set_leader (emplace group_id false (is_leader w)).1 w));;
  err ← join_thread env (_srv_id cfg) group_id group_type;
  if decide (err ≠ code.OK) then mret (Unexpected err)
  else
    b ← wait_thread (leader_flag group_id) wakeups;
    mret (if (b : bool) then Value tt else Unexpected code.CANCELLED).

Definition join_group_thread (env : app_env) (group_id : uuid) (group_type : string)
    (smgr : option N) : thread NullResult :=
  atomically (modify (λ w, set_managers (emplace group_id smgr (state_managers w)).1 w));;
  err ← join_thread env (_srv_id cfg) group_id group_type;
  if decide (err ≠ code.OK)
  then atomically (modify (λ w, set_managers (delete group_id (state_managers w)) w));;
       mret (Unexpected err)
  else mret (Value tt).

(** [msg_service::leave_group], and what NuRaft does with the listener. *)
Definition svc_leave_thread (env : app_env) (group_id : uuid) : thread unit :=
  it ← atomically (gets (λ w, raft_servers w !! group_id));
  match it with
  | Some server =>
      atomically (emit (StopServer server));;
      atomically (emit (ShutdownServer server));;
      if releases_listener env
      then atomically (msg_group_listner_destroy true group_id) else mret tt
  | None => mret tt
  end.

Definition leave_group_thread (env : app_env) (group_id : uuid) : thread NullResult :=
  count ← atomically (gets (λ w, bool_decide (is_Some (state_managers w !! group_id))));
  if negb count then mret (Value tt)
  else
    svc_leave_thread env group_id;;
    atomically
      (mgrs ← gets state_managers;
       match mgrs !! group_id with
       | Some smgr =>
           smgr ← deref "null state manager" smgr;
           emit (PermanentDestroy smgr);;
           modify (λ w, set_managers (delete group_id (state_managers w)) w)
       | None => mret tt
       end);;
    mret (Value tt).

(** [ManagerImpl::exit_group]: the state manager is told outside the lock. *)
Definition exit_group_thread (group_id : uuid) : thread unit :=
  mgr ← atomically (lookup_state_manager group_id);
  match mgr with
  | Some smgr => atomically (emit (Leave smgr))
  | None => mret tt
  end.

Definition event_thread (group_id : uuid) (type : cb_type) (my_id leader_id : Z)
  : thread NullResult :=
  match type with
  | RemovedFromCluster => exit_group_thread group_id
  | JoinedCluster => atomically (assign_leader group_id (bool_decide (leader_id = my_id)))
  | NewConfig => atomically (emit NotifyAll)
  | BecomeLeader => atomically (assign_leader group_id true);; atomically (emit NotifyAll)
  | BecomeFollower => atomically (assign_leader group_id false)
  | SaveSnapshot | FollowerLost | OtherEvent => mret tt
  end;;
  mret (Value tt).

(** [CONTINUE_RESP]: each of the two calls is a section; [None] after an exception. *)
Definition caught_call (resp : M world (option cmd_result)) : thread (option cmd_result) :=
  atomically (try_catch (r ← resp; r ← deref "null command result" r; mret (Some r))
                (λ _, mret None)).

Definition continue_thread (resp : M world (option cmd_result)) : thread NullResult :=
  r ← caught_call resp;
  match r with
  | None => mret (Unexpected code.SERVER_NOT_FOUND)
  | Some r =>
      if decide (get_result_code r ≠ code.RESULT_NOT_EXIST_YET)
      then mret (code_result (get_result_code r))
      else
        r' ← caught_call resp;
        mret (match r' with
              | None => Unexpected code.SERVER_NOT_FOUND
              | Some r' => code_result (final_result_code r')
              end)
  end.

(** A command to the server of a group. *)
Definition command_thread (group_id : uuid) (resp : N → M world (option cmd_result))
  : thread NullResult :=
  it ← atomically (gets (λ w, raft_servers w !! group_id));
  match it with
  | Some n => continue_thread (resp n)
  | None => mret (Unexpected code.SERVER_NOT_FOUND)
  end.

Definition add_member_thread (group_id : uuid) (c : srv_config) (wakeups : nat)
  : thread NullResult :=
  cmd_result ← command_thread group_id (λ n, server_add_srv ops n c);
  match cmd_result with
  | Unexpected e => mret (Unexpected e)
  | Value _ =>
      b ← wait_thread (in_config group_id (sc_endpoint c)) wakeups;
      mret (if (b : bool) then Value tt else Unexpected code.CANCELLED)
  end.

Definition rem_member_thread (group_id old_id : uuid) : thread NullResult :=
  command_thread group_id (λ n, server_rem_srv ops n (to_server_id old_id)).

Definition append_entries_thread (group_id : uuid) (buf : list buffer) : thread NullResult :=
  command_thread group_id (λ n, server_append_entries ops n buf).

Definition become_leader_thread (group_id : uuid) (wakeups : nat) : thread NullResult :=
  b ← atomically (leader_flag group_id);
  if b : bool then mret (Value tt)
  else
    it ← atomically (gets (λ w, raft_servers w !! group_id));
    requested ← match it with
                | Some n => atomically (try_catch (server_request_leadership ops n) (λ _, mret false))
                | None => mret false
                end;
    if negb requested then mret (Unexpected code.CANCELLED)
    else
      b ← wait_thread (leader_flag group_id) wakeups;
      mret (if (b : bool) then Value tt else Unexpected code.TIMEOUT).

(** ** Threads at work *)

(** What a thread of the process can be asked to do. *)
Inductive operation :=
| OpRegister (ndebug : bool) (group_type : string) (params : raft_params)
| OpCreate (env : app_env) (g : uuid) (group_type : string) (wakeups : nat)
| OpJoin (env : app_env) (g : uuid) (group_type : string) (smgr : N)
| OpInvited (env : app_env) (srv_id : Z) (g : uuid) (group_type : string)
| OpLeave (env : app_env) (g : uuid)
| OpEvent (g : uuid) (type : cb_type) (my_id leader_id : Z)
| OpAddMember (g : uuid) (c : srv_config) (wakeups : nat)
| OpRemMember (g old_id : uuid)
| OpAppend (g : uuid) (buf : list buffer)
| OpBecomeLeader (g : uuid) (wakeups : nat).

Definition op_thread (op : operation) : thread NullResult :=
  match op with
  | OpRegister ndebug t params => atomically (register_mgr_type ndebug t params);; mret (Value tt)
  | OpCreate env g t wakeups => create_group_thread env g t wakeups
  | OpJoin env g t smgr => join_group_thread env g t (Some smgr)
  | OpInvited env srv_id g t => c ← join_thread env srv_id g t; mret (code_result c)
  | OpLeave env g => leave_group_thread env g
  | OpEvent g type my_id leader_id => event_thread g type my_id leader_id
  | OpAddMember g c wakeups => add_member_thread g c wakeups
  | OpRemMember g old_id => rem_member_thread g old_id
  | OpAppend g buf => append_entries_thread g buf
  | OpBecomeLeader g wakeups => become_leader_thread g wakeups
  end.

(** NuRaft gives every command a result, or throws. *)
Definition answers {A : Type} (f : list effect → outcome A) (P : A → Prop) : Prop :=
  ∀ h, match f h with Ret a => P a | Throw _ => True | Ub _ => False end.

Definition ops_ok : Prop :=
  (∀ n c, answers (λ h, add_srv ops h n c) is_Some) ∧
  (∀ n id, answers (λ h, remove_srv ops h n id) is_Some) ∧
  (∀ n logs, answers (λ h, raft_append_entries ops h n logs) is_Some) ∧
  (∀ n, answers (λ h, request_leadership ops h n) (λ _, True)).

(** The same operation as one call that nothing interleaves with; what a call waits for
    may happen [n] times meanwhile without anything changing. *)
Definition unwoken (n : nat) : list (M world unit * bool) := replicate n (mret tt, true).

Definition op_call (op : operation) : M world NullResult :=
  match op with
  | OpRegister ndebug t params => register_mgr_type ndebug t params;; mret (Value tt)
  | OpCreate env g t n =>
      r ← create_group cfg env g t;
      match r with
      | Immediate r => mret r
      | Deferred => create_group_deferred g (unwoken n)
      end
  | OpJoin env g t smgr => join_group cfg env g t (Some smgr)
  | OpInvited env srv_id g t => c ← joinRaftGroup cfg env srv_id g t; mret (code_result c)
  | OpLeave env g => leave_group env g;; mret (Value tt)
  | OpEvent g type my_id leader_id =>
      generic_raft_event_handler g type my_id leader_id;; mret (Value tt)
  | OpAddMember g c n => add_member_config ops g c (unwoken n)
  | OpRemMember g old_id => rem_member ops g old_id
  | OpAppend g buf => append_entries ops g buf
  | OpBecomeLeader g n =>
      r ← become_leader g;
      match r with
      | Immediate r => mret r
      | Deferred => become_leader_deferred ops g (unwoken n)
      end
  end.

(** The threads of a process: any of them runs its next section, an allowed call starts,
    or the RAFT servers report other members. *)
Record process_state := mkProcessState { ps_world : world; ps_threads : list (thread NullResult) }.

Inductive process_step (allowed : operation → Prop) : process_state → process_state → Prop :=
| run_section w w' {B : Type} (m : M world B) k b ts1 ts2 :
    m w = (Ret b, w') →
    process_step allowed (mkProcessState w (ts1 ++ Atomic m k :: ts2))
      (mkProcessState w' (ts1 ++ k b :: ts2))
| start_call w op ts :
    allowed op →
    process_step allowed (mkProcessState w ts) (mkProcessState w (op_thread op :: ts))
| raft_config w m ts :
    process_step allowed (mkProcessState w ts) (mkProcessState (set_configs m w) ts).

(** Calls in good surroundings: the application exists and makes state managers, types
    are not registered twice in a debug build. *)
Definition env_ok (env : app_env) : Prop :=
  ∃ create, create_state_mgr env = Some create ∧ ∀ srv_id g, is_Some (create srv_id g).

Definition op_ok (op : operation) : Prop :=
  match op with
  | OpRegister ndebug _ _ => ndebug = true
  | OpCreate env _ _ _ | OpJoin env _ _ _ | OpInvited env _ _ _ => env_ok env
  | _ => True
  end.
End thread.

Arguments thread {_ _} A.
Arguments Finished {_ _ A} _.
Arguments Atomic {_ _ A B} _ _.

(** ** Undisturbed threads *)

Section alone.
Context `{UuidOps} `{RaftParams}.
Context (cfg : service_cfg) (ops : raft_ops).
Implicit Types (w : world) (g : uuid).

Lemma alone_bind {A B : Type} (t : thread A) (f : A → thread B) w :
  alone (t ≫= f) w = (alone t ≫= λ a, alone (f a)) w.
Proof.
  revert w. induction t as [a|C m k IH]; intros w; [done|]. cbn.
  unfold mbind, M_bind. destruct (m w) as [[b|e|e] w']; [|done..]. apply (IH b w').
Qed.

Lemma alone_atomically {A : Type} (m : M world A) w : alone (atomically m) w = m w.
Proof. cbn. unfold mbind, M_bind. by destruct (m w) as [[b|e|e] w']. Qed.

(** A section, then the rest. *)
Lemma alone_section {A B : Type} (m : M world A) (f : A → thread B) w :
  alone (atomically m ≫= f) w =
  match m w with
  | (Ret a, w') => alone (f a) w'
  | (Throw e, w') => (Throw e, w')
  | (Ub e, w') => (Ub e, w')
  end.
Proof. done. Qed.

Lemma alone_join env srv_id g t w :
  alone (join_thread cfg env srv_id g t) w = joinRaftGroup cfg env srv_id g t w.
Proof.
  unfold join_thread, joinRaftGroup, join_prepare. destruct (manager_alive env); [|done]. cbn [negb].
  unfold mbind at 1. unfold thread_mbind, atomically, gets. cbn [thread_bind alone].
  unfold mbind, M_bind.
  destruct (raft_servers w !! g) as [n|] eqn:Hs; [done|]. cbn.
  unfold mbind, M_bind.
  destruct (group_init env srv_id g _ w) as [[[err ctx]|e|e] w1]; [|done..].
  destruct (decide (err ≠ code.OK)); [done|].
  destruct ctx as [c|]; [|done]. cbn.
  unfold join_publish, make_server, fresh, emplace, mbind, M_bind, gets, modify. cbn.
  destruct (raft_servers w1 !! g) as [n'|] eqn:Hs1; cbn.
  - unfold shutdown_for, mbind, M_bind, gets, modify. cbn. by destruct (raft_servers w1 !! cx_group c).
  - unfold mbind, M_bind. destruct (_data_service_enabled cfg); by cbn.
Qed.

Lemma alone_checks pred n w :
  alone (checks pred n) w = wait_loop pred (unwoken n) w.
Proof.
  revert w. induction n as [|n IH]; intros w; [apply alone_atomically|].
  cbn. unfold mbind, M_bind. cbn. destruct (pred w) as [[[]|e|e] w']; [done|apply IH|done..].
Qed.

Lemma alone_wait pred n w :
  alone (wait_thread pred n) w = wait_for pred (unwoken n) w.
Proof.
  unfold wait_thread. rewrite alone_checks. done.
Qed.

Lemma alone_caught e (answer : list effect → outcome (option cmd_result)) w :
  alone (caught_call (raft_call e answer)) w =
  match answer (trace w) with
  | Ret (Some r) => (Ret (Some r), traced [e] w)
  | Ret None => (Ub "null command result", traced [e] w)
  | Throw _ => (Ret None, traced [e] w)
  | Ub x => (Ub x, traced [e] w)
  end.
Proof.
  unfold caught_call. rewrite alone_atomically. unfold try_catch, mbind, M_bind.
  rewrite raft_call_run. by destruct (answer (trace w)) as [[r|]|x|x].
Qed.

Lemma alone_continue e answer w :
  alone (continue_thread (raft_call e answer)) w = continue_resp (raft_call e answer) w.
Proof.
  unfold continue_thread. rewrite alone_bind. unfold mbind at 1, M_bind at 1.
  rewrite alone_caught. unfold continue_resp, try_catch. unfold mbind at 2, M_bind at 1.
  rewrite raft_call_run. destruct (answer (trace w)) as [[r|]|x|x]; [|done..].
  unfold mbind at 2, M_bind at 1. cbn [deref mret M_ret].
  destruct (decide (get_result_code r ≠ code.RESULT_NOT_EXIST_YET)); [done|].
  rewrite alone_bind. unfold mbind, M_bind. rewrite alone_caught, raft_call_run.
  by destruct (answer (trace (traced [e] w))) as [[r'|]|x|x].
Qed.

Lemma alone_command g e answer w :
  alone (command_thread g (λ n, raft_call (e n) (answer n))) w =
  match raft_servers w !! g with
  | Some n => continue_resp (raft_call (e n) (answer n)) w
  | None => (Ret (Unexpected code.SERVER_NOT_FOUND), w)
  end.
Proof.
  unfold command_thread. rewrite alone_section. unfold gets.
  destruct (raft_servers w !! g); [apply alone_continue|done].
Qed.

Lemma alone_svc_leave env g w :
  alone (svc_leave_thread env g) w = svc_leave_group env g w.
Proof.
  unfold svc_leave_thread, svc_leave_group, stop_raft_server. rewrite alone_section.
  unfold mbind, M_bind, gets. destruct (raft_servers w !! g) as [n|]; [|done].
  cbn. unfold mbind, M_bind. cbn. destruct (releases_listener env); [|done].
  apply alone_atomically.
Qed.

Lemma alone_event g type my_id leader_id w :
  alone (event_thread g type my_id leader_id) w =
  (generic_raft_event_handler g type my_id leader_id;; mret (Value tt)) w.
Proof.
  unfold event_thread. destruct type; try done. cbn.
  unfold exit_group, lookup_state_manager, mbind, M_bind, gets. cbn.
  by destruct (default None (state_managers w !! g)).
Qed.

(** A tail that only shapes the result. *)
Lemma alone_bind_run {A B : Type} (t : thread A) (f : A → thread B) w o w' :
  alone t w = (o, w') →
  alone (t ≫= f) w =
  match o with
  | Ret a => alone (f a) w'
  | Throw e => (Throw e, w')
  | Ub e => (Ub e, w')
  end.
Proof. intros Hrun. rewrite alone_bind. unfold mbind, M_bind. rewrite Hrun. by destruct o. Qed.

Lemma alone_create env g t n w :
  alone (create_group_thread cfg env g t n) w = op_call cfg ops (OpCreate env g t n) w.
Proof.
  unfold create_group_thread. rewrite alone_section. unfold modify.
  set (w1 := set_leader _ w).
  destruct (joinRaftGroup cfg env (_srv_id cfg) g t w1) as [o w2] eqn:Hj.
  rewrite (alone_bind_run _ _ _ o w2) by by rewrite alone_join.
  assert (create_group cfg env g t w =
          match o with
          | Ret err => (Ret (if decide (err ≠ code.OK) then Immediate (Unexpected err) else Deferred), w2)
          | Throw e => (Throw e, w2)
          | Ub e => (Ub e, w2)
          end) as Hc.
  { unfold create_group. rewrite (run_bind _ _ _ tt w1) by done.
    rewrite (bind_run _ _ _ _ _ Hj). by destruct o. }
  cbn [op_call]. destruct o as [err|e|e]; rewrite (bind_run _ _ _ _ _ Hc); [|done..].
  destruct (decide (err ≠ code.OK)); [done|].
  unfold create_group_deferred. rewrite alone_bind. unfold mbind, M_bind. rewrite alone_wait.
  by destruct (wait_for _ _ w2) as [[b|e|e] w3].
Qed.

Lemma alone_join_group env g t smgr w :
  alone (join_group_thread cfg env g t smgr) w = join_group cfg env g t smgr w.
Proof.
  unfold join_group_thread, join_group. rewrite alone_section. unfold modify at 1.
  set (w1 := set_managers _ w). rewrite (run_bind _ _ _ tt w1) by done.
  destruct (joinRaftGroup cfg env (_srv_id cfg) g t w1) as [o w2] eqn:Hj.
  rewrite (alone_bind_run _ _ _ o w2), (bind_run _ _ _ _ _ Hj) by by rewrite alone_join.
  destruct o as [err|e|e]; [|done..]. by destruct (decide (err ≠ code.OK)).
Qed.

Lemma alone_leave env g w :
  alone (leave_group_thread env g) w = (leave_group env g;; mret (Value tt)) w.
Proof.
  unfold leave_group_thread. rewrite alone_section. unfold leave_group, gets.
  destruct (state_managers w !! g) as [v|] eqn:Hg.
  2:{ rewrite bool_decide_false by by intros [? ?]. unfold mbind, M_bind. by rewrite Hg. }
  rewrite bool_decide_true by by eexists. cbn [negb].
  destruct (svc_leave_group env g w) as [o w1] eqn:Hl.
  rewrite (alone_bind_run _ _ _ o w1) by by rewrite alone_svc_leave.
  destruct o as [[]|e|e]; [rewrite alone_section|..]; unfold mbind, M_bind; rewrite Hg; by rewrite Hl.
Qed.

Lemma alone_add_member g c n w :
  alone (add_member_thread ops g c n) w = add_member_config ops g c (unwoken n) w.
Proof.
  unfold add_member_thread, add_member_config.
  destruct (svc_add_member ops g c w) as [o w1] eqn:Ha. rewrite (bind_run _ _ _ _ _ Ha).
  rewrite (alone_bind_run _ _ _ o w1).
  2:{ unfold server_add_srv. rewrite alone_command. rewrite <-Ha.
      unfold svc_add_member, mbind, M_bind, gets. by destruct (raft_servers w !! g). }
  destruct o as [[u|e]|e|e]; [|done..]. rewrite alone_bind. unfold mbind, M_bind.
  rewrite alone_wait. by destruct (wait_for _ _ w1) as [[b|e|e] w2].
Qed.

Lemma alone_become_leader g n w :
  alone (become_leader_thread ops g n) w = op_call cfg ops (OpBecomeLeader g n) w.
Proof.
  destruct (leader_flag_run g w) as (b & w1 & Hb & _).
  unfold become_leader_thread. rewrite alone_section, Hb. cbn [op_call].
  rewrite (run_bind _ _ _ (if b then Immediate (Value tt) else Deferred) w1).
  2:{ unfold become_leader. by rewrite (run_bind _ _ _ _ _ Hb). }
  destruct b; [done|]. unfold become_leader_deferred.
  destruct (svc_become_leader ops g w1) as [o w2] eqn:Hr. rewrite (bind_run _ _ _ _ _ Hr).
  rewrite alone_section. unfold gets.
  rewrite (alone_bind_run _ _ _ o w2).
  2:{ rewrite <-Hr. unfold svc_become_leader, mbind, M_bind, gets.
      destruct (raft_servers w1 !! g); [apply alone_atomically|done]. }
  destruct o as [[]|e|e]; [|done..]. cbn [negb]. rewrite alone_bind. unfold mbind, M_bind.
  rewrite alone_wait. by destruct (wait_for _ _ w2) as [[b|e|e] w3].
Qed.

(** The two models of a call agree: undisturbed it does what [Groups] says of it as one step,
    whatever it returns, throws or crashes with. *)
Lemma alone_op op w : alone (op_thread cfg ops op) w = op_call cfg ops op w.
Proof.
  destruct op as [ndebug t params|env g t n|env g t smgr|env srv_id g t|env g|g type my_id leader_id
    |g c n|g old_id|g buf|g n]; cbn [op_thread].
  - done.
  - apply alone_create.
  - apply alone_join_group.
  - rewrite alone_bind. cbn [op_call]. unfold mbind, M_bind. by rewrite alone_join.
  - apply alone_leave.
  - apply alone_event.
  - apply alone_add_member.
  - unfold rem_member_thread, server_rem_srv. rewrite alone_command. cbn [op_call].
    unfold rem_member, svc_rem_member, mbind, M_bind, gets. by destruct (raft_servers w !! g).
  - unfold append_entries_thread, server_append_entries. rewrite alone_command. cbn [op_call].
    unfold append_entries, svc_append_entries, mbind, M_bind, gets. by destruct (raft_servers w !! g).
  - apply alone_become_leader.
Qed.
End alone.

(** ** Interference

    Rely and guarantee: a thread is safe from a world on when each of its sections, run
    in any later well-formed world, leaves a well-formed later one, and returns at all if
    it is meant to ([total]). *)

Section interference.
Context `{UuidOps} `{RaftParams}.
Context (cfg : service_cfg) (ops : raft_ops) (total : bool).
Implicit Types (w : world) (g : uuid) (c : raft_context).

(** A section as a step of the process. *)
Definition section_post {A : Type} (w : world) (r : outcome A * world) (Q : A → world → Prop) : Prop :=
  match r with
  | (Ret a, w') => world_wf w' ∧ world_le w w' ∧ Q a w'
  | _ => total = false
  end.

Fixpoint safe {A : Type} (w0 : world) (t : thread A) (Q : A → world → Prop) : Prop :=
  match t with
  | Finished a => Q a w0
  | Atomic m k =>
      ∀ w, world_wf w → world_le w0 w → section_post w (m w) (λ b w', safe w' (k b) Q)
  end.

(** Sections of which only the invariant is needed. *)
Definition runs {A : Type} (m : M world A) : Prop :=
  ∀ w, world_wf w → section_post w (m w) (λ _ _, True).

Lemma section_post_mono {A : Type} w (r : outcome A * world) (Q Q' : A → world → Prop) :
  section_post w r Q → (∀ a w', Q a w' → Q' a w') → section_post w r Q'.
Proof. destruct r as [[a|e|e] w']; [|done..]. intros (? & ? & ?) HQ. split_and!; auto. Qed.

(** Calls that keep worlds well-formed and return. *)
Lemma keeps_runs {A : Type} (m : M world A) :
  keeps m → (total = true → ∀ w, world_wf w → ∃ a w', m w = (Ret a, w')) → runs m.
Proof.
  intros Hk Hret w Hwf. pose proof (Hk w Hwf) as Hm. unfold wp in Hm.
  destruct (m w) as [[a|e|e] w'] eqn:Hrun; simpl in *; [by destruct Hm|..];
    destruct total; try done; destruct (Hret eq_refl w Hwf) as (? & ? & ?); by rewrite Hrun in *.
Qed.

Lemma safe_le {A : Type} (t : thread A) w w' :
  world_le w w' → safe w t (λ _ _, True) → safe w' t (λ _ _, True).
Proof.
  intros Hle. destruct t as [a|B m k]; [done|].
  intros Ht w1 Hwf Hle1. apply Ht; [done|]. by etrans.
Qed.

Lemma safe_bind {A B : Type} (t : thread A) (f : A → thread B) Q R w :
  safe w t Q → (∀ a w', Q a w' → safe w' (f a) R) → safe w (t ≫= f) R.
Proof.
  intros Ht Hf. revert w Ht. induction t as [a|C m k IH]; intros w Ht; [by apply Hf|].
  intros w1 Hwf Hle. eapply section_post_mono; [by apply Ht|]. intros b w2. by apply IH.
Qed.

(** A safe thread that is left to itself returns. *)
Lemma safe_alone {A : Type} (t : thread A) Q w :
  total = true → world_wf w → safe w t Q → ∃ a w', alone t w = (Ret a, w').
Proof.
  intros Htot. revert w. induction t as [a|B m k IH]; intros w Hwf Ht; [by eexists _, _|].
  specialize (Ht w Hwf (reflexivity w)). simpl. unfold mbind, M_bind.
  destruct (m w) as [[b|e|e] w1]; simpl in Ht; [|congruence..].
  destruct Ht as (Hwf1 & _ & Hk). by apply (IH b w1).
Qed.

Lemma safe_runs {A : Type} (m : M world A) w0 : runs m → safe w0 (atomically m) (λ _ _, True).
Proof. intros Hk w Hwf _. by apply Hk. Qed.

Lemma safe_then {A B : Type} (m : M world A) (f : A → thread B) R w0 :
  runs m → (∀ a w, safe w (f a) R) → safe w0 (atomically m ≫= f) R.
Proof. intros Hk Hf. eapply safe_bind; [by apply safe_runs|]. auto. Qed.

Lemma runs_gets {A : Type} (f : world → A) : runs (gets f).
Proof. apply keeps_runs; [auto with mesg|]. intros _ w _. by eexists _, _. Qed.

Lemma runs_emit e : runs (emit e).
Proof. apply keeps_runs; [auto with mesg|]. intros _ w _. by eexists _, _. Qed.

Lemma runs_set_leader f : runs (modify (λ w, set_leader (f w) w)).
Proof. apply keeps_runs; [auto with mesg|]. intros _ w _. by eexists _, _. Qed.

Lemma runs_delete_manager g : runs (modify (λ w, set_managers (delete g (state_managers w)) w)).
Proof. apply keeps_runs; [apply keeps_delete_manager|]. intros _ w _. by eexists _, _. Qed.

Lemma runs_shutdown_for g : runs (shutdown_for g).
Proof.
  apply keeps_runs; [apply keeps_shutdown_for|]. intros _ w _.
  unfold shutdown_for, mbind, M_bind, gets. destruct (raft_servers w !! g); by eexists _, _.
Qed.

Lemma runs_leader_flag g : runs (leader_flag g).
Proof.
  apply keeps_runs.
  - unfold leader_flag. apply keeps_bind; [auto with mesg|]. intros m.
    destruct (index_or false g m) as [b m']. apply keeps_bind; [|auto with mesg].
    apply (keeps_set_leader (λ _, m')).
  - intros _ w _. destruct (leader_flag_run g w) as (b & w' & -> & _). by eexists _, _.
Qed.

Lemma runs_in_config g e : runs (in_config g e).
Proof.
  apply keeps_runs; [unfold in_config, svc_get_srv_config_all, server_get_srv_config_all; auto 8 with mesg|].
  intros _ w _. destruct (in_config_observes g e w) as (b & w' & -> & _). by eexists _, _.
Qed.

Lemma runs_traced {A : Type} (m : M world A) :
  (∀ w, ∃ o es, m w = (o, traced es w) ∧ match o with Ret _ => True | _ => total = false end) → runs m.
Proof.
  intros Hm w Hwf. destruct (Hm w) as (o & es & -> & Ho). destruct o; [|done..].
  assert (world_le w (traced es w)) by by eapply world_le_trace.
  split_and!; [|done..]. by apply (world_wf_update w); simpl; auto.
Qed.

Lemma runs_caught e answer :
  (total = true → answers answer is_Some) →
  runs (try_catch (r ← raft_call e answer; r ← deref "null command result" r; mret (Some r))
          (λ _, mret (A := option cmd_result) None)).
Proof.
  intros Hans. apply runs_traced. intros w. unfold try_catch, mbind, M_bind. rewrite raft_call_run.
  destruct total; [pose proof (Hans eq_refl (trace w)) as Ha|clear Hans];
    destruct (answer (trace w)) as [[r|]|x|x]; eexists _, [e]; (split; [done|]); try done; by destruct Ha.
Qed.

Lemma runs_request e (answer : list effect → outcome bool) :
  (total = true → answers answer (λ _, True)) →
  runs (try_catch (raft_call e answer) (λ _, mret false)).
Proof.
  intros Hans. apply runs_traced. intros w. unfold try_catch. rewrite raft_call_run.
  destruct total; [pose proof (Hans eq_refl (trace w)) as Ha|clear Hans];
    destruct (answer (trace w)); eexists _, [e]; by split.
Qed.

Lemma safe_checks pred n w : runs pred → safe w (checks pred n) (λ _ _, True).
Proof.
  intros Hp. revert w. induction n as [|n IH]; intros w; [by apply safe_runs|].
  apply safe_then; [done|]. intros [] w'; [done|apply IH].
Qed.

(** The context a thread has prepared stays good while it waits for its turn. *)
Definition prepared g (r : Z * option raft_context) w : Prop :=
  r.1 = code.OK → ∃ c, r.2 = Some c ∧ cx_group c = g ∧ context_ok w c.

Lemma group_init_prepares env srv_id g t w :
  world_wf w → (total = true → env_ok env) →
  section_post w (group_init env srv_id g t w) (prepared g).
Proof.
  intros Hwf Henv. destruct (state_mgr_types w !! t) as [params|] eqn:Ht.
  2:{ by rewrite (group_init_unknown env srv_id g t w Ht). }
  destruct (resolve env srv_id g w) as [sm|] eqn:Hsm.
  - rewrite (group_init_run env srv_id g t params sm w Ht Hsm).
    destruct (init_world_wf srv_id g sm t params (next_id w) w Hwf Ht) as (? & ? & ?).
    split_and!; [done..|]. intros _. by eexists.
  - destruct (group_init_crash env srv_id g t params w Ht Hsm) as (e & He).
    destruct (group_init env srv_id g t w) as [o w']. simpl in He. subst o. simpl.
    destruct total; [exfalso|done]. destruct (Henv eq_refl) as (create & Hc & Hsome).
    unfold resolve in Hsm. destruct (state_managers w !! g) as [v|] eqn:Hg.
    + subst v. by destruct (ww_managers w Hwf g None Hg).
    + rewrite Hc in Hsm. simpl in Hsm. destruct (Hsome srv_id g). congruence.
Qed.

(** A new server, known to its thread only. *)
Lemma make_server_wf c w :
  world_wf w → context_ok w c →
  world_wf (make_server c w).2 ∧ world_le w (make_server c w).2 ∧
  contexts (make_server c w).2 !! next_id w = Some c.
Proof.
  intros Hwf Hc. assert (world_le w (make_server c w).2) as Hle.
  { split; [done..|]. intros n c' Hn. destruct (ww_contexts w Hwf n c' Hn). simpl.
    by rewrite lookup_insert_ne by lia. }
  split_and!; [|done|apply lookup_insert_eq].
  apply (world_wf_update w); simpl; auto; [lia|]. intros n c' Hn.
  destruct (decide (n = next_id w)) as [->|Hne].
  - rewrite lookup_insert_eq in Hn. injection Hn as <-. right. split; [lia|]. by eapply context_ok_le.
  - rewrite lookup_insert_ne in Hn by done. by left.
Qed.

Lemma emplace_server_wf g n c w :
  world_wf w → contexts w !! n = Some c → cx_group c = g →
  world_wf (set_servers (emplace g n (raft_servers w)).1 w) ∧
  world_le w (set_servers (emplace g n (raft_servers w)).1 w).
Proof.
  intros Hwf Hn Hg. split; [|done]. apply (world_wf_update w); simpl; auto; [done|].
  intros g' n' Hl. apply emplace_inv in Hl as [?|[-> <-]]; [by left|]. right. by exists c.
Qed.

Lemma safe_join env srv_id g t w :
  (total = true → env_ok env) → safe w (join_thread cfg env srv_id g t) (λ _ _, True).
Proof.
  intros Henv. unfold join_thread. destruct (negb (manager_alive env)); [done|].
  apply safe_then; [apply runs_gets|]. clear w. intros [n|] w; [done|].
  apply (safe_bind _ _ (prepared g)).
  { intros w1 Hwf _. by apply group_init_prepares. }
  clear w. intros [err ctx] w Hp. destruct (decide (err ≠ code.OK)) as [|Hok]; [done|].
  destruct Hp as (c & [= ->] & Hg & Hc); [simpl; by destruct (decide (err = code.OK))|].
  apply (safe_bind _ _ (λ c' w', c' = c ∧ context_ok w' c)).
  { intros w1 Hwf Hle. split_and!; try done. split; [done|]. by eapply context_ok_le. }
  clear w Hc. intros ? w [-> Hc].
  apply (safe_bind _ _ (λ n w', contexts w' !! n = Some c)).
  { intros w1 Hwf Hle. by apply make_server_wf; [|eapply context_ok_le]. }
  clear w Hc. intros n w Hn.
  apply (safe_bind _ _ (λ _ _, True)).
  { intros w1 Hwf Hle. pose proof (emplace_server_wf g n c w1 Hwf (wl_contexts _ _ Hle _ _ Hn) Hg) as He.
    destruct (emplace g n (raft_servers w1)) as [m b]. destruct He. by split_and!. }
  intros [] w1 _; [destruct (_data_service_enabled cfg); [|done]|];
    (apply safe_then; [|done]); [apply runs_emit|apply runs_shutdown_for].
Qed.

Lemma safe_svc_leave env g w : safe w (svc_leave_thread env g) (λ _ _, True).
Proof.
  apply safe_then; [apply runs_gets|]. intros [n|] w1; [|done].
  apply safe_then; [apply runs_emit|]. intros _ w2. apply safe_then; [apply runs_emit|]. intros _ w3.
  destruct (releases_listener env); [|done]. apply safe_runs, runs_shutdown_for.
Qed.

(** The last section of a leave. *)
Lemma destroy_section_run g sm w :
  state_managers w !! g = Some (Some sm) →
  (mgrs ← gets state_managers;
   match mgrs !! g with
   | Some smgr =>
       smgr ← deref "null state manager" smgr;
       emit (PermanentDestroy smgr);;
       modify (λ w, set_managers (delete g (state_managers w)) w)
   | None => mret tt
   end) w = (Ret tt, set_managers (delete g (state_managers w)) (traced [PermanentDestroy sm] w)).
Proof. intros Hg. unfold mbind, M_bind, gets. by rewrite Hg. Qed.

Lemma safe_leave env g w : safe w (leave_group_thread env g) (λ _ _, True).
Proof.
  apply safe_then; [apply runs_gets|]. intros [] w1; [|done].
  eapply safe_bind; [apply safe_svc_leave|]. intros _ w2 _. apply safe_then; [|done].
  apply keeps_runs; [pose proof keeps_delete_manager; auto 8 with mesg|]. intros _ w3 Hwf.
  destruct (state_managers w3 !! g) as [v|] eqn:Hg.
  - destruct (ww_managers w3 Hwf g v Hg) as [sm ->]. rewrite (destroy_section_run g sm w3 Hg). by eexists _, _.
  - unfold mbind, M_bind, gets. rewrite Hg. by eexists _, _.
Qed.

Lemma safe_continue e answer w :
  (total = true → answers answer is_Some) →
  safe w (continue_thread (raft_call e answer)) (λ _ _, True).
Proof.
  intros Hans. apply safe_then; [by apply runs_caught|]. intros [r|] w1; [|done].
  destruct (decide (get_result_code r ≠ code.RESULT_NOT_EXIST_YET)); [done|].
  by apply safe_then; [apply runs_caught|].
Qed.

Lemma safe_command g e answer w :
  (∀ n, total = true → answers (answer n) is_Some) →
  safe w (command_thread g (λ n, raft_call (e n) (answer n))) (λ _ _, True).
Proof.
  intros Hans. apply safe_then; [apply runs_gets|]. intros [n|] w1; [apply safe_continue, Hans|done].
Qed.

(** The result of a wait only shapes the result of the thread. *)
Lemma safe_wait_then pred n (f : bool → NullResult) w :
  runs pred → safe w (b ← wait_thread pred n; mret (f b)) (λ _ _, True).
Proof. intros Hp. eapply safe_bind; [by apply safe_checks|done]. Qed.

Lemma safe_event g type my_id leader_id w :
  safe w (event_thread g type my_id leader_id) (λ _ _, True).
Proof.
  eapply (safe_bind _ _ (λ _ _, True)); [|done].
  destruct type; try done; try apply safe_runs, runs_emit.
  - apply safe_then; [apply runs_gets|]. intros [sm|] w1; [|done]. apply safe_runs, runs_emit.
  - apply safe_runs, runs_set_leader.
  - apply safe_then; [apply runs_set_leader|]. intros _ w1. apply safe_runs, runs_emit.
  - apply safe_runs, runs_set_leader.
Qed.

Lemma safe_op op w :
  (total = true → op_ok op ∧ ops_ok ops) → safe w (op_thread cfg ops op) (λ _ _, True).
Proof.
  intros Hok. assert (total = true → ops_ok ops) as Hops by tauto.
  destruct op as [ndebug t params|env g t n|env g t smgr|env srv_id g t|env g|g type my_id leader_id
    |g c n|g old_id|g buf|g n]; cbn [op_thread].
  - apply safe_then; [|done]. apply keeps_runs; [apply keeps_register|]. intros Ht w1 _.
    assert (ndebug = true) as -> by apply (Hok Ht). unfold register_mgr_type, mbind, M_bind, gets.
    destruct (emplace t params (state_mgr_types w1)). by eexists _, _.
  - apply safe_then; [apply runs_set_leader|]. intros _ w1. eapply safe_bind; [apply safe_join; intros Ht; exact (proj1 (Hok Ht))|].
    intros err w2 _. destruct (decide (err ≠ code.OK)); [done|].
    apply (safe_wait_then _ _ (λ b, if b then Value tt else Unexpected code.CANCELLED)), runs_leader_flag.
  - apply safe_then.
    { apply keeps_runs; [|intros _ w1 _; by eexists _, _]. apply keeps_set_managers.
      intros w' g' v Hv. apply emplace_inv in Hv as [?|[_ <-]]; eauto. }
    intros _ w1. eapply safe_bind; [apply safe_join; intros Ht; exact (proj1 (Hok Ht))|]. intros err w2 _.
    destruct (decide (err ≠ code.OK)); [|done]. by apply safe_then; [apply runs_delete_manager|].
  - eapply safe_bind; [apply safe_join; intros Ht; exact (proj1 (Hok Ht))|done].
  - apply safe_leave.
  - apply safe_event.
  - eapply safe_bind.
    { apply (safe_command g (λ n, AddSrv n c) (λ n h, add_srv ops h n c)). intros n' Ht. by apply Hops. }
    intros [u|e] w1 _; [|done].
    apply (safe_wait_then _ _ (λ b, if b then Value tt else Unexpected code.CANCELLED)), runs_in_config.
  - apply (safe_command g (λ n, RemoveSrv n _) (λ n h, remove_srv ops h n _)). intros n' Ht. by apply Hops.
  - apply (safe_command g (λ n, AppendLogs n buf) (λ n h, raft_append_entries ops h n buf)).
    intros n' Ht. by apply Hops.
  - apply safe_then; [apply runs_leader_flag|]. intros [] w1; [done|].
    apply safe_then; [apply runs_gets|]. intros it w2.
    eapply (safe_bind _ _ (λ _ _, True)).
    { destruct it as [k|]; [|done]. apply safe_runs, runs_request. intros Ht. by apply Hops. }
    intros [] w3 _; [|done].
    apply (safe_wait_then _ _ (λ b, if b then Value tt else Unexpected code.TIMEOUT)), runs_leader_flag.
Qed.

(** The state of a process while its threads run. *)
Definition process_inv (ps : process_state) : Prop :=
  world_wf (ps_world ps) ∧
  Forall (λ t, safe (ps_world ps) t (λ _ _, True)) (ps_threads ps).

Lemma safe_threads_le (ts : list (thread NullResult)) w w' :
  world_le w w' → Forall (λ t, safe w t (λ _ _, True)) ts → Forall (λ t, safe w' t (λ _ _, True)) ts.
Proof. intros Hle Hts. apply (Forall_impl _ _ _ Hts). intros t. by apply safe_le. Qed.

Context (allowed : operation → Prop).
Context (Hallowed : ∀ op, allowed op → total = true → op_ok op ∧ ops_ok ops).

Lemma process_step_inv ps ps' : process_step cfg ops allowed ps ps' → process_inv ps → process_inv ps'.
Proof.
  intros [w w' B m k b ts1 ts2 Hm|w op ts Hop|w m ts] [Hwf Hts]; cbn [ps_world ps_threads] in *.
  - rewrite Forall_app, Forall_cons in Hts. destruct Hts as (H1 & Ht & H2).
    pose proof (Ht w Hwf (reflexivity w)) as Hsec. rewrite Hm in Hsec.
    destruct Hsec as (Hwf' & Hle & Hk). split; [done|]. cbn [ps_world ps_threads].
    rewrite Forall_app, Forall_cons. split_and!; [by apply (safe_threads_le _ w)|done|by apply (safe_threads_le _ w)].
  - split; [done|]. constructor; [by apply safe_op, Hallowed|done].
  - assert (world_le w (set_configs m w)) as Hle by by apply (world_le_trace _ _ []); rewrite ?app_nil_r.
    split; [by apply (world_wf_update w); simpl; auto|]. by apply (safe_threads_le _ w).
Qed.

Lemma process_reachable_inv ps :
  rtc (process_step cfg ops allowed) (mkProcessState (sys_world initial) []) ps → process_inv ps.
Proof.
  intros Hr. assert (process_inv (mkProcessState (sys_world initial) [])) as Hinit.
  { split; [|constructor]. split; intros ? ?; cbn; rewrite lookup_empty; done. }
  revert Hinit. induction Hr as [|x y z Hs _ IH]; [done|]. intros Hi. by apply IH, (process_step_inv x).
Qed.
End interference.

Section schedules.
Context `{UuidOps} `{RaftParams}.
Context (cfg : service_cfg) (ops : raft_ops) (allowed : operation → Prop).
Implicit Types (w : world) (g : uuid).

(** One of two threads runs a section. *)
Lemma first_runs {B : Type} (m : M world B) k t w b w' ps :
  m w = (Ret b, w') →
  rtc (process_step cfg ops allowed) (mkProcessState w' [k b; t]) ps →
  rtc (process_step cfg ops allowed) (mkProcessState w [Atomic m k; t]) ps.
Proof. intros Hm. apply rtc_l. exact (run_section cfg ops allowed w w' m k b [] [t] Hm). Qed.

Lemma second_runs {B : Type} (m : M world B) k t w b w' ps :
  m w = (Ret b, w') →
  rtc (process_step cfg ops allowed) (mkProcessState w' [t; k b]) ps →
  rtc (process_step cfg ops allowed) (mkProcessState w [t; Atomic m k]) ps.
Proof. intros Hm. apply rtc_l. exact (run_section cfg ops allowed w w' m k b [t] [] Hm). Qed.

Lemma emplace_run g n w :
  raft_servers w !! g = None →
  (let '(servers, happened) := emplace g n (raft_servers w) in
   (Ret happened, set_servers servers w)) =
  (Ret true, set_servers (<[g := n]> (raft_servers w)) w).
Proof. intros Hg. by rewrite (emplace_None _ _ _ Hg). Qed.

(** The end of a join that has published its server. *)
Lemma publish_finishes (e : effect) t w :
  rtc (process_step cfg ops allowed)
    (mkProcessState w
       [c ← ((if _data_service_enabled cfg then atomically (emit e) else mret tt);; mret code.OK);
        mret (code_result c); t])
    (mkProcessState (traced (if _data_service_enabled cfg then [e] else []) w) [Finished (Value tt); t]).
Proof.
  destruct (_data_service_enabled cfg); cbn; [by eapply first_runs|].
  destruct w. unfold traced. cbn. by rewrite app_nil_r.
Qed.
End schedules.

(** ** Properties *)

Section thread_theorems.
Context `{UuidOps} `{RaftParams}.

(** C6: However the calls of all threads interleave, and wherever between their sections a
    thread is stopped: no registered state manager is null, a group is served by a server that
    was made for that group, and every server was made with the parameters registered for its
    type and with a state manager that had been made ready and given the manager.  (The state
    manager may have been destroyed since, see [leave_during_join_orphans_server].) *)
Theorem interleavings_keep_groups (cfg : service_cfg) (ops : raft_ops) (ps : process_state) :
  rtc (process_step cfg ops (λ _, True)) (mkProcessState (sys_world initial) []) ps →
  let w := ps_world ps in
  (∀ g v, state_managers w !! g = Some v → is_Some v) ∧
  (∀ g n, raft_servers w !! g = Some n → ∃ c, contexts w !! n = Some c ∧ cx_group c = g) ∧
  (∀ n c, contexts w !! n = Some c →
     state_mgr_types w !! cx_type c = Some (cx_params c) ∧
     BecomeReady (cx_smgr c) ∈ trace w ∧ SetManager (cx_smgr c) ∈ trace w).
Proof.
  intros Hr. destruct (process_reachable_inv cfg ops false (λ _, True) ltac:(done) _ Hr) as [[Hm Hs Hc] _].
  split; [done|]. split; [done|]. intros n c Hn. by apply (Hc n c Hn).
Qed.

(** C5: No interleaving crashes: while the application is there and makes state managers, and
    NuRaft gives its commands results or throws, the next section of every thread that has not
    finished runs to its end in the state the process is in, without exception or undefined
    behaviour, and a thread that is left to itself from here returns a result. *)
Theorem interleavings_never_crash (cfg : service_cfg) (ops : raft_ops) (ps : process_state)
    (t : thread NullResult) :
  ops_ok ops →
  rtc (process_step cfg ops op_ok) (mkProcessState (sys_world initial) []) ps →
  t ∈ ps_threads ps →
  match t with
  | Finished _ => True
  | Atomic m _ => ∃ b w', m (ps_world ps) = (Ret b, w')
  end ∧ ∃ r w', alone t (ps_world ps) = (Ret r, w').
Proof.
  intros Hops Hr Ht.
  destruct (process_reachable_inv cfg ops true op_ok ltac:(done) _ Hr) as [Hwf Hsafe].
  rewrite Forall_forall in Hsafe. specialize (Hsafe t Ht). split.
  - destruct t as [r|B m k]; [done|]. specialize (Hsafe _ Hwf (reflexivity _)).
    destruct (m (ps_world ps)) as [[b|e|e] w']; [by eexists _, _|done..].
  - by eapply safe_alone.
Qed.

(** Leaving a group while an invitation to it is being handled orphans the new server: the
    leave finds no server yet, destroys the state manager and forgets it, and then the
    join publishes a server that works with it.  Both report success, and the group can
    no longer be left. *)
Theorem leave_during_join_orphans_server (cfg : service_cfg) (ops : raft_ops) (env : app_env)
    (srv_id : Z) (g : uuid) (group_type : string) (w : world) (sm : N) (params : raft_params) :
  manager_alive env = true → raft_servers w !! g = None →
  state_mgr_types w !! join_type cfg group_type = Some params →
  resolve env srv_id g w = Some sm →
  ∃ w' n c,
    rtc (process_step cfg ops op_ok)
      (mkProcessState w [op_thread cfg ops (OpInvited env srv_id g group_type);
                         op_thread cfg ops (OpLeave env g)])
      (mkProcessState w' [Finished (Value tt); Finished (Value tt)]) ∧
    raft_servers w' !! g = Some n ∧ contexts w' !! n = Some c ∧ cx_smgr c = sm ∧
    PermanentDestroy sm ∈ trace w' ∧ state_managers w' !! g = None ∧
    leave_group env g w' = (Ret tt, w').
Proof.
  intros Ha Hs Ht Hsm.
  cbn [op_thread]. unfold join_thread. rewrite Ha. cbn.
  do 3 eexists. split.
  { eapply first_runs; [done|]. cbn. rewrite Hs.
    eapply first_runs; [by apply (group_init_run env srv_id g (join_type cfg group_type) params sm)|].
    cbn.
    rewrite decide_False by auto.
    eapply second_runs; [done|]. cbn. rewrite lookup_insert_eq, bool_decide_true by done. cbn.
    eapply second_runs; [done|]. cbn. rewrite Hs. cbn.
    eapply second_runs; [apply (destroy_section_run g sm); apply lookup_insert_eq|].
    do 2 (eapply first_runs; [done|]; cbn).
    eapply first_runs; [apply emplace_run; exact Hs|].
    apply (publish_finishes cfg ops op_ok (MakeReplCtx sm (next_id w + 1) (next_id w))). }
  cbn [traced raft_servers contexts state_managers trace set_servers].
  split; [apply lookup_insert_eq|]. split; [apply lookup_insert_eq|]. split; [done|].
  split; [cbn; rewrite !elem_of_app, list_elem_of_singleton; tauto|].
  split; [apply lookup_delete_eq|].
  unfold leave_group, mbind, M_bind, gets. cbn. by rewrite lookup_delete_eq.
Qed.
End thread_theorems.

(** ** Witnesses *)

Import Demo GroupsDemo.

Module ThreadsDemo.
(** A thread has registered the default type, another has an invitation to the group [U1]
    before it. *)
Definition invited : process_state :=
  mkProcessState typed_world
    [op_thread demo_service demo_ops (OpInvited demo_app 7 U1 "default"); Finished (Value tt)].

Lemma invited_reachable (allowed : operation → Prop) :
  allowed (OpRegister true "default" 5) → allowed (OpInvited demo_app 7 U1 "default") →
  rtc (process_step demo_service demo_ops allowed) (mkProcessState (sys_world initial) []) invited.
Proof.
  intros Hr Hi.
  eapply rtc_l; [by apply (start_call demo_service demo_ops allowed _ (OpRegister true "default" 5))|].
  eapply rtc_l; [by apply (run_section demo_service demo_ops allowed _ typed_world _ _ tt [] [])|].
  apply rtc_once. by apply (start_call demo_service demo_ops allowed typed_world).
Qed.

Lemma demo_ops_ok : ops_ok demo_ops.
Proof. repeat split; intros; intros h; cbn; by try eexists. Qed.

Lemma demo_app_ok : env_ok demo_app.
Proof. by eexists. Qed.

(** The invitation has been handled, and a leave of the group is under way: it has stopped the
    server, which is still in the map. *)
Definition served_world : world := (alone (join_thread demo_service demo_app 7 U1 "default") typed_world).2.

Definition leaving : process_state :=
  mkProcessState (traced [StopServer 1] served_world)
    [atomically (emit (ShutdownServer 1));;
     atomically (msg_group_listner_destroy true U1);;
     atomically
       (mgrs ← gets state_managers;
        match mgrs !! (U1 : uuid) with
        | Some smgr =>
            smgr ← deref "null state manager" smgr;
            emit (PermanentDestroy smgr);;
            modify (λ w, set_managers (delete (U1 : uuid) (state_managers w)) w)
        | None => mret tt
        end);;
     mret (Value tt);
     Finished (Value tt); Finished (Value tt)].

Lemma leaving_reachable (allowed : operation → Prop) :
  allowed (OpRegister true "default" 5) → allowed (OpInvited demo_app 7 U1 "default") →
  allowed (OpLeave demo_app U1) →
  rtc (process_step demo_service demo_ops allowed) (mkProcessState (sys_world initial) []) leaving.
Proof.
  intros Hr Hi Hl. etrans; [by apply invited_reachable|].
  do 6 (eapply rtc_l; [eapply (run_section _ _ _ _ _ _ _ _ [] [Finished (Value tt)]); by vm_compute|cbn]).
  eapply rtc_l; [by apply (start_call demo_service demo_ops allowed _ (OpLeave demo_app U1))|].
  do 3 (eapply rtc_l; [eapply (run_section _ _ _ _ _ _ _ _ [] [Finished _; Finished _]); by vm_compute|cbn]).
  apply rtc_refl.
Qed.

Lemma interleavings_keep_groups_witness :
  raft_servers (ps_world leaving) !! (U1 : uuid) = Some 1%N ∧
  ∃ c, contexts (ps_world leaving) !! 1%N = Some c ∧ cx_group c = U1 ∧ cx_params c = 5 ∧
       BecomeReady (cx_smgr c) ∈ trace (ps_world leaving).
Proof.
  split; [by vm_compute|].
  destruct (interleavings_keep_groups (H := demo_uuid_ops) demo_service demo_ops leaving)
    as (_ & Hs & Hc); [by apply leaving_reachable|].
  destruct (Hs U1 1%N) as (c & Hn & Hg); [by vm_compute|]. exists c. split; [done|]. split; [done|].
  destruct (Hc 1%N c Hn) as (_ & Hb & _). split; [|done]. vm_compute in Hn. by injection Hn as <-.
Defined.

Lemma interleavings_never_crash_witness :
  ∃ t, t ∈ ps_threads leaving ∧ (∀ r, t ≠ Finished r) ∧
       ∃ r w', alone t (ps_world leaving) = (Ret r, w').
Proof.
  eexists. split; [by left|]. split; [done|].
  refine (proj2 (interleavings_never_crash (H := demo_uuid_ops) demo_service demo_ops leaving _ demo_ops_ok _ _)).
  - by apply leaving_reachable; [|apply demo_app_ok|].
  - by left.
Defined.

Lemma leave_during_join_orphans_server_witness :
  ∃ w' n, raft_servers w' !! (U1 : uuid) = Some n ∧ PermanentDestroy 100 ∈ trace w' ∧
          state_managers w' !! (U1 : uuid) = None ∧ leave_group demo_app U1 w' = (Ret tt, w').
Proof.
  destruct (leave_during_join_orphans_server (H := demo_uuid_ops) demo_service demo_ops demo_app 7 U1
              "default" typed_world 100 5) as (w' & n & c & _ & Hs & _ & _ & Hd & Hm & Hl);
    [by vm_compute..|]. by exists w', n.
Defined.
End ThreadsDemo.
