(* ===== verification/Waiters.v ===== *)
(** * Waiting for the cluster

    [_manager_lock] and [_config_change] of [ManagerImpl] ([src/lib/manager_impl.cpp]): the
    calls that wait for leadership or membership ([create_group], [become_leader],
    [add_member]) and the handler of RAFT events that wakes them, with every acquisition
    and release of the lock, the moment between the check of a condition and the sleep,
    notifications, spurious wake-ups and timeouts. *)

From stdpp Require Import base gmap strings list numbers relations.
From S2P Require Import Prelude Types Groups.

Section waiters.
Context `{UuidOps} `{RaftParams}.

(** ** Threads *)

(** What a call waits for: [_is_leader[g_id]], or an endpoint in the configuration. *)
Inductive condition :=
| Leads (g : uuid)
| Member (g : uuid) (endpoint : string).

Definition condition_check (c : condition) : M world bool :=
  match c with
  | Leads g => leader_flag g
  | Member g endpoint => in_config g endpoint
  end.

(** A thread in [wait_for(lk, timeout, pred)]: it acquires the lock, for the first time,
    after a wake-up, or after its time is over; it checks the condition with the lock; it
    is about to sleep, still with the lock; it sleeps; it has its answer. *)
Inductive wait_phase :=
| Acquires (expired : bool)
| ChecksCondition (expired : bool)
| FallsAsleep
| Sleeps
| Answered (b : bool).

(** A thread in [generic_raft_event_handler]: before the lock, with it, after it, before
    [notify_all()], and at its end. *)
Inductive event_phase := Called | Locked | Unlocked | Returned.

Inductive cv_thread :=
| Waiter (c : condition) (ph : wait_phase)
| Handler (g : uuid) (type : cb_type) (my_id leader_id : Z) (ph : event_phase).

Record cv_state := mkCvState {
  cv_owner : option nat;
  cv_world : world;
  cv_threads : list cv_thread;
}.

(** ** The event handler *)

(** Whether an event is handled with the lock, and whether it ends in a notification. *)
Definition takes_lock (type : cb_type) : bool :=
  match type with
  | RemovedFromCluster | JoinedCluster | BecomeLeader | BecomeFollower => true
  | _ => false
  end.

Definition notifies (type : cb_type) : bool :=
  match type with NewConfig | BecomeLeader => true | _ => false end.

(** What happens with the lock. *)
Definition locked_section (g : uuid) (type : cb_type) (my_id leader_id : Z) : M world unit :=
  match type with
  | JoinedCluster => assign_leader g (bool_decide (leader_id = my_id))
  | BecomeLeader => assign_leader g true
  | BecomeFollower => assign_leader g false
  | _ => mret tt
  end.

(** [notify_all()] *)
Definition wake (t : cv_thread) : cv_thread :=
  match t with
  | Waiter c Sleeps => Waiter c (Acquires false)
  | t => t
  end.

(** ** Steps *)

(** [_is_leader[g]] *)
Definition flag (w : world) (g : uuid) : bool := default false (is_leader w !! g).

(** What thread [i] becomes. *)
Definition become (i : nat) (t : cv_thread) (s : cv_state) : list cv_thread :=
  <[i := t]> (cv_threads s).

(** What the threads do by themselves. *)
Inductive cv_step (s : cv_state) : cv_state → Prop :=
| wait_acquires i c expired :
    cv_threads s !! i = Some (Waiter c (Acquires expired)) → cv_owner s = None →
    cv_step s (mkCvState (Some i) (cv_world s) (become i (Waiter c (ChecksCondition expired)) s))
| wait_holds i c expired w' :
    cv_threads s !! i = Some (Waiter c (ChecksCondition expired)) →
    condition_check c (cv_world s) = (Ret true, w') →
    cv_step s (mkCvState None w' (become i (Waiter c (Answered true)) s))
| wait_gives_up i c w' :
    cv_threads s !! i = Some (Waiter c (ChecksCondition true)) →
    condition_check c (cv_world s) = (Ret false, w') →
    cv_step s (mkCvState None w' (become i (Waiter c (Answered false)) s))
| wait_goes_on i c w' :
    cv_threads s !! i = Some (Waiter c (ChecksCondition false)) →
    condition_check c (cv_world s) = (Ret false, w') →
    cv_step s (mkCvState (cv_owner s) w' (become i (Waiter c FallsAsleep) s))
| wait_sleeps i c :
    cv_threads s !! i = Some (Waiter c FallsAsleep) →
    cv_step s (mkCvState None (cv_world s) (become i (Waiter c Sleeps) s))
| event_locks i g type my_id leader_id :
    cv_threads s !! i = Some (Handler g type my_id leader_id Called) →
    takes_lock type = true → cv_owner s = None →
    cv_step s (mkCvState (Some i) (cv_world s) (become i (Handler g type my_id leader_id Locked) s))
| event_unlocks i g type my_id leader_id w' :
    cv_threads s !! i = Some (Handler g type my_id leader_id Locked) →
    locked_section g type my_id leader_id (cv_world s) = (Ret tt, w') →
    cv_step s (mkCvState None w' (become i (Handler g type my_id leader_id Unlocked) s))
| event_skips_lock i g type my_id leader_id :
    cv_threads s !! i = Some (Handler g type my_id leader_id Called) → takes_lock type = false →
    cv_step s (mkCvState (cv_owner s) (cv_world s) (become i (Handler g type my_id leader_id Unlocked) s))
| event_returns i g type my_id leader_id :
    cv_threads s !! i = Some (Handler g type my_id leader_id Unlocked) →
    let ts := become i (Handler g type my_id leader_id Returned) s in
    cv_step s (mkCvState (cv_owner s) (cv_world s) (if notifies type then wake <$> ts else ts)).

(** What else happens: calls and events arrive; a sleeping thread wakes up, because its time
    is over or for no reason; other calls and NuRaft change the maps, but no leadership
    ([create_group] adds flags that are [false]). *)
Inductive cv_arrival (allowed : cv_thread → Prop) (s : cv_state) : cv_state → Prop :=
| wait_arrives c :
    allowed (Waiter c (Acquires false)) →
    cv_arrival allowed s
      (mkCvState (cv_owner s) (cv_world s) (cv_threads s ++ [Waiter c (Acquires false)]))
| event_arrives g type my_id leader_id :
    allowed (Handler g type my_id leader_id Called) →
    cv_arrival allowed s
      (mkCvState (cv_owner s) (cv_world s) (cv_threads s ++ [Handler g type my_id leader_id Called]))
| wait_wakes i c expired :
    cv_threads s !! i = Some (Waiter c Sleeps) →
    cv_arrival allowed s
      (mkCvState (cv_owner s) (cv_world s) (become i (Waiter c (Acquires expired)) s))
| world_changes w' :
    (∀ g, flag w' g = flag (cv_world s) g) →
    cv_arrival allowed s (mkCvState (cv_owner s) w' (cv_threads s)).

Definition cv_any (allowed : cv_thread → Prop) (s s' : cv_state) : Prop :=
  cv_step s s' ∨ cv_arrival allowed s s'.

Definition cv_initial (w : world) : cv_state := mkCvState None w [].

(** A thread that has the lock. *)
Definition has_lock (t : cv_thread) : bool :=
  match t with
  | Waiter _ (ChecksCondition _) | Waiter _ FallsAsleep | Handler _ _ _ _ Locked => true
  | _ => false
  end.

(** A wait whose time is not over, and that has not been given up. *)
Definition patient (ph : wait_phase) : bool :=
  match ph with Acquires true | ChecksCondition true | Answered false => false | _ => true end.

(** An event of group [g] whose locked section is still to come. *)
Definition pending (g : uuid) (type : cb_type) (t : cv_thread) : Prop :=
  match t with Handler g' type' _ _ (Called | Locked) => g' = g ∧ type' = type | _ => False end.

(** The process leads [g], or is about to: its election has been reported, and no event that
    would end its leadership is still to be handled. *)
Definition leads_soon (g : uuid) (s : cv_state) : Prop :=
  (flag (cv_world s) g = true ∨ Exists (pending g BecomeLeader) (cv_threads s)) ∧
  Forall (λ t, ¬ pending g BecomeFollower t ∧ ¬ pending g JoinedCluster t) (cv_threads s).

(** Not a process that joins a cluster as its leader. *)
Definition no_leading_joiner (t : cv_thread) : Prop :=
  match t with
  | Handler _ JoinedCluster my_id leader_id _ => leader_id ≠ my_id
  | _ => True
  end.
End waiters.

(** ** Lemmas *)

Section waiters_lemmas.
Context `{UuidOps} `{RaftParams}.
Implicit Types (s : cv_state) (t : cv_thread) (w : world) (g : uuid).

(** The phases of the handler are the handler of [Groups]. *)
Lemma event_phases_agree g type my_id leader_id :
  type ≠ RemovedFromCluster →
  ∀ w, generic_raft_event_handler g type my_id leader_id w =
       (locked_section g type my_id leader_id;;
        if notifies type then emit NotifyAll else mret tt) w.
Proof. by destruct type. Qed.

Lemma condition_check_run c w :
  ∃ b w', condition_check c w = (Ret b, w') ∧ (∀ g, flag w' g = flag w g) ∧
          (∀ g, c = Leads g → b = flag w g).
Proof.
  destruct c as [g|g endpoint]; cbn [condition_check].
  - unfold leader_flag, index_or, flag, mbind, M_bind, gets, modify.
    destruct (is_leader w !! g) as [b|] eqn:Hg; cbn; eexists _, _; split; try done.
    + split; [done|]. intros g' [= <-]. by rewrite Hg.
    + split; [|intros g' [= <-]; by rewrite Hg]. intros g'. cbn. destruct (decide (g = g')) as [<-|Hne].
      * by rewrite lookup_insert_eq, Hg.
      * by rewrite lookup_insert_ne.
  - unfold in_config, svc_get_srv_config_all, mbind, M_bind, gets. simpl.
    by destruct (raft_servers w !! g); eexists _, w.
Qed.

Lemma checked_flag c w b w' :
  condition_check c w = (Ret b, w') →
  (∀ g, flag w' g = flag w g) ∧ (∀ g, c = Leads g → b = flag w g).
Proof.
  intros Hc. destruct (condition_check_run c w) as (b' & w'' & Hc' & Hf & Hb).
  rewrite Hc in Hc'. by injection Hc' as -> ->.
Qed.

(** Who has the lock. *)
Record lock_inv s : Prop := {
  li_owner : ∀ i t, cv_threads s !! i = Some t → has_lock t = true ↔ cv_owner s = Some i;
  li_thread : ∀ i, cv_owner s = Some i → is_Some (cv_threads s !! i);
}.

Lemma lock_inv_become s i t t' o' w' :
  lock_inv s → cv_threads s !! i = Some t →
  o' = (if has_lock t' then Some i else if has_lock t then None else cv_owner s) →
  (has_lock t' = true → has_lock t = true ∨ cv_owner s = None) →
  lock_inv (mkCvState o' w' (become i t' s)).
Proof.
  intros [Ho Ht] Hi -> Hfree. pose proof (Ho i t Hi) as Hit. unfold become. split; cbn.
  - intros j u Hj. destruct (decide (i = j)) as [<-|Hne].
    + rewrite list_lookup_insert_eq in Hj by by apply lookup_lt_Some in Hi. injection Hj as <-.
      destruct (has_lock t'), (has_lock t); naive_solver.
    + rewrite list_lookup_insert_ne in Hj by done. pose proof (Ho j u Hj).
      destruct (has_lock t') eqn:E1, (has_lock t) eqn:E2; naive_solver.
  - intros j Hj. rewrite <- not_eq_None_Some, eq_None_not_Some. intros Hn. apply Hn.
    apply lookup_lt_is_Some. rewrite length_insert. apply lookup_lt_is_Some.
    destruct (has_lock t'); [by simplify_eq; eexists|]. destruct (has_lock t); [done|]. by apply Ht.
Qed.

Lemma lock_inv_wake o w ts : lock_inv (mkCvState o w ts) → lock_inv (mkCvState o w (wake <$> ts)).
Proof.
  intros [Ho Ht]. cbn in *. split; cbn.
  - intros i t Hi. rewrite list_lookup_fmap in Hi. destruct (ts !! i) as [u|] eqn:Hu; [|done].
    injection Hi as <-. rewrite <- (Ho i u Hu). by destruct u as [c []|].
  - intros i Hi. rewrite list_lookup_fmap. destruct (Ht i Hi) as [u ->]. by eexists.
Qed.

Lemma lock_inv_arrives o w ts t :
  has_lock t = false → lock_inv (mkCvState o w ts) → lock_inv (mkCvState o w (ts ++ [t])).
Proof.
  intros Hf [Ho Ht]. cbn in *. split; cbn.
  - intros i u Hi. apply lookup_app_Some in Hi as [Hi|[Hlen Hi]]; [by apply Ho|].
    apply list_lookup_singleton_Some in Hi as [Heq <-]. rewrite Hf. split; [done|].
    intros Hw. destruct (Ht i Hw) as [v Hv%lookup_lt_Some]. lia.
  - intros i Hi. destruct (Ht i Hi) as [u Hu]. exists u. by apply lookup_app_l_Some.
Qed.

Lemma cv_step_lock s s' : cv_step s s' → lock_inv s → lock_inv s'.
Proof.
  intros Hs Hi. destruct Hs;
    try (by (eapply lock_inv_become; [done|eassumption|cbn; auto|cbn; auto])).
  - eapply lock_inv_become; [done|eassumption| |by left]. cbn.
    by eapply (li_owner _ Hi); [eassumption|].
  - assert (lock_inv (mkCvState (cv_owner s) (cv_world s) ts)) as Hts
      by by (eapply lock_inv_become; [done|eassumption|cbn; auto|cbn; auto]).
    destruct (notifies type); [by apply lock_inv_wake|done].
Qed.

Lemma cv_any_lock allowed s s' : cv_any allowed s s' → lock_inv s → lock_inv s'.
Proof.
  intros [Hs|Ha] Hi; [by eapply cv_step_lock|]. destruct s as [o w ts].
  destruct Ha; [by apply lock_inv_arrives..| |by destruct Hi; split].
  by (eapply lock_inv_become; [done|eassumption|cbn; auto|cbn; auto]).
Qed.

Lemma cv_reachable_lock allowed w s : rtc (cv_any allowed) (cv_initial w) s → lock_inv s.
Proof.
  intros Hr. apply (rtc_ind_r (λ s, lock_inv s) (cv_initial w)) in Hr; [done| |].
  - by split.
  - intros s1 s2 _ Hs Hi. by eapply cv_any_lock.
Qed.

(** ** Wake-ups *)

(** A notification that is on its way. *)
Definition notifier (ts : list cv_thread) : Prop :=
  ∃ j g type my_id leader_id,
    ts !! j = Some (Handler g type my_id leader_id Unlocked) ∧ notifies type = true.

(** Who falls asleep for leadership has none; who sleeps and has it will be woken. *)
Record wake_inv s : Prop := {
  wi_falls : ∀ i g, cv_threads s !! i = Some (Waiter (Leads g) FallsAsleep) →
             flag (cv_world s) g = false;
  wi_sleeps : ∀ i g, cv_threads s !! i = Some (Waiter (Leads g) Sleeps) →
              flag (cv_world s) g = true → notifier (cv_threads s);
  wi_joiner : ∀ i t, cv_threads s !! i = Some t → no_leading_joiner t;
}.

Lemma lookup_become s i t t' j u :
  cv_threads s !! i = Some t → become i t' s !! j = Some u →
  j = i ∧ u = t' ∨ j ≠ i ∧ cv_threads s !! j = Some u.
Proof.
  intros Hi Hj. unfold become in Hj. destruct (decide (i = j)) as [<-|Hne].
  - rewrite list_lookup_insert_eq in Hj by by apply lookup_lt_Some in Hi. left. by simplify_eq.
  - rewrite list_lookup_insert_ne in Hj by done. right. naive_solver.
Qed.

Lemma notifier_become s i t t' :
  cv_threads s !! i = Some t → notifier (cv_threads s) →
  (∀ g type my_id leader_id, t = Handler g type my_id leader_id Unlocked → notifies type = false) →
  notifier (become i t' s).
Proof.
  intros Hi (j & g & type & my & ld & Hj & Hn) Ht. exists j, g, type, my, ld. split; [|done].
  unfold become. rewrite list_lookup_insert_ne; [done|]. intros ->. rewrite Hi in Hj. injection Hj as ->.
  by rewrite (Ht g type my ld) in Hn.
Qed.

(** A thread that neither sleeps nor announces anything moves on, flags stay. *)
Lemma wake_inv_become s i t t' o' w' :
  wake_inv s → cv_threads s !! i = Some t → (∀ g, flag w' g = flag (cv_world s) g) →
  no_leading_joiner t' →
  (∀ g, t' = Waiter (Leads g) FallsAsleep → flag w' g = false) →
  (∀ g, t' = Waiter (Leads g) Sleeps → flag w' g = false) →
  (∀ g type my_id leader_id, t = Handler g type my_id leader_id Unlocked → notifies type = false) →
  wake_inv (mkCvState o' w' (become i t' s)).
Proof.
  intros [Hf Hs Hj] Hi Hw Hj' Hfalls Hsleeps Ht. split; cbn.
  - intros k g Hk. destruct (lookup_become _ _ _ _ _ _ Hi Hk) as [[-> Heq]|[_ Hk']]; [by apply Hfalls|].
    rewrite Hw. by eapply Hf.
  - intros k g Hk Hfl. destruct (lookup_become _ _ _ _ _ _ Hi Hk) as [[-> Heq]|[_ Hk']].
    + by rewrite Hsleeps in Hfl.
    + rewrite Hw in Hfl. eapply notifier_become; [done| |done]. by eapply Hs.
  - intros k u Hk. destruct (lookup_become _ _ _ _ _ _ Hi Hk) as [[-> ->]|[_ Hk']]; [done|]. by eapply Hj.
Qed.

(** After a notification nobody sleeps. *)
Lemma wake_inv_wake s i t t' :
  wake_inv s → cv_threads s !! i = Some t → no_leading_joiner t' →
  (∀ c, t' ≠ Waiter c FallsAsleep) →
  wake_inv (mkCvState (cv_owner s) (cv_world s) (wake <$> become i t' s)).
Proof.
  intros [Hf Hs Hj] Hi Hj' Ht'. split; cbn; intros k u Hk; rewrite list_lookup_fmap in Hk;
    destruct (become i t' s !! k) as [v|] eqn:Hv; try done; injection Hk as Hk.
  - destruct (lookup_become _ _ _ _ _ _ Hi Hv) as [[-> ->]|[_ Hv']].
    + destruct t' as [c []|]; simplify_eq/=; by edestruct Ht'.
    + destruct v as [c []|]; simplify_eq/=. by eapply Hf.
  - by destruct v as [c []|].
  - assert (no_leading_joiner v) as Hvj.
    { destruct (lookup_become _ _ _ _ _ _ Hi Hv) as [[-> ->]|[_ Hv']]; [done|by eapply Hj]. }
    rewrite <- Hk. by destruct v as [c []|].
Qed.

(** Assigning a flag with the lock. *)
Lemma wake_inv_assign s i g type my_id leader_id w' :
  lock_inv s → wake_inv s → cv_threads s !! i = Some (Handler g type my_id leader_id Locked) →
  locked_section g type my_id leader_id (cv_world s) = (Ret tt, w') →
  wake_inv (mkCvState None w' (become i (Handler g type my_id leader_id Unlocked) s)).
Proof.
  intros Hl [Hf Hs Hj] Hi Hrun. pose proof (Hj i _ Hi) as Hji.
  assert (∀ g', flag w' g' = true → flag (cv_world s) g' = true ∨ notifies type = true) as Hflag.
  { intros g'. destruct type; cbn in Hrun; injection Hrun as <-; try (by left); [| |]; unfold flag; cbn;
      (destruct (decide (g = g')) as [<-|Hne];
       [rewrite lookup_insert_eq|rewrite lookup_insert_ne by done; by left]); cbn.
    - rewrite bool_decide_eq_true. cbn in Hji. done.
    - by right.
    - done. }
  assert (∀ k g', become i (Handler g type my_id leader_id Unlocked) s !! k = Some (Waiter (Leads g') FallsAsleep) →
          False) as Hnone.
  { intros k g' Hk. destruct (lookup_become _ _ _ _ _ _ Hi Hk) as [[_ Heq]|[Hne Hk']]; [done|].
    pose proof (proj1 (li_owner _ Hl _ _ Hk') eq_refl) as H1.
    pose proof (proj1 (li_owner _ Hl _ _ Hi) eq_refl) as H2. congruence. }
  split; cbn.
  - intros k g' Hk. by destruct (Hnone k g').
  - intros k g' Hk Hfl. destruct (lookup_become _ _ _ _ _ _ Hi Hk) as [[_ Heq]|[Hne Hk']]; [done|].
    destruct (Hflag g' Hfl) as [Hold|Hn].
    + eapply notifier_become; [done|by eapply Hs|done].
    + exists i, g, type, my_id, leader_id. split; [|done]. unfold become.
      by rewrite list_lookup_insert_eq by by apply lookup_lt_Some in Hi.
  - intros k u Hk. destruct (lookup_become _ _ _ _ _ _ Hi Hk) as [[-> ->]|[_ Hk']]; [done|by eapply Hj].
Qed.

Lemma cv_step_wake s s' : cv_step s s' → lock_inv s → wake_inv s → wake_inv s'.
Proof.
  intros Hs Hl Hw.
  destruct Hs as [i c x Hi Ho|i c x w' Hi Hc|i c w' Hi Hc|i c w' Hi Hc|i c Hi
                 |i g ty my ld Hi Ht Ho|i g ty my ld w' Hi Hr|i g ty my ld Hi Ht|i g ty my ld Hi ts].
  - by apply (wake_inv_become s i _ _ _ _ Hw Hi).
  - apply checked_flag in Hc as [Hf _]. by apply (wake_inv_become s i _ _ _ _ Hw Hi).
  - apply checked_flag in Hc as [Hf _]. by apply (wake_inv_become s i _ _ _ _ Hw Hi).
  - apply checked_flag in Hc as [Hf Hb]. apply (wake_inv_become s i _ _ _ _ Hw Hi); try done.
    intros g [= ->]. rewrite Hf. symmetry. by apply Hb.
  - apply (wake_inv_become s i _ _ _ _ Hw Hi); try done. intros g [= ->]. by apply (wi_falls _ Hw i).
  - apply (wake_inv_become s i _ _ _ _ Hw Hi); try done. exact (wi_joiner _ Hw _ _ Hi).
  - by eapply wake_inv_assign.
  - apply (wake_inv_become s i _ _ _ _ Hw Hi); try done. exact (wi_joiner _ Hw _ _ Hi).
  - pose proof (wi_joiner _ Hw _ _ Hi) as Hj. unfold ts. destruct (notifies ty) eqn:Hn.
    + by apply (wake_inv_wake s i _ _ Hw Hi).
    + apply (wake_inv_become s i _ _ _ _ Hw Hi); try done. by intros ? ? ? ? [= <- <- <- <-].
Qed.

Lemma wake_inv_arrives o w ts t :
  no_leading_joiner t → has_lock t = false → (∀ c, t ≠ Waiter c Sleeps) →
  wake_inv (mkCvState o w ts) → wake_inv (mkCvState o w (ts ++ [t])).
Proof.
  intros Hj Hlk Hns [Hf Hs Hjs]. cbn in *. split; cbn.
  - intros i g [Hi|[_ Hi]]%lookup_app_Some; [by eapply Hf|].
    apply list_lookup_singleton_Some in Hi as [_ ->]. done.
  - intros i g [Hi|[_ Hi]]%lookup_app_Some Hfl.
    + destruct (Hs i g Hi Hfl) as (j & g' & ty & my & ld & Hk & Hn).
      exists j, g', ty, my, ld. split; [|done]. by apply lookup_app_l_Some.
    + apply list_lookup_singleton_Some in Hi as [_ ->]. by destruct (Hns (Leads g)).
  - intros i u [Hi|[_ Hi]]%lookup_app_Some; [by eapply Hjs|].
    by apply list_lookup_singleton_Some in Hi as [_ <-].
Qed.

Lemma cv_reachable_inv w s :
  rtc (cv_any no_leading_joiner) (cv_initial w) s → lock_inv s ∧ wake_inv s.
Proof.
  intros Hr. apply (rtc_ind_r (λ s, lock_inv s ∧ wake_inv s) (cv_initial w)) in Hr; [done| |].
  - by split; split.
  - intros s1 s2 _ Hs [Hl Hw]. split; [by eapply cv_any_lock|].
    destruct Hs as [Hs|Ha]; [by eapply cv_step_wake|]. destruct s1 as [o w1 ts].
    destruct Ha as [c Ha|g ty my ld Ha|i c x Hi|w' Hfl]; [by apply wake_inv_arrives..| |].
    { by apply (wake_inv_become (mkCvState o w1 ts) i _ _ _ _ Hw Hi). }
    destruct Hw as [Hf Hs Hj]. cbn in *.
    split; cbn; [intros i g Hi|intros i g Hi|done]; rewrite Hfl; [by eapply Hf|by eapply Hs].
Qed.

(** ** Progress *)

(** How far a thread is from its end, or from its sleep, when nobody notifies it. *)
Definition wait_rank (t : cv_thread) : nat :=
  match t with
  | Waiter _ (Acquires _) => 3
  | Waiter _ (ChecksCondition _) => 2
  | Waiter _ FallsAsleep => 1
  | _ => 0
  end.

Definition event_rank (t : cv_thread) : nat :=
  match t with
  | Handler _ _ _ _ Called => 3
  | Handler _ _ _ _ Locked => 2
  | Handler _ _ _ _ Unlocked => 1
  | _ => 0
  end.

(** Events weigh more than all waits together. *)
Definition remaining (ts : list cv_thread) : nat :=
  sum_list_with event_rank ts * (3 * length ts + 1) + sum_list_with wait_rank ts.

Lemma sum_insert (f : cv_thread → nat) ts i t t' :
  ts !! i = Some t → sum_list_with f (<[i := t']> ts) + f t = sum_list_with f ts + f t'.
Proof.
  revert i. induction ts as [|u ts IH]; intros [|i] Hi; simplify_eq/=; [lia|]. specialize (IH i Hi). lia.
Qed.

Lemma wait_rank_bound ts : sum_list_with wait_rank ts ≤ 3 * length ts.
Proof.
  induction ts as [|t ts IH]; cbn [sum_list_with length]; [lia|].
  assert (wait_rank t ≤ 3) by (destruct t as [c []|]; cbn; lia). lia.
Qed.

Lemma wake_event_rank ts : sum_list_with event_rank (wake <$> ts) = sum_list_with event_rank ts.
Proof. induction ts as [|t ts IH]; [done|]. cbn. rewrite IH. by destruct t as [c []|]. Qed.

(** A waiter that moves on; an event that moves on, whoever it wakes. *)
Lemma remaining_wait s i t t' :
  cv_threads s !! i = Some t → event_rank t' = event_rank t → wait_rank t' < wait_rank t →
  remaining (become i t' s) < remaining (cv_threads s).
Proof.
  intros Hi He Hw. unfold remaining, become. rewrite length_insert.
  pose proof (sum_insert event_rank _ _ _ t' Hi). pose proof (sum_insert wait_rank _ _ _ t' Hi).
  replace (sum_list_with event_rank (<[i := t']> (cv_threads s)))
    with (sum_list_with event_rank (cv_threads s)) by lia. lia.
Qed.

Lemma remaining_event s i t t' ts :
  cv_threads s !! i = Some t → event_rank t' < event_rank t →
  ts = become i t' s ∨ ts = wake <$> become i t' s →
  remaining ts < remaining (cv_threads s).
Proof.
  intros Hi He Hts. unfold remaining. pose proof (sum_insert event_rank _ _ _ t' Hi) as Hsum.
  assert (length ts = length (cv_threads s) ∧
          sum_list_with event_rank ts < sum_list_with event_rank (cv_threads s)) as [Hlen Hlt].
  { destruct Hts as [-> | ->]; rewrite ?length_fmap, ?wake_event_rank; unfold become;
      rewrite length_insert; split; lia. }
  pose proof (wait_rank_bound ts) as Hb. rewrite Hlen in *.
  set (K := 3 * length (cv_threads s)) in *.
  assert ((sum_list_with event_rank ts + 1) * (K + 1) ≤ sum_list_with event_rank (cv_threads s) * (K + 1))
    by (apply Nat.mul_le_mono_r; lia). lia.
Qed.

Lemma locked_section_runs g type my_id leader_id w :
  ∃ w', locked_section g type my_id leader_id w = (Ret tt, w').
Proof. destruct type; by eexists. Qed.

Lemma cv_step_remaining s s' : cv_step s s' → remaining (cv_threads s') < remaining (cv_threads s).
Proof.
  intros Hs. destruct Hs; cbn [cv_threads];
    try (by (eapply remaining_wait; [eassumption|done|cbn; lia]));
    try (by (eapply remaining_event; [eassumption| |by left]; cbn; lia)).
  apply (remaining_event s i (Handler g type my_id leader_id Unlocked)
           (Handler g type my_id leader_id Returned)); [done|cbn; lia|].
  unfold ts. destruct (notifies type); auto.
Qed.

Lemma cv_steps_bounded n s s' :
  nsteps cv_step n s s' → n + remaining (cv_threads s') ≤ remaining (cv_threads s).
Proof. intros Hn. induction Hn as [|n s1 s2 s3 Hs%cv_step_remaining _ IH]; lia. Qed.

(** A thread that has neither ended nor sleeps. *)
Definition active (t : cv_thread) : bool :=
  match t with Waiter _ (Sleeps | Answered _) | Handler _ _ _ _ Returned => false | _ => true end.

(** A thread that has the lock, or needs none, or can have it, moves on. *)
Lemma thread_moves s i t :
  cv_threads s !! i = Some t → active t = true → has_lock t = true ∨ cv_owner s = None →
  ∃ s', cv_step s s'.
Proof.
  intros Hi Hact Hlock. destruct t as [c [x|x| | |b]|g ty my ld []]; try done.
  - destruct Hlock as [?|Ho]; [done|]. eexists. by eapply wait_acquires.
  - destruct (condition_check_run c (cv_world s)) as ([] & w' & Hc & _); [|destruct x];
      eexists; first [by eapply wait_holds|by eapply wait_gives_up|by eapply wait_goes_on].
  - eexists. by eapply wait_sleeps.
  - destruct (takes_lock ty) eqn:Ht; [|eexists; by eapply event_skips_lock].
    destruct Hlock as [?|Ho]; [done|]. eexists. by eapply event_locks.
  - destruct (locked_section_runs g ty my ld (cv_world s)) as [w' Hr].
    eexists. by eapply event_unlocks.
  - eexists. by eapply event_returns.
Qed.

(** When no thread can move, the lock is free and every thread has ended or sleeps. *)
Lemma cv_stuck s :
  lock_inv s → (∀ s', ¬ cv_step s s') →
  cv_owner s = None ∧ ∀ i t, cv_threads s !! i = Some t → active t = false.
Proof.
  intros [Ho Ht] Hstuck.
  assert (cv_owner s = None) as Hown.
  { destruct (cv_owner s) as [j|] eqn:Hj; [|done]. destruct (Ht j eq_refl) as [u Hu].
    pose proof (proj2 (Ho j u Hu) eq_refl) as Hlk.
    destruct (thread_moves s j u Hu) as [s' Hs]; [by destruct u as [c []|? ? ? ? []]|by left|].
    by destruct (Hstuck s'). }
  split; [done|]. intros i t Hi. apply not_true_is_false. intros Hact.
  destruct (thread_moves s i t Hi Hact) as [s' Hs]; [by right|]. by destruct (Hstuck s').
Qed.

(** ** Leadership *)

Lemma pending_wake g type t : pending g type (wake t) ↔ pending g type t.
Proof. by destruct t as [c []|]. Qed.

Lemma leads_soon_wake g o w ts :
  leads_soon g (mkCvState o w ts) → leads_soon g (mkCvState o w (wake <$> ts)).
Proof.
  unfold leads_soon. cbn. rewrite Exists_fmap, Forall_fmap. intros [Hl Hn]. split.
  - destruct Hl as [Hl|Hl]; [by left|right]. eapply Exists_impl; [exact Hl|].
    intros t Ht. cbn. by apply pending_wake.
  - eapply Forall_impl; [exact Hn|]. intros t Ht. cbn. by rewrite !pending_wake.
Qed.

(** A thread moves on; the event of [g] it handles, if any, is as pending as it was, or
    has made the process the leader. *)
Lemma leads_soon_become g s i t t' o' w' :
  leads_soon g s → cv_threads s !! i = Some t →
  (flag w' g = true ∨ flag w' g = flag (cv_world s) g ∧
                      (pending g BecomeLeader t → pending g BecomeLeader t')) →
  (∀ type, pending g type t' → pending g type t) →
  leads_soon g (mkCvState o' w' (become i t' s)).
Proof.
  intros [Hl Hn] Hi Hw Ht. split; cbn.
  - destruct Hw as [Hw|[Hw Hp]]; [by left|]. rewrite Hw. destruct Hl as [Hl|Hl]; [by left|right].
    apply Exists_exists in Hl as (u & [j Hj]%list_elem_of_lookup & Hu). apply Exists_exists.
    unfold become. destruct (decide (i = j)) as [<-|Hne].
    + exists t'. split; [|apply Hp; congruence]. apply list_elem_of_lookup. exists i.
      apply list_lookup_insert_eq. by eapply lookup_lt_Some.
    + exists u. split; [|done]. apply list_elem_of_lookup. exists j. by rewrite list_lookup_insert_ne.
  - apply Forall_insert; [done|]. destruct (Forall_lookup_1 _ _ _ _ Hn Hi) as [Hf Hj]. auto.
Qed.

Lemma cv_step_leads g s s' : cv_step s s' → leads_soon g s → leads_soon g s'.
Proof.
  intros Hs Hl.
  destruct Hs as [i c x Hi Ho|i c x w' Hi Hc|i c w' Hi Hc|i c w' Hi Hc|i c Hi
                 |i g' ty my ld Hi Ht Ho|i g' ty my ld w' Hi Hr|i g' ty my ld Hi Ht|i g' ty my ld Hi ts];
    try (apply checked_flag in Hc as [Hc _]);
    try (by (apply (leads_soon_become g s i _ _ _ _ Hl Hi); auto)).
  - destruct Hl as [Hl Hn]. pose proof (Forall_lookup_1 _ _ _ _ Hn Hi) as [Hf Hj].
    apply (leads_soon_become g s i _ _ _ _ (conj Hl Hn) Hi); [|done].
    destruct (decide (g' = g)) as [->|Hne].
    + destruct ty; cbn in Hr; injection Hr as <-; cbn in Hf, Hj;
        try (by destruct Hf); try (by destruct Hj); try (by (right; split; [done|intros [_ ?]])).
      left. unfold flag. cbn. by rewrite lookup_insert_eq.
    + right. split; [|by intros [? _]]. destruct ty; cbn in Hr; injection Hr as <-; try done;
        unfold flag; cbn; by rewrite lookup_insert_ne.
  - apply (leads_soon_become g s i _ _ _ _ Hl Hi); [|done]. right. split; [done|].
    by intros [-> ->].
  - assert (leads_soon g (mkCvState (cv_owner s) (cv_world s) ts)) as Hts
      by by (apply (leads_soon_become g s i _ _ _ _ Hl Hi); auto).
    destruct (notifies ty); [by apply leads_soon_wake|done].
Qed.

(** A wait that is not over stays one for the same condition, and a patient one is not given
    up; an answer stays. *)
Definition waits_on (ph ph' : wait_phase) : Prop :=
  (patient ph = true → patient ph' = true) ∧ (∀ b, ph = Answered b → ph' = Answered b).

Lemma cv_step_waits s s' i c ph :
  cv_step s s' → cv_threads s !! i = Some (Waiter c ph) →
  ∃ ph', cv_threads s' !! i = Some (Waiter c ph') ∧ waits_on ph ph'.
Proof.
  intros Hs Hi.
  assert (∀ j t t', cv_threads s !! j = Some t →
            (∀ c ph, t = Waiter c ph → ∃ ph', t' = Waiter c ph' ∧ waits_on ph ph') →
            ∃ ph', become j t' s !! i = Some (Waiter c ph') ∧ waits_on ph ph') as Hb.
  { intros j t t' Hj Ht. unfold become. destruct (decide (j = i)) as [->|Hne].
    - destruct (Ht c ph) as (ph' & -> & Hw); [congruence|]. exists ph'. split; [|done].
      apply list_lookup_insert_eq. by eapply lookup_lt_Some.
    - exists ph. by rewrite list_lookup_insert_ne. }
  destruct Hs; cbn [cv_threads];
    try (by (eapply Hb; [eassumption|]; intros ? ? [= <- <-]; eexists; by split)).
  assert (∃ ph', ts !! i = Some (Waiter c ph') ∧ waits_on ph ph') as (ph' & Hts & Hw)
    by by eapply Hb.
  destruct (notifies type); [|by exists ph']. rewrite list_lookup_fmap, Hts. cbn.
  destruct ph'; cbn; eexists; split; try done. split; [done|]. intros b ->. by destruct Hw as [_ Hw]; specialize (Hw b eq_refl).
Qed.

Lemma waits_on_trans ph1 ph2 ph3 : waits_on ph1 ph2 → waits_on ph2 ph3 → waits_on ph1 ph3.
Proof. intros [H1 H2] [H3 H4]. split; eauto. Qed.

Lemma cv_steps_keep n g s s' :
  nsteps cv_step n s s' → lock_inv s → wake_inv s → leads_soon g s →
  lock_inv s' ∧ wake_inv s' ∧ leads_soon g s' ∧
  ∀ i c ph, cv_threads s !! i = Some (Waiter c ph) →
    ∃ ph', cv_threads s' !! i = Some (Waiter c ph') ∧ waits_on ph ph'.
Proof.
  intros Hn. induction Hn as [s|n s1 s2 s3 Hs _ IH]; intros Hl Hw Hg.
  { split_and!; [done..|]. intros i c ph Hi. exists ph. split; [done|]. by split. }
  destruct IH as (Hl' & Hw' & Hg' & Hk);
    [by eapply cv_step_lock|by eapply cv_step_wake|by eapply cv_step_leads|].
  split_and!; [done..|]. intros i c ph Hi.
  destruct (cv_step_waits s1 s2 i c ph Hs Hi) as (ph2 & Hi2 & Hph2).
  destruct (Hk i c ph2 Hi2) as (ph3 & Hi3 & Hph3). eauto using waits_on_trans.
Qed.
End waiters_lemmas.

(** ** Properties *)

Section waiters_theorems.
Context `{UuidOps} `{RaftParams}.

(** The lock excludes: in every reachable state at most one thread is between acquiring and
    releasing it. *)
Theorem manager_lock_excludes (allowed : cv_thread → Prop) (w : world) (s : cv_state) (i j : nat)
    (t u : cv_thread) :
  rtc (cv_any allowed) (cv_initial w) s →
  cv_threads s !! i = Some t → has_lock t = true →
  cv_threads s !! j = Some u → has_lock u = true → i = j.
Proof.
  intros Hr Hi Ht Hj Hu. destruct (cv_reachable_lock allowed w s Hr) as [Ho _].
  apply (Ho i t Hi) in Ht. apply (Ho j u Hj) in Hu. congruence.
Qed.

(** C16: No wake-up for leadership is lost: when every event that has arrived is handled, no
    thread sleeps waiting for a leadership the process has, whatever the interleaving,
    provided that no process joins a cluster as its leader. *)
Theorem leadership_wakes_waiters (w : world) (s : cv_state) (i : nat) (g : uuid) :
  rtc (cv_any no_leading_joiner) (cv_initial w) s →
  (∀ j g' type my_id leader_id ph,
     cv_threads s !! j = Some (Handler g' type my_id leader_id ph) → ph = Returned) →
  flag (cv_world s) g = true →
  cv_threads s !! i ≠ Some (Waiter (Leads g) Sleeps) ∧
  cv_threads s !! i ≠ Some (Waiter (Leads g) FallsAsleep).
Proof.
  intros Hr Hdone Hfl. destruct (cv_reachable_inv w s Hr) as [_ [Hf Hs _]]. split; intros Hi.
  - destruct (Hs i g Hi Hfl) as (j & g' & ty & my & ld & Hj & _). by apply Hdone in Hj.
  - by rewrite (Hf i g Hi) in Hfl.
Qed.

(** C22: Who waits for leadership is told of it in time.  From any reachable state in which the
    process leads a group or its election has been reported, and no event that would end its
    leadership is still to be handled, let the threads run with no time-out, no spurious
    wake-up and no new call or event.  They take a bounded number of steps; and when no thread
    can move, the lock is free, the flag of the group is set and every thread that waits for
    it has its answer: [true], if its time was not over before; provided that no process
    joins a cluster as its leader. *)
Theorem leadership_answers_waiters (w : world) (s s' : cv_state) (n : nat) (g : uuid) :
  rtc (cv_any no_leading_joiner) (cv_initial w) s →
  leads_soon g s →
  nsteps cv_step n s s' →
  n ≤ remaining (cv_threads s) ∧
  ((∀ s'', ¬ cv_step s' s'') →
   cv_owner s' = None ∧ flag (cv_world s') g = true ∧
   ∀ i ph, cv_threads s !! i = Some (Waiter (Leads g) ph) →
     ∃ b, cv_threads s' !! i = Some (Waiter (Leads g) (Answered b)) ∧ (patient ph = true → b = true)).
Proof.
  intros Hr Hg Hn. destruct (cv_reachable_inv w s Hr) as [Hl Hw].
  split; [by pose proof (cv_steps_bounded n s s' Hn); lia|]. intros Hstuck.
  destruct (cv_steps_keep n g s s' Hn Hl Hw Hg) as (Hl' & [_ Hs _] & [Hlead _] & Hk).
  destruct (cv_stuck s' Hl' Hstuck) as [Ho Hact].
  assert (¬ Exists (pending g BecomeLeader) (cv_threads s')) as Hnone.
  { intros (t & [j Hj]%list_elem_of_lookup & Ht)%Exists_exists. pose proof (Hact j t Hj).
    by destruct t as [|? ? ? ? []]. }
  destruct Hlead as [Hfl|?]; [|done]. split_and!; [done..|]. intros i ph Hi.
  destruct (Hk i _ ph Hi) as (ph' & Hi' & Hpat & _). pose proof (Hact i _ Hi') as Hph.
  destruct ph' as [| | | |b]; try done.
  - destruct (Hs i g Hi' Hfl) as (j & g' & ty & my & ld & Hj & _). by apply Hact in Hj.
  - exists b. split; [done|]. intros Hp. specialize (Hpat Hp). by destruct b.
Qed.

(** The handler of new configurations notifies without the lock, so a wake-up can fall
    between the check of [add_member] and its sleep: the configuration has the new member,
    its event is handled, and the thread sleeps until its time is over. *)
Theorem config_wakeup_missed (w : world) (g : uuid) (n : N) (c : srv_config) (my_id leader_id : Z) :
  raft_servers w !! g = Some n → configs w !! n = None →
  ∃ s, rtc (cv_any (λ _, True)) (cv_initial w) s ∧ cv_owner s = None ∧
    cv_threads s = [Waiter (Member g (sc_endpoint c)) Sleeps;
                    Handler g NewConfig my_id leader_id Returned] ∧
    condition_check (Member g (sc_endpoint c)) (cv_world s) = (Ret true, cv_world s).
Proof.
  intros Hs Hc. set (w' := set_configs (<[n := [c]]> (configs w)) w).
  set (cond := Member g (sc_endpoint c)).
  exists (mkCvState None w' [Waiter cond Sleeps; Handler g NewConfig my_id leader_id Returned]).
  split_and!; [|done|done|].
  2:{ unfold cond, condition_check, in_config, svc_get_srv_config_all, server_get_srv_config_all, mbind,
        M_bind, gets. cbn. rewrite Hs. cbn. rewrite lookup_insert_eq. cbn.
      by rewrite bool_decide_true. }
  eapply rtc_l; [right; by apply (wait_arrives _ _ cond)|]. cbn.
  eapply rtc_l; [left; by eapply (wait_acquires _ 0)|]. cbn.
  eapply rtc_l; [left; eapply (wait_goes_on _ 0 cond w); [done|]|].
  { unfold cond, condition_check, in_config, svc_get_srv_config_all, server_get_srv_config_all, mbind,
      M_bind, gets. cbn. by rewrite Hs; cbn; rewrite Hc. }
  cbn. eapply rtc_l; [right; by apply (world_changes _ _ w')|]. cbn.
  eapply rtc_l; [right; by apply (event_arrives _ _ g NewConfig my_id leader_id)|]. cbn.
  eapply rtc_l; [left; by eapply (event_skips_lock _ 1)|]. cbn.
  eapply rtc_l; [left; by eapply (event_returns _ 1)|]. cbn.
  eapply rtc_l; [left; by eapply (wait_sleeps _ 0)|]. apply rtc_refl.
Qed.

(** A process that joins a cluster as its leader sets the flag and wakes nobody. *)
Theorem leading_joiner_wakes_nobody (w : world) (g : uuid) (my_id : Z) :
  is_leader w !! g = Some false →
  ∃ s, rtc (cv_any (λ _, True)) (cv_initial w) s ∧ cv_owner s = None ∧
    cv_threads s = [Waiter (Leads g) Sleeps; Handler g JoinedCluster my_id my_id Returned] ∧
    flag (cv_world s) g = true.
Proof.
  intros Hf. set (w' := set_leader (<[g := true]> (is_leader w)) w).
  exists (mkCvState None w' [Waiter (Leads g) Sleeps; Handler g JoinedCluster my_id my_id Returned]).
  split_and!; [|done|done|by unfold flag; cbn; rewrite lookup_insert_eq].
  eapply rtc_l; [right; by apply (wait_arrives _ _ (Leads g))|]. cbn.
  eapply rtc_l; [left; by eapply (wait_acquires _ 0)|]. cbn.
  eapply rtc_l; [left; eapply (wait_goes_on _ 0 (Leads g) w); [done|]|].
  { cbn. unfold leader_flag, index_or, mbind, M_bind, gets, modify. rewrite Hf. by destruct w. }
  cbn. eapply rtc_l; [left; by eapply (wait_sleeps _ 0)|]. cbn.
  eapply rtc_l; [right; by apply (event_arrives _ _ g JoinedCluster my_id my_id)|]. cbn.
  eapply rtc_l; [left; by eapply (event_locks _ 1)|]. cbn.
  eapply rtc_l; [left; eapply (event_unlocks _ 1 _ _ _ _ w'); [done|]|].
  { cbn. by rewrite bool_decide_true. }
  cbn. eapply rtc_l; [left; by eapply (event_returns _ 1)|]. apply rtc_refl.
Qed.
End waiters_theorems.

(** ** Witnesses *)

Module WaitersDemo.
Import Demo GroupsDemo.

Definition U : @uuid demo_uuid_ops := U1.

(** A thread waits for leadership, the process becomes leader, and the event is handled. *)
Definition elected_world : world := set_leader {[U := true]} typed_world.
Definition woken : cv_state :=
  mkCvState None elected_world
    [Waiter (Leads U) (Acquires false); Handler U BecomeLeader 1 1 Returned].

Lemma woken_reachable :
  rtc (cv_any no_leading_joiner) (cv_initial (set_leader {[U := false]} typed_world)) woken.
Proof.
  eapply rtc_l; [right; by apply (wait_arrives _ _ (Leads U))|]. cbn.
  eapply rtc_l; [left; by eapply (wait_acquires _ 0)|]. cbn.
  eapply rtc_l; [left; eapply (wait_goes_on _ 0 (Leads U)); [done|by vm_compute]|]. cbn.
  eapply rtc_l; [left; by eapply (wait_sleeps _ 0)|]. cbn.
  eapply rtc_l; [right; by apply (event_arrives _ _ U BecomeLeader 1 1)|]. cbn.
  eapply rtc_l; [left; by eapply (event_locks _ 1)|]. cbn.
  eapply rtc_l; [left; eapply (event_unlocks _ 1 _ _ _ _ elected_world); [done|by vm_compute]|]. cbn.
  eapply rtc_l; [left; by eapply (event_returns _ 1)|]. apply rtc_refl.
Qed.

Lemma leadership_wakes_waiters_witness :
  flag (cv_world woken) U = true ∧
  cv_threads woken !! 0%nat ≠ Some (Waiter (Leads U) Sleeps).
Proof.
  split; [by vm_compute|].
  apply (leadership_wakes_waiters (H := demo_uuid_ops) _ woken 0 U1 woken_reachable); [|by vm_compute].
  intros [|[|j]] g ty my ld ph Hj; by simplify_eq/=.
Defined.

(** Asleep when the election is reported. *)
Definition reported : cv_state :=
  mkCvState None (set_leader {[U := false]} typed_world)
    [Waiter (Leads U) Sleeps; Handler U BecomeLeader 1 1 Called].

Lemma reported_reachable :
  rtc (cv_any no_leading_joiner) (cv_initial (set_leader {[U := false]} typed_world)) reported.
Proof.
  eapply rtc_l; [right; by apply (wait_arrives _ _ (Leads U))|]. cbn.
  eapply rtc_l; [left; by eapply (wait_acquires _ 0)|]. cbn.
  eapply rtc_l; [left; eapply (wait_goes_on _ 0 (Leads U)); [done|by vm_compute]|]. cbn.
  eapply rtc_l; [left; by eapply (wait_sleeps _ 0)|]. cbn.
  eapply rtc_l; [right; by apply (event_arrives _ _ U BecomeLeader 1 1)|]. apply rtc_refl.
Qed.

Definition answered : cv_state :=
  mkCvState None elected_world [Waiter (Leads U) (Answered true); Handler U BecomeLeader 1 1 Returned].

Lemma answered_run : nsteps cv_step 5 reported answered.
Proof.
  eapply nsteps_l; [by eapply (event_locks _ 1)|]. cbn.
  eapply nsteps_l; [eapply (event_unlocks _ 1 _ _ _ _ elected_world); [done|by vm_compute]|]. cbn.
  eapply nsteps_l; [by eapply (event_returns _ 1)|]. cbn.
  eapply nsteps_l; [by eapply (wait_acquires _ 0)|]. cbn.
  eapply nsteps_l; [eapply (wait_holds _ 0 (Leads U) _ elected_world); [done|by vm_compute]|].
  apply nsteps_O.
Qed.

Lemma answered_stuck s : ¬ cv_step answered s.
Proof.
  intros Hs. destruct Hs as [i ? ? Hi|i ? ? ? Hi|i ? ? Hi|i ? ? Hi|i ? Hi|i ? ? ? ? Hi|i ? ? ? ? ? Hi
                            |i ? ? ? ? Hi|i ? ? ? ? Hi]; by destruct i as [|[|i]].
Qed.

Lemma leadership_answers_waiters_witness :
  5 ≤ remaining (cv_threads reported) ∧ flag (cv_world answered) U = true ∧
  ∃ b, cv_threads answered !! 0 = Some (Waiter (Leads U) (Answered b)) ∧ b = true.
Proof.
  destruct (leadership_answers_waiters (H := demo_uuid_ops) _ reported answered 5 U1 reported_reachable)
    as [Hn Hend]; [|exact answered_run|].
  - split; [right; right; by left|]. apply Forall_cons. split; [split; by intros []|].
    apply Forall_singleton. split; by intros [_ ?].
  - destruct (Hend answered_stuck) as (_ & Hf & Hi). do 2 (split; [done|]).
    destruct (Hi 0 Sleeps eq_refl) as (b & Hb & Ht). exists b. auto.
Defined.
End WaitersDemo.
