(* ===== verification/RaftStep.v ===== *)
(** * The RaftStep service

    [proto_service] of [src/proto/proto_service.cpp]: the handler of incoming
    RAFT messages, which validates a message, joins its group when it is asked
    to, and hands it to one of two thread pools; the workers of the pools, which
    pass the message to NuRaft and send the response.  What the code does with an RPC is a
    list of actions, so that it can answer an RPC more than once, or not at all. *)

From stdpp Require Import base gmap strings list numbers relations.
From S2P Require Import Prelude Types Codec ClientPool DataPath Groups.

(** NuRaft's side of a step: [process_req] may refuse a message (null) or throw,
    [get_srv_config] looks a member of the group up. *)
Record step_ops := mkStepOps {
  process_req : N → req_msg → outcome (option resp_msg);
  get_srv_config : N → Z → option srv_config;
}.

(** A message in a thread pool: the RPC to answer, the server found for it. *)
Record task := mkTask { tk_rpc : N; tk_server : N; tk_request : RaftGroupMsg }.

Section raft_step.
Context `{UuidOps} `{MsgTypes} `{RaftParams}.
Context (ndebug : bool) (ops : step_ops).

(** ** Executing a step *)

(** [step]: the status, and the reply, which is left empty when NuRaft refuses. *)
Definition step (server : N) (request : RaftMessage) : outcome (Status * RaftMessage) :=
  match toRequest ndebug request with
  | None => Ub "assert(raft_msg.has_rc_request())"
  | Some rcreq =>
      match process_req ops server rcreq with
      | Throw e => Throw e
      | Ub e => Ub e
      | Ret None => Ret (mkStatus ST_CANCELLED "Server rejected request", default_message)
      | Ret (Some resp) =>
          match fromRCResponse resp with
          | None => Ub "context over-read"
          | Some p =>
              let base := fromBaseRequest (rs_term resp) (rs_type resp) (rs_src resp) (rs_dst resp) in
              let dest_addr :=
                if rs_accepted resp then p_dest_addr p
                else match get_srv_config ops server (b_dest base) with
                     | Some srv_conf => sc_endpoint srv_conf
                     | None => p_dest_addr p
                     end in
              Ret (status_ok,
                   mkRaftMessage (Some base)
                     (RcResponse (mkRCResponse (p_next_index p) (p_accepted p) (p_context p) dest_addr
                                    (p_result_code p) (p_batch_size_hint p))))
          end
      end
  end.

Definition missing_group (group_id : string) : Status :=
  mkStatus ST_NOT_FOUND ("Missing RAFT group " +:+ group_id).

(** ** RPCs *)

(** [AsyncRpcData]: the request, the response under construction and the status. *)
Record rpc_data := mkRpcData {
  rpc_request : RaftGroupMsg;
  rpc_response : RaftGroupMsg;
  rpc_status : Status;
}.

Definition empty_response : RaftGroupMsg :=
  mkRaftGroupMsg EmptyString default_message EmptyString EmptyString.

Definition new_rpc (request : RaftGroupMsg) : rpc_data :=
  mkRpcData request empty_response status_ok.

(** What the handlers do with an RPC: [response.set_group_id], writing to
    [response.mutable_msg()], [set_status], [send_response], and posting it to a pool with
    the server that was found. *)
Inductive rpc_action :=
| SetGroupId (group_id : string)
| SetReply (reply : RaftMessage)
| SetStatus (st : Status)
| SendResponse
| PostIo (server : N)
| PostRaft (server : N).

Definition apply_action (a : rpc_action) (d : rpc_data) : rpc_data :=
  let r := rpc_response d in
  match a with
  | SetGroupId g =>
      mkRpcData (rpc_request d) (mkRaftGroupMsg g (g_msg r) (g_intended_addr r) (g_group_type r))
        (rpc_status d)
  | SetReply m =>
      mkRpcData (rpc_request d)
        (mkRaftGroupMsg (g_group_id r) m (g_intended_addr r) (g_group_type r)) (rpc_status d)
  | SetStatus st => mkRpcData (rpc_request d) r st
  | SendResponse | PostIo _ | PostRaft _ => d
  end.

(** The responses that a sequence of actions sends, in order. *)
Fixpoint sent (d : rpc_data) (acts : list rpc_action) : list (Status * RaftGroupMsg) :=
  match acts with
  | [] => []
  | a :: acts' =>
      (match a with SendResponse => [(rpc_status d, rpc_response d)] | _ => [] end)
      ++ sent (apply_action a d) acts'
  end.

(** [execute_step] *)
Definition execute_step (server : N) (request : RaftGroupMsg) : outcome (list rpc_action) :=
  match step server (g_msg request) with
  | Ret (st, reply) =>
      Ret [SetGroupId (g_group_id request); SetReply reply; SetStatus st; SendResponse]
  | Throw _ =>
      Ret [SetGroupId (g_group_id request); SetReply default_message;
           SetStatus (missing_group (g_group_id request)); SendResponse]
  | Ub e => Ub e
  end.

(** ** Routing *)

Definition is_slow_message (type : Z) : bool :=
  bool_decide (type = append_entries_request) || bool_decide (type = install_snapshot_request).

Definition calculate_io_pool_size (config_size : Z) : Z :=
  if decide (0 < config_size)%Z then config_size else 4%Z.

Definition msg_type_of (request : RaftGroupMsg) : Z := b_type (msg_base_of (g_msg request)).

(** [raftStep]: what it does with the RPC, and its result, which is [true] when the response
    is to be sent at once. *)
Definition raftStep (cfg : service_cfg) (env : app_env) (service_address : uuid)
    (request : RaftGroupMsg) : M world (list rpc_action * bool) :=
  match string_generator (g_group_id request), string_generator (g_intended_addr request) with
  | Some gid, Some sid =>
      if decide (sid ≠ service_address)
      then mret ([SetStatus (mkStatus ST_INVALID_ARGUMENT
                               ("intended addr: [" +:+ g_intended_addr request +:+ "], our addr: ["
                                +:+ uuid_to_string service_address +:+ "]"))], true)
      else
        let base := msg_base_of (g_msg request) in
        (if decide (join_cluster_request = b_type base)
         then joinRaftGroup cfg env (b_dest base) gid (g_group_type request);; mret tt
         else mret tt);;
        servers ← gets raft_servers;
        match servers !! gid with
        | None => mret ([SetGroupId (g_group_id request);
                         SetStatus (missing_group (g_group_id request))], true)
        | Some server =>
            mret ([if is_slow_message (b_type base) then PostIo server else PostRaft server], false)
        end
  | _, _ =>
      mret ([SetStatus (mkStatus ST_INVALID_ARGUMENT ("Bad GroupID " +:+ g_group_id request))], true)
  end.

(** ** The service at work *)

(** A thread pool: the queue of [boost::asio::post], the tasks its threads are
    running, and the counter the guards keep. *)
Record thread_pool := mkTPool {
  pool_size : Z;
  queue : list task;
  running : list task;
  active_threads : Z;
}.

(** [rpcs] are the RPCs that came in, [responses] the responses sent, by RPC, [received] the
    order in which RPCs came in, the last one first. *)
Record service := mkService {
  sv_world : world;
  raft_pool : thread_pool;
  io_pool : thread_pool;
  rpcs : gmap N rpc_data;
  responses : list (N * (Status * RaftGroupMsg));
  received : list N;
}.

Definition post (t : task) (p : thread_pool) : thread_pool :=
  mkTPool (pool_size p) (queue p ++ [t]) (running p) (active_threads p).

(** A thread takes the first task, or finishes one: [atomic_counter_guard]. *)
Inductive pool_starts : thread_pool → thread_pool → Prop :=
| pool_start n t q r a :
    (Z.of_nat (length r) < n)%Z →
    pool_starts (mkTPool n (t :: q) r a) (mkTPool n q (t :: r) (i32 (a + 1))).

Inductive pool_finishes : thread_pool → task → thread_pool → Prop :=
| pool_finish n q r1 t r2 a :
    pool_finishes (mkTPool n q (r1 ++ t :: r2) a) t (mkTPool n q (r1 ++ r2) (i32 (a - 1))).

(** One action on an RPC. *)
Definition act (rpc : N) (s : service) (a : rpc_action) : service :=
  match rpcs s !! rpc with
  | None => s
  | Some d =>
      match a with
      | SendResponse =>
          mkService (sv_world s) (raft_pool s) (io_pool s) (rpcs s)
            ((rpc, (rpc_status d, rpc_response d)) :: responses s) (received s)
      | PostIo server =>
          mkService (sv_world s) (raft_pool s) (post (mkTask rpc server (rpc_request d)) (io_pool s))
            (rpcs s) (responses s) (received s)
      | PostRaft server =>
          mkService (sv_world s) (post (mkTask rpc server (rpc_request d)) (raft_pool s)) (io_pool s)
            (rpcs s) (responses s) (received s)
      | _ =>
          mkService (sv_world s) (raft_pool s) (io_pool s) (<[rpc := apply_action a d]> (rpcs s))
            (responses s) (received s)
      end
  end.

Definition perform (rpc : N) (acts : list rpc_action) (s : service) : service :=
  foldl (act rpc) s acts.

(** The framework sends the response of a handler that returns [true]. *)
Definition with_reply (r : list rpc_action * bool) : list rpc_action :=
  r.1 ++ (if r.2 then [SendResponse] else []).

Definition receive (s : service) (w : world) (rpc : N) (request : RaftGroupMsg)
    (r : list rpc_action * bool) : service :=
  perform rpc (with_reply r)
    (mkService w (raft_pool s) (io_pool s) (<[rpc := new_rpc request]> (rpcs s)) (responses s)
       (rpc :: received s)).

(** The pool for slow messages, or the one for the others. *)
Definition pool_of (slow : bool) (s : service) : thread_pool :=
  if slow then io_pool s else raft_pool s.
Definition with_pool (slow : bool) (p : thread_pool) (s : service) : service :=
  if slow then mkService (sv_world s) (raft_pool s) p (rpcs s) (responses s) (received s)
  else mkService (sv_world s) p (io_pool s) (rpcs s) (responses s) (received s).

(** A thread of a pool takes a task, or executes the one it has and is done with it. *)
Inductive worker_step (slow : bool) (s : service) : service → Prop :=
| worker_starts p :
    pool_starts (pool_of slow s) p → worker_step slow s (with_pool slow p s)
| worker_finishes p t acts :
    pool_finishes (pool_of slow s) t p →
    execute_step (tk_server t) (tk_request t) = Ret acts →
    worker_step slow s (perform (tk_rpc t) acts (with_pool slow p s)).

Definition raft_pool_step : service → service → Prop := worker_step false.
Definition io_pool_step : service → service → Prop := worker_step true.

Definition pool_step (s s' : service) : Prop := raft_pool_step s s' ∨ io_pool_step s s'.

(** Groups may change between any two steps. *)
Inductive service_step (cfg : service_cfg) (addr : uuid) (s : service) : service → Prop :=
| sv_receives env rpc request r w :
    rpc ∉ received s →
    raftStep cfg env addr request (sv_world s) = (Ret r, w) →
    service_step cfg addr s (receive s w rpc request r)
| sv_pools s' : pool_step s s' → service_step cfg addr s s'
| sv_groups w :
    service_step cfg addr s
      (mkService w (raft_pool s) (io_pool s) (rpcs s) (responses s) (received s)).

(** A new service: [raft_append_entries_thread_cnt] threads for RAFT, the calculated
    number for I/O. *)
Definition start_service (raft_threads config_size : Z) (w : world) : service :=
  mkService w (mkTPool raft_threads [] [] 0)
    (mkTPool (calculate_io_pool_size config_size) [] [] 0) ∅ [] [].
End raft_step.

(** ** Invariants *)

Section raft_step_inv.
Context `{UuidOps} `{MsgTypes} `{RaftParams}.
Implicit Types (s : service) (p : thread_pool) (t : task) (slow : bool) (rn ion : Z).

Definition tasks (p : thread_pool) : list task := queue p ++ running p.

(** The messages that write to the log or to a snapshot, and may take long. *)
Definition slow_types : list Z := [append_entries_request; install_snapshot_request].

Definition slow_task (t : task) : Prop := msg_type_of (tk_request t) ∈ slow_types.

(** A pool holds messages of its own kind only, runs at most as many as it has
    threads, and counts them, in an [int]. *)
Record pool_ok (slow : bool) (n : Z) (p : thread_pool) : Prop := {
  po_size : pool_size p = n;
  po_kind : Forall (λ t, slow_task t ↔ slow = true) (tasks p);
  po_bound : (Z.of_nat (length (running p)) ≤ Z.max 0 n)%Z;
  po_active : active_threads p = i32 (Z.of_nat (length (running p)));
}.

(** The RPCs that were answered, wait or run. *)
Definition accounted (s : service) : list N :=
  (responses s).*1 ++ (tk_rpc <$> tasks (raft_pool s)) ++ (tk_rpc <$> tasks (io_pool s)).

Record service_inv (raft_n io_n : Z) (s : service) : Prop := {
  si_accounted : accounted s ≡ₚ received s;
  si_received : NoDup (received s);
  si_rpcs : ∀ rpc, rpc ∈ received s ↔ is_Some (rpcs s !! rpc);
  si_tasks : ∀ t, t ∈ tasks (raft_pool s) ++ tasks (io_pool s) →
             ∃ d, rpcs s !! tk_rpc t = Some d ∧ rpc_request d = tk_request t;
  si_raft : pool_ok false raft_n (raft_pool s);
  si_io : pool_ok true io_n (io_pool s);
}.

(** *** Pools *)

Lemma post_tasks t p : tasks (post t p) ≡ₚ t :: tasks p.
Proof. unfold tasks, post. simpl. rewrite <-app_assoc. simpl. by rewrite Permutation_middle. Qed.

Lemma post_ok slow n t p :
  pool_ok slow n p → (slow_task t ↔ slow = true) → pool_ok slow n (post t p).
Proof. intros [Hs Hk Hb Ha] Ht. split; try done. rewrite post_tasks. by constructor. Qed.

Lemma pool_starts_ok slow n p p' :
  pool_starts p p' → pool_ok slow n p → pool_ok slow n p' ∧ tasks p' ≡ₚ tasks p.
Proof.
  intros [m t q r a Hr] [Hs Hk Hb Ha]. simpl in *. subst m.
  assert (tasks (mkTPool n q (t :: r) (i32 (a + 1))) ≡ₚ tasks (mkTPool n (t :: q) r a)) as Hp.
  { unfold tasks. simpl. by rewrite Permutation_middle. }
  split; [|done]. split; simpl; [done|by rewrite Hp|lia|].
  rewrite Ha, i32_add. f_equal. lia.
Qed.

Lemma pool_finishes_ok slow n p t p' :
  pool_finishes p t p' → pool_ok slow n p → pool_ok slow n p' ∧ tasks p ≡ₚ t :: tasks p'.
Proof.
  intros [m q r1 t0 r2 a] [Hs Hk Hb Ha]. simpl in *.
  assert (tasks (mkTPool m q (r1 ++ t0 :: r2) a) ≡ₚ t0 :: tasks (mkTPool m q (r1 ++ r2) (i32 (a - 1))))
    as Hp. { unfold tasks. simpl. solve_Permutation. }
  rewrite length_app in *. simpl in *. split; [|done].
  split; simpl; [done| |rewrite length_app; lia|].
  - rewrite Hp in Hk. by inversion Hk.
  - rewrite length_app, Ha. unfold Z.sub. rewrite i32_add. f_equal. lia.
Qed.

(** What a pool has still to do. *)
Definition pool_work (p : thread_pool) : nat := 2 * length (queue p) + length (running p).

Lemma pool_starts_work p p' : pool_starts p p' → pool_work p = S (pool_work p').
Proof. intros [n t q r a _]. unfold pool_work. simpl. lia. Qed.

Lemma pool_finishes_work p t p' : pool_finishes p t p' → pool_work p = S (pool_work p').
Proof. intros [n q r1 t0 r2 a]. unfold pool_work. simpl. rewrite !length_app. simpl. lia. Qed.

(** A pool with threads starts a task, runs one, or has nothing to do. *)
Lemma pool_idle_or_busy slow n p :
  pool_ok slow n p → (0 < n)%Z →
  tasks p = [] ∨ (∃ p', pool_starts p p') ∨ ∃ t p', t ∈ tasks p ∧ pool_finishes p t p'.
Proof.
  intros [Hs _ _ _] Hn. destruct p as [m q r a]. simpl in Hs. subst m. destruct r as [|t r].
  - destruct q as [|t q]; [by left|]. right. left. eexists. constructor. simpl. lia.
  - right. right. exists t. eexists. split; [unfold tasks; simpl; apply elem_of_app; right; by left|].
    apply (pool_finish n q [] t r a).
Qed.

(** *** Actions *)

Definition not_post (a : rpc_action) : Prop :=
  match a with PostIo _ | PostRaft _ => False | _ => True end.

Lemma apply_action_request a d : rpc_request (apply_action a d) = rpc_request d.
Proof. by destruct a. Qed.

(** Actions that post nothing: the response is built, and what is sent is sent. *)
Lemma perform_quiet rpc d acts s :
  rpcs s !! rpc = Some d → Forall not_post acts →
  ∃ d', rpc_request d' = rpc_request d ∧
    perform rpc acts s =
    mkService (sv_world s) (raft_pool s) (io_pool s) (<[rpc := d']> (rpcs s))
      (reverse (pair rpc <$> sent d acts) ++ responses s) (received s).
Proof.
  intros Hd Hp. revert d s Hd. induction Hp as [|a acts Ha _ IH]; intros d s Hd.
  { exists d. split; [done|]. rewrite insert_id by done. by destruct s. }
  unfold perform. simpl. fold (perform rpc acts (act rpc s a)).
  destruct (IH (apply_action a d) (act rpc s a)) as (d' & Hreq & ->).
  { unfold act. rewrite Hd. destruct a; try done; simpl; by rewrite ?lookup_insert_eq. }
  exists d'. split; [by rewrite Hreq, apply_action_request|].
  unfold act. rewrite Hd. destruct a; try done; simpl; rewrite ?insert_insert_eq; try done.
  by rewrite reverse_cons, <-app_assoc.
Qed.

(** [execute_step] sends one response, and returns unless [step] crashes. *)
Lemma execute_step_sends nd ops server request acts d :
  execute_step nd ops server request = Ret acts →
  Forall not_post acts ∧ ∃ r, sent d acts = [r].
Proof.
  unfold execute_step. destruct (step nd ops server (g_msg request)) as [[st reply]|e|e];
    intros [= <-]; (split; [by repeat constructor|by eexists]).
Qed.

Lemma execute_step_returns nd ops server request :
  (∀ e, step nd ops server (g_msg request) ≠ Ub e) →
  ∃ acts, execute_step nd ops server request = Ret acts.
Proof.
  intros Hs. unfold execute_step. destruct (step nd ops server (g_msg request)) as [[st r]|e|e] eqn:He; eauto.
  by destruct (Hs e).
Qed.

Lemma is_slow_message_types type : is_slow_message type = true ↔ type ∈ slow_types.
Proof.
  unfold is_slow_message, slow_types. rewrite orb_true_iff, !bool_decide_eq_true.
  rewrite elem_of_cons, list_elem_of_singleton. done.
Qed.

(** One response at once, or one task for the pool of the message's kind. *)
Definition handled_once (request : RaftGroupMsg) (r : list rpc_action * bool) : Prop :=
  (Forall not_post (with_reply r) ∧ ∃ resp, sent (new_rpc request) (with_reply r) = [resp]) ∨
  (∃ n, r = ([PostIo n], false) ∧ msg_type_of request ∈ slow_types) ∨
  (∃ n, r = ([PostRaft n], false) ∧ msg_type_of request ∉ slow_types).

Lemma answered_at_once request acts :
  Forall not_post acts → (∃ resp, sent (new_rpc request) (acts ++ [SendResponse]) = [resp]) →
  handled_once request (acts, true).
Proof.
  intros Ha Hs. left. split; [|done]. apply Forall_app. split; [done|]. by repeat constructor.
Qed.

Lemma raftStep_cases cfg env addr request w r w' :
  raftStep cfg env addr request w = (Ret r, w') → handled_once request r.
Proof.
  assert (∀ st, handled_once request ([SetStatus st], true)) as Hrefuse.
  { intros st. apply answered_at_once; [by repeat constructor|by eexists]. }
  unfold raftStep. destruct (string_generator (g_group_id request)) as [gid|]; [|by intros [= <- _]].
  destruct (string_generator (g_intended_addr request)) as [sid|]; [|by intros [= <- _]].
  destruct (decide (sid ≠ addr)); [by intros [= <- _]|].
  set (join := if decide (join_cluster_request = _) then _ else _).
  unfold mbind at 1, M_bind at 1. destruct (join w) as [[[]|e|e] w1]; [|done..]. clear join.
  unfold mbind, M_bind, gets. destruct (raft_servers w1 !! gid) as [n0|]; intros [= <- _].
  - pose proof (is_slow_message_types (msg_type_of request)) as Hty. unfold msg_type_of in Hty. right.
    destruct (is_slow_message _); [left|right]; exists n0; (split; [done|]).
    + by apply Hty.
    + intros Hin. apply Hty in Hin. done.
  - apply answered_at_once; [by repeat constructor|by eexists].
Qed.

(** *** Steps *)

Lemma tasks_known_insert (m : gmap N rpc_data) rpc d d' (ts : list task) :
  (∀ t, t ∈ ts → ∃ d, m !! tk_rpc t = Some d ∧ rpc_request d = tk_request t) →
  m !! rpc = Some d → rpc_request d' = rpc_request d →
  ∀ t, t ∈ ts → ∃ d, <[rpc := d']> m !! tk_rpc t = Some d ∧ rpc_request d = tk_request t.
Proof.
  intros Hts Hd Hreq t Ht. destruct (Hts t Ht) as (d0 & Hd0 & Hr0).
  destruct (decide (rpc = tk_rpc t)) as [->|Hne].
  - exists d'. rewrite lookup_insert_eq. split; [done|]. congruence.
  - exists d0. by rewrite lookup_insert_ne.
Qed.

Lemma known_insert (m : gmap N rpc_data) rpc d (l : list N) :
  (∀ k, k ∈ l ↔ is_Some (m !! k)) → rpc ∈ l → ∀ k, k ∈ l ↔ is_Some (<[rpc := d]> m !! k).
Proof.
  intros Hm Hin k. rewrite lookup_insert_is_Some', <-Hm. split; [tauto|]. by intros [<-|].
Qed.

Lemma pool_of_with slow p s : pool_of slow (with_pool slow p s) = p.
Proof. by destruct slow. Qed.

(** The tasks of both pools, those of one pool first. *)
Lemma tasks_split slow s :
  tasks (raft_pool s) ++ tasks (io_pool s) ≡ₚ tasks (pool_of slow s) ++ tasks (pool_of (negb slow) s).
Proof. destruct slow; simpl; [apply Permutation_app_comm|done]. Qed.

Lemma accounted_split slow s :
  accounted s ≡ₚ (responses s).*1 ++ (tk_rpc <$> tasks (pool_of slow s)) ++
                 (tk_rpc <$> tasks (pool_of (negb slow) s)).
Proof. unfold accounted. rewrite <-!fmap_app. by rewrite (tasks_split slow). Qed.

Lemma service_inv_pools rn ion s :
  accounted s ≡ₚ received s → NoDup (received s) →
  (∀ rpc, rpc ∈ received s ↔ is_Some (rpcs s !! rpc)) →
  (∀ t, t ∈ tasks (raft_pool s) ++ tasks (io_pool s) →
        ∃ d, rpcs s !! tk_rpc t = Some d ∧ rpc_request d = tk_request t) →
  (∀ slow, pool_ok slow (if slow then ion else rn) (pool_of slow s)) → service_inv rn ion s.
Proof. intros ? ? ? ? Hp. split; [done..|apply (Hp false)|apply (Hp true)]. Qed.

Lemma si_pool rn ion s slow :
  service_inv rn ion s → pool_ok slow (if slow then ion else rn) (pool_of slow s).
Proof. intros Hi. destruct slow; apply Hi. Qed.

Lemma receive_inv rn ion s w rpc request r :
  service_inv rn ion s → rpc ∉ received s → handled_once request r →
  service_inv rn ion (receive s w rpc request r).
Proof.
  intros [Hacc Hnd Hk Ht Hr Hi] Hrpc Hr'. set (s1 := mkService w (raft_pool s) (io_pool s)
    (<[rpc := new_rpc request]> (rpcs s)) (responses s) (rpc :: received s)).
  assert (NoDup (rpc :: received s)) as Hnd' by by constructor.
  assert (∀ k, k ∈ rpc :: received s ↔ is_Some (rpcs s1 !! k)) as Hk1.
  { intros k. simpl. rewrite lookup_insert_is_Some', elem_of_cons, Hk. by split; intros [?|?]; auto. }
  assert (∀ t, t ∈ tasks (raft_pool s) ++ tasks (io_pool s) →
               ∃ d, rpcs s1 !! tk_rpc t = Some d ∧ rpc_request d = tk_request t) as Ht1.
  { intros t Hin. destruct (Ht t Hin) as (d & Hd & ?). exists d. simpl.
    rewrite lookup_insert_ne; [done|]. intros ->. apply Hrpc, Hk. by eexists. }
  assert (rpcs s1 !! rpc = Some (new_rpc request)) as Hnew by apply lookup_insert_eq.
  unfold receive. fold s1. destruct Hr' as [[Hp (resp & Hs)]|[(n & -> & Hty)|(n & -> & Hty)]].
  - destruct (perform_quiet rpc _ _ s1 Hnew Hp) as (d' & Hreq & ->). rewrite Hs.
    split; simpl; [|done| |by eapply tasks_known_insert|done|done].
    + unfold accounted. simpl. by rewrite <-Hacc.
    + intros k. rewrite insert_insert_eq. rewrite lookup_insert_is_Some', elem_of_cons, Hk. by split; intros [?|?]; auto.
  - unfold perform. simpl. unfold act. rewrite Hnew. simpl.
    split; simpl; [|done|done| |done|apply post_ok; [done|]; unfold slow_task; simpl; tauto].
    + unfold accounted. simpl. rewrite <-Hacc, post_tasks. unfold accounted. simpl. solve_Permutation.
    + intros t. rewrite post_tasks, elem_of_app, elem_of_cons. intros [Hin|[->|Hin]];
        [apply Ht1, elem_of_app; by left| |apply Ht1, elem_of_app; by right]. by exists (new_rpc request).
  - unfold perform. simpl. unfold act. rewrite Hnew. simpl.
    split; simpl; [|done|done| |apply post_ok; [done|]; unfold slow_task; simpl; split; done|done].
    + unfold accounted. simpl. rewrite <-Hacc, post_tasks. unfold accounted. simpl. solve_Permutation.
    + intros t. rewrite post_tasks, elem_of_app, elem_of_cons. intros [[->|Hin]|Hin];
        [|apply Ht1, elem_of_app; by left|apply Ht1, elem_of_app; by right]. by exists (new_rpc request).
Qed.

(** What receiving a message does to the pools. *)
Lemma receive_pools s w rpc request r :
  handled_once request r →
  (Forall not_post r.1 ∧ ∀ slow, pool_of slow (receive s w rpc request r) = pool_of slow s) ∨
  ∃ slow n, r = ([if slow then PostIo n else PostRaft n], false) ∧
    pool_of slow (receive s w rpc request r) = post (mkTask rpc n request) (pool_of slow s) ∧
    pool_of (negb slow) (receive s w rpc request r) = pool_of (negb slow) s.
Proof.
  unfold receive. set (s1 := mkService w (raft_pool s) (io_pool s)
    (<[rpc := new_rpc request]> (rpcs s)) (responses s) (rpc :: received s)).
  assert (rpcs s1 !! rpc = Some (new_rpc request)) as Hnew by apply lookup_insert_eq.
  intros [[Hp _]|[(n & -> & _)|(n & -> & _)]].
  - left. split; [by apply Forall_app in Hp as [? _]|].
    destruct (perform_quiet rpc _ _ s1 Hnew Hp) as (d' & _ & ->). by intros [].
  - right. exists true, n. split; [done|]. unfold perform. simpl. unfold act. by rewrite Hnew.
  - right. exists false, n. split; [done|]. unfold perform. simpl. unfold act. by rewrite Hnew.
Qed.

(** A task that was executed is answered, and nothing else changes. *)
Lemma perform_execute nd ops rn ion s slow t p acts :
  service_inv rn ion s → pool_finishes (pool_of slow s) t p →
  execute_step nd ops (tk_server t) (tk_request t) = Ret acts →
  ∃ d d' r, rpcs s !! tk_rpc t = Some d ∧ rpc_request d' = rpc_request d ∧
    perform (tk_rpc t) acts (with_pool slow p s) =
    mkService (sv_world s) (raft_pool (with_pool slow p s)) (io_pool (with_pool slow p s))
      (<[tk_rpc t := d']> (rpcs s)) ((tk_rpc t, r) :: responses s) (received s).
Proof.
  intros Hi Hf Hx. destruct (pool_finishes_ok slow _ _ _ _ Hf (si_pool rn ion s slow Hi)) as [_ Hp].
  destruct (si_tasks _ _ _ Hi t) as (d & Hd & Hreq).
  { rewrite (tasks_split slow), Hp. by left. }
  destruct (execute_step_sends nd ops _ _ acts d Hx) as [Hnp (r & Hs)].
  destruct (perform_quiet (tk_rpc t) d acts (with_pool slow p s)) as (d' & Hreq' & ->);
    [by destruct slow|done|].
  exists d, d', r. rewrite Hs. by destruct slow.
Qed.

Lemma worker_step_inv nd ops rn ion slow s s' :
  service_inv rn ion s → worker_step nd ops slow s s' → service_inv rn ion s'.
Proof.
  intros Hi [p Hp|p t acts Hp Hx]; pose proof Hi as [Hacc Hnd Hk Ht Hr Hio].
  - destruct (pool_starts_ok slow _ _ _ Hp (si_pool rn ion s slow Hi)) as [Hok Htk].
    destruct slow; simpl in *; (split; simpl; try done);
      [unfold accounted in *; simpl; by rewrite Htk|intros t; rewrite Htk; apply Ht..|
       unfold accounted in *; simpl; by rewrite Htk|intros t; rewrite Htk; apply Ht].
  - destruct (pool_finishes_ok slow _ _ _ _ Hp (si_pool rn ion s slow Hi)) as [Hok Htk].
    destruct (perform_execute nd ops rn ion s slow t p acts Hi Hp Hx) as (d & d' & r & Hd & Hreq & ->).
    assert (∀ t0, t0 ∈ tasks (raft_pool (with_pool slow p s)) ++ tasks (io_pool (with_pool slow p s)) →
                  t0 ∈ tasks (raft_pool s) ++ tasks (io_pool s)) as Hsub.
    { intros t0. destruct slow; simpl in *; rewrite !elem_of_app, Htk, elem_of_cons; tauto. }
    split; simpl; [|done| | |by destruct slow..].
    + etrans; [|exact Hacc]. rewrite (accounted_split slow s), Htk. unfold accounted. simpl.
      destruct slow; simpl; solve_Permutation.
    + apply (known_insert _ _ _ _ Hk). apply Hk. by eexists.
    + eapply tasks_known_insert; [|done|done]. intros t0 Ht0. by apply Ht, Hsub.
Qed.

Lemma pool_step_inv nd ops rn ion s s' :
  service_inv rn ion s → pool_step nd ops s s' → service_inv rn ion s'.
Proof. intros Hi [Hs|Hs]; by eapply worker_step_inv. Qed.

Lemma service_step_inv nd ops cfg addr rn ion s s' :
  service_inv rn ion s → service_step nd ops cfg addr s s' → service_inv rn ion s'.
Proof.
  intros Hi [env rpc request r w Hf Hrun|s1 Hs|w].
  - apply receive_inv; [done|done|]. by eapply raftStep_cases.
  - by eapply pool_step_inv.
  - by destruct Hi.
Qed.

Lemma start_inv rn size w : service_inv rn (calculate_io_pool_size size) (start_service rn size w).
Proof.
  split; simpl; [done|constructor| |by intros t Ht%elem_of_nil|..].
  - intros rpc. rewrite lookup_empty, elem_of_nil. split; [done|]. by intros [? ?].
  - split; simpl; [done|constructor|lia|done].
  - split; simpl; [done|constructor|lia|done].
Qed.

Lemma reachable_service nd ops cfg addr rn size w s :
  rtc (service_step nd ops cfg addr) (start_service rn size w) s →
  service_inv rn (calculate_io_pool_size size) s.
Proof.
  intros Hs. pose proof (start_inv rn size w) as Hinit. revert Hinit.
  induction Hs as [|s1 s2 s3 Hstep _ IH]; [done|]. intros Hinv. apply IH. by eapply service_step_inv.
Qed.

(** *** Progress *)

(** A step of a worker leaves less to do, and leaves the other pool and the requests alone. *)
Lemma worker_step_work nd ops rn ion slow s s' :
  service_inv rn ion s → worker_step nd ops slow s s' →
  pool_work (pool_of slow s) = S (pool_work (pool_of slow s')) ∧
  pool_of (negb slow) s' = pool_of (negb slow) s ∧ received s' = received s ∧
  ∀ rpc, rpc_request <$> rpcs s' !! rpc = rpc_request <$> rpcs s !! rpc.
Proof.
  intros Hi [p Hp|p t acts Hp Hx].
  - rewrite pool_of_with. split; [by apply pool_starts_work|]. by destruct slow.
  - destruct (perform_execute nd ops rn ion s slow t p acts Hi Hp Hx) as (d & d' & r & Hd & Hreq & ->).
    assert (∀ rpc, rpc_request <$> <[tk_rpc t := d']> (rpcs s) !! rpc = rpc_request <$> rpcs s !! rpc) as Hsame.
    { intros rpc. destruct (decide (tk_rpc t = rpc)) as [<-|Hne]; [|by rewrite lookup_insert_ne].
      rewrite lookup_insert_eq, Hd. simpl. by rewrite Hreq. }
    apply pool_finishes_work in Hp. by destruct slow.
Qed.

(** A worker can go on as long as its pool has tasks, if executing them does not crash. *)
Lemma worker_goes_on nd ops rn ion slow s :
  service_inv rn ion s → (0 < if slow then ion else rn)%Z →
  (∀ t e, t ∈ tasks (pool_of slow s) → step nd ops (tk_server t) (g_msg (tk_request t)) ≠ Ub e) →
  tasks (pool_of slow s) ≠ [] → ∃ s', worker_step nd ops slow s s'.
Proof.
  intros Hi Hn Hok Hne.
  destruct (pool_idle_or_busy slow _ _ (si_pool rn ion s slow Hi) Hn) as [?|[[p Hp]|(t & p & Ht & Hp)]];
    [done|eexists; by apply worker_starts|].
  destruct (execute_step_returns nd ops (tk_server t) (tk_request t)) as [acts Hx];
    [intros e; by apply Hok|]. eexists. by eapply worker_finishes.
Qed.

(** The task of an RPC in a pool has the request of the RPC. *)
Lemma task_request rn ion s slow t :
  service_inv rn ion s → t ∈ tasks (pool_of slow s) →
  ∃ d, rpcs s !! tk_rpc t = Some d ∧ rpc_request d = tk_request t.
Proof.
  intros Hi Ht. apply (si_tasks _ _ _ Hi). rewrite (tasks_split slow). apply elem_of_app. by left.
Qed.

(** An RPC that has not been answered is in the pool of its kind. *)
Lemma unanswered_pool rn ion s rpc d :
  service_inv rn ion s → rpcs s !! rpc = Some d → rpc ∉ (responses s).*1 →
  ∃ slow t, t ∈ tasks (pool_of slow s) ∧ tk_rpc t = rpc ∧ tk_request t = rpc_request d ∧
            (msg_type_of (rpc_request d) ∈ slow_types ↔ slow = true).
Proof.
  intros Hi Hd Hno. assert (rpc ∈ accounted s) as Hin.
  { rewrite (si_accounted _ _ _ Hi). apply (si_rpcs _ _ _ Hi). by eexists. }
  assert (∃ slow, rpc ∈ tk_rpc <$> tasks (pool_of slow s)) as [slow Hs].
  { unfold accounted in Hin. rewrite !elem_of_app in Hin.
    destruct Hin as [?|[?|?]]; [done|by exists false|by exists true]. }
  apply list_elem_of_fmap in Hs as (t & -> & Ht). exists slow, t.
  destruct (task_request rn ion s slow t Hi Ht) as (d0 & Hd0 & Hreq).
  assert (d0 = d) as -> by congruence. split; [done|]. split; [done|]. split; [done|].
  pose proof (po_kind _ _ _ (si_pool rn ion s slow Hi)) as Hk. rewrite Forall_forall in Hk.
  rewrite Hreq. by apply Hk.
Qed.

(** Runs of one pool, and of both. *)
Lemma worker_steps_work nd ops rn ion slow k s s' :
  service_inv rn ion s → nsteps (worker_step nd ops slow) k s s' →
  service_inv rn ion s' ∧ pool_work (pool_of slow s) = k + pool_work (pool_of slow s') ∧
  pool_of (negb slow) s' = pool_of (negb slow) s ∧ received s' = received s ∧
  ∀ rpc, rpc_request <$> rpcs s' !! rpc = rpc_request <$> rpcs s !! rpc.
Proof.
  intros Hi Hs. induction Hs as [s|k s1 s2 s3 Hstep _ IH]; [done|].
  destruct (worker_step_work nd ops rn ion slow s1 s2 Hi Hstep) as (Hw & Ho & Hrc & Hrq).
  destruct IH as (Hi3 & Hw3 & Ho3 & Hrc3 & Hrq3); [by eapply worker_step_inv|].
  split; [done|]. split; [lia|]. split; [congruence|]. split; [congruence|].
  intros rpc. by rewrite Hrq3.
Qed.

Definition service_work (s : service) : nat := pool_work (raft_pool s) + pool_work (io_pool s).

Lemma pool_step_work nd ops rn ion s s' :
  service_inv rn ion s → pool_step nd ops s s' →
  service_work s = S (service_work s') ∧ received s' = received s ∧
  ∀ rpc, rpc_request <$> rpcs s' !! rpc = rpc_request <$> rpcs s !! rpc.
Proof.
  unfold service_work.
  intros Hi [Hs|Hs]; destruct (worker_step_work nd ops rn ion _ s s' Hi Hs) as (Hw & Ho & Hrc & Hrq);
    simpl in *; (split; [rewrite Ho; lia|done]).
Qed.

Lemma pool_steps_work nd ops rn ion k s s' :
  service_inv rn ion s → nsteps (pool_step nd ops) k s s' →
  service_inv rn ion s' ∧ service_work s = k + service_work s' ∧ received s' = received s ∧
  ∀ rpc, rpc_request <$> rpcs s' !! rpc = rpc_request <$> rpcs s !! rpc.
Proof.
  intros Hi Hs. induction Hs as [s|k s1 s2 s3 Hstep _ IH]; [done|].
  destruct (pool_step_work nd ops rn ion s1 s2 Hi Hstep) as (Hw & Hrc & Hrq).
  destruct IH as (Hi3 & Hw3 & Hrc3 & Hrq3); [by eapply pool_step_inv|].
  split; [done|]. split; [lia|]. split; [congruence|]. intros rpc. by rewrite Hrq3.
Qed.

(** A request that is known at the end was known at the start. *)
Lemma same_request (m m' : gmap N rpc_data) rpc d :
  (∀ k, rpc_request <$> m' !! k = rpc_request <$> m !! k) → m !! rpc = Some d →
  ∃ d', m' !! rpc = Some d' ∧ rpc_request d' = rpc_request d.
Proof.
  intros Hm Hd. specialize (Hm rpc). rewrite Hd in Hm. simpl in Hm.
  destruct (m' !! rpc) as [d'|]; [|done]. exists d'. by injection Hm.
Qed.

Lemma io_pool_size_pos size : (0 < calculate_io_pool_size size)%Z.
Proof. unfold calculate_io_pool_size. case_decide; lia. Qed.
End raft_step_inv.

Section raft_step_runs.
Context `{UuidOps} `{MsgTypes} `{RaftParams}.
Context (nd : bool) (ops : step_ops).

(** A well-formed answer of NuRaft, as the client decodes it. *)
Lemma step_decodes server request rcreq resp :
  toRequest nd request = Some rcreq → process_req ops server rcreq = Ret (Some resp) →
  wf_resp resp → (∀ b, rs_ctx resp = Some b → buf_pos b = 0%nat) →
  ∃ reply, step nd ops server request = Ret (status_ok, reply) ∧
    toResponse reply =
    Some (mkGrpcResp (norm_resp resp)
            (if decide (rs_result_code resp = code.NOT_LEADER)
             then if rs_accepted resp then EmptyString
                  else from_option sc_endpoint EmptyString (get_srv_config ops server (rs_dst resp))
             else EmptyString)).
Proof.
  intros Hreq Hproc Hwf Hpos. destruct (fromRCResponse_ctx resp Hpos) as (p & Hp & _).
  assert (p_dest_addr p = EmptyString) as Hnone.
  { unfold fromRCResponse in Hp.
    destruct (match rs_ctx resp with Some ctx => _ | None => _ end); [|done]. by injection Hp as <-. }
  unfold step. rewrite Hreq, Hproc, Hp. eexists. split; [done|].
  rewrite (decode_response resp p _ Hwf Hpos Hp), Hnone. do 2 f_equal.
Qed.

(** The message a wrapper sends for a request. *)
Lemma send_run mcfg s l t p gid gtype req :
  heap s !! l = Some (ProtoClient (mkProto (Some t) gid gtype (uuid_to_string p))) → wf_req req →
  ∃ msg d,
    let m := mkRaftGroupMsg (uuid_to_string gid) msg (uuid_to_string p) gtype in
    send mcfg (Some l) req s = (Ret (Issued (CallRaftStep t m d) (rewind_req req)), s) ∧
    toRequest nd msg = Some (rewind_req req) ∧
    b_type (msg_base_of msg) = rq_type req ∧ b_dest (msg_base_of msg) = rq_dst req.
Proof.
  intros Hl Hwf. destruct (fromRCRequest_total req) as (rc & Hrc & _).
  pose proof (decode_encoded nd req rc Hwf Hrc) as Hdec. destruct Hwf as (_ & Hu & _).
  eexists _, _. split_and!; [|exact Hdec|simpl; by rewrite (u32_id _ Hu)|done].
  unfold send, mbind, M_bind, gets. simpl. rewrite Hl. unfold request_message. by rewrite Hrc.
Qed.

(** The answer to a message, from the group's server to the client's handler. *)
Lemma execute_step_decodes server m rcreq resp :
  toRequest nd (g_msg m) = Some rcreq → process_req ops server rcreq = Ret (Some resp) →
  wf_resp resp → (∀ b, rs_ctx resp = Some b → buf_pos b = 0%nat) →
  ∃ acts reply, execute_step nd ops server m = Ret acts ∧
    sent (new_rpc m) acts = [(status_ok, reply)] ∧
    send_handler (g_msg reply) status_ok =
    mkHandler (Some (mkGrpcResp (norm_resp resp)
      (if decide (rs_result_code resp = code.NOT_LEADER)
       then if rs_accepted resp then EmptyString
            else from_option sc_endpoint EmptyString (get_srv_config ops server (rs_dst resp))
       else EmptyString))) None.
Proof.
  intros Hreq Hproc Hresp Hpos.
  destruct (step_decodes server _ _ resp Hreq Hproc Hresp Hpos) as (reply & Hstep & Hto).
  eexists _, _. split; [unfold execute_step; by rewrite Hstep|]. split; [done|].
  unfold send_handler. simpl. by rewrite Hto.
Qed.
End raft_step_runs.

(** ** Properties *)

Section raft_step_theorems.
Context `{UuidOps} `{MsgTypes} `{RaftParams}.

(** C7: Every RAFT message is answered exactly once, whatever messages arrive, whatever
    NuRaft answers or throws and however the threads of the two pools are scheduled: no RPC
    is answered twice or without having been received, and from every state the pools stop
    after a bounded number of steps, when every RPC received has been answered.  There must be
    a thread for the RAFT pool, and handling a message must not crash the process. *)
Theorem every_rpc_answered_once (nd : bool) (ops : step_ops) (cfg : service_cfg) (addr : uuid)
    (raft_threads io_size : Z) (w : world) (s : service) :
  (0 < raft_threads)%Z →
  rtc (service_step nd ops cfg addr) (start_service raft_threads io_size w) s →
  (∀ rpc d server e, rpcs s !! rpc = Some d → step nd ops server (g_msg (rpc_request d)) ≠ Ub e) →
  NoDup (responses s).*1 ∧ (∀ rpc, rpc ∈ (responses s).*1 → rpc ∈ received s) ∧
  ∀ k s', nsteps (pool_step nd ops) k s s' →
    k ≤ service_work s ∧
    ((∀ s'', ¬ pool_step nd ops s' s'') → (responses s').*1 ≡ₚ received s).
Proof.
  intros Hrn Hs Hok. pose proof (reachable_service nd ops cfg addr _ _ w s Hs) as Hi.
  assert (NoDup (accounted s)) as Hnd by (rewrite (si_accounted _ _ _ Hi); apply Hi).
  split; [by apply NoDup_app in Hnd as [? _]|]. split.
  { intros rpc Hin. rewrite <-(si_accounted _ _ _ Hi). apply elem_of_app. by left. }
  intros k s' Hk. destruct (pool_steps_work nd ops _ _ k s s' Hi Hk) as (Hi' & Hw & Hrc & Hrq).
  split; [lia|]. intros Hstuck.
  assert (∀ slow, tasks (pool_of slow s') = []) as Hempty.
  { intros slow. destruct (decide (tasks (pool_of slow s') = [])) as [|Hne]; [done|exfalso].
    destruct (worker_goes_on nd ops _ _ slow s' Hi') as [s'' Hs''].
    - destruct slow; [apply io_pool_size_pos|done].
    - intros t e Ht. destruct (task_request _ _ s' slow t Hi' Ht) as (d' & Hd' & <-).
      destruct (same_request (rpcs s') (rpcs s) (tk_rpc t) d' (λ k, eq_sym (Hrq k)) Hd') as (d & Hd & <-).
      by eapply Hok.
    - done.
    - apply (Hstuck s''). destruct slow; [by right|by left]. }
  rewrite <-Hrc, <-(si_accounted _ _ _ Hi'). unfold accounted.
  pose proof (Hempty false) as Hr. pose proof (Hempty true) as Hio. simpl in Hr, Hio.
  by rewrite Hr, Hio, app_nil_r.
Qed.

(** C30: The two pools never mix: in every reachable state the I/O pool holds append-entries and
    install-snapshot messages only and the RAFT pool none of them, an RPC that has not been
    answered is in the pool of its kind, and the counters of active threads are the numbers
    of running tasks, as far as an [int] can tell. *)
Theorem pools_keep_apart (nd : bool) (ops : step_ops) (cfg : service_cfg) (addr : uuid)
    (raft_threads io_size : Z) (w : world) (s : service) :
  rtc (service_step nd ops cfg addr) (start_service raft_threads io_size w) s →
  (∀ t, t ∈ tasks (io_pool s) →
        msg_type_of (tk_request t) ∈ [append_entries_request; install_snapshot_request]) ∧
  (∀ t, t ∈ tasks (raft_pool s) →
        msg_type_of (tk_request t) ∉ [append_entries_request; install_snapshot_request]) ∧
  (∀ rpc d, rpcs s !! rpc = Some d → rpc ∉ (responses s).*1 →
     rpc ∈ tk_rpc <$> tasks (if decide (msg_type_of (rpc_request d) ∈
                                        [append_entries_request; install_snapshot_request])
                             then io_pool s else raft_pool s)) ∧
  ∀ slow, active_threads (pool_of slow s) = i32 (Z.of_nat (length (running (pool_of slow s)))).
Proof.
  intros Hs. pose proof (reachable_service nd ops cfg addr _ _ w s Hs) as Hi.
  assert (∀ slow t, t ∈ tasks (pool_of slow s) → slow_task t ↔ slow = true) as Hk.
  { intros slow. apply Forall_forall. apply (si_pool _ _ s slow Hi). }
  split; [intros t Ht; by apply (Hk true t Ht)|].
  split; [intros t Ht Hsl; by apply (Hk false t Ht) in Hsl|].
  split; [|intros slow; apply (si_pool _ _ s slow Hi)].
  intros rpc d Hd Hno. destruct (unanswered_pool _ _ s rpc d Hi Hd Hno) as (slow & t & Ht & <- & _ & Hty).
  fold slow_types. apply list_elem_of_fmap. exists t. split; [done|].
  case_decide as Hdec; destruct slow; try done; [by apply Hty in Hdec|]. exfalso. by apply Hdec, Hty.
Qed.

(** C27: No head-of-line blocking.  Suppose that handling append-entries and install-snapshot
    messages never ends, and that the I/O pool makes no step at all: the RAFT pool stops after
    a bounded number of steps of its own, and then every message of another type that was
    received has been answered, unless one of these crashes the process. *)
Theorem fast_messages_not_blocked (nd : bool) (ops : step_ops) (cfg : service_cfg) (addr : uuid)
    (raft_threads io_size : Z) (w : world) (s : service) :
  (0 < raft_threads)%Z →
  rtc (service_step nd ops cfg addr) (start_service raft_threads io_size w) s →
  (∀ rpc d server e, rpcs s !! rpc = Some d →
     msg_type_of (rpc_request d) ∉ [append_entries_request; install_snapshot_request] →
     step nd ops server (g_msg (rpc_request d)) ≠ Ub e) →
  ∀ k s', nsteps (raft_pool_step nd ops) k s s' →
    k ≤ pool_work (raft_pool s) ∧ io_pool s' = io_pool s ∧
    ((∀ s'', ¬ raft_pool_step nd ops s' s'') →
     ∀ rpc d, rpcs s !! rpc = Some d →
       msg_type_of (rpc_request d) ∉ [append_entries_request; install_snapshot_request] →
       rpc ∈ (responses s').*1).
Proof.
  intros Hrn Hs Hok k s' Hk. pose proof (reachable_service nd ops cfg addr _ _ w s Hs) as Hi.
  destruct (worker_steps_work nd ops _ _ false k s s' Hi Hk) as (Hi' & Hw & Ho & _ & Hrq). simpl in *.
  split; [lia|]. split; [done|]. intros Hstuck rpc d Hd Hty.
  destruct (decide (rpc ∈ (responses s').*1)) as [|Hno]; [done|exfalso].
  destruct (same_request (rpcs s) (rpcs s') rpc d Hrq Hd) as (d' & Hd' & Hreq).
  destruct (unanswered_pool _ _ s' rpc d' Hi' Hd' Hno) as (slow & t & Ht & _ & _ & Hslow).
  rewrite Hreq in Hslow. destruct slow; [by apply Hty, Hslow|].
  destruct (worker_goes_on nd ops _ _ false s' Hi' Hrn) as [s'' Hs''].
  - intros t0 e Ht0. destruct (task_request _ _ s' false t0 Hi' Ht0) as (d0 & Hd0 & Hr0).
    destruct (same_request (rpcs s') (rpcs s) (tk_rpc t0) d0 (λ k, eq_sym (Hrq k)) Hd0) as (d1 & Hd1 & Hr1).
    rewrite <-Hr0, <-Hr1. eapply Hok; [done|]. rewrite Hr1, Hr0.
    pose proof (po_kind _ _ _ (si_raft _ _ _ Hi')) as Hkind. rewrite Forall_forall in Hkind.
    intros Hsl. by apply (Hkind t0 Ht0) in Hsl.
  - intros Hnil. rewrite Hnil in Ht. by apply elem_of_nil in Ht.
  - by apply (Hstuck s'').
Qed.

(** C4: A RAFT message goes from client to server and back unharmed: the message a wrapper
    sends is accepted by the service it is addressed to and handed to the group's server
    as the original request, and whatever well-formed response NuRaft gives is handed to
    NuRaft's callback on the client, with the leader's address when the server is not
    the leader. *)
Theorem raft_message_end_to_end `{!UuidLaws} (mcfg : mesg_cfg) (nd : bool) (ops : step_ops)
    (cfg : service_cfg) (env : app_env) (s : pool) (l t : N) (p gid : uuid) (gtype : string)
    (req : req_msg) (w : world) (server : N) (resp : resp_msg) :
  heap s !! l = Some (ProtoClient (mkProto (Some t) gid gtype (uuid_to_string p))) →
  wf_req req → rq_type req ≠ join_cluster_request →
  raft_servers w !! gid = Some server →
  process_req ops server (rewind_req req) = Ret (Some resp) →
  wf_resp resp → (∀ b, rs_ctx resp = Some b → buf_pos b = 0%nat) →
  ∃ m d acts reply,
    send mcfg (Some l) req s = (Ret (Issued (CallRaftStep t m d) (rewind_req req)), s) ∧
    raftStep cfg env p m w =
      (Ret ([if is_slow_message (rq_type req) then PostIo server else PostRaft server], false), w) ∧
    execute_step nd ops server m = Ret acts ∧ sent (new_rpc m) acts = [(status_ok, reply)] ∧
    send_complete true t (g_msg reply) status_ok s =
      (Ret (mkHandler (Some (mkGrpcResp (norm_resp resp)
              (if decide (rs_result_code resp = code.NOT_LEADER)
               then if rs_accepted resp then EmptyString
                    else from_option sc_endpoint EmptyString (get_srv_config ops server (rs_dst resp))
               else EmptyString))) None), s).
Proof.
  intros Hl Hwf Hty Hsrv Hproc Hresp Hpos.
  destruct (send_run nd mcfg s l t p gid gtype req Hl Hwf) as (msg & d & Hsend & Hdec & Hbt & _).
  destruct (execute_step_decodes nd ops server
              (mkRaftGroupMsg (uuid_to_string gid) msg (uuid_to_string p) gtype) _ resp
              Hdec Hproc Hresp Hpos) as (acts & reply & Hexec & Hsent & Hto).
  eexists _, _, acts, reply. split_and!; [exact Hsend| |exact Hexec|exact Hsent|].
  - unfold raftStep. cbn [g_group_id g_intended_addr g_msg].
    rewrite !generator_to_string, decide_False, Hbt, decide_False by (tauto || done).
    unfold mbind, M_bind, gets. simpl. by rewrite Hsrv.
  - unfold send_complete, mbind, M_bind. simpl. by rewrite Hto.
Qed.
End raft_step_theorems.

(** ** Witnesses *)

Import Demo GroupsDemo.

Module RaftStepDemo.
(** NuRaft accepts everything; the process is the member [U2] and serves the group [U1]. *)
Definition demo_resp : resp_msg := mkResp 1 4 2 1 5 true None 0 code.OK.
Definition demo_step_ops : step_ops := mkStepOps (λ _ _, Ret (Some demo_resp)) (λ _ _, None).

Definition demo_request (type : Z) : RaftGroupMsg :=
  mkRaftGroupMsg (demo_to_string U1)
    (mkRaftMessage (Some (mkBase 1 type 1 2)) (RcRequest (mkRCRequest 0 0 0 [])))
    (demo_to_string U2) "default".

(** The message type 9 is a fast one. *)
Definition idle : service := start_service 2 0 leader_world.
Definition one_queued : service := receive idle leader_world 0 (demo_request 9) ([PostRaft 1], false).
Definition both_queued : service :=
  receive one_queued leader_world 1 (demo_request append_entries_request) ([PostIo 1], false).

Lemma both_queued_reachable :
  rtc (service_step true demo_step_ops demo_service U2) idle both_queued.
Proof.
  apply (rtc_l _ _ one_queued); [|apply rtc_once].
  - apply (sv_receives (H := demo_uuid_ops) true demo_step_ops demo_service U2 idle demo_app 0 (demo_request 9)
             ([PostRaft 1], false) leader_world); [apply not_elem_of_nil|by vm_compute].
  - apply (sv_receives (H := demo_uuid_ops) true demo_step_ops demo_service U2 one_queued demo_app 1
             (demo_request append_entries_request) ([PostIo 1], false) leader_world);
      [|by vm_compute]. apply (bool_decide_unpack _). by vm_compute.
Qed.
End RaftStepDemo.
Import RaftStepDemo.

Lemma every_rpc_answered_once_witness :
  NoDup (responses both_queued).*1 ∧
  (∀ rpc, rpc ∈ (responses both_queued).*1 → rpc ∈ received both_queued) ∧
  ∀ k s', nsteps (pool_step true demo_step_ops) k both_queued s' →
    k ≤ service_work both_queued ∧
    ((∀ s'', ¬ pool_step true demo_step_ops s' s'') → (responses s').*1 ≡ₚ [1%N; 0%N]).
Proof.
  apply (every_rpc_answered_once (H := demo_uuid_ops) true demo_step_ops demo_service U2 2 0 leader_world
           both_queued); [done|apply both_queued_reachable|].
  intros rpc d server e _. by vm_compute.
Defined.

Lemma pools_keep_apart_witness :
  msg_type_of (demo_request append_entries_request) ∈ [append_entries_request; install_snapshot_request] ∧
  msg_type_of (demo_request 9) ∉ [append_entries_request; install_snapshot_request].
Proof.
  destruct (pools_keep_apart (H := demo_uuid_ops) true demo_step_ops demo_service U2 2 0 leader_world
              both_queued both_queued_reachable) as (Hio & Hr & _).
  split; [apply (Hio (mkTask 1 1 (demo_request append_entries_request)))|
          apply (Hr (mkTask 0 1 (demo_request 9)))]; by vm_compute; left.
Defined.

Lemma fast_messages_not_blocked_witness :
  length (tasks (io_pool both_queued)) = 1 ∧
  ∀ k s', nsteps (raft_pool_step true demo_step_ops) k both_queued s' →
    k ≤ 2 ∧ io_pool s' = io_pool both_queued ∧
    ((∀ s'', ¬ raft_pool_step true demo_step_ops s' s'') → 0%N ∈ (responses s').*1).
Proof.
  split; [by vm_compute|]. intros k s' Hk.
  destruct (fast_messages_not_blocked (H := demo_uuid_ops) true demo_step_ops demo_service U2 2 0
              leader_world both_queued ltac:(done) both_queued_reachable ltac:(intros; by vm_compute)
              k s' Hk) as (Hle & Hio & Hans).
  split; [exact Hle|]. split; [exact Hio|]. intros Hst.
  apply (Hans Hst 0%N (new_rpc (demo_request 9))); [by vm_compute|].
  apply (bool_decide_unpack _). by vm_compute.
Defined.

(** The pool of a client that talks to the member [U2] for the group [U1]. *)
Definition demo_client_pool : pool :=
  mkPool {[1%N := @ProtoClient demo_uuid_ops (mkProto (Some 0%N) U1 "default" (demo_to_string U2))]}
    2 ∅ ∅.

Lemma raft_message_end_to_end_witness :
  ∃ m d acts reply,
    send (mkCfg 2 2) (Some 1%N) (mkReq 1 append_entries_request 1 2 0 0 0 []) demo_client_pool
      = (Ret (Issued (CallRaftStep 0 m d) (mkReq 1 append_entries_request 1 2 0 0 0 [])),
         demo_client_pool) ∧
    raftStep demo_service demo_app U2 m leader_world = (Ret ([PostIo 1], false), leader_world) ∧
    execute_step true demo_step_ops 1 m = Ret acts ∧ sent (new_rpc m) acts = [(status_ok, reply)] ∧
    send_complete true 0 (g_msg reply) status_ok demo_client_pool =
      (Ret (mkHandler (Some (mkGrpcResp demo_resp EmptyString)) None), demo_client_pool).
Proof.
  destruct (raft_message_end_to_end (H := demo_uuid_ops) (mkCfg 2 2) true demo_step_ops demo_service
           demo_app demo_client_pool 1 0 U2 U1 "default"
           (mkReq 1 append_entries_request 1 2 0 0 0 []) leader_world 1 demo_resp)
    as (m & d & acts & reply & Hsend & Hroute & Hexec & Hsent & Hdone).
  - done.
  - unfold wf_req, in_u64, in_u32, in_i32. simpl. repeat split; try lia. constructor.
  - done.
  - by vm_compute.
  - done.
  - unfold wf_resp, in_u64, in_u32, in_i32, in_i64. simpl. unfold code.OK. lia.
  - done.
  - exists m, d, acts, reply.
    split_and!; [exact Hsend|exact Hroute|exact Hexec|exact Hsent|exact Hdone].
Defined.
