(* ===== verification/Metrics.v ===== *)
(** * Metrics of the RaftStep service

    The counters, gauges and histograms that [proto_service] keeps
    ([src/proto/proto_service.cpp], [src/lib/service.hpp]): messages and waiting times per
    thread pool, threads at work, messages per group.  The service of [RaftStep] runs
    with a clock and its metrics beside it. *)

From stdpp Require Import base gmap strings list numbers relations.
From S2P Require Import Prelude Types Codec Groups RaftStep.

(** [service_metrics], the part of one pool: [raft_pool_msg_count] or [io_pool_msg_count],
    the observations of [..._pool_wait_time_us], the gauge [..._pool_active_threads], and
    the RPCs whose task has updated the gauge. *)
Record pool_metrics := mkPoolMetrics {
  msg_count : nat;
  wait_time_us : list Z;
  active_gauge : Z;
  reported : list N;
}.

(** [group_metrics]: [group_steps] and the number of observations of
    [append_entries_latency_us]. *)
Record group_metrics := mkGroupMetrics { group_steps : nat; append_entries_latency : nat }.

(** What happens that the metrics are about: a message is posted to a pool, a thread of the
    pool starts it, a server executes it; with the time of the clock. *)
Inductive metric_event :=
| Posted (slow : bool) (rpc : N) (at_us : Z)
| Started (slow : bool) (rpc : N) (at_us : Z)
| Executed (server : N) (request : RaftGroupMsg).

Section metrics.
Context `{UuidOps} `{MsgTypes} `{RaftParams}.

(** The service with its metrics: those of the pools, those of the servers that have any,
    when each message was posted, and [steady_clock::now()], in microseconds. *)
Record metered := mkMetered {
  mt_service : service;
  mt_raft : pool_metrics;
  mt_io : pool_metrics;
  mt_groups : gmap N group_metrics;
  mt_posted : gmap N Z;
  mt_clock : Z;
}.

Definition metrics_of (slow : bool) (m : metered) : pool_metrics :=
  if slow then mt_io m else mt_raft m.
Definition with_metrics (slow : bool) (pm : pool_metrics) (m : metered) : metered :=
  if slow then mkMetered (mt_service m) (mt_raft m) pm (mt_groups m) (mt_posted m) (mt_clock m)
  else mkMetered (mt_service m) pm (mt_io m) (mt_groups m) (mt_posted m) (mt_clock m).
Definition with_service (s : service) (m : metered) : metered :=
  mkMetered s (mt_raft m) (mt_io m) (mt_groups m) (mt_posted m) (mt_clock m).

(** ** What the code records *)

(** [raftStep] counts a message before it is posted, and notes the time. *)
Definition count_post (rpc : N) (slow : bool) (m : metered) : metered :=
  let pm := metrics_of slow m in
  let m := with_metrics slow (mkPoolMetrics (S (msg_count pm)) (wait_time_us pm) (active_gauge pm)
                                (reported pm)) m in
  mkMetered (mt_service m) (mt_raft m) (mt_io m) (mt_groups m) (<[rpc := mt_clock m]> (mt_posted m))
    (mt_clock m).

Definition count_message (rpc : N) (acts : list rpc_action) (m : metered) : metered :=
  foldl (λ m a, match a with
                | PostIo _ => count_post rpc true m
                | PostRaft _ => count_post rpc false m
                | _ => m
                end) m acts.

(** A task that starts observes how long it waited. *)
Definition observe_wait (slow : bool) (t : task) (m : metered) : metered :=
  let pm := metrics_of slow m in
  let waited := (mt_clock m - default 0 (mt_posted m !! tk_rpc t))%Z in
  with_metrics slow (mkPoolMetrics (msg_count pm) (wait_time_us pm ++ [waited]) (active_gauge pm)
                       (reported pm)) m.

(** [GAUGE_UPDATE] with the number of threads at work at that moment. *)
Definition update_gauge (slow : bool) (t : task) (m : metered) : metered :=
  let pm := metrics_of slow m in
  with_metrics slow (mkPoolMetrics (msg_count pm) (wait_time_us pm)
                       (active_threads (pool_of slow (mt_service m))) (tk_rpc t :: reported pm)) m.

(** Whether [step] observes its latency: NuRaft has answered, and the message is an
    append-entries request. *)
Definition observes_latency (ndebug : bool) (ops : step_ops) (server : N) (request : RaftGroupMsg)
  : bool :=
  match toRequest ndebug (g_msg request) with
  | None => false
  | Some rcreq =>
      match process_req ops server rcreq with
      | Ret (Some _) => bool_decide (rq_type rcreq = append_entries_request)
      | _ => false
      end
  end.

(** [execute_step] and [step], for a server that has metrics. *)
Definition count_step (msg_metrics ndebug : bool) (ops : step_ops) (t : task)
    (groups : gmap N group_metrics) : gmap N group_metrics :=
  if msg_metrics then
    let gm := default (mkGroupMetrics 0 0) (groups !! tk_server t) in
    <[tk_server t := mkGroupMetrics (S (group_steps gm))
                       (append_entries_latency gm +
                        if observes_latency ndebug ops (tk_server t) (tk_request t) then 1 else 0)]> groups
  else groups.

(** ** Runs *)

Context (msg_metrics ndebug : bool) (ops : step_ops) (cfg : service_cfg) (addr : uuid).

(** The events of a handler. *)
Definition post_events (rpc : N) (now : Z) (acts : list rpc_action) : list metric_event :=
  omap (λ a, match a with
             | PostIo _ => Some (Posted true rpc now)
             | PostRaft _ => Some (Posted false rpc now)
             | _ => None
             end) acts.

Inductive metered_step (m : metered) : list metric_event → metered → Prop :=
| mt_receives env rpc request r w :
    rpc ∉ received (mt_service m) →
    raftStep cfg env addr request (sv_world (mt_service m)) = (Ret r, w) →
    metered_step m (post_events rpc (mt_clock m) r.1)
      (with_service (receive (mt_service m) w rpc request r) (count_message rpc r.1 m))
| mt_starts slow n t q r a :
    pool_of slow (mt_service m) = mkTPool n (t :: q) r a → (Z.of_nat (length r) < n)%Z →
    metered_step m [Started slow (tk_rpc t) (mt_clock m)]
      (with_service (with_pool slow (mkTPool n q (t :: r) (i32 (a + 1))) (mt_service m))
         (observe_wait slow t m))
| mt_reports slow t :
    t ∈ running (pool_of slow (mt_service m)) → tk_rpc t ∉ reported (metrics_of slow m) →
    metered_step m [] (update_gauge slow t m)
| mt_finishes slow p t acts :
    pool_finishes (pool_of slow (mt_service m)) t p →
    execute_step ndebug ops (tk_server t) (tk_request t) = Ret acts →
    tk_rpc t ∈ reported (metrics_of slow m) →
    metered_step m [Executed (tk_server t) (tk_request t)]
      (mkMetered (perform (tk_rpc t) acts (with_pool slow p (mt_service m))) (mt_raft m) (mt_io m)
         (count_step msg_metrics ndebug ops t (mt_groups m)) (mt_posted m) (mt_clock m))
| mt_world w :
    let s := mt_service m in
    metered_step m []
      (with_service (mkService w (raft_pool s) (io_pool s) (rpcs s) (responses s) (received s)) m)
| mt_ticks d :
    (0 ≤ d)%Z →
    metered_step m []
      (mkMetered (mt_service m) (mt_raft m) (mt_io m) (mt_groups m) (mt_posted m) (mt_clock m + d)).

(** A run with its history. *)
Definition metered_run : metered → list metric_event → metered → Prop := labelled_run metered_step.

Definition no_pool_metrics : pool_metrics := mkPoolMetrics 0 [] 0 [].

Definition start_metered (s : service) (now : Z) : metered :=
  mkMetered s no_pool_metrics no_pool_metrics ∅ ∅ now.

(** ** What a history says *)

Definition is_posted (slow : bool) (e : metric_event) : bool :=
  match e with Posted slow' _ _ => bool_decide (slow' = slow) | _ => false end.

Definition posts (slow : bool) (h : list metric_event) : nat := length (List.filter (is_posted slow) h).

(** For each message a pool has started, in order, the time since it was posted. *)
Fixpoint waits (slow : bool) (posted : gmap N Z) (h : list metric_event) : list Z :=
  match h with
  | [] => []
  | Posted _ rpc now :: h' => waits slow (<[rpc := now]> posted) h'
  | Started slow' rpc now :: h' =>
      (if bool_decide (slow' = slow) then [(now - default 0 (posted !! rpc))%Z] else [])
      ++ waits slow posted h'
  | Executed _ _ :: h' => waits slow posted h'
  end.

Definition posted_after (h : list metric_event) : gmap N Z :=
  foldl (λ ps e, match e with Posted _ rpc now => <[rpc := now]> ps | _ => ps end) ∅ h.

Definition is_executed (server : N) (e : metric_event) : bool :=
  match e with Executed n _ => bool_decide (n = server) | _ => false end.

Definition is_latency (server : N) (e : metric_event) : bool :=
  match e with
  | Executed n request => bool_decide (n = server) && observes_latency ndebug ops n request
  | _ => false
  end.

Definition executions (server : N) (h : list metric_event) : nat :=
  length (List.filter (is_executed server) h).
Definition latencies (server : N) (h : list metric_event) : nat :=
  length (List.filter (is_latency server) h).
End metrics.

(** ** Lemmas *)

Section metrics_lemmas.
Context `{UuidOps} `{MsgTypes} `{RaftParams}.
Context (msg_metrics ndebug : bool) (ops : step_ops) (cfg : service_cfg) (addr : uuid).
Implicit Types (m : metered) (p : thread_pool) (pm : pool_metrics) (t : task) (slow : bool).
Implicit Types (posted : gmap N Z) (groups : gmap N group_metrics) (h : list metric_event).

Lemma count_message_service rpc acts m : mt_service (count_message rpc acts m) = mt_service m.
Proof.
  unfold count_message. revert m. induction acts as [|a acts IH]; intros m; [done|].
  simpl. rewrite IH. by destruct a.
Qed.

(** The service does not see its metrics. *)
Lemma metered_erases m evs m' :
  metered_step msg_metrics ndebug ops cfg addr m evs m' →
  mt_service m' = mt_service m ∨ service_step ndebug ops cfg addr (mt_service m) (mt_service m').
Proof.
  intros Hs. destruct Hs as [env rpc request r w Hnew Hr|slow n t q r a Hp Hn|slow t Hin Hrep
                            |slow p t acts Hp Hx Hrep|w s|d Hd].
  - right. by eapply sv_receives.
  - right. apply sv_pools. assert (worker_step ndebug ops slow (mt_service m)
      (with_pool slow (mkTPool n q (t :: r) (i32 (a + 1))) (mt_service m))) as Hw.
    { apply worker_starts. rewrite Hp. by constructor. }
    destruct slow; [by right|by left].
  - left. by destruct slow.
  - right. apply sv_pools.
    pose proof (worker_finishes ndebug ops slow (mt_service m) p t acts Hp Hx) as Hw.
    destruct slow; [by right|by left].
  - right. apply sv_groups.
  - by left.
Qed.

(** *** Histories *)

Lemma posts_app slow h h' : posts slow (h ++ h') = posts slow h + posts slow h'.
Proof. unfold posts. by rewrite List.filter_app, length_app. Qed.

Lemma executions_app n h h' : executions n (h ++ h') = executions n h + executions n h'.
Proof. unfold executions. by rewrite List.filter_app, length_app. Qed.

Lemma latencies_app n h h' :
  latencies ndebug ops n (h ++ h') = latencies ndebug ops n h + latencies ndebug ops n h'.
Proof. unfold latencies. by rewrite List.filter_app, length_app. Qed.

Lemma posted_after_app h h' :
  posted_after (h ++ h') =
  foldl (λ ps e, match e with Posted _ rpc now => <[rpc := now]> ps | _ => ps end) (posted_after h) h'.
Proof. apply foldl_app. Qed.

Lemma waits_app slow h h' : waits slow ∅ (h ++ h') = waits slow ∅ h ++ waits slow (posted_after h) h'.
Proof.
  unfold posted_after. generalize (∅ : gmap N Z). induction h as [|[s rpc z|s rpc z|n r] h IH]; intros posted;
    [done|apply IH| |apply IH]. simpl. by rewrite IH, app_assoc.
Qed.

(** *** The pools *)

(** What the metrics of a pool say about it. *)
Record pool_metrics_ok (clock : Z) (posted : gmap N Z) pm p : Prop := {
  pk_count : msg_count pm = length (wait_time_us pm) + length (queue p);
  pk_wait : Forall (λ z, 0 ≤ z)%Z (wait_time_us pm);
  pk_posted : Forall (λ t, ∃ z, posted !! tk_rpc t = Some z ∧ (z ≤ clock)%Z) (queue p);
  pk_reported : wait_time_us pm ≠ [] → running p ≠ [] ∨ reported pm ≠ [];
  pk_gauge : (pool_size p < 2 ^ 31)%Z → reported pm ≠ [] → (1 ≤ active_gauge pm)%Z;
}.

Lemma posted_later clock clock' posted rpc (q : list task) :
  (clock ≤ clock')%Z →
  Forall (λ t, ∃ z, posted !! tk_rpc t = Some z ∧ (z ≤ clock)%Z) q →
  Forall (λ t, ∃ z, <[rpc := clock']> posted !! tk_rpc t = Some z ∧ (z ≤ clock')%Z) q.
Proof.
  intros Hc Hq. eapply Forall_impl; [exact Hq|]. intros t (z & Hz & Hle).
  destruct (decide (rpc = tk_rpc t)) as [->|Hne].
  - rewrite lookup_insert_eq. eauto with lia.
  - rewrite lookup_insert_ne by done. exists z. split; [done|lia].
Qed.

Lemma pool_metrics_later clock clock' posted pm p :
  (clock ≤ clock')%Z → pool_metrics_ok clock posted pm p → pool_metrics_ok clock' posted pm p.
Proof.
  intros Hc []. split; try done. eapply Forall_impl; [done|]. intros t (z & ? & ?). exists z. split; [done|lia].
Qed.

Lemma pool_metrics_other clock posted rpc pm p :
  pool_metrics_ok clock posted pm p → pool_metrics_ok clock (<[rpc := clock]> posted) pm p.
Proof. intros []. split; try done. by eapply posted_later. Qed.

Lemma pool_metrics_post clock posted pm p t :
  pool_metrics_ok clock posted pm p →
  pool_metrics_ok clock (<[tk_rpc t := clock]> posted)
    (mkPoolMetrics (S (msg_count pm)) (wait_time_us pm) (active_gauge pm) (reported pm)) (post t p).
Proof.
  intros []. split; cbn; try done.
  - rewrite length_app. cbn. lia.
  - apply Forall_app. split; [by eapply posted_later|]. constructor; [|constructor].
    exists clock. by rewrite lookup_insert_eq.
Qed.

Lemma pool_metrics_start clock posted pm n t q r a :
  pool_metrics_ok clock posted pm (mkTPool n (t :: q) r a) →
  pool_metrics_ok clock posted
    (mkPoolMetrics (msg_count pm) (wait_time_us pm ++ [(clock - default 0 (posted !! tk_rpc t))%Z])
       (active_gauge pm) (reported pm)) (mkTPool n q (t :: r) (i32 (a + 1))).
Proof.
  intros []. cbn in *. apply Forall_cons in pk_posted0 as [(z & Hz & Hle) Hq]. split; cbn; try done.
  - rewrite length_app. cbn. lia.
  - apply Forall_app. split; [done|]. constructor; [|done]. rewrite Hz. cbn. lia.
  - by left.
Qed.

Lemma pool_metrics_report clock posted pm p t slow n :
  pool_ok slow n p → t ∈ running p → pool_metrics_ok clock posted pm p →
  pool_metrics_ok clock posted
    (mkPoolMetrics (msg_count pm) (wait_time_us pm) (active_threads p) (tk_rpc t :: reported pm)) p.
Proof.
  intros [Hsz _ Hb Ha] Hin []. assert (0 < length (running p)) by by destruct (running p); [inversion Hin|cbn; lia].
  split; cbn; try done; [by right|]. intros Hlt _. rewrite Ha, i32_id; unfold in_i32; lia.
Qed.

Lemma pool_metrics_finish clock posted pm p t p' :
  pool_finishes p t p' → tk_rpc t ∈ reported pm → pool_metrics_ok clock posted pm p →
  pool_metrics_ok clock posted pm p'.
Proof.
  intros [n q r1 t0 r2 a] Hrep []. split; cbn in *; try done.
  intros _. right. by intros Hnil; rewrite Hnil in Hrep; inversion Hrep.
Qed.

(** *** The invariant *)

(** The metrics of one server against the history. *)
Definition group_ok h groups (n : N) : Prop :=
  let gm := default (mkGroupMetrics 0 0) (groups !! n) in
  group_steps gm = executions n h ∧ append_entries_latency gm = latencies ndebug ops n h.

Record metered_inv (rn ion : Z) h m : Prop := {
  mi_service : service_inv rn ion (mt_service m);
  mi_pools : ∀ slow, pool_metrics_ok (mt_clock m) (mt_posted m) (metrics_of slow m)
                       (pool_of slow (mt_service m));
  mi_count : ∀ slow, msg_count (metrics_of slow m) = posts slow h;
  mi_waits : ∀ slow, wait_time_us (metrics_of slow m) = waits slow ∅ h;
  mi_posted : mt_posted m = posted_after h;
  mi_groups : if msg_metrics then ∀ n, group_ok h (mt_groups m) n else mt_groups m = ∅;
}.

(** Events that no metric of a pool, or of a group, is about. *)
Lemma group_ok_other h evs groups n :
  executions n evs = 0 → latencies ndebug ops n evs = 0 →
  group_ok h groups n → group_ok (h ++ evs) groups n.
Proof. unfold group_ok. rewrite executions_app, latencies_app. intros -> ->. by rewrite !Nat.add_0_r. Qed.

Lemma groups_ok_other h evs groups :
  (∀ n, executions n evs = 0 ∧ latencies ndebug ops n evs = 0) →
  (if msg_metrics then ∀ n, group_ok h groups n else groups = ∅) →
  if msg_metrics then ∀ n, group_ok (h ++ evs) groups n else groups = ∅.
Proof.
  intros He. destruct msg_metrics; [|done]. intros Hg n. apply group_ok_other; [apply He..|apply Hg].
Qed.

Lemma count_step_ok h groups t :
  (if msg_metrics then ∀ n, group_ok h groups n else groups = ∅) →
  let groups' := count_step msg_metrics ndebug ops t groups in
  if msg_metrics then ∀ n, group_ok (h ++ [Executed (tk_server t) (tk_request t)]) groups' n
  else groups' = ∅.
Proof.
  unfold count_step. destruct msg_metrics; [|done]. intros Hg n. specialize (Hg n) as [Hs Hl].
  unfold group_ok. rewrite executions_app, latencies_app, <-Hs, <-Hl.
  unfold executions, latencies. simpl. destruct (decide (tk_server t = n)) as [<-|Hne].
  - rewrite lookup_insert_eq. cbn. rewrite bool_decide_true by done. cbn.
    destruct (observes_latency ndebug ops (tk_server t) (tk_request t)); cbn; split; lia.
  - rewrite lookup_insert_ne by done. rewrite bool_decide_false by done. cbn. split; lia.
Qed.

Lemma count_message_quiet rpc acts m :
  Forall not_post acts → count_message rpc acts m = m ∧ ∀ now, post_events rpc now acts = [].
Proof.
  intros Hp. unfold count_message, post_events. induction Hp as [|a acts Ha _ IH]; [done|].
  by destruct a.
Qed.

(** A message that comes in. *)
Lemma receive_metered_inv rn ion h m rpc request r w :
  metered_inv rn ion h m → handled_once request r →
  service_inv rn ion (receive (mt_service m) w rpc request r) →
  metered_inv rn ion (h ++ post_events rpc (mt_clock m) r.1)
    (with_service (receive (mt_service m) w rpc request r) (count_message rpc r.1 m)).
Proof.
  intros [_ Hp Hc Hw Hpo Hg] Hr Hsv.
  destruct (receive_pools (mt_service m) w rpc request r Hr) as [[Hq Hsame]|(slow & n & -> & Hpost & Hother)].
  - destruct (count_message_quiet rpc r.1 m Hq) as [-> ->]. rewrite app_nil_r.
    split; try done. intros slow. simpl. rewrite Hsame. apply Hp.
  - assert (post_events rpc (mt_clock m) [if slow then PostIo n else PostRaft n] =
            [Posted slow rpc (mt_clock m)]) as Hev by by destruct slow.
    assert (count_message rpc [if slow then PostIo n else PostRaft n] m = count_post rpc slow m) as Hcm
      by by destruct slow.
    cbn [fst]. rewrite Hev, Hcm. split; try done.
    + intros slow'. pose proof (Hp slow') as Hp'. destruct (decide (slow' = slow)) as [->|Hne].
      * pose proof (pool_metrics_post _ _ _ _ (mkTask rpc n request) Hp') as Hpp. cbn [mt_service with_service].
        rewrite Hpost. by destruct slow.
      * assert (slow' = negb slow) as -> by by destruct slow, slow'. cbn [mt_service with_service].
        rewrite Hother. pose proof (pool_metrics_other _ _ rpc _ _ Hp'). by destruct slow.
    + intros slow'. rewrite posts_app, <-Hc. unfold posts.
      destruct slow, slow'; cbn; rewrite ?Nat.add_0_r, ?Nat.add_1_r; done.
    + intros slow'. rewrite waits_app, <-Hw. simpl. rewrite app_nil_r. by destruct slow, slow'.
    + rewrite posted_after_app, <-Hpo. by destruct slow.
    + apply groups_ok_other; [done|]. by destruct slow.
Qed.

Lemma metered_step_inv rn ion h m evs m' :
  metered_step msg_metrics ndebug ops cfg addr m evs m' → metered_inv rn ion h m →
  metered_inv rn ion (h ++ evs) m'.
Proof.
  intros Hs Hm. pose proof Hm as [Hsv Hp Hc Hw Hpo Hg].
  assert (service_inv rn ion (mt_service m')) as Hsv'.
  { destruct (metered_erases _ _ _ Hs) as [->|Hstep]; [done|]. by eapply service_step_inv. }
  destruct Hs as [env rpc request r w Hnew Hr|slow n t q r a Hq Hn|slow t Hin Hrep
                 |slow p t acts Hf Hx Hrep|w s|d Hd].
  - apply receive_metered_inv; [done|by eapply raftStep_cases|done].
  - split; [done|..].
    + pose proof (Hp slow) as Hps. rewrite Hq in Hps. apply pool_metrics_start in Hps.
      intros slow'. pose proof (Hp slow'). by destruct slow, slow'.
    + intros slow'. rewrite posts_app, <-Hc. unfold posts.
      destruct slow, slow'; cbn; by rewrite ?Nat.add_0_r.
    + intros slow'. rewrite waits_app, <-Hw, <-Hpo. simpl.
      destruct slow, slow'; simpl; by rewrite ?app_nil_r.
    + rewrite posted_after_app, <-Hpo. by destruct slow.
    + apply groups_ok_other; [done|]. by destruct slow.
  - rewrite app_nil_r. split; [done|..]; try (by destruct slow).
    + intros slow'. pose proof (Hp slow') as Hp'. destruct slow, slow'; try done; cbn in *;
        (eapply pool_metrics_report; [|done|done]); apply Hsv.
    + intros slow'. rewrite <-Hc. by destruct slow, slow'.
    + intros slow'. rewrite <-Hw. by destruct slow, slow'.
  - destruct (perform_execute ndebug ops rn ion _ slow t p acts Hsv Hf Hx) as (d & d' & resp & _ & _ & Hperf).
    split; [done|..].
    + cbn [mt_service mt_clock mt_posted]. rewrite Hperf.
      pose proof (pool_metrics_finish _ _ _ _ _ _ Hf Hrep (Hp slow)) as Hps.
      intros slow'. pose proof (Hp slow'). by destruct slow, slow'.
    + intros slow'. rewrite posts_app, <-Hc. unfold posts. cbn. by rewrite Nat.add_0_r.
    + intros slow'. rewrite waits_app, <-Hw. cbn. rewrite app_nil_r. by destruct slow'.
    + rewrite posted_after_app, <-Hpo. done.
    + by apply count_step_ok.
  - rewrite app_nil_r. by split.
  - rewrite app_nil_r. split; try done. intros slow. eapply pool_metrics_later; [|apply Hp]. cbn. lia.
Qed.

Lemma metered_reachable rn size w now h m :
  metered_run msg_metrics ndebug ops cfg addr (start_metered (start_service rn size w) now) h m →
  metered_inv rn (calculate_io_pool_size size) h m.
Proof.
  intros Hr. induction Hr as [|h m1 evs m2 _ IH Hs]; [|by eapply metered_step_inv].
  split; try done; [apply start_inv|intros []; by split|by intros []..|].
  destruct msg_metrics; [|done]. intros n. by unfold group_ok.
Qed.

(** Every step of the service happens with metrics, too. *)
Definition some_step m m' : Prop := ∃ evs, metered_step msg_metrics ndebug ops cfg addr m evs m'.

Lemma metered_follows m s' :
  service_step ndebug ops cfg addr (mt_service m) s' →
  ∃ m', rtc some_step m m' ∧ mt_service m' = s'.
Proof.
  assert (∀ slow s', worker_step ndebug ops slow (mt_service m) s' →
    ∃ m', rtc some_step m m' ∧ mt_service m' = s') as Hworker.
  { intros slow s1 [p Hp|p t acts Hf Hx].
    - destruct (pool_of slow (mt_service m)) as [n q0 r0 a0] eqn:Hq. inversion Hp as [n' t q r a Hlt]; subst.
      eexists. split; [apply rtc_once; eexists; by apply (mt_starts _ _ _ _ _ m slow n t q r0 a0)|done].
    - destruct (decide (tk_rpc t ∈ reported (metrics_of slow m))) as [Hin|Hnew].
      + eexists. split; [apply rtc_once; eexists; by apply (mt_finishes _ _ _ _ _ m slow p t acts)|done].
      + assert (t ∈ running (pool_of slow (mt_service m))) as Hrun.
        { destruct Hf. cbn. apply elem_of_app. right. by left. }
        assert (mt_service (update_gauge slow t m) = mt_service m) as Hsame by by destruct slow.
        eexists. split; [eapply rtc_l; [eexists; by apply (mt_reports _ _ _ _ _ m slow t)|apply rtc_once; eexists]|].
        * apply (mt_finishes _ _ _ _ _ _ slow p t acts); [by rewrite Hsame|done|]. destruct slow; cbn; by left.
        * cbn. by rewrite Hsame. }
  intros [env rpc request r w Hnew Hr|s1 [Hw|Hw]|w].
  - eexists. split; [apply rtc_once; eexists; by eapply mt_receives|done].
  - by apply (Hworker false).
  - by apply (Hworker true).
  - eexists. split; [apply rtc_once; eexists; by apply (mt_world _ _ _ _ _ m w)|done].
Qed.
End metrics_lemmas.

(** ** Properties *)

Section metrics_theorems.
Context `{UuidOps} `{MsgTypes} `{RaftParams}.

(** Metrics observe and do not disturb: whatever the service does with metrics it does
    without, and the other way round. *)
Theorem metrics_do_not_interfere (msg_metrics nd : bool) (ops : step_ops) (cfg : service_cfg)
    (addr : uuid) (m : metered) (s' : service) :
  rtc (service_step nd ops cfg addr) (mt_service m) s' ↔
  ∃ m', rtc (some_step msg_metrics nd ops cfg addr) m m' ∧ mt_service m' = s'.
Proof.
  split.
  - intros Hr. remember (mt_service m) as s eqn:Hs. revert m Hs.
    induction Hr as [s|s1 s2 s3 Hstep _ IH]; intros m ->; [by exists m|].
    destruct (metered_follows msg_metrics nd ops cfg addr m s2 Hstep) as (m2 & Hm2 & <-).
    destruct (IH m2 eq_refl) as (m3 & Hm3 & Hs3). exists m3. split; [by etrans|done].
  - intros (m' & Hr & <-). induction Hr as [m|m1 m2 m3 [evs Hstep] _ IH]; [done|].
    destruct (metered_erases _ _ _ _ _ _ _ _ Hstep) as [<-|Hs]; [done|]. by eapply rtc_l.
Qed.


(** The gauges never return to zero: they are only updated when a task starts, so a pool
    that has executed something and is idle still reports a thread at work. *)
Theorem gauge_stays_up (msg_metrics nd : bool) (ops : step_ops) (cfg : service_cfg) (addr : uuid)
    (raft_threads config_size : Z) (w : world) (now : Z) (h : list metric_event) (m : metered)
    (slow : bool) :
  (pool_size (pool_of slow (mt_service m)) < 2 ^ 31)%Z →
  metered_run msg_metrics nd ops cfg addr
    (start_metered (start_service raft_threads config_size w) now) h m →
  wait_time_us (metrics_of slow m) ≠ [] → running (pool_of slow (mt_service m)) = [] →
  active_threads (pool_of slow (mt_service m)) = 0%Z ∧ (1 ≤ active_gauge (metrics_of slow m))%Z.
Proof.
  intros Hlt Hr Hw Hidle. destruct (metered_reachable _ _ _ _ _ _ _ _ _ _ _ Hr) as [Hi Hp _ _ _ _]. split.
  - rewrite (po_active _ _ _ (si_pool _ _ _ slow Hi)). by rewrite Hidle.
  - destruct (Hp slow) as [_ _ _ Hrep Hg]. apply Hg; [done|]. by destruct (Hrep Hw) as [|].
Qed.
End metrics_theorems.

(** ** Witnesses *)

Module MetricsDemo.
Import Demo GroupsDemo RaftStepDemo.

(** A message of group [U1] waits for 50 microseconds and is executed by the RAFT pool. *)
Definition demo_task : task := mkTask 0 1 (demo_request 9).
Definition silent : metered := start_metered idle 0.
Definition counted : metered := with_service one_queued (count_message 0 [PostRaft 1] silent).
Definition later : metered :=
  mkMetered (mt_service counted) (mt_raft counted) (mt_io counted) (mt_groups counted)
    (mt_posted counted) 50.
Definition executing : metered :=
  with_service (with_pool false (mkTPool 2 [] [demo_task] (i32 (0 + 1))) (mt_service later))
    (observe_wait false demo_task later).
Definition gauged : metered := update_gauge false demo_task executing.
Definition demo_acts : list rpc_action :=
  match execute_step true demo_step_ops 1 (demo_request 9) with Ret acts => acts | _ => [] end.
Definition executed : metered :=
  mkMetered (perform 0 demo_acts (with_pool false (mkTPool 2 [] [] (i32 (1 - 1))) (mt_service gauged)))
    (mt_raft gauged) (mt_io gauged) (count_step true true demo_step_ops demo_task (mt_groups gauged))
    (mt_posted gauged) (mt_clock gauged).
Definition demo_history : list metric_event :=
  [Posted false 0 0; Started false 0 50; Executed 1 (demo_request 9)].

Abbreviation demo_step := (metered_step true true demo_step_ops demo_service U2).

Lemma counted_step : demo_step silent [Posted false 0 0] counted.
Proof.
  apply (mt_receives (H := demo_uuid_ops) true true demo_step_ops demo_service U2 silent demo_app 0
           (demo_request 9) ([PostRaft 1], false) leader_world); [apply not_elem_of_nil|by vm_compute].
Qed.

Lemma later_step : demo_step counted [] later.
Proof. by apply (mt_ticks (H := demo_uuid_ops) _ _ _ _ _ counted 50). Qed.

Lemma executing_step : demo_step later [Started false 0 50] executing.
Proof. by apply (mt_starts (H := demo_uuid_ops) _ _ _ _ _ later false 2 demo_task [] [] 0). Qed.

Lemma gauged_step : demo_step executing [] gauged.
Proof.
  apply (mt_reports (H := demo_uuid_ops) _ _ _ _ _ executing false demo_task);
    [apply list_elem_of_singleton; done|apply not_elem_of_nil].
Qed.

Lemma executed_step : demo_step gauged [Executed 1 (demo_request 9)] executed.
Proof.
  apply (mt_finishes (H := demo_uuid_ops) _ _ _ _ _ gauged false (mkTPool 2 [] [] (i32 (1 - 1)))
           demo_task demo_acts); [apply (pool_finish 2 [] [] demo_task [] 1)|by vm_compute|by left].
Qed.

Lemma executed_reachable :
  metered_run true true demo_step_ops demo_service U2
    (start_metered (start_service 2 0 leader_world) 0) demo_history executed.
Proof.
  change demo_history with (((([] ++ [Posted false 0 0]) ++ []) ++ [Started false 0 50]) ++ []
                            ++ [Executed 1 (demo_request 9)]).
  rewrite (app_assoc _ [] [_]).
  eapply run_snoc; [|exact executed_step]. eapply run_snoc; [|exact gauged_step].
  eapply run_snoc; [|exact executing_step]. eapply run_snoc; [|exact later_step].
  eapply run_snoc; [|exact counted_step]. apply run_nil.
Qed.


Lemma gauge_stays_up_witness :
  active_threads (raft_pool (mt_service executed)) = 0%Z ∧ (1 ≤ active_gauge (mt_raft executed))%Z.
Proof.
  apply (gauge_stays_up (H := demo_uuid_ops) true true demo_step_ops demo_service U2 2 0 leader_world 0
           demo_history executed false ltac:(done) executed_reachable); by vm_compute.
Defined.
End MetricsDemo.
