(* ===== verification/Cluster.v ===== *)
(** * Several processes

    The client of [Redirect] and the services of [RaftStep] connected: a message a
    wrapper sends is handled by [raftStep] of the process it is addressed to, by
    NuRaft through [execute_step], and its response by the client's handler.  The
    theorems replace the answers that [Redirect] assumes by what the members of a
    group compute. *)

From stdpp Require Import base gmap strings list numbers relations.
From S2P Require Import Prelude Types Codec ClientPool DataPath Redirect Groups RaftStep.

Section cluster.
Context `{UuidOps} `{MsgTypes} `{RaftParams}.

(** A process of the cluster: its service, and NuRaft's servers in it. *)
Record process := mkProcess {
  pr_cfg : service_cfg;
  pr_env : app_env;
  pr_world : world;
  pr_ops : step_ops;
}.

Context (nd : bool) (cl : gmap uuid process).

(** The server an RPC is posted with. *)
Definition posted_server (a : rpc_action) : option N :=
  match a with PostIo server | PostRaft server => Some server | _ => None end.

(** The client gets the first response that is sent; without one it waits for its deadline. *)
Definition first_response (rs : list (Status * RaftGroupMsg)) : outcome (Status * RaftGroupMsg) :=
  match rs with r :: _ => Ret r | [] => Throw "no response" end.

(** An RPC at the process [self]: [raftStep], and the worker of the pool it posts to.
    No message but a join changes the process. *)
Definition serve (self : uuid) (p : process) (m : RaftGroupMsg) : outcome (Status * RaftGroupMsg) :=
  match (raftStep (pr_cfg p) (pr_env p) self m (pr_world p)).1 with
  | Ret r =>
      match omap posted_server r.1 with
      | [] => first_response (sent (new_rpc m) (with_reply r))
      | server :: _ =>
          match execute_step nd (pr_ops p) server m with
          | Ret acts => first_response (sent (new_rpc m) (with_reply r ++ acts))
          | Throw e => Throw e
          | Ub e => Ub e
          end
      end
  | Throw e => Throw e
  | Ub e => Ub e
  end.

(** The answer the client's handler gets: gRPC reports a process that is not there, that dies
    while it handles the message or that does not answer as an error, here as unavailable. *)
Definition cluster_answer (m : RaftGroupMsg) : handler_args :=
  let unavailable := send_handler default_message (mkStatus ST_UNAVAILABLE "unavailable") in
  match string_generator (g_intended_addr m) with
  | None => unavailable
  | Some u =>
      match cl !! u with
      | None => unavailable
      | Some p =>
          match serve u p m with
          | Ret (st, response) => send_handler (g_msg response) st
          | _ => unavailable
          end
      end
  end.

(** ** What NuRaft says *)

(** A response NuRaft can build, whose context has not been read. *)
Definition resp_ok (resp : resp_msg) : Prop :=
  wf_resp resp ∧ ∀ b, rs_ctx resp = Some b → buf_pos b = 0%nat.

(** The response of the member [u] of a group to a request, if there is one: the
    process is up, it serves the group, and NuRaft neither refuses nor throws. *)
Definition member_response (gid u : uuid) (req : req_msg) : option resp_msg :=
  p ← cl !! u;
  n ← raft_servers (pr_world p) !! gid;
  match process_req (pr_ops p) n req with
  | Ret r => r
  | _ => None
  end.

(** The member [u] is not the leader and knows that the leader is server [d] at [leader]. *)
Definition points_at (gid u : uuid) (req : req_msg) (d : Z) (leader : uuid) : Prop :=
  ∃ p n resp sc,
    cl !! u = Some p ∧ raft_servers (pr_world p) !! gid = Some n ∧
    process_req (pr_ops p) n req = Ret (Some resp) ∧ resp_ok resp ∧
    rs_accepted resp = false ∧ rs_result_code resp = code.NOT_LEADER ∧ rs_dst resp = d ∧
    get_srv_config (pr_ops p) n d = Some sc ∧ sc_endpoint sc = uuid_to_string leader.

(** A response that ends an operation: accepted, or without a leader to try. *)
Definition conclusive (resp : resp_msg) : Prop :=
  resp_ok resp ∧ (rs_accepted resp = true ∨ (rs_dst resp < 0)%Z).

(** The result an operation gets from a member. *)
Definition member_code (gid u : uuid) (req : req_msg) : Z :=
  from_option rs_result_code code.SERVER_NOT_FOUND (member_response gid u req).

(** ** Messages of a group *)

(** A message that carries the request [req] of the group to the peer [u]. *)
Definition request_to (gid u : uuid) (req : req_msg) (m : RaftGroupMsg) : Prop :=
  g_group_id m = uuid_to_string gid ∧ g_intended_addr m = uuid_to_string u ∧
  request_message req = Some (g_msg m, rewind_req req).

(** All wrappers of a message factory belong to its group. *)
Definition pool_group (f : N) (gid : uuid) (s : pool) : Prop :=
  ∀ p l, mesg_clients_of f s !! p = Some (Some l) →
         ∃ pc, heap s !! l = Some (ProtoClient pc) ∧ pc_group_id pc = gid.
End cluster.

(** ** Lemmas *)

Section cluster_answers.
Context `{UuidOps} `{!UuidLaws} `{MsgTypes} `{RaftParams}.
Context (nd : bool) (cl : gmap uuid process).

Lemma request_to_decodes gid u req m :
  wf_req req → request_to gid u req m →
  toRequest nd (g_msg m) = Some (rewind_req req) ∧ b_type (msg_base_of (g_msg m)) = rq_type req.
Proof.
  intros Hwf (_ & _ & Hm). destruct (fromRCRequest_total req) as (rc & Hrc & _).
  pose proof (decode_encoded nd req rc Hwf Hrc) as Hdec.
  unfold request_message in Hm. rewrite Hrc in Hm. injection Hm as <-.
  split; [done|]. destruct Hwf as (_ & Hu & _). simpl. by rewrite (u32_id _ Hu).
Qed.

(** A message of a served group reaches the group's server. *)
Lemma serve_request gid u req m p :
  wf_req req → rq_type req ≠ join_cluster_request → request_to gid u req m →
  serve nd u p m =
  match raft_servers (pr_world p) !! gid with
  | None => Ret (missing_group (g_group_id m),
                 mkRaftGroupMsg (g_group_id m) default_message EmptyString EmptyString)
  | Some n =>
      match execute_step nd (pr_ops p) n m with
      | Ret acts => first_response (sent (new_rpc m) acts)
      | Throw e => Throw e
      | Ub e => Ub e
      end
  end.
Proof.
  intros Hwf Hty Hm. destruct (request_to_decodes gid u req m Hwf Hm) as [_ Hbt].
  destruct Hm as (Hg & Hu & _). unfold serve, raftStep. rewrite Hg, Hu, !generator_to_string.
  rewrite decide_False, Hbt, decide_False by (tauto || done).
  unfold mbind, M_bind, gets. simpl. destruct (raft_servers (pr_world p) !! gid); [|done].
  simpl. by destruct (is_slow_message _).
Qed.

(** The answer of a member whose NuRaft responds. *)
Lemma answer_response gid u req m p n resp :
  wf_req req → rq_type req ≠ join_cluster_request → request_to gid u req m →
  cl !! u = Some p → raft_servers (pr_world p) !! gid = Some n →
  process_req (pr_ops p) n (rewind_req req) = Ret (Some resp) → resp_ok resp →
  cluster_answer nd cl m =
  mkHandler (Some (mkGrpcResp (norm_resp resp)
    (if decide (rs_result_code resp = code.NOT_LEADER)
     then if rs_accepted resp then EmptyString
          else from_option sc_endpoint EmptyString (get_srv_config (pr_ops p) n (rs_dst resp))
     else EmptyString))) None.
Proof.
  intros Hwf Hty Hm Hp Hn Hproc [Hresp Hpos].
  destruct (request_to_decodes gid u req m Hwf Hm) as [Hdec _].
  destruct (execute_step_decodes nd (pr_ops p) n m _ resp Hdec Hproc Hresp Hpos)
    as (acts & reply & Hexec & Hsent & Hto).
  unfold cluster_answer. pose proof Hm as (_ & -> & _). rewrite generator_to_string, Hp.
  by rewrite (serve_request gid u req m p Hwf Hty Hm), Hn, Hexec, Hsent.
Qed.

(** Everything else is an error without a response. *)
Lemma answer_failure gid u req m :
  wf_req req → rq_type req ≠ join_cluster_request → request_to gid u req m →
  member_response cl gid u (rewind_req req) = None →
  h_resp (cluster_answer nd cl m) = None.
Proof.
  intros Hwf Hty Hm Hnone. destruct (request_to_decodes gid u req m Hwf Hm) as [Hdec _].
  unfold cluster_answer. pose proof Hm as (_ & -> & _). rewrite generator_to_string.
  unfold member_response in Hnone. destruct (cl !! u) as [p|]; [|done]. simpl in Hnone.
  rewrite (serve_request gid u req m p Hwf Hty Hm).
  destruct (raft_servers (pr_world p) !! gid) as [n|]; [|done]. simpl in Hnone.
  unfold execute_step, step. rewrite Hdec.
  by destruct (process_req (pr_ops p) n (rewind_req req)) as [[resp|]|e|e].
Qed.

(** A conclusive member, or one that does not respond, settles the request. *)
Lemma answer_final gid u req m d :
  wf_req req → rq_type req ≠ join_cluster_request → request_to gid u req m →
  (∀ resp, member_response cl gid u (rewind_req req) = Some resp → conclusive resp) →
  verdict d (cluster_answer nd cl m) = inl (member_code cl gid u (rewind_req req)).
Proof.
  intros Hwf Hty Hm Hc. unfold member_code.
  destruct (member_response cl gid u (rewind_req req)) as [resp|] eqn:Hr.
  2:{ unfold verdict. by rewrite (answer_failure gid u req m Hwf Hty Hm Hr). }
  destruct (Hc resp eq_refl) as [Hok Hend]. unfold member_response in Hr.
  apply bind_Some in Hr as (p & Hp & Hr). apply bind_Some in Hr as (n & Hn & Hr).
  destruct (process_req (pr_ops p) n (rewind_req req)) as [[resp'|]|e|e] eqn:Hproc; try done.
  injection Hr as ->.
  rewrite (answer_response gid u req m p n resp Hwf Hty Hm Hp Hn Hproc Hok).
  unfold verdict. cbn [h_resp h_err gr_resp]. rewrite bool_decide_false; [done|].
  unfold norm_resp. simpl. intros (_ & ? & _ & ?). destruct Hend; [congruence|lia].
Qed.

(** A member that knows the leader hands the request on. *)
Lemma answer_points_at gid u req m d leader :
  wf_req req → rq_type req ≠ join_cluster_request → request_to gid u req m →
  points_at cl gid u (rewind_req req) d leader → hands_on d leader (cluster_answer nd cl m).
Proof.
  intros Hwf Hty Hm (p & n & resp & sc & Hp & Hn & Hproc & Hok & Hacc & Hcode & Hd & Hsc & Hep).
  rewrite (answer_response gid u req m p n resp Hwf Hty Hm Hp Hn Hproc Hok).
  rewrite decide_True, Hacc, Hd, Hsc by done. eexists. split; [done|].
  unfold norm_resp. by rewrite <-Hep.
Qed.
End cluster_answers.

Lemma join_not_slow `{MsgTypes} `{!MsgTypesOk} : is_slow_message join_cluster_request = false.
Proof.
  pose proof msg_types_distinct as Hnd. rewrite !NoDup_cons, !not_elem_of_cons in Hnd.
  unfold is_slow_message. rewrite !bool_decide_false; [done|intros Heq; rewrite Heq in Hnd; tauto..].
Qed.

Section group_pools.
Context `{UuidOps}.

(** Marking the transport of a peer makes the next lookup replace it. *)
Lemma bump_renews env f gid gtype u force s t addr bad :
  pool_wf s → group_clients s !! u = Some (Some t) →
  heap s !! t = Some (MessagingClient addr bad) → (0 ≤ bad < 2 ^ 32 - 1)%Z → can_reach env u →
  ∃ s1 w s2,
    bump_bad_service t s = (Ret tt, s1) ∧
    create_or_reinit_client (mesg_factory env f gid gtype) u force s1 = (Ret (Some w), s2) ∧
    heap s2 !! client_counter s = Some (MessagingClient (lookupEndpoint env u) 0) ∧
    ∃ pc, heap s2 !! w = Some (ProtoClient pc) ∧ pc_client pc = Some (client_counter s).
Proof.
  intros Hwf Hg Ht Hbad [Hep Hmk]. destruct (bump_wf t s Hwf) as [Hwf1 _].
  assert (bump_bad_service t s = (Ret tt, with_object t (MessagingClient addr (bad + 1)) s)) as Hb.
  { unfold bump_bad_service. rewrite Ht. by rewrite u32_id by (unfold in_u32; lia). }
  rewrite Hb in Hwf1 |- *. simpl in Hwf1.
  pose proof (wrapper_renews env f gid gtype u force _ Hwf1) as Hren.
  destruct (wrapper env f gid gtype u force (with_object t (MessagingClient addr (bad + 1)) s))
    as [w s2] eqn:Hw.
  eexists _, w, s2. split; [done|]. rewrite mesg_refines, Hw by done. split; [done|].
  apply Hren; [|done..]. intros k Hk. simpl in Hk. rewrite Hg in Hk. injection Hk as <-.
  unfold healthy. simpl. rewrite lookup_insert_eq.
  destruct (Z.ltb_spec 0 (bad + 1)); [|lia]. apply andb_false_r.
Qed.

(** Every lookup of a group's factory keeps its wrappers in the group. *)
Lemma wrapper_group env f gid gtype u force s :
  pool_wf s → pool_group f gid s → pool_group f gid (wrapper env f gid gtype u force s).2.
Proof.
  intros Hwf Hg q l Hl. destruct (wrapper_mesg_clients _ _ _ _ _ _ _ _ _ Hwf Hl) as [Hold|(c & Hnew)].
  - destruct (Hg q l Hold) as (pc & Hpc & Hgid).
    destruct (proj2 (wp_pool_le _ _ _ _ _ (wrapper_spec env f gid gtype u force s Hwf)) _ _ Hpc)
      as (o & Ho & Hsame).
    inversion Hsame; subst. by eexists.
  - by eexists.
Qed.

Lemma empty_pool_group f gid : pool_group f gid empty_pool.
Proof. intros p l Hl. unfold mesg_clients_of, empty_pool in Hl. simpl in Hl. by rewrite !lookup_empty in Hl. Qed.

(** What such a wrapper sends is a message of the group. *)
Lemma send_request_to cfg gid u req s l x s' pc :
  heap s !! l = Some (ProtoClient pc) → pc_group_id pc = gid →
  pc_client_addr pc = uuid_to_string u →
  send cfg (Some l) req s = (Ret (Issued x.1 x.2), s') →
  ∃ t m d, x.1 = CallRaftStep t m d ∧ request_to gid u req m.
Proof.
  intros Hl Hg Ha. unfold send, mbind, M_bind, gets. simpl. rewrite Hl.
  destruct (fromRCRequest_total req) as (rc & Hrc & _). unfold request_message.
  rewrite Hrc. simpl. unfold send_raft, mbind, M_bind.
  destruct (pc_client pc) as [t|]; [|done]. simpl. intros [= <- _ _]. eexists _, _, _.
  split; [done|]. unfold request_to, request_message. rewrite Hrc, Hg, Ha. done.
Qed.
End group_pools.

Section cluster_runs.
Context `{UuidOps} `{!UuidLaws} `{MsgTypes} `{!MsgTypesOk} `{NuraftBytes}.
Context (cfg : mesg_cfg) (p : payload) (addr : uuid).
Context (env : net_env) (f : N) (gid : uuid) (gtype : string).

Abbreviation F := (mesg_factory env f gid gtype).

(** A call in flight carries a message of the group. *)
Definition group_call (u : uuid) (c : rpc_call) : Prop :=
  ∃ t m d, c = CallRaftStep t m d ∧ request_to gid u (createMessage p addr) m.

Lemma wrapper_group_call u s x s' :
  reachable_pool s → pool_group f gid s →
  send cfg (Some (wrapper env f gid gtype u false s).1) (createMessage p addr)
    (wrapper env f gid gtype u false s).2 = (Ret (Issued x.1 x.2), s') →
  group_call u x.1.
Proof.
  intros Hr Hg Hs. pose proof (reachable_wrapper env f gid gtype u false s Hr) as Hr'.
  pose proof (wrapper_group env f gid gtype u false s (reachable_wf s Hr) Hg) as Hg'.
  pose proof (wrapper_spec env f gid gtype u false s (reachable_wf s Hr)) as [_ _ _ Hres].
  destruct (wrapper env f gid gtype u false s) as [w s1]. simpl in *.
  destruct Hres as [[He _]|(pc & t & Hw & _ & _ & _ & Hc)].
  - by rewrite (send_error cfg s1 w _ He) in Hs.
  - destruct (Hg' _ _ Hc) as (pc' & Hw' & Hgid).
    destruct (reachable_addressed s1 Hr' f u w Hc) as (c & g & ty & Ha).
    rewrite Ha in Hw, Hw'. injection Hw' as <-.
    by eapply (send_request_to cfg gid u _ s1 w x s' _ Ha).
Qed.

(** A waiting request of the group. *)
Definition group_waiting (u : uuid) (d : Z) (n : nat) (r : request) : Prop :=
  waiting p addr u d n r ∧ pool_group f gid (op_pool (rq_op r)) ∧
  ∀ x, rq_flight r = Some x → group_call u x.1.

Lemma group_request_run dest_cfg u (o : op_state) :
  string_generator (sc_endpoint dest_cfg) = Some u → reachable_pool (op_pool o) →
  pool_group f gid (op_pool o) → can_reach env u →
  ∃ fl o', cluster_request cfg p addr F dest_cfg o = (Ret (FutureOf 1, fl), o') ∧
           group_waiting u (sc_id dest_cfg) 1 (mkRequest o' fl).
Proof.
  intros Hu Hr Hg Hreach.
  destruct (cluster_request_run cfg p addr env f gid gtype dest_cfg u o Hu Hr)
    as (fl & o' & Hrun & _ & _ & [(x & -> & Hw)|(_ & _ & ?)]); [|done].
  exists (Some x), o'. split; [done|]. split; [done|]. cbn [rq_op rq_flight].
  unfold cluster_request, start_request, create_or_reinit_client_str in Hrun. rewrite Hu in Hrun.
  unfold mbind, M_bind, in_pool in Hrun. rewrite mesg_refines in Hrun by by apply reachable_wf.
  pose proof (wrapper_group env f gid gtype u false _ (reachable_wf _ Hr) Hg) as Hg'.
  pose proof (wrapper_send cfg env f gid gtype u (createMessage p addr) (op_pool o) Hr
                (createMessage_wf p addr)) as Hs.
  pose proof (wrapper_group_call u (op_pool o) x) as Hcall.
  pose proof (can_reach_wrapper env f gid gtype u (op_pool o) (reachable_wf _ Hr) Hreach) as Hne.
  destruct (wrapper env f gid gtype u false (op_pool o)) as [w s']. cbn [fst snd] in *.
  unfold client_ctx, modify in Hrun. cbn [op_pool] in Hrun.
  destruct Hs as [(y & Hy & _)|[_ ?]]; [|done]. rewrite Hy in Hrun. injection Hrun as <- <-.
  cbn [op_pool]. split; [done|]. intros z [= <-]. destruct y as [c q]. by eapply Hcall.
Qed.

Lemma group_redirect u d n r a rsp v :
  group_waiting u d n r → verdict d a = inr rsp → string_generator (gr_dest_addr rsp) = Some v →
  can_reach env v →
  ∃ fl o', respHandler cfg p addr 2 F a (rq_op r) = (Ret fl, o') ∧
           group_waiting v (rs_dst (gr_resp rsp)) n (mkRequest o' fl).
Proof.
  intros (Hw & Hg & _) Hv Hgen Hreach.
  destruct (waiting_redirect cfg p addr env f gid gtype u d n r a rsp v Hw Hv Hgen Hreach)
    as (fl & o' & Hrun & Hw').
  exists fl, o'. split; [done|]. split; [done|]. cbn [rq_op rq_flight].
  destruct Hw as [Hr Hd _ _ _]. rewrite <-Hd in Hv.
  rewrite (respHandler_inr _ _ _ _ _ _ _ _ Hv) in Hrun.
  unfold create_or_reinit_client_str in Hrun. rewrite Hgen in Hrun.
  unfold mbind, M_bind, in_pool in Hrun. cbn [op_pool] in Hrun.
  rewrite mesg_refines in Hrun by by apply reachable_wf.
  pose proof (wrapper_group env f gid gtype v false _ (reachable_wf _ Hr) Hg) as Hg'.
  pose proof (wrapper_send cfg env f gid gtype v (createMessage p addr) (op_pool (rq_op r)) Hr
                (createMessage_wf p addr)) as Hs.
  pose proof (wrapper_group_call v (op_pool (rq_op r))) as Hcall.
  pose proof (can_reach_wrapper env f gid gtype v _ (reachable_wf _ Hr) Hreach) as Hne.
  destruct (wrapper env f gid gtype v false (op_pool (rq_op r))) as [w s']. cbn [fst snd op_pool] in *.
  destruct Hs as [(y & Hy & _)|[_ ?]]; [|done]. rewrite Hy in Hrun. injection Hrun as <- <-.
  cbn [op_pool]. split; [done|]. intros z [= <-]. destruct y as [c q]. by eapply (Hcall (c, q)).
Qed.

(** Driving a waiting request: its message is one of the group. *)
Lemma drive_group answer fuel u d n r :
  group_waiting u d n r →
  ∃ m, request_to gid u (createMessage p addr) m ∧
       drive cfg p addr F answer (S fuel) r =
       match respHandler cfg p addr 2 F (answer m) (rq_op r) with
       | (Ret fl, op') =>
           match drive cfg p addr F answer fuel (mkRequest op' fl) with
           | Ret (ms, r') => Ret (m :: ms, r')
           | o => o
           end
       | (Throw e, _) => Throw e
       | (Ub e, _) => Ub e
       end.
Proof.
  intros (Hw & _ & Hc). destruct (w_flight _ _ _ _ _ _ Hw) as ([c q] & Hx & _).
  destruct (Hc _ Hx) as (t & m & dl & Heq & Hm). simpl in Heq. subst c.
  exists m. split; [done|]. cbn [drive]. by rewrite Hx.
Qed.

Lemma createMessage_no_join : rq_type (createMessage p addr) ≠ join_cluster_request.
Proof.
  pose proof msg_types_distinct as Hnd. rewrite !NoDup_cons, !not_elem_of_cons in Hnd.
  destruct p; simpl; intros Heq; rewrite Heq in Hnd; tauto.
Qed.
End cluster_runs.

(** ** Properties *)

Section cluster_theorems.
Context `{UuidOps} `{!UuidLaws} `{MsgTypes} `{!MsgTypesOk} `{RaftParams}.

(** C2: An operation on a group of several processes ends with what the group's leader says.
    Asked through the leader or through a member that knows it, the request goes to that
    member, and from it to the leader, as a message of the group, and the future gets the
    result of the leader's NuRaft, or [SERVER_NOT_FOUND] when the leader's process is
    gone, has left the group, or refuses. *)
Theorem group_request_settles `{NuraftBytes} (cfg : mesg_cfg) (p : payload) (addr : uuid)
    (env : net_env) (f : N) (gid : uuid) (gtype : string) (nd : bool) (cl : gmap uuid process)
    (dest_cfg : srv_config) (o : op_state) (u leader : uuid) (d : Z) :
  let F := mesg_factory env f gid gtype in
  let req := rewind_req (createMessage p addr) in
  reachable_pool (op_pool o) → pool_group f gid (op_pool o) →
  string_generator (sc_endpoint dest_cfg) = Some u →
  can_reach env u → can_reach env leader →
  u = leader ∨ points_at cl gid u req d leader ∧ (0 ≤ d)%Z ∧ sc_id dest_cfg ≠ d →
  (∀ resp, member_response cl gid leader req = Some resp → conclusive resp) →
  ∃ n fl o' ms r,
    cluster_request cfg p addr F dest_cfg o = (Ret (FutureOf n, fl), o') ∧
    drive cfg p addr F (cluster_answer nd cl) 2 (mkRequest o' fl) = Ret (ms, r) ∧
    Forall2 (λ m v, request_to gid v (createMessage p addr) m) ms
      (if decide (u = leader) then [leader] else [u; leader]) ∧
    rq_flight r = None ∧
    promises (rq_op r) !! n = Some (code_result (member_code cl gid leader req)).
Proof.
  intros F req Hr Hg Hu Hru Hrl Hcase Hend.
  pose proof (createMessage_wf p addr) as Hwf. pose proof (createMessage_no_join p addr) as Hty.
  destruct (group_request_run cfg p addr env f gid gtype dest_cfg u o Hu Hr Hg Hru)
    as (fl & o' & Hrun & Hw).
  exists 1, fl, o'. subst F.
  destruct (drive_group cfg p addr env f gid gtype (cluster_answer nd cl) 1 u _ 1 _ Hw)
    as (m & Hm & ->).
  destruct (decide (u = leader)) as [->|Hne].
  - pose proof (answer_final nd cl gid leader _ m (sc_id dest_cfg) Hwf Hty Hm Hend) as Hv.
    destruct (waiting_settles cfg p addr env f gid gtype _ _ 1 _ _ _ (proj1 Hw) Hv)
      as (o2 & -> & Hset & _).
    exists [m], (mkRequest o2 None). split_and!; simpl; auto.
  - destruct Hcase as [?|(Hpt & Hd & Hid)]; [done|].
    pose proof (answer_points_at nd cl gid u _ m d leader Hwf Hty Hm Hpt) as Hon.
    destruct (hands_on_verdict _ _ _ (sc_id dest_cfg) Hon (not_eq_sym Hid) Hd) as (rsp & Hv & Hrd & Hgen).
    destruct (group_redirect cfg p addr env f gid gtype _ _ 1 _ _ rsp leader Hw Hv Hgen Hrl)
      as (fl2 & o2 & -> & Hw2).
    destruct (drive_group cfg p addr env f gid gtype (cluster_answer nd cl) 0 leader _ 1 _ Hw2)
      as (m2 & Hm2 & ->).
    pose proof (answer_final nd cl gid leader _ m2 (rs_dst (gr_resp rsp)) Hwf Hty Hm2 Hend) as Hv2.
    destruct (waiting_settles cfg p addr env f gid gtype _ _ 1 _ _ _ (proj1 Hw2) Hv2)
      as (o3 & -> & Hset & _).
    exists [m; m2], (mkRequest o3 None). split_and!; simpl; auto.
Qed.

(** C20: An invitation makes a process a member: the join request that the leader's NuRaft
    sends through a wrapper makes the process it is addressed to create a server for the
    group, with the parameters of the group's type and the application's state manager,
    and that new server is the one that handles the request and whose response the leader
    gets. *)
Theorem invited_process_serves (mcfg : mesg_cfg) (nd : bool) (ops : step_ops) (cfg : service_cfg)
    (env : app_env) (s : pool) (l t : N) (u gid : uuid) (gtype : string) (req : req_msg)
    (w : world) (params : raft_params) (sm : N) (resp : resp_msg) :
  let server := (next_id w + 1)%N in
  heap s !! l = Some (ProtoClient (mkProto (Some t) gid gtype (uuid_to_string u))) →
  wf_req req → rq_type req = join_cluster_request →
  manager_alive env = true → raft_servers w !! gid = None →
  state_mgr_types w !! join_type cfg gtype = Some params →
  resolve env (rq_dst req) gid w = Some sm →
  process_req ops server (rewind_req req) = Ret (Some resp) → resp_ok resp →
  ∃ m d w' acts reply a,
    send mcfg (Some l) req s = (Ret (Issued (CallRaftStep t m d) (rewind_req req)), s) ∧
    raftStep cfg env u m w = (Ret ([PostRaft server], false), w') ∧
    raft_servers w' !! gid = Some server ∧
    contexts w' !! server = Some (mkContext gid (join_type cfg gtype) params sm (next_id w)) ∧
    execute_step nd ops server m = Ret acts ∧ sent (new_rpc m) acts = [(status_ok, reply)] ∧
    send_complete true t (g_msg reply) status_ok s = (Ret (mkHandler (Some a) None), s) ∧
    gr_resp a = norm_resp resp.
Proof.
  intros server Hl Hwf Hty Ha Hs Ht Hsm Hproc [Hresp Hpos].
  destruct (send_run nd mcfg s l t u gid gtype req Hl Hwf) as (msg & d & Hsend & Hdec & Hbt & Hbd).
  destruct (execute_step_decodes nd ops server
              (mkRaftGroupMsg (uuid_to_string gid) msg (uuid_to_string u) gtype) _ resp
              Hdec Hproc Hresp Hpos) as (acts & reply & Hexec & Hsent & Hto).
  pose proof (joinRaftGroup_run cfg env (rq_dst req) gid gtype params sm w Ha Hs Ht Hsm) as Hjoin.
  eexists _, _, _, acts, reply, _. split_and!; [exact Hsend| | | |exact Hexec|exact Hsent| |].
  - unfold raftStep. cbn [g_group_id g_intended_addr g_msg g_group_type].
    rewrite !generator_to_string, decide_False, Hbt, decide_True, Hbd by (tauto || done).
    unfold mbind, M_bind. rewrite Hjoin. unfold gets. simpl. rewrite lookup_insert_eq.
    rewrite Hty. rewrite join_not_slow. done.
  - apply lookup_insert_eq.
  - apply lookup_insert_eq.
  - unfold send_complete, mbind, M_bind. simpl. by rewrite Hto.
  - done.
Qed.

(** C26: A message that reaches the wrong process is harmless and repairs the connection: the
    process refuses it without touching its groups, NuRaft's callback gets the error, and
    the connection is marked, so that the next lookup of the peer, by any group, opens a
    new connection to the address the application then knows. *)
Theorem misrouted_message_reconnects (mcfg : mesg_cfg) (cfg : service_cfg) (aenv : app_env)
    (env : net_env) (s : pool) (l t f : N) (u v gid gid' : uuid) (gtype gtype' : string)
    (force : bool) (req : req_msg) (w : world) (addr : string) (bad : Z) :
  reachable_pool s →
  heap s !! l = Some (ProtoClient (mkProto (Some t) gid gtype (uuid_to_string u))) →
  group_clients s !! u = Some (Some t) →
  heap s !! t = Some (MessagingClient addr bad) → (0 ≤ bad < 2 ^ 32 - 1)%Z →
  wf_req req → u ≠ v → can_reach env u →
  ∃ m d msg s1 l2 s2,
    send mcfg (Some l) req s = (Ret (Issued (CallRaftStep t m d) (rewind_req req)), s) ∧
    let refused := mkStatus ST_INVALID_ARGUMENT msg in
    raftStep cfg aenv v m w = (Ret ([SetStatus refused], true), w) ∧
    sent (new_rpc m) (with_reply ([SetStatus refused], true)) = [(refused, empty_response)] ∧
    send_complete true t (g_msg empty_response) refused s = (Ret (mkHandler None (Some msg)), s1) ∧
    create_or_reinit_client (mesg_factory env f gid' gtype') u force s1 = (Ret (Some l2), s2) ∧
    heap s !! client_counter s = None ∧
    heap s2 !! client_counter s = Some (MessagingClient (lookupEndpoint env u) 0) ∧
    ∃ pc, heap s2 !! l2 = Some (ProtoClient pc) ∧ pc_client pc = Some (client_counter s).
Proof.
  intros Hwf%reachable_wf Hl Hg Ht Hbad Hreq Hne Hreach.
  destruct (send_run true mcfg s l t u gid gtype req Hl Hreq) as (msg & d & Hsend & _).
  destruct (bump_renews env f gid' gtype' u force s t addr bad Hwf Hg Ht Hbad Hreach)
    as (s1 & l2 & s2 & Hbump & Hlook & Hnew & Hpc).
  eexists _, d, _, s1, l2, s2. split; [exact Hsend|]. cbv zeta. split_and!; [|done| |exact Hlook| |done..].
  - unfold raftStep. cbn [g_group_id g_intended_addr].
    by rewrite !generator_to_string, decide_True by done.
  - unfold send_complete, mbind, M_bind. simpl. by rewrite Hbump.
  - by apply heap_counter_fresh.
Qed.
End cluster_theorems.

(** ** Witnesses *)

Import Demo GroupsDemo RedirectDemo RaftStepDemo.

Module ClusterDemo.
(** Two processes serve the group [U0]; the member [U2], with id 2, leads it, and the
    member [U1] knows that. *)
Definition group_world : world := (create_group demo_service demo_app U0 "" typed_world).2.
Definition follower_resp : resp_msg := mkResp 1 4 1 2 0 false None 0 code.NOT_LEADER.
Definition follower_ops : step_ops :=
  mkStepOps (λ _ _, Ret (Some follower_resp))
    (λ _ d, if decide (d = 2%Z) then Some (member 2 U2) else None).

Definition follower : process := mkProcess demo_service demo_app group_world follower_ops.
Definition leader : process := mkProcess demo_service demo_app group_world demo_step_ops.
Definition two_processes : gmap uuid process := {[U1 := follower; U2 := leader]}.

(** The leader has died. *)
Definition one_process : gmap uuid process := {[U1 := follower]}.

Lemma follower_points_at (cl : gmap uuid process) req :
  cl !! (U1 : uuid) = Some follower → points_at cl U0 U1 req 2 U2.
Proof.
  intros Hcl. exists follower, 1%N, follower_resp, (member 2 U2). by split_and!.
Qed.

Lemma group_request_settles_witness :
  (∃ n fl o' ms r,
    cluster_request demo_cfg (AddServer 3) U0 (mesg_factory two_peers 7 U0 "type") (member 1 U1)
      fresh_op = (Ret (FutureOf n, fl), o') ∧
    drive demo_cfg (AddServer 3) U0 (mesg_factory two_peers 7 U0 "type")
      (cluster_answer true two_processes) 2 (mkRequest o' fl) = Ret (ms, r) ∧
    length ms = 2 ∧ promises (rq_op r) !! n = Some (Value tt)) ∧
  (∃ n fl o' ms r,
    cluster_request demo_cfg (AddServer 3) U0 (mesg_factory two_peers 7 U0 "type") (member 1 U1)
      fresh_op = (Ret (FutureOf n, fl), o') ∧
    drive demo_cfg (AddServer 3) U0 (mesg_factory two_peers 7 U0 "type")
      (cluster_answer true one_process) 2 (mkRequest o' fl) = Ret (ms, r) ∧
    length ms = 2 ∧ promises (rq_op r) !! n = Some (Unexpected code.SERVER_NOT_FOUND)).
Proof.
  split.
  - destruct (group_request_settles (H := demo_uuid_ops) demo_cfg (AddServer 3) U0 two_peers 7 U0 "type"
                true two_processes (member 1 U1) fresh_op U1 U2 2)
      as (n & fl & o' & ms & r & Hrun & Hdrive & Hms & _ & Hset).
    + apply rtc_refl.
    + apply empty_pool_group.
    + by vm_compute.
    + split; by vm_compute.
    + split; by vm_compute.
    + right. split_and!; [by apply follower_points_at|lia|done].
    + intros resp Hresp. vm_compute in Hresp. injection Hresp as <-. split; [|by left].
      split; [|done]. unfold wf_resp, in_u64, in_u32, in_i32, in_i64. simpl. lia.
    + exists n, fl, o', ms, r. split_and!; [exact Hrun|exact Hdrive|exact (Forall2_length _ _ _ Hms)|].
      exact Hset.
  - destruct (group_request_settles (H := demo_uuid_ops) demo_cfg (AddServer 3) U0 two_peers 7 U0 "type"
                true one_process (member 1 U1) fresh_op U1 U2 2)
      as (n & fl & o' & ms & r & Hrun & Hdrive & Hms & _ & Hset).
    + apply rtc_refl.
    + apply empty_pool_group.
    + by vm_compute.
    + split; by vm_compute.
    + split; by vm_compute.
    + right. split_and!; [by apply follower_points_at|lia|done].
    + intros resp Hresp. by vm_compute in Hresp.
    + exists n, fl, o', ms, r. split_and!; [exact Hrun|exact Hdrive|exact (Forall2_length _ _ _ Hms)|].
      exact Hset.
Defined.

(** The leader's pool after it looked the peer [U1] up for the group [U0]. *)
Definition looked_up : pool :=
  (create_or_reinit_client (mesg_factory two_peers 7 U0 "default") U1 false empty_pool).2.

Lemma looked_up_reachable : reachable_pool looked_up.
Proof. apply rtc_once. apply step_mesg. Qed.

(** A join request to the server 1. *)
Definition invitation : req_msg := mkReq 1 join_cluster_request 2 1 0 0 0 [].

Lemma invitation_wf : wf_req invitation.
Proof. unfold wf_req, in_u64, in_u32, in_i32. simpl. repeat split; try lia. constructor. Qed.

Lemma invited_process_serves_witness :
  ∃ m d w',
    send demo_cfg (Some 1%N) invitation looked_up
      = (Ret (Issued (CallRaftStep 0 m d) invitation), looked_up) ∧
    raftStep demo_service demo_app U1 m typed_world = (Ret ([PostRaft 1], false), w') ∧
    raft_servers typed_world !! (U0 : uuid) = None ∧ raft_servers w' !! (U0 : uuid) = Some 1%N.
Proof.
  destruct (invited_process_serves (H := demo_uuid_ops) demo_cfg true demo_step_ops demo_service
              demo_app looked_up 1 0 U1 U0 "default" invitation typed_world 5 100 demo_resp)
    as (m & d & w' & acts & reply & a & Hsend & Hstep & Hserved & _).
  - by vm_compute.
  - apply invitation_wf.
  - done.
  - done.
  - by vm_compute.
  - by vm_compute.
  - by vm_compute.
  - done.
  - split; [|done]. unfold wf_resp, in_u64, in_u32, in_i32, in_i64. simpl. unfold code.OK. lia.
  - exists m, d, w'. split_and!; [exact Hsend|exact Hstep|by vm_compute|exact Hserved].
Defined.

Lemma misrouted_message_reconnects_witness :
  ∃ m d msg s1 l2 s2,
    send demo_cfg (Some 1%N) invitation looked_up
      = (Ret (Issued (CallRaftStep 0 m d) invitation), looked_up) ∧
    raftStep demo_service demo_app U2 m typed_world
      = (Ret ([SetStatus (mkStatus ST_INVALID_ARGUMENT msg)], true), typed_world) ∧
    send_complete true 0 (g_msg empty_response) (mkStatus ST_INVALID_ARGUMENT msg) looked_up
      = (Ret (mkHandler None (Some msg)), s1) ∧
    create_or_reinit_client (mesg_factory two_peers 7 U0 "default") U1 false s1
      = (Ret (Some l2), s2) ∧
    heap s2 !! 2%N = Some (MessagingClient "10.0.0.1:9000" 0).
Proof.
  destruct (misrouted_message_reconnects (H := demo_uuid_ops) demo_cfg demo_service demo_app two_peers
              looked_up 1 0 7 U1 U2 U0 U0 "default" "default" false invitation typed_world
              "10.0.0.1:9000" 0 looked_up_reachable)
    as (m & d & msg & s1 & l2 & s2 & Hsend & Hstep & _ & Hdone & Hlook & _ & Hnew & _).
  - by vm_compute.
  - by vm_compute.
  - by vm_compute.
  - lia.
  - apply invitation_wf.
  - done.
  - split; by vm_compute.
  - exists m, d, msg, s1, l2, s2.
    split_and!; [exact Hsend|exact Hstep|exact Hdone|exact Hlook|exact Hnew].
Defined.
End ClusterDemo.
