(* ===== verification/DataService.v ===== *)
(** * The data service and the gRPC server

    [data_service_grpc] ([src/lib/data_service_grpc.cpp]), the parts of
    [msg_service], [proto_service] and [ManagerImpl] that create the gRPC server
    and (re-)register everything with it: [associate], [bind],
    [bind_data_service_request], [start] and [restart_server].  Servers and
    request handlers are identified by numbers. *)

From stdpp Require Import base gmap strings list numbers relations.
From S2P Require Import Prelude Types.

(** The gRPC server library: whether a server can be made, and whether a server
    accepts a service, the RaftStep method, or a generic method. *)
Record grpc_lib := mkGrpcLib {
  make_server_ok : outcome bool;
  accepts_async_service : N → bool;
  accepts_raft_step : N → bool;
  accepts_generic_service : N → bool;
  accepts_generic_rpc : N → string → bool;
}.

(** Calls to a server that succeeded. *)
Inductive server_call :=
| RegisterAsyncService (server : N)
| RegisterGenericService (server : N)
| Run (server : N)
| RegisterGenericRpc (server : N) (name : string) (handler : N)
| RegisterRaftStep (server : N).

(** [_request_map], [_grpc_server] of the data service; [mesg_service]: whether the
    service exists, and with the data service enabled or not; [_grpc_server] of the
    manager; the next server's number; the calls made. *)
Record server_state := mkServerState {
  request_map : gmap string N;
  ds_server : option N;
  mesg_service : option bool;
  grpc_server : option N;
  next_server : N;
  calls : list server_call;
}.

Section data_service.
Context `{UuidOps}.
Context (lib : grpc_lib).

Definition call (c : server_call) : M server_state unit := modify (λ s,
  mkServerState (request_map s) (ds_server s) (mesg_service s) (grpc_server s) (next_server s)
    (calls s ++ [c])).

(** ** [data_service_grpc] *)

Definition set_grpc_server (server : N) : M server_state unit := modify (λ s,
  mkServerState (request_map s) (Some server) (mesg_service s) (grpc_server s) (next_server s)
    (calls s)).

Definition ds_associate : M server_state unit :=
  server ← gets ds_server;
  n ← deref "null _grpc_server" server;
  if accepts_generic_service lib n then call (RegisterGenericService n)
  else throw "Could not register generic service with gRPC!".

Fixpoint register_all (n : N) (handlers : list (string * N)) : M server_state unit :=
  match handlers with
  | [] => mret tt
  | (name, cb) :: rest =>
      if accepts_generic_rpc lib n name
      then call (RegisterGenericRpc n name cb);; register_all n rest
      else throw ("Could not register generic rpc " +:+ name +:+ " with gRPC!")
  end.

(** [bind()]: every handler, in the order of the hash map. *)
Definition ds_bind_all : M server_state unit :=
  handlers ← gets request_map;
  match map_to_list handlers with
  | [] => mret tt
  | hs => server ← gets ds_server;
          n ← deref "null _grpc_server" server;
          register_all n hs
  end.

(** [bind(request_name, group_id, request_cb)] *)
Definition ds_bind (request_name : string) (group_id : uuid) (request_cb : option N)
  : M server_state bool :=
  server ← gets ds_server;
  n ← deref "NULL _grpc_server!" server;
  match request_cb with
  | None => mret false
  | Some cb =>
      let name := get_generic_method_name request_name group_id in
      handlers ← gets request_map;
      let '(handlers', happened) := emplace name cb handlers in
      modify (λ s, mkServerState handlers' (ds_server s) (mesg_service s) (grpc_server s)
                     (next_server s) (calls s));;
      if (happened : bool) then
        if accepts_generic_rpc lib n name
        then call (RegisterGenericRpc n name cb);; mret true
        else throw ("Could not register generic rpc " +:+ request_name +:+ " with gRPC!")
      else mret false
  end.

(** ** [msg_service] and [proto_service] *)

Definition msg_associate (data_service_enabled : bool) (server : N) : M server_state unit :=
  if data_service_enabled then set_grpc_server server;; ds_associate else mret tt.

Definition msg_bind (data_service_enabled : bool) : M server_state unit :=
  if data_service_enabled then ds_bind_all else mret tt.

Definition svc_associate (data_service_enabled : bool) (server : N) : M server_state unit :=
  msg_associate data_service_enabled server;;
  if accepts_async_service lib server then call (RegisterAsyncService server)
  else ub "Could not register RaftSvc with gRPC!".

Definition svc_bind (data_service_enabled : bool) (server : N) : M server_state unit :=
  msg_bind data_service_enabled;;
  if accepts_raft_step lib server then call (RegisterRaftStep server)
  else ub "Could not bind gRPC ::RaftStep to routine!".

Definition svc_bind_data_service_request (data_service_enabled : bool) (request_name : string)
    (group_id : uuid) (request_handler : option N) : M server_state bool :=
  if data_service_enabled then ds_bind request_name group_id request_handler else mret false.

(** ** [ManagerImpl] *)

Definition bind_data_service_request (request_name : string) (group_id : uuid)
    (request_handler : option N) : M server_state bool :=
  svc ← gets mesg_service;
  enabled ← deref "Need to call ::start() first!" svc;
  svc_bind_data_service_request enabled request_name group_id request_handler.

(** The new server takes the place of the old one. *)
Definition install_server : M server_state N := λ s,
  (Ret (next_server s),
   mkServerState (request_map s) (ds_server s) (mesg_service s) (Some (next_server s))
     (next_server s + 1) (calls s)).

Definition restart_server : M server_state unit :=
  svc ← gets mesg_service;
  enabled ← deref "Need to call ::start() first!" svc;
  match make_server_ok lib with
  | Ub e => ub e
  | Throw _ | Ret false => mret tt
  | Ret true =>
      server ← install_server;
      svc_associate enabled server;;
      call (Run server);;
      svc_bind enabled server
  end.

Definition start (and_data_svc : bool) : M server_state unit :=
  modify (λ s, mkServerState (request_map s) (ds_server s)
                 (match mesg_service s with None => Some and_data_svc | svc => svc end)
                 (grpc_server s) (next_server s) (calls s));;
  restart_server.

Definition stopped : server_state := mkServerState ∅ None None None 0 [].
End data_service.

(** What the application can do, with whatever the gRPC library answers, when the call
    returns normally. *)
Inductive server_step `{UuidOps} (s : server_state) : server_state → Prop :=
| step_start lib and_data_svc s' :
    start lib and_data_svc s = (Ret tt, s') → server_step s s'
| step_restart lib s' :
    restart_server lib s = (Ret tt, s') → server_step s s'
| step_bind lib name g cb r s' :
    bind_data_service_request lib name g cb s = (Ret r, s') → server_step s s'.

(** Every handler is registered with the server of the data service, which is the
    running one; without a data service there are no handlers. *)
Record server_wf (s : server_state) : Prop := {
  sw_handlers : ∀ n name cb, ds_server s = Some n → request_map s !! name = Some cb →
                RegisterGenericRpc n name cb ∈ calls s;
  sw_server : mesg_service s = Some true → ds_server s = grpc_server s;
  sw_disabled : mesg_service s ≠ Some true → request_map s = ∅ ∧ ds_server s = None;
  sw_unstarted : mesg_service s = None → grpc_server s = None;
}.

(** ** Lemmas *)

Section data_service_lemmas.
Context `{UuidOps}.
Implicit Types (lib : grpc_lib) (s : server_state) (n : N).

Definition with_calls (cs : list server_call) s : server_state :=
  mkServerState (request_map s) (ds_server s) (mesg_service s) (grpc_server s) (next_server s)
    (calls s ++ cs).

Lemma with_calls_app cs cs' s : with_calls cs' (with_calls cs s) = with_calls (cs ++ cs') s.
Proof. unfold with_calls. simpl. by rewrite app_assoc. Qed.

Definition rpc_calls n (hs : list (string * N)) : list server_call :=
  (λ h, RegisterGenericRpc n h.1 h.2) <$> hs.

(** Registering returns only if every handler was accepted. *)
Lemma register_all_run lib n hs s s' :
  register_all lib n hs s = (Ret tt, s') ↔
  Forall (λ h, accepts_generic_rpc lib n h.1 = true) hs ∧ s' = with_calls (rpc_calls n hs) s.
Proof.
  revert s. induction hs as [|[name cb] hs IH]; intros s; simpl.
  { unfold with_calls. rewrite app_nil_r. destruct s; simpl.
    split; [intros [= <-]; by split|by intros [_ ->]]. }
  rewrite Forall_cons. simpl. destruct (accepts_generic_rpc lib n name); [|by split; [|intros [[? _] _]]].
  unfold mbind, M_bind. simpl. rewrite IH. change (mkServerState _ _ _ _ _ _) with
    (with_calls [RegisterGenericRpc n name cb] s). rewrite with_calls_app.
  split; [intros [? ->]; by split|by intros [[_ ?] ->]].
Qed.

Lemma ds_bind_all_run lib s s' n :
  ds_server s = Some n →
  ds_bind_all lib s = (Ret tt, s') ↔
  Forall (λ h, accepts_generic_rpc lib n h.1 = true) (map_to_list (request_map s)) ∧
  s' = with_calls (rpc_calls n (map_to_list (request_map s))) s.
Proof.
  intros Hn. rewrite <-register_all_run. unfold ds_bind_all, mbind, M_bind, gets.
  destruct (map_to_list (request_map s)) as [|h hs]; [done|]. by rewrite Hn.
Qed.

(** The server after a restart, and the calls it got. *)
Definition restarted (enabled : bool) s : server_state :=
  let n := next_server s in
  mkServerState (request_map s) (if enabled then Some n else ds_server s) (mesg_service s) (Some n)
    (n + 1)
    (calls s ++ (if enabled then [RegisterGenericService n] else []) ++
     [RegisterAsyncService n; Run n] ++
     (if enabled then rpc_calls n (map_to_list (request_map s)) else []) ++ [RegisterRaftStep n]).

Lemma restart_run lib s s' enabled :
  mesg_service s = Some enabled → restart_server lib s = (Ret tt, s') →
  s' = s ∧ make_server_ok lib ≠ Ret true ∨
  s' = restarted enabled s ∧ make_server_ok lib = Ret true.
Proof.
  intros Hsvc. unfold restart_server, mbind, M_bind, gets. rewrite Hsvc. simpl.
  destruct (make_server_ok lib) as [[]|e|e]; [|by intros [= <-]; left..|done].
  unfold restarted, svc_associate, svc_bind, msg_associate, msg_bind, mbind, M_bind. simpl. destruct enabled; simpl.
  - unfold ds_associate, mbind, M_bind, gets. simpl.
    destruct (accepts_generic_service lib (next_server s)); simpl; [|done].
    destruct (accepts_async_service lib (next_server s)); simpl; [|done].
    match goal with |- context [ds_bind_all lib ?st] => set (s1 := st) end.
    destruct (ds_bind_all lib s1) as [[[]|e|e] s2] eqn:Hb; simpl; try done.
    apply (ds_bind_all_run lib s1 s2 (next_server s) eq_refl) in Hb as [_ ->].
    destruct (accepts_raft_step lib (next_server s)); simpl; [|done]. intros [= <-]. right.
    split; [|done]. unfold s1. simpl. f_equal. by rewrite <-!app_assoc.
  - destruct (accepts_async_service lib (next_server s)); simpl; [|done].
    destruct (accepts_raft_step lib (next_server s)); simpl; [|done]. intros [= <-]. right.
    split; [|done]. f_equal. by rewrite <-!app_assoc.
Qed.

(** A library that accepts everything for the next server. *)
Lemma restart_runs lib s enabled :
  let n := next_server s in
  mesg_service s = Some enabled → make_server_ok lib = Ret true →
  accepts_generic_service lib n = true → accepts_async_service lib n = true →
  accepts_raft_step lib n = true → (∀ name, accepts_generic_rpc lib n name = true) →
  restart_server lib s = (Ret tt, restarted enabled s).
Proof.
  intros n Hsvc Hmk Hgs Has Hrs Hall.
  unfold restart_server, mbind, M_bind, gets. rewrite Hsvc, Hmk. simpl.
  unfold svc_associate, svc_bind, msg_associate, msg_bind, ds_associate, mbind, M_bind, gets. simpl. fold n.
  destruct enabled.
  - simpl. fold n. rewrite Hgs. simpl. rewrite Has. simpl.
    match goal with |- context [ds_bind_all lib ?st] => set (s1 := st) end.
    assert (ds_bind_all lib s1 = (Ret tt, with_calls (rpc_calls n (map_to_list (request_map s))) s1)) as ->.
    { apply (ds_bind_all_run lib s1 _ n eq_refl). split; [|done].
      apply Forall_forall. intros h _. apply Hall. }
    rewrite Hrs. unfold restarted, with_calls, s1. simpl. fold n.
    unfold call, modify. simpl. by rewrite <-!app_assoc.
  - simpl. rewrite Has. simpl. rewrite Hrs. unfold restarted, call, modify. simpl. fold n.
    by rewrite <-!app_assoc.
Qed.

Lemma restarted_wf enabled s :
  mesg_service s = Some enabled → server_wf s → server_wf (restarted enabled s).
Proof.
  intros Hsvc [Hh Hs Hd _]. rewrite Hsvc in Hd. destruct enabled.
  - split; simpl; [|done|by rewrite Hsvc..].
    intros n name cb [= <-] Hcb. rewrite elem_of_app, !elem_of_cons, elem_of_app. do 4 right. left.
    apply list_elem_of_fmap. exists (name, cb). split; [done|]. by apply elem_of_map_to_list.
  - destruct Hd as [Hm Hn]; [done|]. split; simpl; rewrite ?Hsvc, ?Hm, ?Hn; done.
Qed.

(** The ways a bind returns. *)
Lemma ds_bind_run lib name g cb s r s' :
  ds_bind lib name g cb s = (Ret r, s') →
  r = false ∧ s' = s ∨
  ∃ n h, r = true ∧ ds_server s = Some n ∧ cb = Some h ∧
    request_map s !! get_generic_method_name name g = None ∧
    s' = mkServerState (<[get_generic_method_name name g := h]> (request_map s)) (ds_server s)
           (mesg_service s) (grpc_server s) (next_server s)
           (calls s ++ [RegisterGenericRpc n (get_generic_method_name name g) h]).
Proof.
  unfold ds_bind, mbind, M_bind, gets, modify. destruct (ds_server s) as [n|] eqn:Hn; [|done]. simpl.
  destruct cb as [h|]; [|intros [= <- <-]; by left].
  destruct (request_map s !! get_generic_method_name name g) as [h'|] eqn:Hh.
  - rewrite (emplace_Some _ _ _ _ Hh). simpl. intros [= <- <-]. left. split; [done|].
    destruct s; simpl in *; by subst.
  - rewrite (emplace_None _ _ _ Hh). simpl.
    destruct (accepts_generic_rpc lib n _); [|done]. simpl. intros [= <- <-]. right. exists n, h.
    rewrite ?Hn. by split_and!.
Qed.

(** [start] first creates the service, if there is none. *)
Definition with_service (b : bool) s : server_state :=
  mkServerState (request_map s) (ds_server s)
    (match mesg_service s with None => Some b | svc => svc end) (grpc_server s) (next_server s) (calls s).

Lemma with_service_wf b s :
  server_wf s → server_wf (with_service b s) ∧ ∃ e, mesg_service (with_service b s) = Some e.
Proof.
  intros [Hh Hs Hd Hu]. unfold with_service. destruct (mesg_service s) as [e|] eqn:Hsvc.
  - split; [|by exists e]. by split; simpl; rewrite ?Hsvc.
  - destruct Hd as [Hm Hn]; [done|]. specialize (Hu eq_refl). split; [|by exists b].
    by split; simpl; rewrite ?Hm, ?Hn, ?Hu.
Qed.

Lemma restart_wf lib s s' : server_wf s → restart_server lib s = (Ret tt, s') → server_wf s'.
Proof.
  intros Hwf Hr. destruct (mesg_service s) as [e|] eqn:Hsvc.
  - destruct (restart_run lib s s' e Hsvc Hr) as [[-> _]|[-> _]]; [done|].
    by apply restarted_wf.
  - unfold restart_server, mbind, M_bind, gets in Hr. by rewrite Hsvc in Hr.
Qed.

Lemma bind_wf lib name g cb s r s' :
  server_wf s → bind_data_service_request lib name g cb s = (Ret r, s') → server_wf s'.
Proof.
  intros Hwf. unfold bind_data_service_request, mbind, M_bind, gets.
  destruct (mesg_service s) as [[]|] eqn:Hsvc; simpl; [|by intros [= _ <-]|done].
  intros [[_ ->]|(n & h & _ & Hn & -> & Hnew & ->)]%ds_bind_run; [done|].
  destruct Hwf as [Hh Hs Hd Hu]. split; simpl; rewrite ?Hsvc; [|by rewrite Hs|done|done].
  intros n' name' cb' Hn' Hcb. rewrite Hn in Hn'. injection Hn' as <-. apply elem_of_app.
  destruct (decide (get_generic_method_name name g = name')) as [<-|Hne].
  - rewrite lookup_insert_eq in Hcb. injection Hcb as ->. right. by left.
  - rewrite lookup_insert_ne in Hcb by done. left. by apply Hh.
Qed.

Lemma server_step_wf s s' : server_step s s' → server_wf s → server_wf s'.
Proof.
  intros [lib b s1 Hs|lib s1 Hs|lib name g cb r s1 Hs] Hwf.
  - eapply restart_wf; [|exact Hs]. by apply with_service_wf.
  - by eapply restart_wf.
  - by eapply bind_wf.
Qed.
End data_service_lemmas.

(** ** Properties *)

Section data_service_theorems.
Context `{UuidOps}.

(** Whatever sequence of starts, restarts and binds the application makes, and whatever
    the gRPC library answers, as long as each call returns: every bound request handler
    is registered with the gRPC server that runs, also after that server was replaced. *)
Theorem handlers_registered (s : server_state) (n : N) (name : string) (cb : N) :
  rtc server_step stopped s →
  grpc_server s = Some n → request_map s !! name = Some cb →
  RegisterGenericRpc n name cb ∈ calls s.
Proof.
  intros Hr Hn Hcb. assert (server_wf s) as [Hh Hs Hd _].
  { assert (server_wf stopped) as Hinit by by split.
    revert Hinit. clear -Hr. induction Hr as [|s1 s2 s3 Hstep _ IH]; [done|].
    intros Hwf. apply IH. by eapply server_step_wf. }
  destruct (decide (mesg_service s = Some true)) as [He|He].
  - apply Hh; [by rewrite Hs|done].
  - destruct (Hd He) as [Hm _]. by rewrite Hm in Hcb.
Qed.

(** Replacing the server does everything in the order gRPC needs: the services are
    registered before the new server runs, the methods after, every bound handler among
    them exactly once and RaftStep last; the bindings themselves do not change. *)
Theorem restart_reregisters (lib : grpc_lib) (s : server_state) :
  let n := next_server s in
  mesg_service s = Some true → make_server_ok lib = Ret true →
  accepts_generic_service lib n = true → accepts_async_service lib n = true →
  accepts_raft_step lib n = true → (∀ name, accepts_generic_rpc lib n name = true) →
  ∃ s' hs, restart_server lib s = (Ret tt, s') ∧
    grpc_server s' = Some n ∧ ds_server s' = Some n ∧ request_map s' = request_map s ∧
    hs ≡ₚ map_to_list (request_map s) ∧
    calls s' = calls s ++ [RegisterGenericService n; RegisterAsyncService n; Run n] ++
                 ((λ h, RegisterGenericRpc n h.1 h.2) <$> hs) ++ [RegisterRaftStep n].
Proof.
  intros n Hsvc Hmk Hgs Has Hrs Hall.
  pose proof (restart_runs lib s true Hsvc Hmk Hgs Has Hrs Hall) as Hrun.
  eexists _, (map_to_list (request_map s)). split; [exact Hrun|]. by split_and!.
Qed.

(** Groups do not share handlers: binding a request of one group leaves the handler of
    every other request, and of the same request of every other group, as it is. *)
Theorem binds_do_not_interfere `{!UuidLaws} (lib : grpc_lib) (s : server_state)
    (name name' : string) (g g' : uuid) (cb : option N) :
  (name, g) ≠ (name', g') →
  request_map (ds_bind lib name g cb s).2 !! get_generic_method_name name' g'
  = request_map s !! get_generic_method_name name' g'.
Proof.
  intros Hne. unfold ds_bind, mbind, M_bind, gets, modify.
  destruct (ds_server s) as [n|]; [|done]. destruct cb as [h|]; [|done]. simpl.
  pose proof (emplace_lookup_ne (request_map s) (get_generic_method_name name g)
                (get_generic_method_name name' g') h) as Hl.
  destruct (emplace _ h (request_map s)) as [m happened]. simpl in Hl.
  assert (m !! get_generic_method_name name' g' = request_map s !! get_generic_method_name name' g') as Hm.
  { apply Hl. intros Heq. apply method_name_inj in Heq as [-> ->]. done. }
  destruct happened; [|done]. simpl. by destruct (accepts_generic_rpc lib n _).
Qed.

(** A registration the server refuses cannot be tried again: the exception leaves the
    handler in the map, so the next attempt reports that the request exists already and
    registers nothing. *)
Theorem refused_bind_sticks (lib lib' : grpc_lib) (s : server_state) (n : N) (name : string)
    (g : uuid) (cb : N) :
  ds_server s = Some n → request_map s !! get_generic_method_name name g = None →
  accepts_generic_rpc lib n (get_generic_method_name name g) = false →
  ∃ e s', ds_bind lib name g (Some cb) s = (Throw e, s') ∧ calls s' = calls s ∧
          ds_bind lib' name g (Some cb) s' = (Ret false, s').
Proof.
  intros Hn Hnew Hno. unfold ds_bind at 1, mbind, M_bind, gets, modify. rewrite Hn. simpl.
  rewrite (emplace_None _ _ _ Hnew), Hno. simpl. eexists _, _. split; [done|]. split; [done|].
  unfold ds_bind, mbind, M_bind, gets, modify. simpl. rewrite Hn. simpl.
  by rewrite (emplace_Some _ _ _ _ (lookup_insert_eq _ _ _)).
Qed.
End data_service_theorems.

(** ** Witnesses *)

Import Demo.

Module DataServiceDemo.
(** A library that accepts everything, and one that refuses methods. *)
Definition accepting : grpc_lib :=
  mkGrpcLib (Ret true) (λ _, true) (λ _, true) (λ _, true) (λ _ _, true).
Definition refusing : grpc_lib :=
  mkGrpcLib (Ret true) (λ _, true) (λ _, true) (λ _, true) (λ _ _, false).

Definition started : server_state := (start accepting true stopped).2.
Definition bound : server_state :=
  (bind_data_service_request (H := demo_uuid_ops) accepting "ping" U1 (Some 5%N) started).2.
Definition replaced : server_state := (restart_server accepting bound).2.
Definition ping : string := get_generic_method_name (H := demo_uuid_ops) "ping" U1.
End DataServiceDemo.
Import DataServiceDemo.

Lemma handlers_registered_witness :
  grpc_server replaced = Some 1%N ∧ RegisterGenericRpc 1 ping 5 ∈ calls replaced.
Proof.
  split; [done|].
  apply (handlers_registered (H := demo_uuid_ops) replaced 1 ping 5); [|done|by vm_compute].
  apply (rtc_l _ _ started); [by apply (step_start _ accepting true)|].
  apply (rtc_l _ _ bound); [|apply rtc_once; apply (step_restart _ accepting); by vm_compute].
  apply (step_bind (H := demo_uuid_ops) _ accepting "ping" U1 (Some 5%N) true). by vm_compute.
Defined.

Lemma restart_reregisters_witness :
  ∃ s' hs, restart_server accepting bound = (Ret tt, s') ∧
    grpc_server s' = Some 1%N ∧ ds_server s' = Some 1%N ∧ request_map s' = request_map bound ∧
    hs ≡ₚ map_to_list (request_map bound) ∧
    calls s' = calls bound ++ [RegisterGenericService 1; RegisterAsyncService 1; Run 1] ++
                 ((λ h, RegisterGenericRpc 1 h.1 h.2) <$> hs) ++ [RegisterRaftStep 1].
Proof. by apply (restart_reregisters accepting bound). Defined.

Lemma binds_do_not_interfere_witness :
  request_map (ds_bind (H := demo_uuid_ops) accepting "ping" U2 (Some 6%N) bound).2 !! ping = Some 5%N.
Proof.
  unfold ping.
  rewrite (binds_do_not_interfere (H := demo_uuid_ops) accepting bound "ping" "ping" U2 U1 (Some 6%N));
    [by vm_compute|done].
Defined.

Lemma refused_bind_sticks_witness :
  ∃ e s', ds_bind (H := demo_uuid_ops) refusing "ping" U1 (Some 5%N) started = (Throw e, s') ∧
          calls s' = calls started ∧
          ds_bind (H := demo_uuid_ops) accepting "ping" U1 (Some 5%N) s' = (Ret false, s').
Proof.
  by apply (refused_bind_sticks (H := demo_uuid_ops) refusing accepting started 0 "ping" U1 5).
Defined.
