(* ===== verification/BindThreads.v ===== *)
(** * Binding requests while the gRPC server is replaced

    [ManagerImpl::restart_server] and [data_service_grpc::bind] ([src/lib/manager_impl.cpp],
    [src/lib/data_service_grpc.cpp]) as threads.  A restart holds the manager's lock, so there
    is one at a time, but [bind] takes only the lock of the request map: binds fall between
    the parts of a restart, between which the manager destroys a server the data service still
    points to.  [DataService] has the same operations as single calls. *)

From stdpp Require Import base gmap strings list numbers relations.
From S2P Require Import Prelude Types DataService.

(** How far a restart is, and with which server. *)
Inductive restart_phase :=
| Idle
| Replaced (n : N)
| Pointed (n : N)
| Associated (n : N)
| Running (n : N)
| Bound (n : N).

Section bind_threads.
Context `{UuidOps}.

Definition data_service_enabled : M server_state bool :=
  svc ← gets mesg_service;
  deref "Need to call ::start() first!" svc.

(** ** A restart, in parts *)

Definition replace_section (lib : grpc_lib) (phase : restart_phase) : M server_state restart_phase :=
  enabled ← data_service_enabled;
  match phase with
  | Idle =>
      match make_server_ok lib with
      | Ub e => ub e
      | Throw _ | Ret false => mret Idle
      | Ret true => Replaced <$> install_server
      end
  | Replaced n =>
      (if enabled : bool then set_grpc_server n else mret tt);;
      mret (Pointed n)
  | Pointed n =>
      (if enabled : bool then ds_associate lib else mret tt);;
      (if accepts_async_service lib n then call (RegisterAsyncService n)
       else ub "Could not register RaftSvc with gRPC!");;
      mret (Associated n)
  | Associated n => call (Run n);; mret (Running n)
  | Running n => msg_bind lib enabled;; mret (Bound n)
  | Bound n =>
      (if accepts_raft_step lib n then call (RegisterRaftStep n)
       else ub "Could not bind gRPC ::RaftStep to routine!");;
      mret Idle
  end.

(** The parts, with nothing in between. *)
Definition restart_alone (lib : grpc_lib) : M server_state unit :=
  p0 ← replace_section lib Idle;
  match p0 with
  | Replaced _ =>
      p1 ← replace_section lib p0; p2 ← replace_section lib p1; p3 ← replace_section lib p2;
      p4 ← replace_section lib p3; p5 ← replace_section lib p4; mret tt
  | _ => mret tt
  end.

(** ** A bind, in parts *)

Inductive binder :=
| Checks (request_name : string) (group_id : uuid) (request_cb : option N)
| Emplaces (request_name : string) (group_id : uuid) (cb : N)
| BindDone (r : bool).

(** Before the lock of the request map is taken. *)
Definition check_section (request_name : string) (group_id : uuid) (request_cb : option N)
  : M server_state binder :=
  enabled ← data_service_enabled;
  if enabled : bool then
    server ← gets ds_server;
    deref "NULL _grpc_server!" server;;
    mret (match request_cb with
          | None => BindDone false
          | Some cb => Emplaces request_name group_id cb
          end)
  else mret (BindDone false).

(** With the lock.  The pointer is read again; it dangles if its server is not the manager's. *)
Definition emplace_section (lib : grpc_lib) (request_name : string) (group_id : uuid) (cb : N)
  : M server_state binder :=
  let name := get_generic_method_name request_name group_id in
  handlers ← gets request_map;
  let '(handlers', happened) := emplace name cb handlers in
  modify (λ s, mkServerState handlers' (ds_server s) (mesg_service s) (grpc_server s)
                 (next_server s) (calls s));;
  if (happened : bool) then
    server ← gets ds_server;
    n ← deref "null _grpc_server" server;
    live ← gets grpc_server;
    if decide (live = Some n) then
      if accepts_generic_rpc lib n name
      then call (RegisterGenericRpc n name cb);; mret (BindDone true)
      else throw ("Could not register generic rpc " +:+ request_name +:+ " with gRPC!")
    else ub "_grpc_server was destroyed"
  else mret (BindDone false).

Definition binder_section (lib : grpc_lib) (b : binder) : M server_state binder :=
  match b with
  | Checks name g cb => check_section name g cb
  | Emplaces name g cb => emplace_section lib name g cb
  | BindDone r => mret (BindDone r)
  end.

(** ** Interleavings *)

Record bind_state := mkBind {
  bs_server : server_state;
  bs_phase : restart_phase;
  bs_binders : list binder;
}.

(** [start] creates the service with the manager's lock held, so between restarts; the steps
    are the parts that return normally, with whatever the gRPC library answers. *)
Inductive bind_step (s : bind_state) : bind_state → Prop :=
| step_creates b :
    bs_phase s = Idle → bind_step s (mkBind (with_service b (bs_server s)) Idle (bs_binders s))
| step_replaces lib ph w :
    replace_section lib (bs_phase s) (bs_server s) = (Ret ph, w) →
    bind_step s (mkBind w ph (bs_binders s))
| step_binder_arrives name g cb :
    bind_step s (mkBind (bs_server s) (bs_phase s) (bs_binders s ++ [Checks name g cb]))
| step_binder lib i b b' w :
    bs_binders s !! i = Some b → binder_section lib b (bs_server s) = (Ret b', w) →
    bind_step s (mkBind w (bs_phase s) (<[i := b']> (bs_binders s))).

Definition bind_initial : bind_state := mkBind stopped Idle [].

(** ** What holds between the parts *)

Definition phase_server (ph : restart_phase) : option N :=
  match ph with
  | Idle => None
  | Replaced n | Pointed n | Associated n | Running n | Bound n => Some n
  end.

(** The data service may point to a server that is gone. *)
Definition dangling (ph : restart_phase) : bool :=
  match ph with Replaced _ => true | _ => false end.

(** Every handler has been registered with the server of this restart. *)
Definition settled (ph : restart_phase) : bool :=
  match ph with Idle | Bound _ => true | _ => false end.

Definition registered (s : server_state) : Prop :=
  ∀ n name cb, ds_server s = Some n → request_map s !! name = Some cb →
               RegisterGenericRpc n name cb ∈ calls s.

Definition binder_ok (s : server_state) (b : binder) : Prop :=
  match b with
  | Emplaces _ _ _ => mesg_service s = Some true ∧ is_Some (ds_server s)
  | _ => True
  end.

Record bind_inv (s : bind_state) : Prop := {
  bi_disabled : mesg_service (bs_server s) ≠ Some true →
                request_map (bs_server s) = ∅ ∧ ds_server (bs_server s) = None;
  bi_unstarted : mesg_service (bs_server s) = None → grpc_server (bs_server s) = None;
  bi_points : dangling (bs_phase s) = false → mesg_service (bs_server s) = Some true →
              ds_server (bs_server s) = grpc_server (bs_server s);
  bi_phase : ∀ n, phase_server (bs_phase s) = Some n → grpc_server (bs_server s) = Some n;
  bi_settled : settled (bs_phase s) = true → registered (bs_server s);
  bi_binders : Forall (binder_ok (bs_server s)) (bs_binders s);
}.
End bind_threads.

(** ** Lemmas *)

Section bind_lemmas.
Context `{UuidOps}.
Implicit Types (lib : grpc_lib) (s : server_state) (b : bind_state) (n : N) (ph : restart_phase).

Lemma enabled_run s e : mesg_service s = Some e → data_service_enabled s = (Ret e, s).
Proof. intros He. unfold data_service_enabled, mbind, M_bind, gets. by rewrite He. Qed.

Lemma enabled_ret s e s' : data_service_enabled s = (Ret e, s') → mesg_service s = Some e ∧ s' = s.
Proof.
  unfold data_service_enabled, mbind, M_bind, gets. destruct (mesg_service s) as [e'|]; [|done].
  by intros [= -> ->].
Qed.

(** Registering the handlers leaves the service as it is. *)
Lemma ds_bind_all_service lib s u s' :
  ds_bind_all lib s = (Ret u, s') → mesg_service s' = mesg_service s.
Proof.
  unfold ds_bind_all, mbind, M_bind, gets. destruct (map_to_list (request_map s)) as [|h hs];
    [by intros [= _ <-]|]. destruct (ds_server s) as [n|]; [|done]. destruct u.
  change (register_all lib n (h :: hs) s = (Ret tt, s') → mesg_service s' = mesg_service s).
  by intros [_ ->]%register_all_run.
Qed.

(** The parts of a restart make up the call. *)
Lemma restart_alone_run lib s : restart_alone lib s = restart_server lib s.
Proof.
  unfold restart_alone, restart_server, svc_associate, svc_bind, msg_associate, msg_bind.
  destruct s as [m d [e|] g n cs]; [|done].
  unfold replace_section, data_service_enabled, msg_bind, fmap, M_fmap, mbind, M_bind, gets. cbn.
  destruct (make_server_ok lib) as [[]|e0|e0]; [|done..]. cbn. destruct e; cbn.
  - unfold ds_associate, mbind, M_bind, gets. cbn.
    destruct (accepts_generic_service lib n); [|done]. cbn.
    destruct (accepts_async_service lib n); [|done]. cbn.
    destruct (ds_bind_all lib _) as [[u|e0|e0] s2] eqn:Hb; [|done..].
    apply ds_bind_all_service in Hb. cbn in *. rewrite Hb. cbn.
    by destruct (accepts_raft_step lib n).
  - destruct (accepts_async_service lib n); [|done]. cbn. by destruct (accepts_raft_step lib n).
Qed.

Definition with_server n s : server_state :=
  mkServerState (request_map s) (Some n) (mesg_service s) (grpc_server s) (next_server s) (calls s).

Definition replaced s : server_state :=
  mkServerState (request_map s) (ds_server s) (mesg_service s) (Some (next_server s))
    (next_server s + 1) (calls s).

Lemma with_calls_nil s : with_calls [] s = s.
Proof. destruct s. unfold with_calls. simpl. by rewrite app_nil_r. Qed.

Lemma msg_bind_ret lib e s u s' :
  msg_bind lib e s = (Ret u, s') →
  ∃ cs, s' = with_calls cs s ∧
        (e = true → ∀ n name cb, ds_server s = Some n → request_map s !! name = Some cb →
                                 RegisterGenericRpc n name cb ∈ cs).
Proof.
  destruct e; simpl; [|intros [= _ <-]; exists []; by rewrite with_calls_nil].
  destruct u. destruct (ds_server s) as [n|] eqn:Hn.
  - intros [_ ->]%(ds_bind_all_run lib s s' n Hn). eexists. split; [done|].
    intros _ n' name cb [= <-] Hcb. apply list_elem_of_fmap. exists (name, cb).
    split; [done|]. by apply elem_of_map_to_list.
  - unfold ds_bind_all, mbind, M_bind, gets.
    destruct (map_to_list (request_map s)); [|by rewrite Hn].
    intros [= <-]. exists []. by rewrite with_calls_nil.
Qed.

Lemma ds_associate_ret lib s u s' :
  ds_associate lib s = (Ret u, s') → ∃ cs, s' = with_calls cs s.
Proof.
  unfold ds_associate, mbind, M_bind, gets. destruct (ds_server s) as [n|]; [|done]. cbn.
  destruct (accepts_generic_service lib n); [|done]. intros [= _ <-]. by eexists.
Qed.

(** What each part of a restart that returns has done. *)
Lemma replace_ret lib ph s ph' s' :
  replace_section lib ph s = (Ret ph', s') →
  ∃ e, mesg_service s = Some e ∧
    match ph with
    | Idle => ph' = Idle ∧ s' = s ∨ ph' = Replaced (next_server s) ∧ s' = replaced s
    | Replaced n => ph' = Pointed n ∧ s' = if e then with_server n s else s
    | Pointed n => ph' = Associated n ∧ ∃ cs, s' = with_calls cs s
    | Associated n => ph' = Running n ∧ ∃ cs, s' = with_calls cs s
    | Running n => ph' = Bound n ∧ ∃ cs, s' = with_calls cs s ∧
        (e = true → ∀ m name cb, ds_server s = Some m → request_map s !! name = Some cb →
                                 RegisterGenericRpc m name cb ∈ cs)
    | Bound n => ph' = Idle ∧ ∃ cs, s' = with_calls cs s
    end.
Proof.
  unfold replace_section. destruct (mesg_service s) as [e|] eqn:He;
    [|by unfold data_service_enabled, mbind, M_bind, gets; rewrite He].
  rewrite (run_bind _ _ _ _ _ (enabled_run s e He)). intros Hrun. exists e. split; [done|]. revert Hrun.
  destruct ph as [|n|n|n|n|n].
  - destruct (make_server_ok lib) as [[]|e0|e0]; intros [= <- <-]; auto.
  - destruct e; intros [= <- <-]; auto.
  - unfold mbind, M_bind.
    assert (∀ u s1, (if e then ds_associate lib else mret tt) s = (Ret u, s1) →
                    ∃ cs, s1 = with_calls cs s) as Ha.
    { intros u s1. destruct e; [apply ds_associate_ret|]. intros [= _ <-].
      exists []. by rewrite with_calls_nil. }
    destruct ((if e then ds_associate lib else mret tt) s) as [[u|e0|e0] s1]; [|done..].
    destruct (Ha u s1 eq_refl) as [cs ->]. destruct (accepts_async_service lib n); [|done].
    intros [= <- <-]. split; [done|]. eexists. apply with_calls_app.
  - intros [= <- <-]. split; [done|]. by eexists.
  - unfold mbind, M_bind. destruct (msg_bind lib e s) as [[u|e0|e0] s1] eqn:Hb; [|done..].
    intros [= <- <-]. split; [done|]. by eapply msg_bind_ret.
  - unfold mbind, M_bind. destruct (accepts_raft_step lib n); [|done].
    intros [= <- <-]. split; [done|]. by eexists.
Qed.

Lemma registered_calls cs s : registered s → registered (with_calls cs s).
Proof. intros Hr n name cb Hn Hcb. simpl. apply elem_of_app. left. by apply Hr. Qed.

(** [mesg_service] and a pointer that is set stay. *)
Lemma binders_stay s s' (bs : list binder) :
  mesg_service s' = mesg_service s → (is_Some (ds_server s) → is_Some (ds_server s')) →
  Forall (binder_ok s) bs → Forall (binder_ok s') bs.
Proof.
  intros Hm Hd Hbs. eapply Forall_impl; [exact Hbs|]. intros [|?? cb|]; simpl; [done| |done].
  rewrite Hm. intros [? ?]. auto.
Qed.

(** Calls to the server between two parts that need the same of it. *)
Lemma calls_inv cs b ph :
  bind_inv b → dangling (bs_phase b) = dangling ph → dangling ph = false →
  phase_server ph = None ∨ phase_server ph = phase_server (bs_phase b) →
  (settled ph = true → registered (with_calls cs (bs_server b))) →
  bind_inv (mkBind (with_calls cs (bs_server b)) ph (bs_binders b)).
Proof.
  intros [Hd Hu Hp Hph Hs Hb] Hdg Hf Hps Hr. split; simpl; [done|done| | |done|done].
  - intros _. apply Hp. congruence.
  - intros n Hn. apply Hph. destruct Hps; congruence.
Qed.

Lemma replace_inv lib b ph w :
  bind_inv b → replace_section lib (bs_phase b) (bs_server b) = (Ret ph, w) →
  bind_inv (mkBind w ph (bs_binders b)).
Proof.
  intros Hi Hrun. destruct (replace_ret _ _ _ _ _ Hrun) as (e & He & Hcase).
  destruct b as [s ph0 bs]. simpl in *. destruct ph0 as [|n|n|n|n|n].
  - destruct Hcase as [[-> ->]|[-> ->]]; [done|]. destruct Hi as [Hd Hu Hp Hph Hs Hb]. simpl in *.
    split; simpl; [done| |done|by intros ? [= <-]|done|by eapply binders_stay].
    by rewrite He.
  - destruct Hcase as [-> ->]. destruct Hi as [Hd Hu Hp Hph Hs Hb]. simpl in *.
    destruct e; split; simpl; try done; try (by rewrite He).
    + intros _ _. symmetry. by apply Hph.
    + eapply binders_stay; [|by eexists|exact Hb]; done.
  - destruct Hcase as [-> [cs ->]]. by apply (calls_inv cs (mkBind s (Pointed n) bs)); auto.
  - destruct Hcase as [-> [cs ->]]. by apply (calls_inv cs (mkBind s (Associated n) bs)); auto.
  - destruct Hcase as (-> & cs & -> & Hreg).
    apply (calls_inv cs (mkBind s (Running n) bs)); simpl; auto. intros _ m name cb Hm Hcb. simpl in *.
    apply elem_of_app. right. destruct e; [by eapply Hreg|].
    destruct (bi_disabled _ Hi) as [Hemp _]; simpl; [by rewrite He|]. simpl in Hemp. by rewrite Hemp in Hcb.
  - destruct Hcase as [-> [cs ->]]. apply (calls_inv cs (mkBind s (Bound n) bs)); simpl; auto.
    intros _. apply registered_calls. by apply (bi_settled _ Hi).
Qed.

Lemma check_ret name g cb s (b' : binder) s' :
  check_section name g cb s = (Ret b', s') → s' = s ∧ binder_ok s b'.
Proof.
  unfold check_section. destruct (mesg_service s) as [e|] eqn:He;
    [|by unfold data_service_enabled, mbind, M_bind, gets; rewrite He].
  rewrite (run_bind _ _ _ _ _ (enabled_run s e He)). destruct e; [|by intros [= <- <-]].
  unfold mbind, M_bind, gets. destruct (ds_server s) as [n|] eqn:Hn; [|done].
  intros [= <- <-]. split; [done|]. destruct cb; simpl; [|done]. rewrite Hn. by eauto.
Qed.

(** The ways the second part of a bind returns. *)
Lemma emplace_ret lib name g cb s (b' : binder) s' :
  emplace_section lib name g cb s = (Ret b', s') →
  b' = BindDone false ∧ s' = s ∨
  ∃ n, b' = BindDone true ∧ ds_server s = Some n ∧ grpc_server s = Some n ∧
    s' = mkServerState (<[get_generic_method_name name g := cb]> (request_map s)) (ds_server s)
           (mesg_service s) (grpc_server s) (next_server s)
           (calls s ++ [RegisterGenericRpc n (get_generic_method_name name g) cb]).
Proof.
  unfold emplace_section, mbind, M_bind, gets, modify.
  destruct (request_map s !! get_generic_method_name name g) as [h|] eqn:Hh.
  - rewrite (emplace_Some _ _ _ _ Hh). cbn. intros [= <- <-]. left. split; [done|]. by destruct s.
  - rewrite (emplace_None _ _ _ Hh). cbn. destruct (ds_server s) as [n|] eqn:Hn; [|done]. cbn.
    destruct (decide (grpc_server s = Some n)) as [Hg|]; [|done].
    destruct (accepts_generic_rpc lib n _); [|done]. intros [= <- <-]. right. exists n.
    done.
Qed.

Lemma binder_inv lib b i p p' w :
  bind_inv b → bs_binders b !! i = Some p → binder_section lib p (bs_server b) = (Ret p', w) →
  bind_inv (mkBind w (bs_phase b) (<[i := p']> (bs_binders b))).
Proof.
  intros Hi Hp Hrun.
  assert (binder_ok (bs_server b) p) as Hok by (by eapply Forall_lookup_1; [apply (bi_binders _ Hi)|]).
  assert (∀ q, binder_ok (bs_server b) q →
            bind_inv (mkBind (bs_server b) (bs_phase b) (<[i := q]> (bs_binders b)))) as Hsame.
  { intros q Hq. destruct Hi. split; try done. by apply Forall_insert. }
  destruct p as [name g cb|name g cb|r]; simpl in Hrun.
  - destruct (check_ret _ _ _ _ _ _ Hrun) as [-> Hq]. by apply Hsame.
  - destruct (emplace_ret _ _ _ _ _ _ _ Hrun) as [[-> ->]|(n & -> & Hn & Hg & ->)]; [by apply Hsame|].
    destruct Hok as [He _]. destruct Hi as [Hd Hu Hpt Hph Hs Hb].
    split; simpl; try done; try (by rewrite He).
    + intros Hset m name' cb' Hm. simpl in *. rewrite lookup_insert_Some, elem_of_app.
      intros [[<- <-]|[_ Hcb]]; [right|left; by apply (Hs Hset)].
      apply list_elem_of_singleton. congruence.
    + apply Forall_insert; [|done]. by eapply binders_stay.
  - injection Hrun as <- <-. by apply Hsame.
Qed.

Lemma bind_step_inv b b' : bind_inv b → bind_step b b' → bind_inv b'.
Proof.
  intros Hi [e Hidle|lib ph w Hrun|name g cb|lib i p p' w Hp Hrun].
  - destruct b as [s ph bs]. simpl in *. subst ph. unfold with_service.
    destruct (mesg_service s) as [e'|] eqn:He; [by destruct s; simpl in *; subst|].
    destruct Hi as [Hd Hu Hpt Hph Hs Hb]. simpl in *. destruct Hd as [Hm Hn]; [by rewrite He|].
    specialize (Hu He). split; simpl; rewrite ?Hm, ?Hn, ?Hu; try done.
    apply (Forall_impl _ _ _ Hb). intros [|??cb|]; simpl; [done| |done].
    rewrite He. by intros [? _].
  - by eapply replace_inv.
  - destruct Hi as [Hd Hu Hpt Hph Hs Hb]. split; simpl; try done.
    apply Forall_app. split; [done|]. by apply Forall_singleton.
  - by eapply binder_inv.
Qed.

Lemma bind_reachable_inv b : rtc bind_step bind_initial b → bind_inv b.
Proof.
  intros Hr. apply (rtc_ind_r bind_inv bind_initial) in Hr; [done| |].
  - by split.
  - intros b1 b2 _ Hs Hi. by eapply bind_step_inv.
Qed.
End bind_lemmas.

(** ** Properties *)

Section bind_theorems.
Context `{UuidOps}.

(** C23: However binds and restarts of the server interleave, as long as each part returns: when
    no restart is under way, every bound request handler is registered with the gRPC server
    that runs, also the handlers that were bound in the middle of a restart. *)
Theorem interleaved_binds_registered (b : bind_state) (n : N) (name : string) (cb : N) :
  rtc bind_step bind_initial b → bs_phase b = Idle →
  grpc_server (bs_server b) = Some n → request_map (bs_server b) !! name = Some cb →
  RegisterGenericRpc n name cb ∈ calls (bs_server b).
Proof.
  intros Hr Hidle Hn Hcb. apply bind_reachable_inv in Hr as Hi.
  assert (mesg_service (bs_server b) = Some true) as He.
  { destruct (decide (mesg_service (bs_server b) = Some true)) as [|Hne]; [done|].
    destruct (bi_disabled b Hi Hne) as [Hemp _]. by rewrite Hemp in Hcb. }
  eapply (bi_settled b Hi); [by rewrite Hidle| |done].
  rewrite (bi_points b Hi); [done|by rewrite Hidle|done].
Qed.

(** A bind that has passed its check dereferences neither a null pointer nor a server that
    was destroyed, unless it falls between the replacement of the server and the assignment
    of the pointer. *)
Theorem bind_pointer_valid (b : bind_state) (i : nat) (name : string) (g : uuid) (cb : N)
    (lib : grpc_lib) (e : string) :
  rtc bind_step bind_initial b → bs_binders b !! i = Some (Emplaces name g cb) →
  dangling (bs_phase b) = false →
  (emplace_section lib name g cb (bs_server b)).1 ≠ Ub e.
Proof.
  intros Hr Hb Hd. apply bind_reachable_inv in Hr as Hi.
  assert (binder_ok (bs_server b) (Emplaces name g cb)) as [He [n Hn]]
    by (by eapply Forall_lookup_1; [apply (bi_binders _ Hi)|]).
  pose proof (bi_points b Hi Hd He) as Hg. rewrite Hn in Hg.
  unfold emplace_section, mbind, M_bind, gets, modify.
  destruct (emplace _ _ _) as [m [|]]; cbn; [|done]. rewrite Hn. cbn. rewrite <- Hg.
  rewrite decide_True by done. by destruct (accepts_generic_rpc lib n _).
Qed.
End bind_theorems.

(** ** Witnesses *)

Module BindThreadsDemo.
Import Demo.

Definition good_lib : grpc_lib :=
  mkGrpcLib (Ret true) (λ _, true) (λ _, true) (λ _, true) (λ _ _, true).

(** Running the next part of a restart, or of a bind, or leaving it if it does not return. *)
Definition advance (b : bind_state) : bind_state :=
  match replace_section good_lib (bs_phase b) (bs_server b) with
  | (Ret ph, w) => mkBind w ph (bs_binders b)
  | _ => b
  end.

Definition advance_binder (i : nat) (b : bind_state) : bind_state :=
  match bs_binders b !! i with
  | Some p =>
      match binder_section good_lib p (bs_server b) with
      | (Ret p', w) => mkBind w (bs_phase b) (<[i := p']> (bs_binders b))
      | _ => b
      end
  | None => b
  end.

Definition arrive (name : string) (cb : N) (b : bind_state) : bind_state :=
  mkBind (bs_server b) (bs_phase b) (bs_binders b ++ [Checks name U1 (Some cb)]).

Lemma advance_reaches b : rtc bind_step bind_initial b → rtc bind_step bind_initial (advance b).
Proof.
  intros Hr. unfold advance. destruct (replace_section _ _ _) as [[ph|e|e] w] eqn:Hrun; [|done..].
  eapply rtc_r; [done|]. by eapply step_replaces.
Qed.

Lemma advance_binder_reaches i b :
  rtc bind_step bind_initial b → rtc bind_step bind_initial (advance_binder i b).
Proof.
  intros Hr. unfold advance_binder. destruct (bs_binders b !! i) as [p|] eqn:Hp; [|done].
  destruct (binder_section _ _ _) as [[p'|e|e] w] eqn:Hrun; [|done..].
  eapply rtc_r; [done|]. by eapply step_binder.
Qed.

Lemma arrive_reaches name cb b :
  rtc bind_step bind_initial b → rtc bind_step bind_initial (arrive name cb b).
Proof. intros Hr. eapply rtc_r; [done|]. apply step_binder_arrives. Qed.

(** The server has started, and a bind has passed its check. *)
Definition demo_started : bind_state :=
  advance_binder 0 (arrive "ping" 7
    (advance (advance (advance (advance (advance (advance
       (mkBind (with_service true stopped) Idle [])))))))).

Lemma demo_started_reachable : rtc bind_step bind_initial demo_started.
Proof.
  apply advance_binder_reaches, arrive_reaches. do 6 apply advance_reaches.
  apply rtc_once. by apply (step_creates bind_initial true).
Qed.

(** A restart takes the server away. *)
Definition demo_replaced : bind_state := advance demo_started.

(** [restart_server] destroys the gRPC server while the data service still points to it, and
    [bind] does not take the manager's lock: a bind in between registers its handler with a
    server that was destroyed. *)
Theorem bind_meets_destroyed_server :
  ∃ b i name g cb,
    rtc bind_step bind_initial b ∧ bs_binders b !! i = Some (Emplaces name g cb) ∧
    ∀ lib, (emplace_section lib name g cb (bs_server b)).1 = Ub "_grpc_server was destroyed".
Proof.
  exists demo_replaced, 0%nat, "ping"%string, U1, 7%N.
  split; [apply advance_reaches, demo_started_reachable|]. split; [by vm_compute|]. intros lib.
  by vm_compute.
Qed.

(** The restart has set the pointer, associated and run the server; then the bind registers. *)
Definition demo_between : bind_state :=
  advance_binder 0 (advance (advance (advance demo_replaced))).

(** A bind that falls between the assignment of the pointer and the registration of all
    handlers is registered twice with the same server: with a gRPC library that refuses a
    name it has, the restart throws. *)
Theorem bind_during_restart_throws :
  ∃ b n name,
    rtc bind_step bind_initial b ∧ bs_phase b = Running n ∧
    (∃ cb, RegisterGenericRpc n name cb ∈ calls (bs_server b)) ∧
    ∀ lib, accepts_generic_rpc lib n name = false →
      ∃ e, (replace_section lib (bs_phase b) (bs_server b)).1 = Throw e.
Proof.
  exists demo_between, 1%N, (get_generic_method_name (H := demo_uuid_ops) "ping" U1). split_and!.
  - apply advance_binder_reaches. do 4 apply advance_reaches. apply demo_started_reachable.
  - by vm_compute.
  - exists 7%N. apply (list_elem_of_lookup_2 _ 7). by vm_compute.
  - intros lib Hl. replace (bs_phase demo_between) with (Running 1) by by vm_compute.
    unfold replace_section. rewrite (run_bind _ _ _ _ _ (enabled_run (bs_server demo_between) true eq_refl)).
    unfold msg_bind.
    unfold ds_bind_all, mbind, M_bind, gets.
    replace (map_to_list (request_map (bs_server demo_between)))
      with [(get_generic_method_name (H := demo_uuid_ops) "ping" U1, 7%N)] by by vm_compute.
    replace (ds_server (bs_server demo_between)) with (Some 1%N) by by vm_compute.
    cbn [deref register_all]. cbn. rewrite Hl. by eexists.
Qed.

Lemma interleaved_binds_witness :
  let b := advance (advance demo_between) in
  RegisterGenericRpc 1 (get_generic_method_name "ping" U1) 7 ∈ calls (bs_server b).
Proof.
  apply (interleaved_binds_registered (advance (advance demo_between)) 1).
  - do 2 apply advance_reaches. apply advance_binder_reaches. do 4 apply advance_reaches.
    apply demo_started_reachable.
  - by vm_compute.
  - by vm_compute.
  - by vm_compute.
Defined.

Lemma bind_pointer_valid_witness :
  (emplace_section good_lib "ping" U1 7 (bs_server demo_started)).1 ≠ Ub "null _grpc_server".
Proof.
  apply (bind_pointer_valid demo_started 0 "ping" U1 7 good_lib);
    [apply demo_started_reachable|by vm_compute..].
Defined.
End BindThreadsDemo.
