(* ===== verification/ReplCtx.v ===== *)
(** * The replication context

    [repl_service_ctx] and [repl_service_ctx_grpc]
    ([src/lib/repl_service_ctx.cpp]): what a state manager sees of its group, and
    how the destination of a data-service request is resolved to a peer. *)

From stdpp Require Import base gmap strings list numbers relations.
From S2P Require Import Prelude Types ClientPool DataPath.

(** [role_regex] and [destination_t] of [include/nuraft_mesg/common.hpp] *)
Inductive role_regex := LEADER | FOLLOWER | ALL | ANY.

Inductive destination `{UuidOps} :=
| ToPeer (p : uuid)
| ToRole (r : role_regex)
| ToServer (id : Z).

(** One entry of NuRaft's [get_peer_info_all()]. *)
Record raft_peer := mkRaftPeer { pi_id : Z; pi_last_log_idx : Z; pi_last_succ_resp_us : Z }.

(** What a [nuraft::raft_server] reports. *)
Record raft_view := mkView {
  v_is_leader : bool;
  v_leader : Z;
  v_id : Z;
  v_last_log_idx : Z;
  v_servers : list srv_config;
  v_get_server : Z → option srv_config;
  v_get_srv_config : Z → option srv_config;
  v_peers : list raft_peer;
}.

Record peer_info := mkPeerInfo {
  id_ : string;
  last_log_idx_ : Z;
  last_succ_resp_us_ : Z;
  priority_ : Z;
  is_learner_ : bool;
  is_new_joiner_ : bool;
}.

Record replica_config := mkReplicaConfig { peer_id : string; aux : string }.

Section repl_ctx.
Context `{UuidOps}.

(** ** [repl_service_ctx] *)

Definition is_raft_leader (server : option raft_view) : outcome bool :=
  match server with
  | Some v => Ret (v_is_leader v)
  | None => Ub "null _server"
  end.

Definition raft_leader_id (server : option raft_view) : string :=
  match server with
  | None => EmptyString
  | Some v => match v_get_srv_config v (v_leader v) with
              | Some leader => sc_endpoint leader
              | None => EmptyString
              end
  end.

(** The loop over the leader's peers; [peers] is the vector built so far. *)
Fixpoint peer_loop (v : raft_view) (pinfo_all : list raft_peer) (peers : list peer_info)
  : list peer_info :=
  match pinfo_all with
  | [] => peers
  | pinfo :: rest =>
      match v_get_srv_config v (pi_id pinfo) with
      | Some srv_config =>
          if decide (sc_endpoint srv_config = EmptyString) then peer_loop v rest peers
          else
            let peer := mkPeerInfo (sc_endpoint srv_config) (pi_last_log_idx pinfo)
                          (pi_last_succ_resp_us pinfo) (u32 (sc_priority srv_config))
                          (sc_learner srv_config) (sc_new_joiner srv_config) in
            peer_loop v rest (peers ++ [peer])
      | None => peer_loop v rest peers
      end
  end.

Definition get_raft_status (server : option raft_view) : list peer_info :=
  match server with
  | None => []
  | Some v =>
      let peers := if v_is_leader v then peer_loop v (v_peers v) [] else [] in
      match v_get_srv_config v (v_id v) with
      | Some my_config =>
          peers ++ [mkPeerInfo (sc_endpoint my_config) (v_last_log_idx v) 0
                      (u32 (sc_priority my_config)) (sc_learner my_config) (sc_new_joiner my_config)]
      | None => peers
      end
  end.

Definition get_cluster_config (server : option raft_view) (cluster_config : list replica_config)
  : outcome (list replica_config) :=
  match server with
  | None => Ub "null _server"
  | Some v => Ret (cluster_config ++
                   ((λ c, mkReplicaConfig (sc_endpoint c) (sc_aux c)) <$> v_servers v))
  end.

(** ** [repl_service_ctx_grpc] *)

Definition id_to_str (v : raft_view) (id : Z) : string :=
  match v_get_server v id with
  | Some srv_config => sc_endpoint srv_config
  | None => EmptyString
  end.

(** [boost::uuids::string_generator()(s)] outside a [try] *)
Definition generate (s : string) : outcome (option (Result uuid)) :=
  match string_generator s with
  | Some u => Ret (Some (Value u))
  | None => Throw "invalid uuid string"
  end.

Definition get_peer_id (server : option raft_view) (dest : destination)
  : outcome (option (Result uuid)) :=
  match dest with
  | ToPeer p => Ret (Some (Value p))
  | ToServer id =>
      match server with
      | None => Ret (Some (Unexpected code.SERVER_NOT_FOUND))
      | Some v =>
          let id_str := id_to_str v id in
          if decide (id_str ≠ EmptyString) then generate id_str
          else Ret (Some (Unexpected code.SERVER_NOT_FOUND))
      end
  | ToRole role =>
      match server with
      | None => Ret (Some (Unexpected code.SERVER_NOT_FOUND))
      | Some v =>
          match role with
          | LEADER =>
              if v_is_leader v then Ret (Some (Unexpected code.BAD_REQUEST))
              else if decide (v_leader v = -1)%Z then Ret (Some (Unexpected code.SERVER_NOT_FOUND))
              else generate (id_to_str v (v_leader v))
          | ALL => Ret None
          | FOLLOWER | ANY => Ret (Some (Unexpected code.BAD_REQUEST))
          end
      end
  end.

(** A resolved destination, as a computation on the pool. *)
Definition resolved {A : Type} (o : outcome A) : M pool A :=
  match o with Ret a => mret a | Throw e => throw e | Ub e => ub e end.

(** [m_mesg_factory]: the group's factory, or null. *)
Record repl_factory := mkReplFactory { rf_id : N; rf_group_id : uuid; rf_group_type : string }.

Definition ctx_request_unidirectional (cfg : mesg_cfg) (env : net_env) (factory : option repl_factory)
    (server : option raft_view) (dest : destination) (request_name : string)
    (cli_buf : io_blob_list) : M pool pending :=
  match factory with
  | None => mret (Done code.SERVER_NOT_FOUND)
  | Some rf =>
      d ← resolved (get_peer_id server dest);
      data_service_request_unidirectional cfg env (rf_id rf) (rf_group_id rf) (rf_group_type rf) d
        request_name cli_buf
  end.

Definition ctx_request_bidirectional (cfg : mesg_cfg) (env : net_env) (factory : option repl_factory)
    (server : option raft_view) (dest : destination) (request_name : string)
    (cli_buf : io_blob_list) : M pool pending :=
  match factory with
  | None => mret (Done code.SERVER_NOT_FOUND)
  | Some rf =>
      d ← resolved (get_peer_id server dest);
      data_service_request_bidirectional cfg env (rf_id rf) (rf_group_id rf) (rf_group_type rf) d
        request_name cli_buf
  end.

(** The context of a state manager: the RAFT server it looks at, none for a null
    [grpc_server], and the group's factory. *)
Record repl_service_ctx_grpc := mkReplServiceCtx {
  _server : option N;
  m_mesg_factory : option repl_factory;
}.

Definition repl_service_ctx_grpc_new (server : option N) (cli_factory : option repl_factory)
  : repl_service_ctx_grpc := mkReplServiceCtx server cli_factory.

(** [send_data_service_response]: what [rpc_data->send_response] sends for an RPC. *)
Definition send_data_service_response (outgoing_buf : io_blob_list) (rpc_data : N)
  : N * io_blob_list := (rpc_data, outgoing_buf).

(** ** Specifications *)

(** The endpoints of a group's configuration are its members' UUIDs, which is what
    [add_member] puts there. *)
Definition uuid_endpoints (v : raft_view) : Prop :=
  ∀ id c, v_get_server v id = Some c → is_Some (string_generator (sc_endpoint c)).

(** The leader a view knows is in its configuration. *)
Definition leader_known (v : raft_view) : Prop :=
  v_is_leader v = false → v_leader v ≠ (-1)%Z → is_Some (v_get_server v (v_leader v)).

(** The member of id [id], as a peer. *)
Definition member_peer (v : raft_view) (id : Z) : Result uuid :=
  match c ← v_get_server v id; string_generator (sc_endpoint c) with
  | Some u => Value u
  | None => Unexpected code.SERVER_NOT_FOUND
  end.

(** What a destination means in a group. *)
Definition meaning (v : raft_view) (dest : destination) : option (Result uuid) :=
  match dest with
  | ToPeer p => Some (Value p)
  | ToServer id => Some (member_peer v id)
  | ToRole ALL => None
  | ToRole LEADER =>
      Some (if v_is_leader v then Unexpected code.BAD_REQUEST
            else if decide (v_leader v = -1)%Z then Unexpected code.SERVER_NOT_FOUND
            else member_peer v (v_leader v))
  | ToRole _ => Some (Unexpected code.BAD_REQUEST)
  end.

(** The status of one peer, if the leader's configuration has it. *)
Definition peer_status (v : raft_view) (pinfo : raft_peer) : option peer_info :=
  c ← v_get_srv_config v (pi_id pinfo);
  if decide (sc_endpoint c = EmptyString) then None
  else Some (mkPeerInfo (sc_endpoint c) (pi_last_log_idx pinfo) (pi_last_succ_resp_us pinfo)
               (u32 (sc_priority c)) (sc_learner c) (sc_new_joiner c)).
End repl_ctx.

(** ** Lemmas *)

Section repl_ctx_lemmas.
Context `{UuidOps}.

Lemma peer_loop_omap v ps acc : peer_loop v ps acc = acc ++ omap (peer_status v) ps.
Proof.
  revert acc. induction ps as [|p ps IH]; intros acc; simpl; [by rewrite app_nil_r|].
  unfold peer_status at 1. destruct (v_get_srv_config v (pi_id p)) as [c|]; simpl; [|apply IH].
  destruct (decide (sc_endpoint c = EmptyString)); rewrite IH; [done|]. by rewrite <-app_assoc.
Qed.

Lemma generate_member `{!UuidNoEmpty} v id :
  uuid_endpoints v → is_Some (v_get_server v id) →
  id_to_str v id ≠ EmptyString ∧ generate (id_to_str v id) = Ret (Some (member_peer v id)).
Proof.
  intros Hu [c Hc]. destruct (Hu id c Hc) as [u Hg]. unfold id_to_str, generate, member_peer.
  rewrite Hc. simpl. rewrite Hg. split; [|done]. intros He. by rewrite He, generator_empty in Hg.
Qed.
End repl_ctx_lemmas.

(** ** Properties *)

Section repl_ctx_theorems.
Context `{UuidOps}.

(** Destinations resolve to what they mean: in a group whose members are named by their
    UUIDs and whose leader, if known, is a member, a destination resolves to the peer,
    the member of that id or the leader, to everybody, or to the error code of an
    unknown member, of a request of the leader to itself or of a role that is not
    implemented; nothing is thrown. *)
Theorem destination_resolves `{!UuidNoEmpty} (v : raft_view) (dest : destination) :
  uuid_endpoints v → leader_known v → get_peer_id (Some v) dest = Ret (meaning v dest).
Proof.
  intros Hu Hl. destruct dest as [p|[]|id]; try done; simpl.
  - destruct (v_is_leader v) eqn:Hv; [done|].
    destruct (decide (v_leader v = -1)%Z) as [|Hne]; [done|].
    by apply generate_member, Hl.
  - destruct (v_get_server v id) as [c|] eqn:Hc.
    + destruct (generate_member v id Hu) as [Hne Hg]; [by rewrite Hc|]. by rewrite decide_True.
    + unfold id_to_str, member_peer. by rewrite Hc.
Qed.

(** A leader that is not in the configuration makes a request throw: unlike an unknown
    server id, which is reported as [SERVER_NOT_FOUND], the missing leader's empty
    endpoint is parsed as a UUID, and the exception leaves the request. *)
Theorem unknown_leader_throws `{!UuidNoEmpty} (cfg : mesg_cfg) (env : net_env) (rf : repl_factory)
    (v : raft_view) (name : string) (buf : io_blob_list) (s : pool) :
  v_is_leader v = false → v_leader v ≠ (-1)%Z → v_get_server v (v_leader v) = None →
  (∃ e, ctx_request_unidirectional cfg env (Some rf) (Some v) (ToRole LEADER) name buf s = (Throw e, s)) ∧
  ctx_request_unidirectional cfg env (Some rf) (Some v) (ToServer (v_leader v)) name buf s
    = (Ret (Done code.SERVER_NOT_FOUND), s).
Proof.
  intros Hv Hne Hc. unfold ctx_request_unidirectional, mbind, M_bind, get_peer_id, id_to_str, generate.
  rewrite Hv, Hc, decide_False, generator_empty by done. split; [by eexists|].
  by rewrite decide_False by tauto.
Qed.

(** The status of a group: [get_raft_status] lists, on the leader, every peer that the
    leader's configuration names, in the order NuRaft reports them, and then, on every
    member that is in its own configuration, the member itself, with a response time
    of 0. *)
Theorem raft_status_complete (v : raft_view) :
  get_raft_status (Some v) =
  (if v_is_leader v then omap (peer_status v) (v_peers v) else []) ++
  from_option (λ c, [mkPeerInfo (sc_endpoint c) (v_last_log_idx v) 0 (u32 (sc_priority c))
                       (sc_learner c) (sc_new_joiner c)]) [] (v_get_srv_config v (v_id v)).
Proof.
  unfold get_raft_status. rewrite peer_loop_omap.
  destruct (v_get_srv_config v (v_id v)); simpl; by rewrite ?app_nil_r; destruct (v_is_leader v).
Qed.
End repl_ctx_theorems.

(** ** Witnesses *)

Import Demo.

Module ReplDemo.
Definition replica (id : Z) (u : demo_uuid) : srv_config :=
  mkSrvConfig id 0 (demo_to_string u) EmptyString false 1 false.
Definition lookup_replica (id : Z) : option srv_config :=
  if decide (id = 1)%Z then Some (replica 1 U1)
  else if decide (id = 2)%Z then Some (replica 2 U2) else None.

(** A follower that knows its leader, and one whose leader was removed. *)
Definition follower (leader : Z) : raft_view :=
  mkView false leader 2 10 [replica 1 U1; replica 2 U2] lookup_replica lookup_replica [].
End ReplDemo.
Import ReplDemo.

Lemma destination_resolves_witness :
  get_peer_id (Some (follower 1)) (ToRole LEADER) = Ret (Some (Value U1)).
Proof.
  rewrite (destination_resolves (follower 1) (ToRole LEADER)); [by vm_compute|..].
  - intros id c. simpl. unfold lookup_replica.
    repeat case_decide; intros [= <-]; by eexists.
  - intros _ _. by eexists.
Defined.

Lemma unknown_leader_throws_witness :
  ∃ e, ctx_request_unidirectional (mkCfg 2 2) demo_env (Some (@mkReplFactory demo_uuid_ops 7 U2 "type"))
         (Some (follower 9)) (ToRole LEADER) "ping" [] demo_pool = (Throw e, demo_pool).
Proof.
  apply (unknown_leader_throws (mkCfg 2 2) demo_env (@mkReplFactory demo_uuid_ops 7 U2 "type")
           (follower 9) "ping" [] demo_pool); done.
Defined.
