(* ===== verification/Errors.v ===== *)
(** * Error behaviour

    What callers are told when something is missing: a data-service request through the
    replication context ([src/lib/repl_service_ctx.cpp], [src/proto/proto_mesg_factory.cpp])
    whose destination, peer or connection does not exist, and the calls of the manager
    ([src/lib/manager_impl.cpp], [src/lib/service.cpp]) for a group the process is not part of.
    The operations are those of [ClientPool], [DataPath], [ReplCtx] and [Groups]. *)

From stdpp Require Import base gmap strings list numbers relations.
From S2P Require Import Prelude Types ClientPool DataPath Groups ReplCtx.

(** ** Requests *)

Section request_errors.
Context `{UuidOps}.
Implicit Types (s : pool) (env : net_env) (p gid : uuid) (f l t : N).

(** No connection to the peer can be made: it has no address, or no client can be made for
    its address. *)
Definition unreachable env p : Prop :=
  lookupEndpoint env p = EmptyString ∨ make_ok env (lookupEndpoint env p) = false.

(** The two kinds of request of a factory, and of the replication context. *)
Definition factory_request (bidirectional : bool) :=
  if bidirectional then data_service_request_bidirectional else data_service_request_unidirectional.

Definition ctx_request (bidirectional : bool) :=
  if bidirectional then ctx_request_bidirectional else ctx_request_unidirectional.

Lemma transport_error env p force s :
  heap (transport env p force s).2 !! (transport env p force s).1 = Some ErrorClient →
  unreachable env p.
Proof.
  assert (heap (renew env p s).2 !! (renew env p s).1 = Some ErrorClient → unreachable env p) as Hr.
  { unfold renew, unreachable. destruct (decide _); [by left|].
    destruct (make_ok env _); [|by right]. simpl. by rewrite lookup_insert_eq. }
  unfold transport. destruct (group_clients s !! p) as [[l|]|]; [|done..].
  destruct (negb force && healthy env s l) eqn:Hh; [|done]. simpl. intros Hl.
  unfold healthy in Hh. rewrite Hl in Hh. by destruct force.
Qed.

(** A lookup fails only for a peer that cannot be reached. *)
Lemma wrapper_error env f gid gtype p force s :
  pool_wf s →
  heap (wrapper env f gid gtype p force s).2 !! (wrapper env f gid gtype p force s).1
    = Some ErrorClient →
  unreachable env p.
Proof.
  intros Hwf. unfold wrapper. pose proof (transport_error env p false s) as Hte.
  pose proof (tp_result _ _ _ _ (transport_spec env p false s Hwf)) as Hres.
  pose proof (cached_proto f p s _ _ Hwf (transport_spec env p false s Hwf) p) as Hc.
  destruct (transport env p false s) as [t s1]. simpl in *.
  destruct Hres as [[Hm _]|He]; [|by intros _; apply Hte].
  rewrite (as_messaging_Some s1 t (unmarked_messaging _ _ Hm)).
  destruct (mesg_clients_of f s !! p) as [[l|]|], force; simpl; rewrite ?lookup_insert_eq; try done.
  destruct (Hc _ eq_refl) as (l' & [= <-] & pc & ->). simpl. by rewrite lookup_insert_eq.
Qed.

(** A request to a peer issues one call, or finds that the peer cannot be reached. *)
Lemma peer_request_run b cfg env f gid gtype p name buf s :
  pool_wf s →
  ∃ r s', factory_request b cfg env f gid gtype (Some (Value p)) name buf s = (Ret r, s') ∧
    ((∃ t, r = Calls [generic_call cfg gid name buf t] ∧ is_messaging s' t) ∨
     r = Done code.SERVER_NOT_FOUND ∧ unreachable env p).
Proof.
  intros Hwf.
  assert (∃ r s', create_and_request cfg env f gid gtype p name buf s = (Ret r, s') ∧
            ((∃ t, r = Calls [generic_call cfg gid name buf t] ∧ is_messaging s' t) ∨
             r = Done code.SERVER_NOT_FOUND ∧ unreachable env p)) as Hcold.
  { destruct (create_and_request_spec cfg env f gid gtype p name buf s Hwf) as (r & Hr & Hcase).
    eexists _, _. split; [exact Hr|]. destruct Hcase as [[-> He]|(t & -> & Hu & _)].
    - right. split; [done|]. by apply (wrapper_error env f gid gtype p false s).
    - left. exists t. split; [done|]. by apply unmarked_messaging. }
  assert (mesg_clients_of f s !! p = None ∨
          ∃ l pc t, mesg_clients_of f s !! p = Some (Some l) ∧ heap s !! l = Some (ProtoClient pc) ∧
                    pc_client pc = Some t ∧ is_messaging s t) as Hcache.
  { destruct (mesg_clients_of f s !! p) as [c|] eqn:Hp; [right|by left].
    destruct (cached_wrapper s f p c Hwf Hp) as (l & pc & t & -> & ? & ? & ?). eauto 8. }
  destruct b; simpl; unfold data_service_request_unidirectional, data_service_request_bidirectional,
    mbind, M_bind, gets; (destruct Hcache as [->|(l & pc & t & -> & Hl & Ht & Hm)]; [done|]);
    rewrite (as_proto_Some _ _ _ Hl); simpl.
  - destruct (reinitRequired s pc); simpl; [done|].
    rewrite (g_client_request_run cfg gid name buf s l pc t Ht). eexists _, _. split; [done|]. eauto.
  - rewrite (g_client_request_run cfg gid name buf s l pc t Ht). eexists _, _. split; [done|]. eauto.
Qed.

Lemma broadcast_request_run cfg env f gid gtype name buf s :
  pool_wf s →
  ∃ ts, data_service_request_unidirectional cfg env f gid gtype None name buf s
          = (Ret (Calls (generic_call cfg gid name buf <$> ts)), s) ∧
        length ts = size (mesg_clients_of f s).
Proof.
  intros Hwf. destruct (request_all_run cfg gid name buf s (map_to_list (mesg_clients_of f s)))
    as (ts & Hrun & HF).
  { intros p c Hin%elem_of_map_to_list.
    destruct (cached_wrapper s f p c Hwf Hin) as (l & pc & t & ? & ? & ? & _). eauto 8. }
  unfold data_service_request_unidirectional, mbind, M_bind, gets. rewrite Hrun.
  eexists. split; [done|]. rewrite <- (Forall2_length _ _ _ HF). apply length_map_to_list.
Qed.

(** A destination whose endpoint the code parses as a UUID although it is none: that of a
    member with another endpoint, or that of a leader with another endpoint or none. *)
Definition unparsable (v : raft_view) (dest : destination) : Prop :=
  match dest with
  | ToServer id => ∃ c, v_get_server v id = Some c ∧ sc_endpoint c ≠ EmptyString ∧
                        string_generator (sc_endpoint c) = None
  | ToRole LEADER => v_is_leader v = false ∧ v_leader v ≠ (-1)%Z ∧
      string_generator (from_option sc_endpoint EmptyString (v_get_server v (v_leader v))) = None
  | _ => False
  end.

Lemma resolve_cases `{!UuidNoEmpty} v dest :
  (unparsable v dest ∧ ∃ e, get_peer_id (Some v) dest = Throw e) ∨
  (¬ unparsable v dest ∧ get_peer_id (Some v) dest = Ret (meaning v dest)).
Proof.
  destruct dest as [p|[]|id]; simpl; try (right; split; [by intros []|done]); try (right; by split; [intros ?|]).
  - destruct (v_is_leader v); [right; by split; [intros [? _]|]|].
    destruct (decide (v_leader v = -1)%Z) as [->|Hne]; [right; by split; [intros (_ & ? & _)|]|].
    unfold generate, id_to_str, member_peer.
    destruct (v_get_server v (v_leader v)) as [c|]; simpl.
    + destruct (string_generator (sc_endpoint c)) as [u|] eqn:Hg; [right|left].
      * split; [by intros (_ & _ & ?)|done].
      * split; [done|by eexists].
    + left. rewrite generator_empty. split; [done|by eexists].
  - unfold id_to_str, member_peer. destruct (v_get_server v id) as [c|]; simpl.
    2:{ right. split; [by intros (? & ? & _)|done]. }
    destruct (decide (sc_endpoint c ≠ EmptyString)) as [Hne|He].
    + unfold generate. destruct (string_generator (sc_endpoint c)) as [u|] eqn:Hg; [right|left].
      * split; [intros (c' & [= <-] & _ & ?); congruence|done].
      * split; [by exists c|by eexists].
    + right. assert (sc_endpoint c = EmptyString) as He' by by destruct (decide (sc_endpoint c = EmptyString)).
      rewrite He', generator_empty. split; [|done]. intros (c' & [= <-] & Hc & _). done.
Qed.

Lemma meaning_errors v dest e :
  meaning v dest = Some (Unexpected e) → e = code.SERVER_NOT_FOUND ∨ e = code.BAD_REQUEST.
Proof.
  assert (∀ id, Some (member_peer v id) = Some (Unexpected e) → e = code.SERVER_NOT_FOUND) as Hm.
  { intros id. unfold member_peer. destruct (_ ≫= _); by intros [= <-]. }
  destruct dest as [p|[]|id]; simpl; try case_match; try case_decide; intros He;
    first [done|by left; eauto|injection He as <-; eauto].
Qed.
End request_errors.

(** ** Calls for a group the process is not part of *)

Section group_errors.
Context `{UuidOps} `{RaftParams}.
Implicit Types (w : world) (g : uuid).

(** Neither a state manager nor a server. *)
Definition unknown_group w g : Prop :=
  state_managers w !! g = None ∧ raft_servers w !! g = None.

(** The world after [_is_leader] has been given an entry for the group. *)
Definition flagged w g : world := set_leader (emplace g false (is_leader w)).1 w.

(** Why [joinRaftGroup] refuses: the manager is gone, or nobody registered the type. *)
Definition refusal (cfg : service_cfg) (env : app_env) (gt : string) w (e : Z) : Prop :=
  manager_alive env = false ∧ e = code.CANCELLED ∨
  manager_alive env = true ∧ state_mgr_types w !! join_type cfg gt = None ∧ e = code.SERVER_NOT_FOUND.

(** A join that is refused has changed nothing. *)
Lemma join_refused cfg env srv_id g gt w e w' :
  joinRaftGroup cfg env srv_id g gt w = (Ret e, w') → e ≠ code.OK →
  w' = w ∧ refusal cfg env gt w e.
Proof.
  unfold joinRaftGroup, mbind, M_bind. destruct (join_prepare cfg env srv_id g gt w) as [[[e1|c]|?|?] w1] eqn:Hp;
    [|..|done|done].
  - intros [= <- <-] Hne. destruct (join_prepare_early _ _ _ _ _ _ _ _ Hp)
      as (-> & [(?&?)|[(_&_&->)|(?&_&?&?)]]); [|done|]; (split; [done|]); [by left|by right].
  - intros Hpub Hne. exfalso. apply Hne. destruct (raft_servers w1 !! g) as [n|] eqn:Hs.
    + rewrite (join_publish_loser cfg g c n w1 Hs) in Hpub; [by injection Hpub|].
      by destruct (join_prepare_inr _ _ _ _ _ _ _ _ Hp) as (?&?&_&_&_&_&->&_).
    + rewrite (join_publish_run cfg g c w1 Hs) in Hpub. by injection Hpub.
Qed.
End group_errors.

(** ** Properties *)

Section error_theorems.
Context `{UuidOps} `{RaftParams}.

(** C10: What a data-service request through the replication context reports, in every reachable
    pool and every group.  It throws exactly when the destination is a member, or a leader,
    whose endpoint is not the text of a UUID, in particular a leader that is not in the
    configuration, and then nothing has changed.  Otherwise a
    destination that means nobody is answered with its error code and the clients are
    left as they are; a request that expects an answer cannot go to everybody, one that
    does not makes a call per client of the group; and a request to a peer makes one call, over
    a transport, or is answered with [SERVER_NOT_FOUND], the latter only when no connection to the
    peer can be made. *)
Theorem data_request_errors `{!UuidNoEmpty} (bidirectional : bool) (cfg : mesg_cfg) (env : net_env)
    (rf : repl_factory) (v : raft_view) (dest : destination) (name : string) (buf : io_blob_list)
    (s : pool) :
  rtc pool_step empty_pool s →
  let run := ctx_request bidirectional cfg env (Some rf) (Some v) dest name buf s in
  (unparsable v dest ∧ ∃ e, run = (Throw e, s)) ∨
  ¬ unparsable v dest ∧ ∃ r s', run = (Ret r, s') ∧
    match meaning v dest with
    | None =>
        s' = s ∧ (if bidirectional then r = Done code.BAD_REQUEST
                  else ∃ ts, r = Calls (generic_call cfg (rf_group_id rf) name buf <$> ts) ∧
                             length ts = size (mesg_clients_of (rf_id rf) s))
    | Some (Unexpected e) =>
        s' = s ∧ r = Done e ∧ (e = code.SERVER_NOT_FOUND ∨ e = code.BAD_REQUEST)
    | Some (Value p) =>
        (∃ t, r = Calls [generic_call cfg (rf_group_id rf) name buf t] ∧ is_messaging s' t) ∨
        r = Done code.SERVER_NOT_FOUND ∧ unreachable env p
    end.
Proof.
  intros Hr%reachable_wf run.
  destruct (resolve_cases v dest) as [[Hu (e & He)]|[Hu He]]; [left|right]; (split; [done|]).
  { exists e. subst run. destruct bidirectional; simpl; unfold mbind, M_bind; by rewrite He. }
  assert (run = factory_request bidirectional cfg env (rf_id rf) (rf_group_id rf) (rf_group_type rf)
            (meaning v dest) name buf s) as ->.
  { subst run. destruct bidirectional; simpl; unfold mbind, M_bind; by rewrite He. }
  destruct (meaning v dest) as [[p|e]|] eqn:Hm.
  - by apply peer_request_run.
  - eexists _, _. split; [by destruct bidirectional|]. split; [done|]. split; [done|].
    by apply (meaning_errors v dest).
  - destruct bidirectional; simpl.
    + eexists _, _. split; [done|]. done.
    + destruct (broadcast_request_run cfg env (rf_id rf) (rf_group_id rf) (rf_group_type rf)
                  name buf s Hr) as (ts & Hts & Hlen).
      eexists _, _. split; [exact Hts|]. eauto.
Qed.

(** C19: A group the process is not part of.  Commands for it are refused with [SERVER_NOT_FOUND],
    a request of leadership with [CANCELLED] and without waiting, whatever other threads do;
    it has no members, no peers, no log store and no state manager, and leaving it does
    nothing.  Creating or joining it either goes on, or is refused for one of two
    reasons, and then the process is as it was but for the group's leadership flag. *)
Theorem unknown_group_errors (cfg : service_cfg) (env : app_env) (ops : raft_ops)
    (make_srv_config : Z → string → srv_config) (load_config : N → option (list srv_config))
    (get_logstore_id : N → Z) (g member : uuid) (buf : list buffer) (peers : list uuid)
    (events : list (M world unit * bool)) (gt : string) (smgr : option N) (w : world) :
  unknown_group w g →
  (add_member ops make_srv_config g member events w = (Ret (Unexpected code.SERVER_NOT_FOUND), w) ∧
   rem_member ops g member w = (Ret (Unexpected code.SERVER_NOT_FOUND), w) ∧
   append_entries ops g buf w = (Ret (Unexpected code.SERVER_NOT_FOUND), w) ∧
   become_leader_deferred ops g events w = (Ret (Unexpected code.CANCELLED), w)) ∧
  (svc_get_srv_config_all g w = (Ret [], w) ∧ append_peers load_config g peers w = (Ret peers, w) ∧
   logstore_id get_logstore_id g w = (Ret (2 ^ 32 - 1)%Z, w) ∧
   lookup_state_manager g w = (Ret None, w) ∧ leave_group env g w = (Ret tt, w)) ∧
  (∀ r w', create_group cfg env g gt w = (Ret (Immediate r), w') →
     ∃ e, r = Unexpected e ∧ refusal cfg env gt w e ∧ w' = flagged w g) ∧
  (∀ e w', join_group cfg env g gt smgr w = (Ret (Unexpected e), w') →
     refusal cfg env gt w e ∧ w' = w).
Proof.
  intros [Hm Hs]. split; [|split; [|split]].
  - unfold add_member, add_member_config, rem_member, append_entries, become_leader_deferred,
      svc_add_member, svc_rem_member, svc_append_entries, svc_become_leader, mbind, M_bind, gets.
    by rewrite Hs.
  - unfold svc_get_srv_config_all, append_peers, logstore_id, lookup_state_manager, leave_group,
      mbind, M_bind, gets. by rewrite Hs, Hm.
  - intros r w'. unfold create_group, mbind, M_bind, modify.
    destruct (joinRaftGroup cfg env (_srv_id cfg) g gt _) as [[e|?|?] w1] eqn:Hj; [|done..].
    simpl. destruct (decide (e ≠ code.OK)) as [He|]; [|done]. intros [= <- <-].
    destruct (join_refused _ _ _ _ _ _ _ _ Hj He) as [-> Href]. by exists e.
  - intros e w'. unfold join_group, mbind, M_bind, modify.
    rewrite (emplace_None _ _ _ Hm). simpl.
    destruct (joinRaftGroup cfg env (_srv_id cfg) g gt _) as [[e1|?|?] w1] eqn:Hj; [|done..].
    simpl. destruct (decide (e1 ≠ code.OK)) as [He|]; [|done]. intros [= <- <-].
    destruct (join_refused _ _ _ _ _ _ _ _ Hj He) as [-> Href]. split; [done|].
    destruct w. unfold set_managers. simpl in *. by rewrite delete_insert_id.
Qed.
End error_theorems.

(** ** Witnesses *)

Import Demo ReplDemo.

(** A follower without a leader is told so; one whose leader was removed gets an exception. *)
Lemma data_request_errors_witness :
  (∃ r s', ctx_request true demo_cfg demo_env (Some (@mkReplFactory demo_uuid_ops 7 U2 "type"))
             (Some (follower (-1))) (ToRole LEADER) "ping" [] demo_pool = (Ret r, s') ∧
     s' = demo_pool ∧ r = Done code.SERVER_NOT_FOUND ∧
     (code.SERVER_NOT_FOUND = code.SERVER_NOT_FOUND ∨ code.SERVER_NOT_FOUND = code.BAD_REQUEST)) ∧
  ∃ e, ctx_request true demo_cfg demo_env (Some (@mkReplFactory demo_uuid_ops 7 U2 "type"))
         (Some (follower 9)) (ToRole LEADER) "ping" [] demo_pool = (Throw e, demo_pool).
Proof.
  split.
  - destruct (data_request_errors (H := demo_uuid_ops) true demo_cfg demo_env
                (@mkReplFactory demo_uuid_ops 7 U2 "type") (follower (-1)) (ToRole LEADER) "ping" []
                demo_pool demo_pool_reachable) as [[(_ & Hne & _) _]|[_ Hr]]; [by destruct Hne|exact Hr].
  - destruct (data_request_errors (H := demo_uuid_ops) true demo_cfg demo_env
                (@mkReplFactory demo_uuid_ops 7 U2 "type") (follower 9) (ToRole LEADER) "ping" []
                demo_pool demo_pool_reachable) as [[_ He]|[Hu _]]; [exact He|].
    destruct Hu. split; [done|]. split; [done|by vm_compute].
Defined.

Import GroupsDemo.

Lemma unknown_group_errors_witness :
  unknown_group typed_world U2 ∧
  join_group demo_service demo_app U2 "other" (Some 9%N) typed_world
    = (Ret (Unexpected code.SERVER_NOT_FOUND), typed_world) ∧
  refusal demo_service demo_app "other" typed_world code.SERVER_NOT_FOUND.
Proof.
  assert (unknown_group typed_world U2) as Hu by (split; by vm_compute).
  destruct (unknown_group_errors demo_service demo_app demo_ops
              (λ id e, mkSrvConfig id 0 e EmptyString false 1 false) (λ _, None) (λ _, 0%Z) U2 U1 [] [] []
              "other" (Some 9%N) typed_world Hu) as (_ & _ & _ & Hj).
  assert (join_group demo_service demo_app U2 "other" (Some 9%N) typed_world
            = (Ret (Unexpected code.SERVER_NOT_FOUND), typed_world)) as Hrun by (by vm_compute).
  split; [done|]. split; [done|]. by apply (Hj _ _ Hrun).
Defined.
