(* ===== verification/ReplGroups.v ===== *)
(** * The replication contexts of the groups

    Composition of [Groups], [ReplCtx] and [DataPath]: [joinRaftGroup]
    ([src/lib/service.cpp]) gives the state manager of a group a replication context
    ([mesg_state_mgr::make_repl_ctx], [src/lib/manager_impl.cpp]) with a bare pointer to the
    group's RAFT server and the group's client factory.  The context a state manager has is read
    off the calls made to it; the theorem says whose server and factory it has, and what
    the requests made through it carry. *)

From stdpp Require Import base gmap strings list numbers relations.
From S2P Require Import Prelude Types ClientPool DataPath Groups ReplCtx Errors.

Section repl_groups.
Context `{UuidOps} `{RaftParams}.
Context (cfg : service_cfg).
Implicit Types (w : world) (g : uuid) (c : raft_context) (sm n f : N).

(** [make_repl_ctx] replaces the context the state manager had. *)
Definition adopt_repl_ctx sm (m_repl_svc_ctx : option (N * N)) (e : effect) : option (N * N) :=
  match e with
  | MakeReplCtx sm' server cli_factory =>
      if decide (sm' = sm) then Some (server, cli_factory) else m_repl_svc_ctx
  | _ => m_repl_svc_ctx
  end.

(** The server and the factory of the context a state manager has after some calls. *)
Definition last_made (calls : list effect) sm : option (N * N) :=
  foldl (adopt_repl_ctx sm) None calls.

(** [m_repl_svc_ctx] of a state manager; the factory was made for the group and the type
    of the context its server has. *)
Definition context_of w sm : option repl_service_ctx_grpc :=
  '(server, cli_factory) ← last_made (trace w) sm;
  c ← contexts w !! server;
  Some (repl_service_ctx_grpc_new (Some server)
          (Some (mkReplFactory cli_factory (cx_group c) (cx_type c)))).

(** Runs in which the application gives no state manager to two groups: [owner] is the group
    a state manager is made for. *)
Definition owned (owner : N → uuid) w : Prop :=
  ∀ g sm, state_managers w !! g = Some (Some sm) → owner sm = g.

Definition owned_step (owner : N → uuid) (y y' : system) : Prop :=
  system_step cfg y y' ∧ owned owner (sys_world y').

(** What such runs keep. *)
Record ctx_inv (owner : N → uuid) w : Prop := {
  ci_owner : ∀ n c, contexts w !! n = Some c → owner (cx_smgr c) = cx_group c;
  ci_served : ∀ g n, raft_servers w !! g = Some n →
    ∃ c, contexts w !! n = Some c ∧ cx_group c = g ∧
         last_made (trace w) (cx_smgr c) = Some (n, cx_factory c);
}.

(** ** Calls that make no context *)

Definition makes_none (e : effect) : Prop :=
  match e with MakeReplCtx _ _ _ => False | _ => True end.

Record quiet w w' : Prop := {
  q_contexts : contexts w' = contexts w;
  q_servers : raft_servers w' ⊆ raft_servers w;
  q_trace : ∃ es, trace w' = trace w ++ es ∧ Forall makes_none es;
}.

#[local] Instance quiet_preorder : PreOrder quiet.
Proof.
  split.
  - intros w. split; [done..|]. exists []. by rewrite app_nil_r.
  - intros w1 w2 w3 [Hc1 Hs1 (es1 & Ht1 & Hf1)] [Hc2 Hs2 (es2 & Ht2 & Hf2)].
    split; [congruence|by etrans|]. exists (es1 ++ es2).
    rewrite Ht2, Ht1, app_assoc. split; [done|]. by apply Forall_app.
Qed.

(** A call that, if it returns, is quiet. *)
Definition quietly {A : Type} (m : M world A) : Prop :=
  ∀ w a w', m w = (Ret a, w') → quiet w w'.

Lemma quietly_ret {A : Type} (a : A) : quietly (mret a).
Proof. by intros w a' w' [= _ <-]. Qed.

Lemma quietly_gets {A : Type} (h : world → A) : quietly (gets h).
Proof. by intros w a' w' [= _ <-]. Qed.

Lemma quietly_deref {A : Type} what (p : option A) : quietly (deref what p).
Proof. destruct p; [apply quietly_ret|by intros w a w']. Qed.

Lemma quietly_bind {A B : Type} (m : M world A) (k : A → M world B) :
  quietly m → (∀ a, quietly (k a)) → quietly (m ≫= k).
Proof.
  intros Hm Hk w b w'. unfold mbind, M_bind.
  destruct (m w) as [[a|?|?] w1] eqn:Hr; [|done..]. intros Hb.
  etrans; [by eapply Hm|by eapply Hk].
Qed.

Lemma quietly_modify (h : world → world) : (∀ w, quiet w (h w)) → quietly (modify h).
Proof. intros Hh w a w' [= _ <-]. apply Hh. Qed.

Lemma quietly_emit e : makes_none e → quietly (emit e).
Proof.
  intros He. apply quietly_modify. intros w. split; [done..|]. exists [e]. auto.
Qed.

(** Changes of the other maps, and groups that are no longer served. *)
Lemma quiet_maps w w' :
  contexts w' = contexts w → raft_servers w' ⊆ raft_servers w → trace w' = trace w → quiet w w'.
Proof. intros ? ? Ht. split; [done..|]. exists []. by rewrite Ht, app_nil_r. Qed.

Create HintDb quiet.
#[local] Hint Resolve quietly_ret quietly_gets quietly_deref quietly_bind quietly_modify
  quietly_emit quiet_maps : quiet.
#[local] Hint Extern 1 (_ ⊆ _) => first [reflexivity|apply delete_subseteq] : quiet.
#[local] Hint Extern 1 (makes_none _) => exact I : quiet.
#[local] Hint Extern 2 (quietly (match ?x with _ => _ end)) => destruct x : quiet.

Lemma quietly_shutdown_for g : quietly (shutdown_for g).
Proof. unfold shutdown_for. auto 8 with quiet. Qed.
#[local] Hint Resolve quietly_shutdown_for : quiet.

Lemma quietly_stop env g n : quietly (stop_raft_server env g n).
Proof. unfold stop_raft_server, msg_group_listner_destroy. auto 8 with quiet. Qed.
#[local] Hint Resolve quietly_stop : quiet.

Lemma quietly_stop_all env l : quietly (stop_all env l).
Proof. induction l as [|[g n] l IH]; simpl; auto with quiet. Qed.
#[local] Hint Resolve quietly_stop_all : quiet.

Lemma quietly_shutdown env : quietly (svc_shutdown env).
Proof. unfold svc_shutdown. auto with quiet. Qed.

Lemma quietly_leave env g : quietly (leave_group env g).
Proof. unfold leave_group, svc_leave_group. auto 12 with quiet. Qed.

Lemma quietly_event g type my_id leader_id :
  quietly (generic_raft_event_handler g type my_id leader_id).
Proof.
  unfold generic_raft_event_handler, exit_group, lookup_state_manager, assign_leader.
  destruct type; auto 8 with quiet.
Qed.

Lemma quietly_register ndebug t params : quietly (register_mgr_type ndebug t params).
Proof.
  unfold register_mgr_type. apply quietly_bind; [auto with quiet|]. intros m.
  destruct (emplace t params m). apply quietly_bind; [auto with quiet|]. intros _.
  destruct (negb ndebug && negb b); [by intros w a w'|auto with quiet].
Qed.

(** ** Joins *)

Lemma last_made_app es1 es2 sm :
  last_made (es1 ++ es2) sm = foldl (adopt_repl_ctx sm) (last_made es1 sm) es2.
Proof. apply foldl_app. Qed.

Lemma foldl_makes_none es sm ctx : Forall makes_none es → foldl (adopt_repl_ctx sm) ctx es = ctx.
Proof. induction 1 as [|e es He _ IH] in ctx |- *; [done|]. simpl. rewrite IH. by destruct e. Qed.

Lemma ctx_inv_quiet owner w w' : ctx_inv owner w → quiet w w' → ctx_inv owner w'.
Proof.
  intros [Ho Hs] [Hc Hsub (es & Ht & Hes)]. split; rewrite Hc; [done|].
  intros g n Hn. destruct (Hs g n) as (c & ? & ? & Hl); [by eapply lookup_weaken|].
  exists c. by rewrite Ht, last_made_app, foldl_makes_none.
Qed.

Lemma init_quiet srv_id g sm w : quiet w (init_world srv_id g sm w).
Proof.
  split; [done..|]. eexists. split; [done|]. unfold init_trace.
  by destruct (state_managers w !! g); repeat constructor.
Qed.

(** The server of a join that is published has the context of its state manager. *)
Lemma ctx_inv_publish owner g c w r w' :
  _data_service_enabled cfg = true → world_wf w → ctx_inv owner w →
  cx_group c = g → owner (cx_smgr c) = g →
  join_publish cfg g c w = (Ret r, w') → ctx_inv owner w'.
Proof.
  intros Hen Hwf [Ho Hs] Hg Hown. assert (∀ n' c', contexts w !! n' = Some c' →
    <[next_id w := c]> (contexts w) !! n' = Some c') as Hold.
  { intros n' c' Hc'. destruct (ww_contexts w Hwf n' c' Hc'). by rewrite lookup_insert_ne by lia. }
  assert (∀ n' c', <[next_id w := c]> (contexts w) !! n' = Some c' →
    owner (cx_smgr c') = cx_group c') as Hown'.
  { intros n' c' [[<- <-]|[_ Hc']]%lookup_insert_Some; [congruence|eauto]. }
  destruct (raft_servers w !! g) as [n|] eqn:Hsv.
  - rewrite (join_publish_loser cfg g c n w Hsv Hg). intros [= <- <-]. split; [exact Hown'|].
    intros g' n' Hn. simpl in Hn. apply lookup_delete_Some in Hn as [_ Hn].
    destruct (Hs g' n' Hn) as (c' & ? & ? & ?). eauto.
  - rewrite (join_publish_run cfg g c w Hsv). intros [= <- <-]. split; [exact Hown'|].
    intros g' n' Hn. simpl in *. rewrite Hen.
    apply lookup_insert_Some in Hn as [[<- <-]|[Hne Hn]].
    + exists c. rewrite lookup_insert_eq, last_made_app. simpl. by rewrite decide_True.
    + destruct (Hs g' n' Hn) as (c' & Hc' & Hg' & Hl). exists c'.
      split; [by apply Hold|]. split; [done|]. rewrite last_made_app. simpl.
      rewrite decide_False; [done|]. intros Heq. apply Hne. rewrite <- Hown, Heq, (Ho n' c' Hc'). done.
Qed.

Lemma ctx_inv_join owner env srv_id g gt w r w' :
  _data_service_enabled cfg = true → world_wf w → ctx_inv owner w →
  (r = code.OK → owned owner w') →
  joinRaftGroup cfg env srv_id g gt w = (Ret r, w') → ctx_inv owner w'.
Proof.
  intros Hen Hwf Hi Hown. unfold joinRaftGroup, mbind, M_bind.
  destruct (join_prepare cfg env srv_id g gt w) as [[[e|c]|?|?] w1] eqn:Hp; [|..|done|done].
  { apply join_prepare_early in Hp as [-> _]. by intros [= _ <-]. }
  apply join_prepare_inr in Hp as (params & sm & _ & Hs & Ht & _ & -> & ->). intros Hj.
  destruct (init_world_wf srv_id g sm _ params (next_id w) w Hwf Ht) as (Hwf' & _ & _).
  eapply ctx_inv_publish; [done|exact Hwf'| |done| |exact Hj].
  { eapply ctx_inv_quiet; [done|apply init_quiet]. }
  rewrite join_publish_run in Hj by done. injection Hj as <- <-.
  apply (Hown eq_refl g sm). simpl. by rewrite lookup_insert_eq.
Qed.

Lemma ctx_inv_create owner env g gt w r w' :
  _data_service_enabled cfg = true → world_wf w → ctx_inv owner w → owned owner w' →
  create_group cfg env g gt w = (Ret r, w') → ctx_inv owner w'.
Proof.
  intros Hen Hwf Hi Hown. unfold create_group, mbind, M_bind, modify.
  destruct (joinRaftGroup cfg env (_srv_id cfg) g gt _) as [[e|?|?] w1] eqn:Hj; [|done..].
  intros [= _ <-]. eapply ctx_inv_join; [done| | |by intros _|exact Hj].
  - by apply (world_wf_update w); simpl; auto.
  - eapply ctx_inv_quiet; [exact Hi|]. by apply quiet_maps.
Qed.

Lemma ctx_inv_join_group owner env g gt sm w r w' :
  _data_service_enabled cfg = true → world_wf w → ctx_inv owner w → owned owner w' →
  join_group cfg env g gt (Some sm) w = (Ret r, w') → ctx_inv owner w'.
Proof.
  intros Hen Hwf Hi Hown. unfold join_group, mbind, M_bind, modify.
  destruct (joinRaftGroup cfg env (_srv_id cfg) g gt _) as [[e|?|?] w1] eqn:Hj; [|done..].
  intros Hr. assert (ctx_inv owner w1) as Hi1.
  { eapply ctx_inv_join; [done| | | |exact Hj].
    - apply (world_wf_update w); [done|by split|done| |by auto..]. simpl. intros g' v Hv.
      apply emplace_inv in Hv as [?|[_ <-]]; eauto.
    - eapply ctx_inv_quiet; [exact Hi|]. by apply quiet_maps.
    - intros ->. simpl in Hr. by injection Hr as _ <-. }
  destruct (decide (e ≠ code.OK)); injection Hr as _ <-; [|done].
  eapply ctx_inv_quiet; [exact Hi1|]. by apply quiet_maps.
Qed.

(** What holds in every state of such a run: pending joins work for the owner of their state
    manager too. *)
Definition contexts_wf (owner : N → uuid) (y : system) : Prop :=
  groups_wf y ∧ ctx_inv owner (sys_world y) ∧
  ∀ g c, (g, c) ∈ pending y → owner (cx_smgr c) = g.

Lemma owned_step_wf owner y y' :
  _data_service_enabled cfg = true → owned_step owner y y' →
  contexts_wf owner y → contexts_wf owner y'.
Proof.
  intros Hen [Hs Hown] (Hwf & Hi & Hp). pose proof (system_step_wf cfg _ _ Hs Hwf) as Hwf'.
  split; [done|]. apply groups_wf_split in Hwf as [Hw Hpg].
  destruct Hs as [env srv_id g t w w' c ps Hj|env srv_id g t w w' e ps Hj
    |g c w w' r ps1 ps2 Hj|env g t w w' r ps Hr|env g t sm w w' r ps Hr|env g w w' ps Hr
    |g w w' ps Hr|env w w' ps Hr|g ty m l w w' ps Hr|nd t params w w' ps Hr|m w ps]; simpl in *.
  - apply join_prepare_inr in Hj as (params & sm & _ & _ & _ & _ & -> & ->).
    split; [by eapply ctx_inv_quiet, init_quiet|].
    intros g' c' [[= -> ->]|Hc]%elem_of_cons; [|by apply Hp].
    apply (Hown g sm). simpl. by rewrite lookup_insert_eq.
  - by apply join_prepare_early in Hj as [-> _].
  - assert ((g, c) ∈ ps1 ++ (g, c) :: ps2) as Hin by (apply elem_of_app; right; left).
    split; [eapply ctx_inv_publish; [done..|by apply Hpg|by apply Hp|done]|].
    intros g' c' Hc. apply Hp. apply elem_of_app.
    apply elem_of_app in Hc as [?|?]; [by left|right; by right].
  - split; [by eapply ctx_inv_create|done].
  - split; [by eapply ctx_inv_join_group|done].
  - split; [by eapply ctx_inv_quiet, quietly_leave|done].
  - split; [by eapply ctx_inv_quiet, quietly_shutdown_for|done].
  - split; [by eapply ctx_inv_quiet, quietly_shutdown|done].
  - split; [by eapply ctx_inv_quiet, quietly_event|done].
  - split; [by eapply ctx_inv_quiet, quietly_register|done].
  - split; [|done]. eapply ctx_inv_quiet; [exact Hi|]. by apply quiet_maps.
Qed.

Lemma owned_runs_wf owner y :
  _data_service_enabled cfg = true → rtc (owned_step owner) initial y → contexts_wf owner y.
Proof.
  intros Hen Hr. assert (contexts_wf owner initial) as Hinit.
  { split; [split|split; [split|]]; simpl; try (intros; by simplify_map_eq);
      intros g c Hc; by apply elem_of_nil in Hc. }
  revert Hinit. induction Hr as [|y1 y2 y3 Hs _ IH]; [done|]. intros Hwf.
  apply IH. by eapply owned_step_wf.
Qed.

(** The calls of a request carry the group of the factory. *)
Lemma request_calls_group bidirectional mcfg env rf server dest name buf s cs s' :
  pool_wf s →
  ctx_request bidirectional mcfg env (Some rf) server dest name buf s = (Ret (Calls cs), s') →
  Forall (λ call, ∃ t, call = generic_call mcfg (rf_group_id rf) name buf t) cs.
Proof.
  intros Hwf Hreq. assert (∃ d, factory_request bidirectional mcfg env (rf_id rf) (rf_group_id rf)
    (rf_group_type rf) d name buf s = (Ret (Calls cs), s')) as [[[p|e]|] Hd].
  { destruct bidirectional; simpl in *; unfold mbind, M_bind in Hreq;
      destruct (get_peer_id server dest) as [d|?|?]; try done; by exists d. }
  - destruct (peer_request_run bidirectional mcfg env (rf_id rf) (rf_group_id rf) (rf_group_type rf)
      p name buf s Hwf) as (r & s1 & Hr & Hcase). rewrite Hd in Hr. injection Hr as <- <-.
    destruct Hcase as [(t & [= ->] & _)|[? _]]; [|done]. constructor; [by exists t|done].
  - by destruct bidirectional.
  - destruct bidirectional; [done|].
    destruct (broadcast_request_run mcfg env (rf_id rf) (rf_group_id rf) (rf_group_type rf)
      name buf s Hwf) as (ts & Hr & _). simpl in Hd, Hr. rewrite Hr in Hd.
    injection Hd as <- <-.
    apply Forall_fmap, Forall_true. intros t. by exists t.
Qed.
End repl_groups.

(** ** Properties *)

Section repl_groups_theorems.
Context `{UuidOps} `{RaftParams}.

(** C8: While a group is served, its state manager talks to it: in every state that overlapping
    joins, creations, removals, events and releases lead to, if no state manager is given to two
    groups, the replication context of the state manager the group's server works with points to
    that very server, never to one that is no longer served, and to a factory made for the group, so that
    every call a data-service request through the context makes carries the group's id. *)
Theorem served_group_context (cfg : service_cfg) (owner : N → uuid) (y : system) (g : uuid) (n : N) :
  _data_service_enabled cfg = true → rtc (owned_step cfg owner) initial y →
  raft_servers (sys_world y) !! g = Some n →
  ∃ c rf, contexts (sys_world y) !! n = Some c ∧ owner (cx_smgr c) = g ∧
    context_of (sys_world y) (cx_smgr c) = Some (mkReplServiceCtx (Some n) (Some rf)) ∧
    rf_group_id rf = g ∧ rf_id rf = cx_factory c ∧
    ∀ bidirectional mcfg env server dest name buf s cs s',
      rtc pool_step empty_pool s →
      ctx_request bidirectional mcfg env (Some rf) server dest name buf s = (Ret (Calls cs), s') →
      Forall (λ call, ∃ t, call = generic_call mcfg g name buf t) cs.
Proof.
  intros Hen Hr Hn. destruct (owned_runs_wf cfg owner y Hen Hr) as (_ & [Ho Hs] & _).
  destruct (Hs g n Hn) as (c & Hc & Hg & Hl).
  exists c, (mkReplFactory (cx_factory c) g (cx_type c)).
  split; [done|]. split; [rewrite <- Hg; by eapply Ho|].
  split; [unfold context_of; rewrite Hl; simpl; rewrite Hc; simpl; by rewrite Hg|].
  split; [done|]. split; [done|]. intros b mcfg env server dest name buf s cs s' Hs' Hreq.
  by apply (request_calls_group b mcfg env _ server dest name buf s cs s' (reachable_wf s Hs') Hreq).
Qed.
End repl_groups_theorems.

(** ** Witness *)

Import Demo GroupsDemo.

Definition demo_owner (sm : N) : demo_uuid := U1.

Lemma served_group_context_witness :
  ∃ c rf, contexts member_world !! 1%N = Some c ∧ demo_owner (cx_smgr c) = U1 ∧
    context_of member_world (cx_smgr c) = Some (mkReplServiceCtx (Some 1%N) (Some rf)) ∧
    rf_group_id rf = U1 ∧ rf_id rf = cx_factory c ∧
    ∀ bidirectional mcfg env server dest name buf s cs s',
      rtc pool_step empty_pool s →
      ctx_request bidirectional mcfg env (Some rf) server dest name buf s = (Ret (Calls cs), s') →
      Forall (λ call, ∃ t, call = generic_call mcfg U1 name buf t) cs.
Proof.
  apply (served_group_context (H := demo_uuid_ops) demo_service demo_owner
           (mkSystem member_world []) U1 1); [done| |by vm_compute].
  apply (rtc_l _ _ (mkSystem typed_world [])).
  - split; [apply (sys_register demo_service true "default"%string 5); by vm_compute|].
    intros g sm Hg. by vm_compute in Hg.
  - apply rtc_once. split.
    + apply (sys_create demo_service demo_app U1 ""%string typed_world member_world Deferred).
      by vm_compute.
    + intros g sm Hg. destruct g; vm_compute in Hg; done.
Defined.
