(* ===== verification/DataCluster.v ===== *)
(** * Data-service requests between processes

    The two ends of the data channel together: a request that a replication context sends
    ([ReplCtx], [DataPath]), the process its transport is connected to, whose gRPC server
    calls the handler bound to the method ([DataService]), and the response that comes
    back. *)

From stdpp Require Import base gmap strings list numbers relations.
From S2P Require Import Prelude Types Throttle ClientPool DataPath DataService ReplCtx.

(** gRPC's generic service, and the handlers of the application: [deliver] is what a caller
    gets from a process for a method, [respond h buf] the buffers handler [h] passes to
    [send_data_service_response].  The server calls the handler registered for the method,
    and answers with an error when there is none. *)
Class GenericService (deliver : server_state → string → io_blob_list → rpc_response io_blob_list)
    (respond : N → io_blob_list → io_blob_list) : Prop := {
  gs_handled s n name buf rpc h :
    grpc_server s = Some n → RegisterGenericRpc n name h ∈ calls s →
    (∀ h', RegisterGenericRpc n name h' ∈ calls s → h' = h) →
    deliver s name buf = RpcValue (send_data_service_response (respond h buf) rpc).2;
  gs_unknown s n name buf :
    grpc_server s = Some n → (∀ h, RegisterGenericRpc n name h ∉ calls s) →
    ∃ st, deliver s name buf = RpcError st ∧ error_code st ≠ ST_OK;
}.

(** ** Which handler a method has *)

Section dispatch.
Context `{UuidOps}.
Implicit Types (lib : grpc_lib) (s : server_state) (n : N).

(** The server a call is about. *)
Definition call_server (c : server_call) : N :=
  match c with
  | RegisterAsyncService n | RegisterGenericService n | Run n | RegisterGenericRpc n _ _
  | RegisterRaftStep n => n
  end.

(** Servers are used in order, and what is registered with the running one is bound. *)
Record dispatch_wf s : Prop := {
  dw_servers : Forall (λ c, call_server c < next_server s)%N (calls s);
  dw_running : ∀ n, grpc_server s = Some n → (n < next_server s)%N;
  dw_bound : ∀ n name h, grpc_server s = Some n → RegisterGenericRpc n name h ∈ calls s →
             request_map s !! name = Some h;
}.

Lemma restarted_dispatch enabled s : dispatch_wf s → dispatch_wf (restarted enabled s).
Proof.
  intros [Hs Hr Hb]. set (n := next_server s).
  assert (∀ cs, Forall (λ c, call_server c = n) cs →
          Forall (λ c, call_server c < n + 1)%N (calls s ++ cs)) as Hall.
  { intros cs Hcs. apply Forall_app. split; (eapply Forall_impl; [done|]); intros c; cbn; lia. }
  split; cbn; fold n.
  - apply Hall. destruct enabled; cbn; rewrite !Forall_cons; [|done]. split_and!; [done..|].
    apply Forall_app. split; [|by repeat constructor]. apply Forall_fmap, Forall_forall. by intros.
  - intros m [= <-]. lia.
  - intros m name h [= <-] Hin. apply elem_of_app in Hin as [Hin|Hin].
    + rewrite Forall_forall in Hs. specialize (Hs _ Hin). cbn in Hs. lia.
    + destruct enabled; cbn in Hin; rewrite ?elem_of_cons, ?elem_of_app in Hin.
      * destruct Hin as [?|[?|[?|[Hin|Hin]]]]; try done.
        -- apply list_elem_of_fmap in Hin as ([nm cb] & Heq & Hin). simplify_eq/=.
           by apply elem_of_map_to_list in Hin.
        -- by apply list_elem_of_singleton in Hin.
      * destruct Hin as [?|[?|[?|Hin]]]; try done. by apply elem_of_nil in Hin.
Qed.

Lemma with_service_dispatch b s : dispatch_wf s → dispatch_wf (with_service b s).
Proof. intros []. by split. Qed.

Lemma restart_dispatch lib s s' :
  dispatch_wf s → restart_server lib s = (Ret tt, s') → dispatch_wf s'.
Proof.
  intros Hd Hr. destruct (mesg_service s) as [e|] eqn:Hsvc.
  - destruct (restart_run lib s s' e Hsvc Hr) as [[-> _]|[-> _]]; [done|]. by apply restarted_dispatch.
  - unfold restart_server, mbind, M_bind, gets in Hr. by rewrite Hsvc in Hr.
Qed.

Lemma bind_dispatch lib name g cb s r s' :
  server_wf s → dispatch_wf s → bind_data_service_request lib name g cb s = (Ret r, s') → dispatch_wf s'.
Proof.
  intros Hwf [Hs Hr Hb]. unfold bind_data_service_request, mbind, M_bind, gets.
  destruct (mesg_service s) as [[]|] eqn:Hsvc; simpl; [|by intros [= _ <-]|done].
  intros [[_ ->]|(n & h & _ & Hn & -> & Hnew & ->)]%ds_bind_run; [done|].
  rewrite (sw_server _ Hwf Hsvc) in Hn. split; cbn.
  - apply Forall_app. split; [done|]. constructor; [|done]. by apply Hr.
  - done.
  - intros m nm h' Hm Hin. rewrite Hn in Hm. injection Hm as <-.
    apply elem_of_app in Hin as [Hin|Hin%list_elem_of_singleton].
    + specialize (Hb _ _ _ Hn Hin). rewrite lookup_insert_ne; [done|]. congruence.
    + simplify_eq. apply lookup_insert_eq.
Qed.

Lemma server_reachable s : rtc server_step stopped s → server_wf s ∧ dispatch_wf s.
Proof.
  intros Hr. apply (rtc_ind_r (λ s, server_wf s ∧ dispatch_wf s) stopped) in Hr; [done| |].
  - by split; split.
  - intros s1 s2 _ Hs [Hwf Hd]. split; [by eapply server_step_wf|].
    destruct Hs as [lib b s2 Hs|lib s2 Hs|lib name g cb r s2 Hs].
    + eapply restart_dispatch; [|exact Hs]. by apply (with_service_dispatch b).
    + by eapply restart_dispatch.
    + by eapply bind_dispatch.
Qed.

(** The handler of a method of the running server. *)
Lemma bound_registered s n name h :
  rtc server_step stopped s → grpc_server s = Some n → request_map s !! name = Some h →
  RegisterGenericRpc n name h ∈ calls s ∧
  ∀ h', RegisterGenericRpc n name h' ∈ calls s → h' = h.
Proof.
  intros [[Hh Hs Hd _] [_ _ Hb]]%server_reachable Hn Hm.
  destruct (decide (mesg_service s = Some true)) as [He|He].
  - split; [apply Hh; [by rewrite Hs|done]|]. intros h' Hin. specialize (Hb _ _ _ Hn Hin). congruence.
  - destruct (Hd He) as [Hnil _]. by rewrite Hnil in Hm.
Qed.

Lemma unbound_unregistered s n name :
  rtc server_step stopped s → grpc_server s = Some n → request_map s !! name = None →
  ∀ h, RegisterGenericRpc n name h ∉ calls s.
Proof. intros [_ [_ _ Hb]]%server_reachable Hn Hm h Hin. specialize (Hb _ _ _ Hn Hin). congruence. Qed.
End dispatch.

(** ** Properties *)

Section data_cluster_theorems.
Context `{UuidOps}.
Context (deliver : server_state → string → io_blob_list → rpc_response io_blob_list).
Context (respond : N → io_blob_list → io_blob_list) `{!GenericService deliver respond}.

(** C9: A request to a peer is answered by the handler its group bound: a replication context
    that gets its bidirectional request out has issued one call, over a transport without
    failures; when the process at the other end has a handler for the request of this
    group, in whatever way it was started, restarted and bound, this handler and no other
    is called with the request's buffers, and the future gets what it responds.  Without a
    handler the future gets an error. *)
Theorem data_request_answered (cfg : mesg_cfg) (env : net_env) (rf : repl_factory)
    (view : option raft_view) (p : uuid) (name : string) (buf : io_blob_list) (s s' : pool)
    (cs : list rpc_call) :
  rtc pool_step empty_pool s →
  ctx_request_bidirectional cfg env (Some rf) view (ToPeer p) name buf s = (Ret (Calls cs), s') →
  let method := get_generic_method_name name (rf_group_id rf) in
  ∃ t, cs = [CallGeneric t method buf (data_request_deadline_secs cfg)] ∧ unmarked s' t ∧
  ∀ sv n, rtc server_step stopped sv → grpc_server sv = Some n →
    match request_map sv !! method with
    | Some h =>
        (∀ h', RegisterGenericRpc n method h' ∈ calls sv ↔ h' = h) ∧
        bidirectional_complete true t (deliver sv method buf) s' = (Ret (Value (respond h buf), None), s')
    | None =>
        ∃ e, (e ≠ code.OK) ∧
             ∃ log s'', bidirectional_complete true t (deliver sv method buf) s' =
                        (Ret (Unexpected e, log), s'')
    end.
Proof.
  intros Hreach Hreq method.
  destruct (bidirectional_over_unmarked cfg env (rf_id rf) (rf_group_id rf) (rf_group_type rf) p name buf
              s s' (Calls cs) Hreach Hreq) as [Hd|(t & Hc & Hu)]; [done|].
  injection Hc as ->. exists t. split; [done|]. split; [done|]. intros sv n Hsv Hn.
  destruct (request_map sv !! method) as [h|] eqn:Hm.
  - destruct (bound_registered sv n method h Hsv Hn Hm) as [Hin Hone].
    split; [intros h'; split; [by apply Hone|by intros ->]|].
    by rewrite (gs_handled sv n method buf 0 h Hn Hin Hone).
  - destruct (gs_unknown sv n method buf Hn (unbound_unregistered sv n method Hsv Hn Hm)) as (st & -> & Hst).
    exists (grpc_status_to_nuraft_code st). split; [by destruct st as [[] m]|].
    destruct Hu as (addr & bad & Ht & _). unfold bidirectional_complete, bump_bad_service, mbind, M_bind.
    rewrite Ht. by eexists _, _.
Qed.

(** Groups are apart: processes that bind handlers for the same request in two groups answer
    each group's requests with its own handler. *)
Theorem groups_answer_apart `{!UuidLaws} (sv : server_state) (n : N) (name : string) (g1 g2 : uuid)
    (h1 h2 : N) (buf : io_blob_list) :
  rtc server_step stopped sv → grpc_server sv = Some n →
  request_map sv !! get_generic_method_name name g1 = Some h1 →
  request_map sv !! get_generic_method_name name g2 = Some h2 → g1 ≠ g2 →
  get_generic_method_name name g1 ≠ get_generic_method_name name g2 ∧
  deliver sv (get_generic_method_name name g1) buf = RpcValue (respond h1 buf) ∧
  deliver sv (get_generic_method_name name g2) buf = RpcValue (respond h2 buf).
Proof.
  intros Hsv Hn H1 H2 Hne. split; [by intros [_ ?]%method_name_inj|].
  destruct (bound_registered sv n _ h1 Hsv Hn H1) as [Hin1 Hone1].
  destruct (bound_registered sv n _ h2 Hsv Hn H2) as [Hin2 Hone2].
  by rewrite (gs_handled sv n _ buf 0 h1 Hn Hin1 Hone1), (gs_handled sv n _ buf 0 h2 Hn Hin2 Hone2).
Qed.
End data_cluster_theorems.

(** ** Witnesses *)

Module DataClusterDemo.
Import Demo DataServiceDemo.

(** A server that looks its registrations up; handlers answer with their number of bytes. *)
Fixpoint registered (n : N) (name : string) (cs : list server_call) : option N :=
  match cs with
  | [] => None
  | RegisterGenericRpc n' name' h :: rest =>
      if decide (n' = n ∧ name' = name) then Some h else registered n name rest
  | _ :: rest => registered n name rest
  end.

Definition demo_respond (h : N) (buf : io_blob_list) : io_blob_list :=
  replicate (N.to_nat h) [] ++ buf.

Definition demo_deliver (s : server_state) (name : string) (buf : io_blob_list)
  : rpc_response io_blob_list :=
  match n ← grpc_server s; registered n name (calls s) with
  | Some h => RpcValue (demo_respond h buf)
  | None => RpcError (mkStatus ST_UNIMPLEMENTED "")
  end.

Lemma registered_spec n name cs :
  match registered n name cs with
  | Some h => RegisterGenericRpc n name h ∈ cs
  | None => ∀ h, RegisterGenericRpc n name h ∉ cs
  end.
Proof.
  induction cs as [|c cs IH]; cbn; [intros h; apply not_elem_of_nil|].
  assert (∀ h, registered n name cs = Some h → RegisterGenericRpc n name h ∈ c :: cs) as Hsome.
  { intros h Hh. rewrite Hh in IH. by right. }
  assert (registered n name cs = None → (∀ h, c ≠ RegisterGenericRpc n name h) →
          ∀ h, RegisterGenericRpc n name h ∉ c :: cs) as Hnone.
  { intros Hn Hc h. rewrite Hn in IH. rewrite elem_of_cons. intros [<-|Hin]; [by eapply Hc|by eapply IH]. }
  destruct c as [| | |n' name' h'|]; try (destruct (registered n name cs); [by apply Hsome|by apply Hnone]).
  destruct (decide (n' = n ∧ name' = name)) as [[-> ->]|Hne]; [by left|].
  destruct (registered n name cs); [by apply Hsome|]. apply Hnone; [done|]. intros h [= -> -> _]. by apply Hne.
Qed.

#[local] Instance demo_generic : GenericService demo_deliver demo_respond.
Proof.
  split.
  - intros s n name buf rpc h Hn Hin Hone. unfold demo_deliver. rewrite Hn. cbn.
    pose proof (registered_spec n name (calls s)) as Hr.
    destruct (registered n name (calls s)) as [h'|]; [by rewrite (Hone h' Hr)|]. by destruct (Hr h).
  - intros s n name buf Hn Hnone. unfold demo_deliver. rewrite Hn. cbn.
    pose proof (registered_spec n name (calls s)) as Hr.
    destruct (registered n name (calls s)) as [h'|]; [by destruct (Hnone h')|]. by eexists.
Qed.

Lemma bound_reachable : rtc (server_step (H := demo_uuid_ops)) stopped bound.
Proof.
  apply (rtc_l _ _ started); [by apply (step_start _ accepting true)|apply rtc_once].
  apply (step_bind (H := demo_uuid_ops) _ accepting "ping" U1 (Some 5%N) true). by vm_compute.
Qed.

Lemma data_request_answered_witness :
  ∃ t s', ctx_request_bidirectional demo_cfg demo_env (Some (@mkReplFactory demo_uuid_ops 7 U1 "type"))
            None (@ToPeer demo_uuid_ops U1) "ping" [[]] demo_pool =
          (Ret (Calls [CallGeneric t ping [[]] 2]), s') ∧
          bidirectional_complete true t (demo_deliver bound ping [[]]) s' =
          (Ret (Value (demo_respond 5 [[]]), None), s').
Proof.
  destruct (ctx_request_bidirectional demo_cfg demo_env (Some (@mkReplFactory demo_uuid_ops 7 U1 "type"))
              None (@ToPeer demo_uuid_ops U1) "ping" [[]] demo_pool) as [[[c|cs]|e|e] s'] eqn:E;
    [by vm_compute in E| |by vm_compute in E|by vm_compute in E].
  destruct (data_request_answered (H := demo_uuid_ops) demo_deliver demo_respond demo_cfg demo_env
              (@mkReplFactory demo_uuid_ops 7 U1 "type") None U1 "ping" [[]] demo_pool s' cs
              demo_pool_reachable E) as (t & -> & _ & Hs).
  exists t, s'. split; [done|]. by destruct (Hs bound 0%N bound_reachable eq_refl) as [_ Hb].
Defined.
End DataClusterDemo.
