(* ===== verification/LogStore.v ===== *)
(** * The example's log store

    [inmem_log_store] of [test_package/in_memory_log_store.cpp]: a [std::map] from log
    index to entry, with a dummy entry at index 0 and the index of the first entry.  A
    null pointer in the map is [None], which only [operator[]] of [pack] can create.  Each
    operation is modelled with the 64-bit arithmetic of its indices.  The reference is a
    start index and a list ([alog]), and the store is shown to implement it.  Buffers and
    the serialization of entries are NuRaft's ([LogLib]). *)

From stdpp Require Import base gmap strings list numbers fin_maps.
From Stdlib Require Import Strings.Byte.
From S2P Require Import Prelude Types.
Local Open Scope Z_scope.

(** NuRaft's buffers and entries: [buffer::clone], the contents of a new buffer
    ([buffer::alloc] does not clear it), the largest size [alloc] accepts, [put] and
    [get_int] of an [int32], [log_entry::serialize] and [log_entry::deserialize] ([None] is
    the exception for a truncated buffer). *)
Class LogLib : Type := {
  buffer_clone : buffer → buffer;
  fresh_bytes : nat → list byte;
  buffer_max : Z;
  put_int : Z → list byte;
  get_int : list byte → Z;
  le_serialize : log_entry → list byte;
  le_deserialize : list byte → option log_entry;
}.

(** What an entry is worth to a reader: everything but the cursor of its buffer. *)
Record aentry := mkAEntry {
  ae_term : Z;
  ae_bytes : list byte;
  ae_val_type : Z;
  ae_timestamp : Z;
}.

Definition abs_entry (e : log_entry) : aentry :=
  mkAEntry (le_term e) (buf_bytes (le_buf e)) (le_val_type e) (le_timestamp e).

(** NuRaft's packs do not carry timestamps. *)
Definition no_timestamp (e : aentry) : aentry :=
  mkAEntry (ae_term e) (ae_bytes e) (ae_val_type e) 0.

(** What NuRaft documents: a clone has the contents of its original, buffers stay below
    two gigabytes, integers take four bytes and read back, and a serialized entry gives
    back its term, value type and data. *)
Class LogLibOk `{LogLib} : Prop := {
  clone_bytes b : buf_bytes (buffer_clone b) = buf_bytes b;
  buffer_max_range : buffer_max < 2 ^ 31;
  put_int_length z : length (put_int z) = 4%nat;
  get_put_int z : in_i32 z → get_int (put_int z) = z;
  deserialize_serialize e :
    in_u64 (le_term e) → 0 ≤ le_val_type e < 256 →
    ∃ e', le_deserialize (le_serialize e) = Some e' ∧
          no_timestamp (abs_entry e') = no_timestamp (abs_entry e);
}.

(** [std::vector::max_size()] of 16-byte pointers. *)
Definition vector_max_size : Z := (2 ^ 63 - 1) / 16.

Record inmem_log_store := mkStore {
  logs_ : gmap Z (option log_entry);
  start_idx_ : Z;
}.

Section store.
Context `{LogLib} `{MsgTypes}.

(** Whether [assert] is compiled in, that is, [NDEBUG] is not defined. *)
Variable asserts : bool.

Abbreviation LS := (M inmem_log_store).

Definition set_logs (m : gmap Z (option log_entry)) (s : inmem_log_store) : inmem_log_store :=
  mkStore m (start_idx_ s).

(** [buffer::alloc] throws on a size it does not support. *)
Definition buffer_alloc (sz : Z) : LS unit :=
  if decide (sz ≤ buffer_max) then mret tt else throw "size exceed the max size".

Definition dummy_entry : log_entry := mkEntry 0 (buf_alloc (fresh_bytes 8)) app_log 0.

Definition inmem_log_store_init : inmem_log_store := mkStore {[0 := Some dummy_entry]} 1.

Definition make_clone (e : log_entry) : log_entry :=
  mkEntry (le_term e) (buffer_clone (le_buf e)) (le_val_type e) (le_timestamp e).

(** [start_idx_ + logs_.size() - 1], in 64 bits. *)
Definition slot_after (s : inmem_log_store) : Z :=
  u64 (start_idx_ s + Z.of_nat (size (logs_ s)) - 1).

Definition next_slot : LS Z := gets slot_after.
Definition start_index : LS Z := gets start_idx_.
Definition flush : LS bool := mret true.
Definition last_durable_index : LS Z := n ← next_slot; mret (u64 (n - 1)).

(** [logs_.find(index)], else [logs_.find(0)], and the iterator's [second]. *)
Definition find_or_dummy (index : Z) : LS (option log_entry) :=
  m ← gets logs_;
  match m !! index with
  | Some p => mret p
  | None => deref "logs_.end()->second" (m !! 0)
  end.

(** The second half of [last_entry], which runs under its own lock. *)
Definition last_entry_find (next_idx : Z) : LS log_entry :=
  p ← find_or_dummy (u64 (next_idx - 1));
  e ← deref "entry" p;
  mret (make_clone e).

Definition last_entry : LS log_entry := next_idx ← next_slot; last_entry_find next_idx.

Definition append (entry : option log_entry) : LS Z :=
  e ← deref "entry" entry;
  idx ← gets slot_after;
  modify (λ s, set_logs (<[idx := Some (make_clone e)]> (logs_ s)) s);;
  mret idx.

Definition write_at (index : Z) (entry : option log_entry) : LS unit :=
  e ← deref "entry" entry;
  modify (λ s, set_logs (filter (λ kv, kv.1 < index) (logs_ s)) s);;
  modify (λ s, set_logs (<[index := Some (make_clone e)]> (logs_ s)) s).

(** One iteration of the loops of [log_entries] and [log_entries_ext]: the entry at
    [ii]; a missing one is an assertion, or the dummy without assertions. *)
Definition find_or_assert (ii : Z) : LS log_entry :=
  m ← gets logs_;
  p ← match m !! ii with
      | Some p => mret p
      | None => if asserts then ub "assert(0)" else deref "logs_.end()->second" (m !! 0)
      end;
  deref "src" p.

(** The loop over [ii] in [start .. end-1]; [++ii] cannot wrap below [end]. *)
Fixpoint collect (iis : list Z) : LS (list log_entry) :=
  match iis with
  | [] => mret []
  | ii :: iis' =>
      src ← find_or_assert ii;
      rest ← collect iis';
      mret (make_clone src :: rest)
  end.

(** [resize(end - start)] throws [std::length_error] when the difference wraps. *)
Definition log_entries (start end_ : Z) : LS (list log_entry) :=
  if decide (vector_max_size < u64 (end_ - start)) then throw "vector::_M_default_append"
  else collect (seqZ start (end_ - start)).

Fixpoint collect_ext (hint accum_size : Z) (iis : list Z) : LS (list log_entry) :=
  match iis with
  | [] => mret []
  | ii :: iis' =>
      src ← find_or_assert ii;
      let accum_size := u64 (accum_size + Z.of_nat (buf_size (le_buf src))) in
      if negb (hint =? 0) && (u64 hint <=? accum_size) then mret [make_clone src]
      else
        rest ← collect_ext hint accum_size iis';
        mret (make_clone src :: rest)
  end.

Definition log_entries_ext (start end_ hint : Z) : LS (list log_entry) :=
  if hint <? 0 then mret []
  else collect_ext hint 0 (seqZ start (end_ - start)).

Definition entry_at (index : Z) : LS log_entry :=
  p ← find_or_dummy index;
  e ← deref "src" p;
  mret (make_clone e).

Definition term_at (index : Z) : LS Z :=
  p ← find_or_dummy index;
  e ← deref "entry->second" p;
  mret (le_term e).

(** The first loop of [pack]: [logs_[ii]] inserts a null pointer for a missing index. *)
Fixpoint pack_collect (iis : list Z) : LS (list (list byte)) :=
  match iis with
  | [] => mret []
  | ii :: iis' =>
      r ← gets (λ s, index_or None ii (logs_ s));
      modify (set_logs r.2);;
      le ← deref "le" r.1;
      rest ← pack_collect iis';
      mret (le_serialize le :: rest)
  end.

Definition pack_size (cnt : Z) (logs : list (list byte)) : Z :=
  u64 (4 + cnt * 4 + Z.of_nat (sum_list_with length logs)).

(** One iteration of the second loop: [put((int32)bb->size())] and [put( *bb)]. *)
Definition pack_item (bb : list byte) : list byte :=
  put_int (i32 (Z.of_nat (length bb))) ++ bb.

Definition pack_bytes (cnt : Z) (logs : list (list byte)) : list byte :=
  put_int cnt ++ concat (pack_item <$> logs).

Definition pack (index cnt : Z) : LS (list byte) :=
  logs ← pack_collect (seqZ index (u64 (index + cnt) - index));
  buffer_alloc (pack_size cnt logs);;
  mret (pack_bytes cnt logs).

(** [get_int()] and [get(buf)] at the cursor; what is left follows. *)
Definition take_int (bs : list byte) : LS (Z * list byte) :=
  if decide (4 ≤ length bs)%nat then mret (get_int (take 4 bs), drop 4 bs)
  else throw "insufficient buffer".

Definition take_bytes (n : nat) (bs : list byte) : LS (list byte * list byte) :=
  if decide (n ≤ length bs)%nat then mret (take n bs, drop n bs)
  else throw "insufficient buffer".

Fixpoint apply_entries (n : nat) (index ii : Z) (bs : list byte) : LS unit :=
  match n with
  | O => mret tt
  | S n' =>
      '(buf_size, bs) ← take_int bs;
      buffer_alloc (u64 buf_size);;
      '(local, bs) ← take_bytes (Z.to_nat buf_size) bs;
      match le_deserialize local with
      | None => throw "insufficient buffer"
      | Some le =>
          modify (λ s, set_logs (<[u64 (index + ii) := Some le]> (logs_ s)) s);;
          apply_entries n' index (ii + 1) bs
      end
  end.

(** The key of [logs_.upper_bound(0)], if it is not [end()]. *)
Definition upper_bound_0 (m : gmap Z (option log_entry)) : option Z :=
  map_fold (λ k _ acc, if 0 <? k then Some (from_option (Z.min k) k acc) else acc) None m.

Definition apply_pack (index : Z) (bytes : list byte) : LS unit :=
  '(num_logs, bs) ← take_int bytes;
  apply_entries (Z.to_nat num_logs) index 0 bs;;
  modify (λ s, mkStore (logs_ s) (from_option id 1 (upper_bound_0 (logs_ s)))).

(** The loop of [compact]; [None] when it has not finished in [fuel] iterations. *)
Fixpoint compact_loop (fuel : nat) (ii last : Z) (m : gmap Z (option log_entry))
  : option (gmap Z (option log_entry)) :=
  match fuel with
  | O => None
  | S fuel' =>
      if ii <=? last then compact_loop fuel' (u64 (ii + 1)) last (delete ii m) else Some m
  end.

Definition compact (fuel : nat) (last : Z) (s : inmem_log_store)
  : option (bool * inmem_log_store) :=
  m ← compact_loop fuel (start_idx_ s) last (logs_ s);
  Some (true, mkStore m (if start_idx_ s <=? last then u64 (last + 1) else start_idx_ s)).
End store.

(** ** The reference: a start index and a list *)

Record alog := mkLog { al_start : Z; al_entries : list aentry }.

Definition al_next (a : alog) : Z := al_start a + Z.of_nat (length (al_entries a)).

Definition al_lookup (a : alog) (i : Z) : option aentry :=
  if decide (al_start a ≤ i) then al_entries a !! Z.to_nat (i - al_start a) else None.

(** The entries with index in [lo .. hi-1]. *)
Definition al_slice (a : alog) (lo hi : Z) : list aentry :=
  take (Z.to_nat (hi - lo)) (drop (Z.to_nat (lo - al_start a)) (al_entries a)).

(** The shortest prefix with at least [hint] bytes, or everything; 0 is no limit. *)
Fixpoint al_batch (hint : Z) (es : list aentry) : list aentry :=
  match es with
  | [] => []
  | e :: es' =>
      let rest := hint - Z.of_nat (length (ae_bytes e)) in
      e :: (if decide (hint = 0) then es'
            else if decide (rest ≤ 0) then [] else al_batch rest es')
  end.

Definition ae_size (es : list aentry) : Z :=
  Z.of_nat (sum_list_with (λ e, length (ae_bytes e)) es).

(** The operations NuRaft calls on a log store during replication, and their results. *)
Inductive log_op :=
| LNextSlot | LStartIndex | LLastDurable | LLastEntry
| LAppend (e : log_entry)
| LWriteAt (index : Z) (e : log_entry)
| LEntryAt (index : Z)
| LTermAt (index : Z)
| LEntries (lo hi : Z)
| LEntriesExt (lo hi hint : Z)
| LCompact (last : Z).

Inductive log_val (E : Type) :=
| VNum (z : Z)
| VEntry (e : E)
| VEntries (es : list E)
| VDone.
Arguments VNum {E} _.
Arguments VEntry {E} _.
Arguments VEntries {E} _.
Arguments VDone {E}.

Definition val_map {E E' : Type} (f : E → E') (v : log_val E) : log_val E' :=
  match v with
  | VNum z => VNum z
  | VEntry e => VEntry (f e)
  | VEntries es => VEntries (f <$> es)
  | VDone => VDone
  end.

Section reference.
Context `{LogLib} `{MsgTypes}.
Variable asserts : bool.

(** Iterations enough for [compact]: the indices to erase and the failing test. *)
Definition compact_fuel (last : Z) (s : inmem_log_store) : nat :=
  S (Z.to_nat (last + 1 - start_idx_ s)).

(** An operation of the code; a compaction that does not return has no result. *)
Definition run_op (o : log_op) : M inmem_log_store (log_val log_entry) :=
  match o with
  | LNextSlot => VNum <$> next_slot
  | LStartIndex => VNum <$> start_index
  | LLastDurable => VNum <$> last_durable_index
  | LLastEntry => VEntry <$> last_entry
  | LAppend e => VNum <$> append (Some e)
  | LWriteAt i e => write_at i (Some e);; mret VDone
  | LEntryAt i => VEntry <$> entry_at i
  | LTermAt i => VNum <$> term_at i
  | LEntries lo hi => VEntries <$> log_entries asserts lo hi
  | LEntriesExt lo hi hint => VEntries <$> log_entries_ext asserts lo hi hint
  | LCompact last => λ s,
      match compact (compact_fuel last s) last s with
      | Some (_, s') => (Ret VDone, s')
      | None => (Ub "compact does not return", s)
      end
  end.

Definition adummy : aentry := abs_entry dummy_entry.

(** The same operation on the list. *)
Definition spec_op (o : log_op) (a : alog) : log_val aentry * alog :=
  match o with
  | LNextSlot => (VNum (al_next a), a)
  | LStartIndex => (VNum (al_start a), a)
  | LLastDurable => (VNum (al_next a - 1), a)
  | LLastEntry => (VEntry (default adummy (last (al_entries a))), a)
  | LAppend e => (VNum (al_next a), mkLog (al_start a) (al_entries a ++ [abs_entry e]))
  | LWriteAt i e =>
      (VDone, mkLog (al_start a)
                (take (Z.to_nat (i - al_start a)) (al_entries a) ++ [abs_entry e]))
  | LEntryAt i => (VEntry (default adummy (al_lookup a i)), a)
  | LTermAt i => (VNum (ae_term (default adummy (al_lookup a i))), a)
  | LEntries lo hi => (VEntries (al_slice a lo hi), a)
  | LEntriesExt lo hi hint =>
      (VEntries (if decide (hint < 0) then [] else al_batch hint (al_slice a lo hi)), a)
  | LCompact last =>
      (VDone, if decide (al_start a ≤ last)
              then mkLog (last + 1) (drop (Z.to_nat (last + 1 - al_start a)) (al_entries a))
              else a)
  end.

(** When NuRaft may call it: indices are within the log, a write is at most one past
    its end, and numbers stay below their limits. *)
Definition op_ok (o : log_op) (a : alog) : Prop :=
  match o with
  | LNextSlot | LStartIndex | LLastDurable | LLastEntry => True
  | LAppend _ => al_next a + 1 < 2 ^ 64
  | LWriteAt i _ => al_start a ≤ i ≤ al_next a ∧ i + 1 < 2 ^ 64
  | LEntryAt i | LTermAt i => 0 ≤ i
  | LEntries lo hi => al_start a ≤ lo ≤ hi ∧ hi ≤ al_next a ∧ hi - lo ≤ vector_max_size
  | LEntriesExt lo hi hint =>
      hint < 0 ∨ al_start a ≤ lo ≤ hi ∧ hi ≤ al_next a ∧
                 hint < 2 ^ 63 ∧ ae_size (al_slice a lo hi) < 2 ^ 64
  | LCompact last => last + 1 < 2 ^ 64
  end.

#[export] Instance op_ok_dec o a : Decision (op_ok o a).
Proof. destruct o; simpl; apply _. Defined.

(** The map a list stands for, the dummy included. *)
Definition al_map (a : alog) : gmap Z (option aentry) :=
  <[0 := Some adummy]> (map_seqZ (al_start a) (Some <$> al_entries a)).

Definition abs_logs (m : gmap Z (option log_entry)) : gmap Z (option aentry) :=
  fmap (M := option) abs_entry <$> m.

(** The representation invariant. *)
Record repr (s : inmem_log_store) (a : alog) : Prop := mkRepr {
  repr_start : start_idx_ s = al_start a;
  repr_low : 1 ≤ al_start a;
  repr_high : al_next a < 2 ^ 64;
  repr_map : abs_logs (logs_ s) = al_map a;
}.

(** The entries a pack is made of. *)
Definition packed_entries (s : inmem_log_store) (index cnt : Z) : list log_entry :=
  omap (λ i, logs_ s !! i ≫= id) (seqZ index cnt).

(** An entry that survives [serialize]: a 64-bit term and a value type of one byte. *)
Definition packable (e : log_entry) : Prop :=
  in_u64 (le_term e) ∧ 0 ≤ le_val_type e < 256.

(** A log after a pack was laid over it: an empty log starts where the pack does. *)
Definition al_splice (b : alog) (index : Z) (es : list aentry) : alog :=
  match al_entries b with
  | [] => mkLog index es
  | eb => let k := Z.to_nat (index - al_start b) in
          mkLog (al_start b) (take k eb ++ es ++ drop (k + length es) eb)
  end.

(** Where a pack may be laid over a log: within it, at its end, or anywhere over an empty
    one. *)
Definition splice_ok (b : alog) (index : Z) : Prop :=
  al_entries b = [] ∨ al_start b ≤ index ≤ al_next b.

(** Sequences of operations. *)
Fixpoint run_ops (os : list log_op) : M inmem_log_store (list (log_val log_entry)) :=
  match os with
  | [] => mret []
  | o :: os' => v ← run_op o; vs ← run_ops os'; mret (v :: vs)
  end.

Fixpoint spec_ops (os : list log_op) (a : alog) : list (log_val aentry) * alog :=
  match os with
  | [] => ([], a)
  | o :: os' => let '(v, a') := spec_op o a in
                let '(vs, a'') := spec_ops os' a' in (v :: vs, a'')
  end.

Fixpoint ops_ok (os : list log_op) (a : alog) : Prop :=
  match os with
  | [] => True
  | o :: os' => op_ok o a ∧ ops_ok os' (spec_op o a).2
  end.
End reference.

(** ** Lemmas *)

Lemma option_union_Some_left {A : Type} (x : A) (o : option A) : Some x ∪ o = Some x.
Proof. by destruct o. Qed.

Lemma al_lookup_None a i : i < al_start a ∨ al_next a ≤ i → al_lookup a i = None.
Proof.
  unfold al_lookup, al_next. intros Hi. case_decide; [|done]. apply lookup_ge_None. lia.
Qed.

Lemma al_lookup_is_Some a i : is_Some (al_lookup a i) ↔ al_start a ≤ i < al_next a.
Proof.
  unfold al_lookup, al_next. case_decide; [rewrite lookup_lt_is_Some; lia|].
  split; [by intros []|lia].
Qed.

Lemma al_slice_lookup a lo hi :
  al_start a ≤ lo ≤ hi → hi ≤ al_next a →
  Forall2 (λ i x, al_lookup a i = Some x) (seqZ lo (hi - lo)) (al_slice a lo hi).
Proof.
  unfold al_next, al_slice. intros Hlo Hhi. apply Forall2_same_length_lookup. split.
  - rewrite length_seqZ, length_take, length_drop. lia.
  - intros k i x Hi Hx. apply lookup_seqZ in Hi as [-> Hk].
    rewrite lookup_take_lt, lookup_drop in Hx by lia.
    unfold al_lookup. rewrite decide_True by lia. rewrite <- Hx. f_equal. lia.
Qed.

Lemma ae_size_cons e es : ae_size (e :: es) = Z.of_nat (length (ae_bytes e)) + ae_size es.
Proof. unfold ae_size. simpl. lia. Qed.

Lemma ae_size_nonneg es : 0 ≤ ae_size es.
Proof. unfold ae_size. lia. Qed.

Section store_lemmas.
Context `{LogLib} `{!LogLibOk} `{MsgTypes}.
Variable asserts : bool.
Implicit Types (s : inmem_log_store) (a : alog).

Lemma abs_make_clone e : abs_entry (make_clone e) = abs_entry e.
Proof. unfold abs_entry, make_clone. simpl. by rewrite clone_bytes. Qed.

Lemma abs_logs_lookup m i : abs_logs m !! i = fmap abs_entry <$> (m !! i).
Proof. apply lookup_fmap. Qed.

Lemma al_map_0 a : al_map a !! 0 = Some (Some adummy).
Proof. apply lookup_insert_eq. Qed.

Lemma al_map_ne a i : i ≠ 0 → al_map a !! i = Some <$> al_lookup a i.
Proof.
  intros Hi. unfold al_map, al_lookup. rewrite lookup_insert_ne by done.
  rewrite lookup_map_seqZ. case_decide.
  - rewrite option_guard_True by done. by rewrite list_lookup_fmap.
  - by rewrite option_guard_False.
Qed.

Lemma al_map_size a : 1 ≤ al_start a → size (al_map a) = S (length (al_entries a)).
Proof.
  intros Hs. unfold al_map. rewrite map_size_insert_None.
  - f_equal. rewrite <- (length_fmap Some (al_entries a)).
    generalize (Some <$> al_entries a) as xs, (al_start a) as n. clear.
    intros xs. induction xs as [|x xs IH] using rev_ind; intros n; [apply map_size_empty|].
    rewrite map_seqZ_snoc, map_size_insert_None, IH, length_app; simpl; [lia|].
    apply map_seqZ_snoc_disjoint.
  - apply lookup_map_seqZ_None. lia.
Qed.

(** Two maps stand for the same list when they agree on every index. *)
Lemma abs_logs_intro m a :
  m !! 0 = Some (Some dummy_entry) ∨ (abs_logs m !! 0 = Some (Some adummy)) →
  (∀ i, i ≠ 0 → abs_logs m !! i = Some <$> al_lookup a i) →
  abs_logs m = al_map a.
Proof.
  intros Hd Hi. apply map_eq. intros i. destruct (decide (i = 0)) as [->|Hne].
  - rewrite al_map_0. destruct Hd as [Hd|Hd]; [|done]. by rewrite abs_logs_lookup, Hd.
  - by rewrite al_map_ne, Hi.
Qed.

Lemma repr_init : repr inmem_log_store_init (mkLog 1 []).
Proof.
  split; simpl; try (unfold al_next; simpl; lia).
  apply abs_logs_intro; [left; apply lookup_singleton_eq|].
  intros i Hi. rewrite abs_logs_lookup, lookup_singleton_ne by done. simpl.
  rewrite al_lookup_None; [done|]. unfold al_next. simpl. lia.
Qed.

(** Without a limit the two loops are the same, on any store. *)
Lemma collect_ext_zero acc iis s :
  collect_ext asserts 0 acc iis s = collect asserts iis s.
Proof.
  revert acc s. induction iis as [|i iis IH]; intros acc s; simpl; [done|].
  unfold mbind, M_bind. destruct (find_or_assert asserts i s) as [[e|w|w] s']; [|done..].
  simpl. by rewrite IH.
Qed.

Section with_repr.
Context s a (Hr : repr s a).

Lemma repr_abs_0 : abs_logs (logs_ s) !! 0 = Some (Some adummy).
Proof. rewrite (repr_map _ _ Hr). apply al_map_0. Qed.

Lemma repr_abs_ne i : i ≠ 0 → abs_logs (logs_ s) !! i = Some <$> al_lookup a i.
Proof. intros Hi. rewrite (repr_map _ _ Hr). by apply al_map_ne. Qed.

Lemma repr_dummy : ∃ e, logs_ s !! 0 = Some (Some e) ∧ abs_entry e = adummy.
Proof.
  pose proof repr_abs_0 as E. rewrite abs_logs_lookup in E.
  destruct (logs_ s !! 0) as [[e|]|]; simplify_eq/=. eauto.
Qed.

Lemma repr_entry i x :
  al_lookup a i = Some x → ∃ e, logs_ s !! i = Some (Some e) ∧ abs_entry e = x.
Proof.
  intros Hx. assert (al_start a ≤ i < al_next a) as Hi by (apply al_lookup_is_Some; eauto).
  pose proof (repr_low _ _ Hr). pose proof (repr_abs_ne i ltac:(lia)) as E.
  rewrite Hx, abs_logs_lookup in E.
  destruct (logs_ s !! i) as [[e|]|]; simplify_eq/=. eauto.
Qed.

Lemma repr_missing i : i ≠ 0 → al_lookup a i = None → logs_ s !! i = None.
Proof.
  intros Hi Hn. pose proof (repr_abs_ne i Hi) as E. rewrite Hn, abs_logs_lookup in E.
  by destruct (logs_ s !! i).
Qed.

Lemma repr_slot : slot_after s = al_next a.
Proof.
  unfold slot_after. rewrite (repr_start _ _ Hr).
  assert (size (logs_ s) = S (length (al_entries a))) as ->.
  { rewrite <- (al_map_size a (repr_low _ _ Hr)), <- (repr_map _ _ Hr).
    unfold abs_logs. by rewrite map_size_fmap. }
  pose proof (repr_low _ _ Hr). pose proof (repr_high _ _ Hr).
  rewrite u64_id; unfold in_u64, al_next in *; lia.
Qed.

Lemma find_or_dummy_run i :
  ∃ e, find_or_dummy i s = (Ret (Some e), s) ∧ abs_entry e = default adummy (al_lookup a i).
Proof.
  unfold find_or_dummy, mbind, M_bind, gets. pose proof (repr_low _ _ Hr).
  destruct repr_dummy as (d & Hd & Habs).
  destruct (al_lookup a i) as [x|] eqn:Hx.
  - destruct (repr_entry i x Hx) as (e & He & Hxe). exists e. by rewrite He.
  - exists d. destruct (decide (i = 0)) as [->|Hne]; [by rewrite Hd|].
    by rewrite (repr_missing i Hne Hx), Hd.
Qed.

Lemma find_or_assert_run i x :
  al_lookup a i = Some x → ∃ e, find_or_assert asserts i s = (Ret e, s) ∧ abs_entry e = x.
Proof.
  intros Hx. destruct (repr_entry i x Hx) as (e & He & Habs). exists e.
  unfold find_or_assert, mbind, M_bind, gets. by rewrite He.
Qed.

Lemma collect_run iis xs :
  Forall2 (λ i x, al_lookup a i = Some x) iis xs →
  ∃ es, collect asserts iis s = (Ret es, s) ∧ abs_entry <$> es = xs.
Proof.
  induction 1 as [|i x iis xs Hx _ (es & IH & Habs)]; simpl; [by exists []|].
  destruct (find_or_assert_run i x Hx) as (e & He & Hxe).
  exists (make_clone e :: es). rewrite (run_bind _ _ _ _ _ He), (run_bind _ _ _ _ _ IH).
  split; [done|]. by rewrite fmap_cons, abs_make_clone, Hxe, Habs.
Qed.

Lemma collect_ext_run hint acc iis xs :
  Forall2 (λ i x, al_lookup a i = Some x) iis xs →
  0 < hint - acc → 0 ≤ acc → hint < 2 ^ 63 → acc + ae_size xs < 2 ^ 64 →
  ∃ es, collect_ext asserts hint acc iis s = (Ret es, s) ∧
        abs_entry <$> es = al_batch (hint - acc) xs.
Proof.
  intros HF. revert acc. induction HF as [|i x iis xs Hx HF IH]; intros acc Hh Hacc Hmax Hsz.
  { by exists []. }
  destruct (find_or_assert_run i x Hx) as (e & He & Hxe).
  rewrite ae_size_cons in Hsz. pose proof (ae_size_nonneg xs).
  assert (Z.of_nat (buf_size (le_buf e)) = Z.of_nat (length (ae_bytes x))) as Hlen
    by (by rewrite <- Hxe).
  simpl. rewrite (run_bind _ _ _ _ _ He), Hlen.
  rewrite (u64_id hint), (u64_id (acc + _)) by (unfold in_u64; lia).
  rewrite decide_False by lia. destruct (Z.eqb_spec hint 0); [lia|]. simpl.
  destruct (Z.leb_spec hint (acc + Z.of_nat (length (ae_bytes x)))) as [Hle|Hgt].
  - rewrite decide_True by lia. exists [make_clone e]. split; [done|].
    simpl. by rewrite abs_make_clone, Hxe.
  - rewrite decide_False by lia.
    destruct (IH (acc + Z.of_nat (length (ae_bytes x)))) as (es & Hes & Habs); [lia..|].
    rewrite (run_bind _ _ _ _ _ Hes). exists (make_clone e :: es). split; [done|].
    rewrite fmap_cons, abs_make_clone, Hxe, Habs. do 2 f_equal. lia.
Qed.
End with_repr.

Lemma al_lookup_truncate a k x j :
  (k ≤ length (al_entries a))%nat →
  al_lookup (mkLog (al_start a) (take k (al_entries a) ++ [x])) j =
  if decide (j = al_start a + Z.of_nat k) then Some x
  else if decide (j < al_start a + Z.of_nat k) then al_lookup a j else None.
Proof.
  intros Hk. unfold al_lookup. simpl.
  assert (length (take k (al_entries a)) = k) as Hlen by (rewrite length_take; lia).
  destruct (decide (al_start a ≤ j)) as [Hj|Hj].
  - destruct (decide (j = _)) as [->|Hne].
    + rewrite lookup_app_r by lia.
      replace (Z.to_nat _ - _)%nat with 0%nat by lia. done.
    + case_decide as Hlt.
      * rewrite lookup_app_l, lookup_take_lt by lia. done.
      * apply lookup_ge_None. rewrite length_app. simpl. lia.
  - rewrite decide_False by lia. by case_decide.
Qed.

(** Writing at an index of the log, or one past it, over a map without later entries. *)
Lemma repr_write s a i e m :
  repr s a → al_start a ≤ i ≤ al_next a → i + 1 < 2 ^ 64 →
  (∀ j, j ≠ i → m !! j = if decide (j < i) then logs_ s !! j else None) →
  m !! i = Some (Some e) →
  repr (mkStore m (start_idx_ s))
       (mkLog (al_start a) (take (Z.to_nat (i - al_start a)) (al_entries a) ++ [abs_entry e])).
Proof.
  intros Hr Hi Hmax Hj Hm. pose proof (repr_low _ _ Hr). split; simpl.
  - apply (repr_start _ _ Hr).
  - done.
  - unfold al_next in *. simpl. rewrite length_app, length_take. simpl. lia.
  - apply abs_logs_intro.
    + right. rewrite abs_logs_lookup, Hj, decide_True by lia.
      rewrite <- abs_logs_lookup. by apply (repr_abs_0 s a).
    + intros j Hj0. rewrite al_lookup_truncate by (unfold al_next in *; lia).
      replace (al_start a + Z.of_nat (Z.to_nat (i - al_start a))) with i by lia.
      destruct (decide (j = i)) as [->|Hne]; [by rewrite abs_logs_lookup, Hm|].
      rewrite abs_logs_lookup, Hj by done. case_decide; [|done].
      rewrite <- abs_logs_lookup. by apply (repr_abs_ne s a).
Qed.

Lemma repr_append s a e :
  repr s a → al_next a + 1 < 2 ^ 64 →
  repr (set_logs (<[al_next a := Some e]> (logs_ s)) s)
       (mkLog (al_start a) (al_entries a ++ [abs_entry e])).
Proof.
  intros Hr Hmax. pose proof (repr_low _ _ Hr).
  pose proof (repr_write s a (al_next a) e (<[al_next a := Some e]> (logs_ s)) Hr) as Hw.
  replace (Z.to_nat (al_next a - al_start a)) with (length (al_entries a)) in Hw
    by (unfold al_next; lia).
  rewrite take_ge in Hw by done. apply Hw; [unfold al_next; lia|done| |by simplify_map_eq].
  intros j Hj. rewrite lookup_insert_ne by done. case_decide; [done|].
  apply (repr_missing s a Hr); [unfold al_next in *; lia|]. apply al_lookup_None. lia.
Qed.

Lemma repr_write_at s a i e :
  repr s a → al_start a ≤ i ≤ al_next a → i + 1 < 2 ^ 64 →
  repr (set_logs (<[i := Some e]> (filter (λ kv, kv.1 < i) (logs_ s))) s)
       (mkLog (al_start a) (take (Z.to_nat (i - al_start a)) (al_entries a) ++ [abs_entry e])).
Proof.
  intros Hr Hi Hmax. apply repr_write; [done..| |by simplify_map_eq].
  intros j Hj. rewrite lookup_insert_ne by done. case_decide.
  - destruct (logs_ s !! j) as [p|] eqn:E.
    + by apply map_lookup_filter_Some.
    + apply map_lookup_filter_None. by left.
  - apply map_lookup_filter_None. right. simpl. tauto.
Qed.

(** The loop of [compact] erases the indices up to [last] and stops. *)
Lemma compact_loop_run fuel ii last m :
  0 ≤ ii → last + 1 < 2 ^ 64 → (Z.to_nat (last + 1 - ii) < fuel)%nat →
  compact_loop fuel ii last m = Some (filter (λ kv, ¬ (ii ≤ kv.1 ≤ last)) m).
Proof.
  intros Hii Hlast. revert ii m Hii. induction fuel as [|fuel IH]; intros ii m Hii Hf; [lia|].
  simpl. destruct (Z.leb_spec ii last) as [Hle|Hgt].
  - rewrite u64_id by (unfold in_u64; lia). rewrite IH by lia. f_equal.
    apply map_eq. intros j. apply option_eq. intros p.
    rewrite !map_lookup_filter_Some, lookup_delete_Some. simpl.
    split; [intros [[? ?] ?]|intros [? ?]]; split_and?; try done; lia.
  - f_equal. symmetry. apply map_filter_id. simpl. lia.
Qed.

Lemma compact_loop_wraps fuel ii m :
  in_u64 ii → compact_loop fuel ii (2 ^ 64 - 1) m = None.
Proof.
  revert ii m. induction fuel as [|fuel IH]; intros ii m Hii; [done|]. simpl.
  destruct (Z.leb_spec ii (2 ^ 64 - 1)) as [Hle|Hgt]; [|unfold in_u64 in Hii; lia].
  apply IH, u64_range.
Qed.

Lemma repr_compact s a last :
  repr s a → last + 1 < 2 ^ 64 →
  ∃ s', compact (compact_fuel last s) last s = Some (true, s') ∧
        repr s' (spec_op (LCompact last) a).2.
Proof.
  intros Hr Hlast. pose proof (repr_low _ _ Hr) as Hlow. pose proof (repr_high _ _ Hr).
  unfold compact, compact_fuel. rewrite (repr_start _ _ Hr).
  rewrite compact_loop_run by lia. simpl. eexists. split; [done|].
  assert (∀ j, abs_logs (filter (λ kv, ¬ (al_start a ≤ kv.1 ≤ last)) (logs_ s)) !! j =
               if decide (al_start a ≤ j ≤ last) then None else abs_logs (logs_ s) !! j) as Hf.
  { intros j. rewrite !abs_logs_lookup. case_decide.
    - replace (filter _ _ !! j) with (@None (option log_entry)); [done|].
      symmetry. apply map_lookup_filter_None. right. intros p _ Hn. by apply Hn.
    - f_equal. apply option_eq. intros p. rewrite map_lookup_filter_Some. tauto. }
  destruct (Z.leb_spec (al_start a) last) as [Hle|Hgt]; case_decide; try lia.
  - rewrite u64_id by (unfold in_u64; lia). split; simpl; [done|lia|..].
    + unfold al_next in *. simpl. rewrite length_drop. lia.
    + apply abs_logs_intro.
      * right. rewrite Hf, decide_False by lia. by apply (repr_abs_0 s a).
      * intros j Hj. rewrite Hf, (repr_abs_ne s a) by done. unfold al_lookup. simpl.
        repeat case_decide; try lia; [done| |done].
        rewrite lookup_drop. do 2 f_equal. lia.
  - split; [done|apply Hr..|]. apply map_eq. intros j. simpl.
    rewrite Hf, decide_False by lia. by rewrite (repr_map _ _ Hr).
Qed.

(** A represented log has no gaps. *)
Lemma repr_no_gap s a i j :
  repr s a → is_Some (logs_ s !! i) → al_start a ≤ j ≤ i → is_Some (logs_ s !! j).
Proof.
  intros Hr Hi Hj. pose proof (repr_low _ _ Hr).
  assert (is_Some (al_lookup a i)) as Hin.
  { destruct (al_lookup a i) eqn:E; [done|].
    rewrite (repr_missing s a Hr i) in Hi by (done || lia). by destruct Hi. }
  rewrite al_lookup_is_Some in Hin.
  destruct (proj2 (al_lookup_is_Some a j)) as [x Hx]; [lia|].
  destruct (repr_entry s a Hr j x Hx) as (e & -> & _). done.
Qed.

Lemma next_slot_run s a : repr s a → next_slot s = (Ret (al_next a), s).
Proof. intros Hr. unfold next_slot, gets. by rewrite (repr_slot s a Hr). Qed.

Lemma last_durable_run s a : repr s a → last_durable_index s = (Ret (al_next a - 1), s).
Proof.
  intros Hr. unfold last_durable_index. rewrite (run_bind _ _ _ _ _ (next_slot_run s a Hr)).
  pose proof (repr_low _ _ Hr). pose proof (repr_high _ _ Hr).
  rewrite u64_id; [done|]. unfold in_u64, al_next in *. lia.
Qed.

Lemma clone_found_run what s a i :
  repr s a →
  ∃ e, (p ← find_or_dummy i; e ← deref what p; mret (make_clone e)) s = (Ret e, s) ∧
       abs_entry e = default adummy (al_lookup a i).
Proof.
  intros Hr. destruct (find_or_dummy_run s a Hr i) as (e & He & Habs).
  exists (make_clone e). rewrite (run_bind _ _ _ _ _ He). by rewrite abs_make_clone.
Qed.

Lemma term_at_run s a i :
  repr s a → term_at i s = (Ret (ae_term (default adummy (al_lookup a i))), s).
Proof.
  intros Hr. destruct (find_or_dummy_run s a Hr i) as (e & He & Habs).
  unfold term_at. rewrite (run_bind _ _ _ _ _ He). by rewrite <- Habs.
Qed.

Lemma al_lookup_last a :
  al_lookup a (al_next a - 1) = last (al_entries a).
Proof.
  rewrite last_lookup. unfold al_lookup, al_next. case_decide.
  - f_equal. lia.
  - symmetry. apply lookup_ge_None. lia.
Qed.

Lemma last_entry_run s a :
  repr s a →
  ∃ e, last_entry s = (Ret e, s) ∧ abs_entry e = default adummy (last (al_entries a)).
Proof.
  intros Hr. unfold last_entry. rewrite (run_bind _ _ _ _ _ (next_slot_run s a Hr)).
  pose proof (repr_low _ _ Hr). pose proof (repr_high _ _ Hr).
  rewrite <- al_lookup_last. unfold last_entry_find.
  rewrite u64_id by (unfold in_u64, al_next in *; lia). by apply clone_found_run.
Qed.

Lemma log_entries_run s a lo hi :
  repr s a → op_ok (LEntries lo hi) a →
  ∃ es, log_entries asserts lo hi s = (Ret es, s) ∧ abs_entry <$> es = al_slice a lo hi.
Proof.
  intros Hr (Hlo & Hhi & Hmax). unfold log_entries.
  pose proof (repr_low _ _ Hr). pose proof (repr_high _ _ Hr).
  rewrite u64_id by (unfold in_u64; lia). rewrite decide_False by lia.
  apply (collect_run s a Hr). by apply al_slice_lookup.
Qed.

Lemma log_entries_ext_run s a lo hi hint :
  repr s a → op_ok (LEntriesExt lo hi hint) a →
  ∃ es, log_entries_ext asserts lo hi hint s = (Ret es, s) ∧
        abs_entry <$> es =
        if decide (hint < 0) then [] else al_batch hint (al_slice a lo hi).
Proof.
  intros Hr Hok. unfold log_entries_ext.
  destruct (Z.ltb_spec hint 0) as [Hneg|Hpos]; case_decide; try lia; [by exists []|].
  destruct Hok as [?|(Hlo & Hhi & Hhint & Hsz)]; [lia|].
  pose proof (al_slice_lookup a lo hi Hlo Hhi) as HF.
  destruct (decide (hint = 0)) as [->|Hne].
  - rewrite collect_ext_zero.
    destruct (collect_run s a Hr _ _ HF) as (es & Hes & Habs). exists es. split; [done|].
    rewrite Habs. by destruct (al_slice a lo hi).
  - destruct (collect_ext_run s a Hr hint 0 _ _ HF) as (es & Hes & Habs); [lia..|].
    exists es. by rewrite Z.sub_0_r in Habs.
Qed.

Lemma write_at_run s a i e :
  repr s a → al_start a ≤ i ≤ al_next a → i + 1 < 2 ^ 64 →
  ∃ s', write_at i (Some e) s = (Ret tt, s') ∧ repr s' (spec_op (LWriteAt i e) a).2.
Proof.
  intros Hr Hi Hmax. eexists. split; [done|]. simpl. rewrite <- abs_make_clone.
  exact (repr_write_at s a i _ Hr Hi Hmax).
Qed.

(** An operation that only reads. *)
Lemma read_refines {A : Type} (f : A → log_val log_entry) (m : M inmem_log_store A) s a x v :
  repr s a → m s = (Ret x, s) → val_map abs_entry (f x) = v →
  ∃ v' s', (f <$> m) s = (Ret v', s') ∧ val_map abs_entry v' = v ∧ repr s' a.
Proof. intros Hr Hm Hv. exists (f x), s. by rewrite (run_fmap _ _ _ _ _ Hm). Qed.

(** One operation: the code returns what the list says and represents its new value. *)
Lemma run_op_refines s a o :
  repr s a → op_ok o a →
  ∃ v s', run_op asserts o s = (Ret v, s') ∧
          val_map abs_entry v = (spec_op o a).1 ∧ repr s' (spec_op o a).2.
Proof.
  intros Hr Hok. destruct o as [| | | |e|i e|i|i|lo hi|lo hi hint|last].
  - eapply read_refines; [done|by apply next_slot_run|done].
  - eapply read_refines; [done..|]. simpl. by rewrite (repr_start _ _ Hr).
  - eapply read_refines; [done|by apply last_durable_run|done].
  - destruct (last_entry_run s a Hr) as (e & He & Habs).
    eapply read_refines; [done..|]. simpl. by rewrite Habs.
  - exists (VNum (al_next a)), (set_logs (<[al_next a := Some (make_clone e)]> (logs_ s)) s).
    split_and!; [|done|].
    + apply run_fmap. unfold append, mbind, M_bind, gets, modify. simpl.
      by rewrite (repr_slot s a Hr).
    + simpl. rewrite <- abs_make_clone. by apply repr_append.
  - destruct Hok as [Hi Hmax]. destruct (write_at_run s a i e Hr Hi Hmax) as (s1 & Hw & Hr1).
    exists VDone, s1. unfold run_op. by rewrite (run_bind _ _ _ _ _ Hw).
  - destruct (clone_found_run "src" s a i Hr) as (e & He & Habs).
    eapply read_refines; [done..|]. simpl. by rewrite Habs.
  - eapply read_refines; [done|by apply term_at_run|done].
  - destruct (log_entries_run s a lo hi Hr Hok) as (es & Hes & Habs).
    eapply read_refines; [done..|]. simpl. by rewrite Habs.
  - destruct (log_entries_ext_run s a lo hi hint Hr Hok) as (es & Hes & Habs).
    eapply read_refines; [done..|]. simpl. by rewrite Habs.
  - destruct (repr_compact s a last Hr Hok) as (s' & Hs' & Hr'). exists VDone, s'.
    simpl. by rewrite Hs'.
Qed.

Lemma run_ops_refines s a os :
  repr s a → ops_ok os a →
  ∃ vs s', run_ops asserts os s = (Ret vs, s') ∧
           val_map abs_entry <$> vs = (spec_ops os a).1 ∧ repr s' (spec_ops os a).2.
Proof.
  revert s a. induction os as [|o os IH]; intros s a Hr Hok; [by exists [], s|].
  destruct Hok as [Ho Hos]. simpl. destruct (run_op_refines s a o Hr Ho) as (v & s1 & Hv & Habs & Hr1).
  destruct (IH s1 _ Hr1 Hos) as (vs & s2 & Hvs & Habss & Hr2).
  rewrite (run_bind _ _ _ _ _ Hv), (run_bind _ _ _ _ _ Hvs).
  destruct (spec_op o a) as [v' a'], (spec_ops os a') as [vs' a''] eqn:E; simpl in *.
  rewrite E in Habss, Hr2. exists (v :: vs), s2. split_and!; [done| |done].
  rewrite fmap_cons. simpl in *. congruence.
Qed.

Lemma upper_bound_0_spec m :
  match upper_bound_0 m with
  | Some k => 0 < k ∧ is_Some (m !! k) ∧ ∀ j, 0 < j → is_Some (m !! j) → k ≤ j
  | None => ∀ j, 0 < j → m !! j = None
  end.
Proof.
  unfold upper_bound_0. apply (map_fold_weak_ind (λ r m,
    match r with
    | Some k => 0 < k ∧ is_Some (m !! k) ∧ ∀ j, 0 < j → is_Some (m !! j) → k ≤ j
    | None => ∀ j, 0 < j → m !! j = None
    end)); [done|].
  clear m. intros i p m r Hi IH. destruct (Z.ltb_spec 0 i) as [Hpos|Hneg].
  - destruct r as [k|]; simpl.
    + destruct IH as (Hk & Hin & Hmin). split_and!; [lia|..].
      * destruct (Z.min_spec i k) as [[_ ->]|[_ ->]]; [by simplify_map_eq|].
        destruct (decide (i = k)) as [->|]; by simplify_map_eq.
      * intros j Hj. rewrite lookup_insert_is_Some. intros [->|[_ Hs]]; [lia|].
        specialize (Hmin j Hj Hs). lia.
    + split_and!; [done|by simplify_map_eq|]. intros j Hj.
      rewrite lookup_insert_is_Some. intros [->|[_ [q Hq]]]; [done|]. by rewrite IH in Hq.
  - destruct r as [k|].
    + destruct IH as (Hk & Hin & Hmin). split_and!; [done|..].
      * rewrite lookup_insert_ne by lia. done.
      * intros j Hj. rewrite lookup_insert_ne by lia. by apply Hmin.
    + intros j Hj. rewrite lookup_insert_ne by lia. by apply IH.
Qed.

Lemma upper_bound_0_unique m k :
  0 < k → is_Some (m !! k) → (∀ j, 0 < j → is_Some (m !! j) → k ≤ j) →
  upper_bound_0 m = Some k.
Proof.
  intros Hk Hin Hmin. pose proof (upper_bound_0_spec m) as Hs.
  destruct (upper_bound_0 m) as [k'|].
  - destruct Hs as (Hk' & Hin' & Hmin'). f_equal. apply Z.le_antisymm; auto.
  - rewrite Hs in Hin by done. by destruct Hin.
Qed.

Lemma set_logs_id s : set_logs (logs_ s) s = s.
Proof. by destruct s. Qed.

Lemma pack_collect_run s iis es :
  Forall2 (λ i e, logs_ s !! i = Some (Some e)) iis es →
  pack_collect iis s = (Ret (le_serialize <$> es), s).
Proof.
  induction 1 as [|i e iis es He _ IH]; simpl; [done|].
  unfold mbind, M_bind, gets, modify, index_or in *. rewrite He. simpl.
  by rewrite set_logs_id, IH.
Qed.

(** A missing index ends the first loop in a null dereference. *)
Lemma pack_collect_missing s iis :
  Exists (λ i, logs_ s !! i = None) iis → ∃ w s', pack_collect iis s = (Ub w, s').
Proof.
  induction 1 as [i iis Hi|i iis _ (w & s' & IH)]; simpl;
    unfold mbind, M_bind, gets, modify, index_or in *.
  - rewrite Hi. simpl. eauto.
  - destruct (logs_ s !! i) as [[e|]|]; simpl; [|eauto..].
    rewrite set_logs_id, IH. eauto.
Qed.

Lemma packed_entries_lookup s a index cnt :
  repr s a → al_start a ≤ index → 0 ≤ cnt → index + cnt ≤ al_next a →
  Forall2 (λ i e, logs_ s !! i = Some (Some e)) (seqZ index cnt) (packed_entries s index cnt) ∧
  abs_entry <$> packed_entries s index cnt = al_slice a index (index + cnt).
Proof.
  intros Hr Hlo Hcnt Hhi. pose proof (al_slice_lookup a index (index + cnt)) as HF.
  replace (index + cnt - index) with cnt in HF by lia.
  specialize (HF ltac:(lia) ltac:(lia)). unfold packed_entries.
  induction HF as [|i x iis xs Hx _ [IH1 IH2]]; [done|].
  destruct (repr_entry s a Hr i x Hx) as (e & He & Habs). csimpl. rewrite He. csimpl. split.
  - by constructor.
  - by rewrite Habs, IH2.
Qed.

Lemma pack_run s a index cnt :
  repr s a → al_start a ≤ index → 0 ≤ cnt → index + cnt ≤ al_next a →
  pack_size cnt (le_serialize <$> packed_entries s index cnt) ≤ buffer_max →
  pack index cnt s =
  (Ret (pack_bytes cnt (le_serialize <$> packed_entries s index cnt)), s).
Proof.
  intros Hr Hlo Hcnt Hhi Hsz. pose proof (repr_low _ _ Hr). pose proof (repr_high _ _ Hr).
  destruct (packed_entries_lookup s a index cnt Hr Hlo Hcnt Hhi) as [HF _].
  unfold pack. rewrite u64_id by (unfold in_u64; lia).
  replace (index + cnt - index) with cnt by lia.
  rewrite (run_bind _ _ _ _ _ (pack_collect_run s _ _ HF)).
  unfold buffer_alloc. by rewrite decide_True.
Qed.

Lemma take_int_put z rest s : in_i32 z → take_int (put_int z ++ rest) s = (Ret (z, rest), s).
Proof.
  intros Hz. unfold take_int. rewrite decide_True by (rewrite length_app, put_int_length; lia).
  rewrite take_app_length', drop_app_length' by (symmetry; apply put_int_length).
  by rewrite get_put_int.
Qed.

(** Reading back one entry of a pack. *)
Lemma apply_entry_run n index ii e e' bs s :
  Z.of_nat (length (le_serialize e)) ≤ buffer_max →
  le_deserialize (le_serialize e) = Some e' →
  apply_entries (S n) index ii
    (pack_item (le_serialize e) ++ bs) s =
  apply_entries n index (ii + 1) bs (set_logs (<[u64 (index + ii) := Some e']> (logs_ s)) s).
Proof.
  intros Hsz Hde. pose proof buffer_max_range. unfold pack_item.
  set (z := Z.of_nat (length (le_serialize e))) in *.
  assert (in_i32 z) by (unfold in_i32; lia). rewrite <- app_assoc, i32_id by done.
  simpl. rewrite (run_bind _ _ _ _ _ (take_int_put z _ s ltac:(done))). cbn beta iota.
  unfold buffer_alloc. rewrite (u64_id z) by (unfold in_u64; lia). rewrite decide_True by done.
  unfold mbind, M_bind, take_bytes. simpl.
  replace (Z.to_nat z) with (length (le_serialize e)) by lia.
  rewrite decide_True by (rewrite length_app; lia).
  rewrite take_app_length, drop_app_length. simpl. by rewrite Hde.
Qed.

(** The second loop of [apply_pack] stores the entries of a pack in order. *)
Lemma apply_entries_run n es index ii bs s :
  Forall packable es → Forall (λ e, Z.of_nat (length (le_serialize e)) ≤ buffer_max) es →
  0 ≤ index + ii → index + ii + Z.of_nat (length es) < 2 ^ 64 →
  ∃ es', no_timestamp ∘ abs_entry <$> es' = no_timestamp ∘ abs_entry <$> es ∧
    apply_entries (length es + n) index ii
      (concat (pack_item <$> (le_serialize <$> es)) ++ bs) s =
    apply_entries n index (ii + Z.of_nat (length es)) bs
      (set_logs (map_seqZ (index + ii) (Some <$> es') ∪ logs_ s) s).
Proof.
  intros Hp Hsz. revert ii s Hsz. induction Hp as [|e es [Ht Hv] _ IH];
    intros ii s Hsz Hlo Hhi.
  { exists []. split; [done|]. simpl. rewrite Z.add_0_r, (left_id_L ∅ (∪)), set_logs_id. done. }
  apply Forall_cons in Hsz as [He Hsz]. simpl length in Hhi.
  destruct (deserialize_serialize e Ht Hv) as (e' & Hde & Habs).
  rewrite !fmap_cons, concat_cons, <- app_assoc.
  change (length (e :: es) + n)%nat with (S (length es + n)).
  rewrite (apply_entry_run _ _ _ e e') by done. rewrite u64_id by (unfold in_u64; lia).
  destruct (IH (ii + 1) (set_logs (<[index + ii := Some e']> (logs_ s)) s)) as (es' & Hes' & Hrun);
    [done|lia..|].
  exists (e' :: es'). split.
  - rewrite !fmap_cons, Hes'. unfold compose. by rewrite Habs.
  - rewrite Hrun. f_equal; [simpl; lia|]. unfold set_logs. cbn [logs_ start_idx_]. f_equal.
    rewrite fmap_cons, map_seqZ_cons, <- insert_union_l, <- insert_union_r
      by (apply lookup_map_seqZ_None; lia).
    by replace (Z.succ (index + ii)) with (index + (ii + 1)) by lia.
Qed.

Lemma al_splice_lookup b index es j :
  splice_ok b index →
  al_lookup (al_splice b index es) j = al_lookup (mkLog index es) j ∪ al_lookup b j.
Proof.
  intros Hok. unfold al_splice. destruct (al_entries b) as [|x eb] eqn:Eb.
  { replace (al_lookup b j) with (@None aentry); [by rewrite (right_id_L None (∪))|].
    symmetry. unfold al_lookup. rewrite Eb. by case_decide. }
  destruct Hok as [?|[Hlo Hhi]]; [congruence|]. unfold al_next in Hhi.
  unfold al_lookup. simpl. rewrite Eb in *. rewrite <- !Eb in *.
  set (l := al_entries b) in *. set (k := Z.to_nat (index - al_start b)).
  assert (length (take k l) = k) as Hlen by (rewrite length_take; lia).
  destruct (decide (index ≤ j)) as [Hj|Hj].
  - rewrite decide_True by lia. rewrite lookup_app_r by lia. rewrite Hlen.
    replace (Z.to_nat (j - al_start b) - k)%nat with (Z.to_nat (j - index)) by lia.
    destruct (decide (Z.to_nat (j - index) < length es)%nat) as [Hlt|Hge].
    + rewrite lookup_app_l by done. apply lookup_lt_is_Some in Hlt as [y ->].
      by rewrite option_union_Some_left.
    + rewrite lookup_app_r, lookup_drop, (lookup_ge_None_2 es) by lia.
      rewrite (left_id_L None (∪)), decide_True by lia. f_equal. lia.
  - rewrite (left_id_L None (∪)). case_decide; [|done].
    by rewrite lookup_app_l, lookup_take_lt by lia.
Qed.

Lemma al_splice_start b index es :
  splice_ok b index → es ≠ [] → 1 ≤ al_start b → 1 ≤ index →
  let c := al_splice b index es in
  1 ≤ al_start c ∧ is_Some (al_lookup c (al_start c)) ∧
  al_next c ≤ Z.max (al_next b) (index + Z.of_nat (length es)).
Proof.
  intros Hok Hes Hb Hi c. subst c. unfold al_splice, al_lookup, al_next.
  destruct (al_entries b) as [|x eb] eqn:Eb; simpl.
  - split_and!; [done| |lia]. rewrite decide_True, Z.sub_diag by done.
    destruct es as [|e es]; [done|]. by exists e.
  - destruct Hok as [?|[Hlo Hhi]]; [congruence|]. unfold al_next in Hhi. rewrite Eb in Hhi.
    split_and!; [done| |].
    + rewrite decide_True, Z.sub_diag by done. apply lookup_lt_is_Some.
      destruct es as [|e es]; [done|]. rewrite !length_app. simpl. lia.
    + rewrite !length_app, length_take, length_drop. simpl in *. lia.
Qed.

Lemma repr_splice t b index es :
  repr t b → splice_ok b index → es ≠ [] → 1 ≤ index →
  index + Z.of_nat (length es) < 2 ^ 64 →
  let m := map_seqZ index (Some <$> es) ∪ logs_ t in
  repr (mkStore m (from_option id 1 (upper_bound_0 m)))
       (al_splice b index (abs_entry <$> es)).
Proof.
  intros Hr Hok Hes Hi Hmax m. pose proof (repr_low _ _ Hr). pose proof (repr_high _ _ Hr).
  assert (abs_entry <$> es ≠ []) as Hes' by (by destruct es).
  pose proof (al_splice_start b index (abs_entry <$> es) Hok Hes' ltac:(done) Hi) as
    (Hlow & Hfirst & Hnext). rewrite length_fmap in Hnext.
  assert (abs_logs m = al_map (al_splice b index (abs_entry <$> es))) as Habs.
  { unfold m, abs_logs. rewrite map_fmap_union, fmap_map_seqZ, <- !list_fmap_compose.
    apply map_eq. intros j. rewrite lookup_union. fold (abs_logs (logs_ t)).
    destruct (decide (j = 0)) as [->|Hj].
    - rewrite al_map_0, (repr_abs_0 t b Hr).
      rewrite (proj2 (lookup_map_seqZ_None _ _ _)) by lia. done.
    - rewrite al_map_ne, (repr_abs_ne t b Hr), al_splice_lookup by done.
      pose proof (al_map_ne (mkLog index (abs_entry <$> es)) j Hj) as E.
      unfold al_map in E. rewrite lookup_insert_ne in E by done. simpl in E.
      rewrite <- !list_fmap_compose in E. unfold compose in *. simpl in *. rewrite E.
      by destruct (al_lookup (mkLog index _) j), (al_lookup b j). }
  split; [|done|lia|done]. simpl.
  rewrite (upper_bound_0_unique m (al_start (al_splice b index (abs_entry <$> es)))); [done|lia|..].
  - rewrite <- (fmap_is_Some (fmap abs_entry)), <- abs_logs_lookup, Habs, al_map_ne by lia.
    by apply fmap_is_Some.
  - intros j Hj. rewrite <- (fmap_is_Some (fmap abs_entry)), <- abs_logs_lookup, Habs.
    rewrite al_map_ne by lia. rewrite fmap_is_Some, al_lookup_is_Some. lia.
Qed.

Lemma packed_sizes (logs : list (list byte)) b :
  b ∈ logs → (length b ≤ sum_list_with length logs)%nat.
Proof.
  induction logs as [|x logs IH]; [by intros ?%elem_of_nil|].
  intros [->|Hb]%elem_of_cons; simpl; [lia|]. specialize (IH Hb). lia.
Qed.

(** The shortest prefix that reaches the limit. *)
Lemma al_batch_spec hint xs :
  0 < hint →
  ∃ k, al_batch hint xs = take k xs ∧ (k ≤ length xs)%nat ∧ (xs ≠ [] → (1 ≤ k)%nat) ∧
       ae_size (take (k - 1) xs) < hint ∧ (k = length xs ∨ hint ≤ ae_size (take k xs)).
Proof.
  revert hint. induction xs as [|x xs IH]; intros hint Hh; [exists 0%nat; naive_solver|].
  simpl. rewrite decide_False by lia. case_decide as Hrest.
  - exists 1%nat. rewrite take_0. change (take 1 (x :: xs)) with (x :: take 0 xs).
    rewrite take_0, ae_size_cons. change (ae_size []) with 0. split_and!; [done|simpl; lia|lia|done|].
    right. lia.
  - destruct (IH (hint - Z.of_nat (length (ae_bytes x))) ltac:(lia)) as
      (k & -> & Hk & Hne & Hlt & Hor).
    exists (S k). change (take (S k) (x :: xs)) with (x :: take k xs). rewrite ae_size_cons.
    split_and!; [done|simpl; lia|lia| |destruct Hor; [left; simpl; lia|right; lia]].
    destruct k as [|k]; [simpl; change (ae_size []) with 0; lia|].
    replace (S (S k) - 1)%nat with (S k) by lia. replace (S k - 1)%nat with k in Hlt by lia.
    change (take (S k) (x :: xs)) with (x :: take k xs). rewrite ae_size_cons. lia.
Qed.
End store_lemmas.

(** ** Theorems *)

Section store_theorems.
Context `{LogLib} `{!LogLibOk} `{MsgTypes}.
Variable asserts : bool.

(** C14: The store implements a list: any sequence of the operations NuRaft uses during
    replication, called within their contract on a new store, returns what the same
    operations return on a list with a start index (up to buffer cursors), and the store
    represents that list afterwards: entries are where they were appended or written,
    a write drops what follows it, and a compaction drops exactly what it covers. *)
Theorem log_store_refines_list (os : list log_op) :
  ops_ok os (mkLog 1 []) →
  ∃ vs s', run_ops asserts os inmem_log_store_init = (Ret vs, s') ∧
           val_map abs_entry <$> vs = (spec_ops os (mkLog 1 [])).1 ∧
           repr s' (spec_ops os (mkLog 1 [])).2.
Proof. apply run_ops_refines, repr_init. Qed.

(** C24: [pack] and [apply_pack] carry a range of one store into another: the sender is
    unchanged, and the receiver holds the sender's entries (without timestamps) in that
    range, its own entries elsewhere, and starts at its first entry.  The range must not
    leave a gap after the receiver's entries, and the pack must fit a buffer. *)
Theorem pack_transfers_log s a t b index cnt :
  repr s a → repr t b → splice_ok b index →
  al_start a ≤ index → 0 < cnt → index + cnt ≤ al_next a → in_i32 cnt →
  Forall packable (packed_entries s index cnt) →
  4 + cnt * 4 + Z.of_nat (sum_list_with length (le_serialize <$> packed_entries s index cnt))
    ≤ buffer_max →
  ∃ bytes t' es,
    pack index cnt s = (Ret bytes, s) ∧
    apply_pack index bytes t = (Ret tt, t') ∧
    no_timestamp <$> es = no_timestamp <$> al_slice a index (index + cnt) ∧
    repr t' (al_splice b index es).
Proof.
  intros Hr Ht Hok Hlo Hcnt Hhi Hi32 Hpk Hsz.
  pose proof (repr_low _ _ Hr). pose proof (repr_high _ _ Hr). pose proof buffer_max_range.
  destruct (packed_entries_lookup s a index cnt Hr Hlo ltac:(lia) Hhi) as [HF Habs].
  assert (length (packed_entries s index cnt) = Z.to_nat cnt) as Hlen
    by (by rewrite <- (Forall2_length _ _ _ HF), length_seqZ).
  set (es := packed_entries s index cnt) in *.
  assert (Forall (λ e, Z.of_nat (length (le_serialize e)) ≤ buffer_max) es) as Hszs.
  { apply Forall_forall. intros e He.
    pose proof (packed_sizes (le_serialize <$> es) (le_serialize e)
                  ltac:(by apply list_elem_of_fmap_2)). lia. }
  destruct (apply_entries_run 0 es index 0 [] t Hpk Hszs ltac:(lia) ltac:(lia))
    as (es' & Hes' & Hrun).
  rewrite Nat.add_0_r, app_nil_r, Z.add_0_r in Hrun.
  exists (pack_bytes cnt (le_serialize <$> es)). eexists _, (abs_entry <$> es'). split_and!.
  - apply (pack_run s a); [done..|lia|done|]. fold es. unfold pack_size.
    rewrite u64_id; [done|]. unfold in_u64. lia.
  - unfold apply_pack, pack_bytes. rewrite (run_bind _ _ _ _ _ (take_int_put cnt _ t Hi32)).
    cbn beta iota. rewrite <- Hlen. by rewrite (run_bind _ _ _ _ _ Hrun).
  - rewrite <- Habs, <- !list_fmap_compose. exact Hes'.
  - assert (length es' = length es) as Hlen'
      by (apply (f_equal length) in Hes'; by rewrite !length_fmap in Hes').
    apply repr_splice; [done..| |lia|lia]. destruct es'; simpl in Hlen'; [lia|done].
Qed.

(** A batch with a size hint is a non-empty prefix of the requested entries: without its
    last entry it is below the hint, and it stops short of the request only when it has
    reached the hint. *)
Theorem log_entries_ext_bound s a lo hi hint :
  repr s a → al_start a ≤ lo < hi → hi ≤ al_next a →
  0 < hint < 2 ^ 63 → ae_size (al_slice a lo hi) < 2 ^ 64 →
  ∃ es k,
    log_entries_ext asserts lo hi hint s = (Ret es, s) ∧
    abs_entry <$> es = take k (al_slice a lo hi) ∧ (1 ≤ k ≤ Z.to_nat (hi - lo))%nat ∧
    ae_size (take (k - 1) (al_slice a lo hi)) < hint ∧
    (k = Z.to_nat (hi - lo) ∨ hint ≤ ae_size (take k (al_slice a lo hi))).
Proof.
  intros Hr Hlo Hhi Hhint Hsz.
  destruct (log_entries_ext_run asserts s a lo hi hint Hr) as (es & Hes & Habs);
    [right; split_and!; lia|].
  rewrite decide_False in Habs by lia.
  assert (length (al_slice a lo hi) = Z.to_nat (hi - lo)) as Hlen.
  { unfold al_slice, al_next in *. rewrite length_take, length_drop. lia. }
  destruct (al_batch_spec hint (al_slice a lo hi)) as (k & Hk & Hle & Hne & Hlt & Hor); [lia|].
  rewrite Hlen in Hle, Hor. exists es, k. rewrite Habs, Hk. split_and!; [done..| |lia|done|done].
  apply Hne. intros E. rewrite E in Hlen. simpl in Hlen. lia.
Qed.

(** Without a hint, [log_entries_ext] is [log_entries] on every store, found or missing
    entries and assertions included.  They differ on a reversed range: the one returns
    no entries, the other throws because the length of its result wraps around. *)
Theorem ext_agrees_with_log_entries s lo hi :
  (lo ≤ hi → hi - lo ≤ vector_max_size →
   log_entries_ext asserts lo hi 0 s = log_entries asserts lo hi s) ∧
  (hi < lo → lo - hi < 2 ^ 63 →
   log_entries_ext asserts lo hi 0 s = (Ret [], s) ∧
   ∃ w, log_entries asserts lo hi s = (Throw w, s)).
Proof.
  assert (vector_max_size < 2 ^ 60) as Hv by (vm_compute; done).
  unfold log_entries_ext, log_entries. simpl. split.
  - intros Hle Hmax. rewrite u64_id by (unfold in_u64; lia).
    rewrite decide_False by lia. apply collect_ext_zero.
  - intros Hlt Hmax. split.
    + rewrite collect_ext_zero. replace (hi - lo) with (- (lo - hi)) by lia.
      unfold seqZ. by replace (Z.to_nat (- (lo - hi))) with 0%nat by lia.
    + unfold u64. rewrite <- (Z_mod_plus_full (hi - lo) 1 (2 ^ 64)), Z.mod_small by lia.
      rewrite decide_True by lia. eauto.
Qed.

(** [compact] returns for every index except the largest one, for which its loop counter
    wraps around and it never returns. *)
Theorem compact_returns s last :
  in_u64 (start_idx_ s) → in_u64 last →
  (∃ fuel r, compact fuel last s = Some r) ↔ last ≠ 2 ^ 64 - 1.
Proof.
  unfold compact. intros Hs Hl. split.
  - intros (fuel & r & Hc) ->. by rewrite compact_loop_wraps in Hc.
  - intros Hne. eexists (S (Z.to_nat (last + 1 - start_idx_ s))), _.
    unfold in_u64 in *. rewrite compact_loop_run by lia. done.
Qed.

(** A pack that ends early throws after its first entries were stored and before the start
    index was set.  A store that was empty then has its entries away from its start: it
    represents no log any more. *)
Theorem truncated_pack_half_applied t b index n es tail :
  repr t b → al_entries b = [] → al_start b < index →
  Forall packable es → Forall (λ e, Z.of_nat (length (le_serialize e)) ≤ buffer_max) es →
  es ≠ [] → index + Z.of_nat (length es) < 2 ^ 64 →
  Z.of_nat (length es) < n → in_i32 n → (length tail < 4)%nat →
  ∃ w t', apply_pack index
            (put_int n ++ concat (pack_item <$> (le_serialize <$> es)) ++ tail) t
          = (Throw w, t') ∧
          start_idx_ t' = start_idx_ t ∧
          (∀ i, index ≤ i < index + Z.of_nat (length es) → is_Some (logs_ t' !! i)) ∧
          ∀ a, ¬ repr t' a.
Proof.
  intros Hr Hb Hidx Hpk Hsz Hne Hmax Hn Hn32 Htail. pose proof (repr_low _ _ Hr).
  destruct (apply_entries_run (Z.to_nat n - length es) es index 0 tail t Hpk Hsz)
    as (es' & Hes' & Hrun); [lia..|].
  assert (length es' = length es) as Hlen
    by (apply (f_equal length) in Hes'; by rewrite !length_fmap in Hes').
  replace (length es + (Z.to_nat n - length es))%nat with (Z.to_nat n) in Hrun by lia.
  rewrite Z.add_0_r in Hrun.
  set (t' := set_logs (map_seqZ index (Some <$> es') ∪ logs_ t) t) in *.
  destruct (Z.to_nat n - length es)%nat as [|k] eqn:Ek; [lia|].
  assert (∀ i, index ≤ i < index + Z.of_nat (length es) → is_Some (logs_ t' !! i)) as Hin.
  { intros i Hi. apply lookup_union_is_Some. left. apply lookup_map_seqZ_is_Some.
    by rewrite length_fmap, Hlen. }
  eexists _, t'. split_and!; [|done|done|].
  - unfold apply_pack. rewrite (run_bind _ _ _ _ _ (take_int_put n _ t Hn32)). cbn beta iota.
    unfold mbind at 1, M_bind at 1. rewrite Hrun. simpl. unfold take_int.
    by rewrite decide_False by lia.
  - intros a Ha. pose proof (repr_start _ _ Ha) as Hsa. simpl in Hsa.
    rewrite (repr_start _ _ Hr) in Hsa.
    assert (is_Some (logs_ t' !! index)) as Hp by (apply Hin; destruct es; simpl; [done|lia]).
    apply (repr_no_gap t' a index (al_start b) Ha) in Hp; [|lia].
    apply lookup_union_is_Some in Hp as [Hp|Hp].
    + apply lookup_map_seqZ_is_Some in Hp. lia.
    + rewrite (repr_missing t b Hr) in Hp; [by destruct Hp|lia|].
      apply al_lookup_None. unfold al_next. rewrite Hb. simpl. lia.
Qed.

(** [last_entry] reads the end of the log and the entry under two locks.  If a write
    truncates the log between them, it returns the dummy entry of term 0, which is the last
    entry neither before nor after the write. *)
Theorem last_entry_race s a i e :
  repr s a → al_start a ≤ i < al_next a - 1 →
  ∃ n s1 d,
    next_slot s = (Ret n, s) ∧ write_at i (Some e) s = (Ret tt, s1) ∧
    last_entry_find n s1 = (Ret d, s1) ∧ abs_entry d = adummy ∧
    (∃ x, last_entry s = (Ret x, s) ∧ Some (abs_entry x) = last (al_entries a)) ∧
    (∃ x, last_entry s1 = (Ret x, s1) ∧ abs_entry x = abs_entry e).
Proof.
  intros Hr Hi. pose proof (repr_low _ _ Hr). pose proof (repr_high _ _ Hr).
  destruct (write_at_run s a i e Hr) as (s1 & Hw & Hr1); [lia..|].
  exists (al_next a), s1. set (a1 := (spec_op (LWriteAt i e) a).2) in *.
  destruct (clone_found_run "entry" s1 a1 (al_next a - 1) Hr1) as (d & Hd & Habs).
  exists d. split_and!; [by apply next_slot_run|done|..].
  - unfold last_entry_find. rewrite u64_id; [done|]. unfold in_u64. lia.
  - rewrite Habs, al_lookup_None; [done|]. right. unfold a1, al_next in *. simpl.
    rewrite length_app, length_take. simpl. lia.
  - destruct (last_entry_run s a Hr) as (x & Hx & Hxa). exists x. split; [done|].
    rewrite Hxa. destruct (last (al_entries a)) as [y|] eqn:E; [done|].
    apply last_None in E. unfold al_next in *. rewrite E in *. simpl in *. lia.
  - destruct (last_entry_run s1 a1 Hr1) as (x & Hx & Hxa). exists x. split; [done|].
    rewrite Hxa. simpl. by rewrite last_snoc.
Qed.

(** Packing an index the store does not have dereferences the null pointer that
    [operator[]] inserted for it. *)
Theorem pack_missing_crashes s a index cnt :
  repr s a → 0 < index → 0 < cnt → index + cnt < 2 ^ 64 →
  index < al_start a ∨ al_next a < index + cnt →
  ∃ w s', pack index cnt s = (Ub w, s').
Proof.
  intros Hr Hi Hc Hmax Hout.
  destruct (pack_collect_missing s (seqZ index cnt)) as (w & s' & Hw).
  - apply Exists_exists. pose proof (repr_low _ _ Hr).
    destruct Hout as [Hlt|Hgt]; [exists index|exists (index + cnt - 1)];
      rewrite elem_of_seqZ; (split; [lia|]); apply (repr_missing s a Hr); [lia| |lia|];
      apply al_lookup_None; lia.
  - exists w, s'. unfold pack. rewrite u64_id by (unfold in_u64; lia).
    replace (index + cnt - index) with cnt by lia. unfold mbind at 1, M_bind at 1.
    by rewrite Hw.
Qed.
End store_theorems.

(** ** A concrete instance: little-endian buffers *)

Module LogStoreDemo.
Import Demo.

Definition byte_of_Z (z : Z) : byte := default "000"%byte (Byte.of_N (Z.to_N z)).

Fixpoint le_bytes (n : nat) (z : Z) : list byte :=
  match n with
  | O => []
  | S n' => byte_of_Z (z mod 256) :: le_bytes n' (z / 256)
  end.

Fixpoint le_value (bs : list byte) : Z :=
  match bs with
  | [] => 0
  | b :: bs' => Z.of_N (Byte.to_N b) + 256 * le_value bs'
  end.

Definition demo_serialize (e : log_entry) : list byte :=
  le_bytes 8 (le_term e) ++ le_bytes 1 (le_val_type e) ++ buf_bytes (le_buf e).

Definition demo_deserialize (bs : list byte) : option log_entry :=
  if decide (9 ≤ length bs)%nat
  then Some (mkEntry (le_value (take 8 bs)) (buf_alloc (drop 9 bs))
               (le_value (take 1 (drop 8 bs))) 0)
  else None.

#[export] Instance demo_log_lib : LogLib := {|
  buffer_clone := buf_rewind;
  fresh_bytes n := replicate n "000"%byte;
  buffer_max := 2 ^ 31 - 1;
  put_int z := le_bytes 4 z;
  get_int bs := i32 (le_value bs);
  le_serialize := demo_serialize;
  le_deserialize := demo_deserialize;
|}.

Lemma byte_of_Z_value z : 0 ≤ z < 256 → Z.of_N (Byte.to_N (byte_of_Z z)) = z.
Proof.
  intros Hz. unfold byte_of_Z. destruct (Byte.of_N (Z.to_N z)) as [b|] eqn:E; simpl.
  - apply Byte.to_of_N in E. lia.
  - apply Byte.of_N_None_iff in E. lia.
Qed.

Lemma le_value_bytes n z : le_value (le_bytes n z) = z mod 256 ^ Z.of_nat n.
Proof.
  revert z. induction n as [|n IH]; intros z; simpl; [by rewrite Z.mod_1_r|].
  rewrite IH, byte_of_Z_value by (apply Z.mod_pos_bound; lia).
  change (Z.pos (Pos.of_succ_nat n)) with (Z.of_nat (S n)).
  rewrite Nat2Z.inj_succ, Z.pow_succ_r by lia.
  rewrite Z.rem_mul_r by lia. done.
Qed.

Lemma length_le_bytes n z : length (le_bytes n z) = n.
Proof. revert z. induction n as [|n IH]; intros z; simpl; [done|by rewrite IH]. Qed.

#[export] Instance demo_log_lib_ok : LogLibOk.
Proof.
  split.
  - done.
  - done.
  - intros z. apply (length_le_bytes 4).
  - intros z Hz. change (i32 (le_value (le_bytes 4 z)) = z). rewrite le_value_bytes.
    change (256 ^ Z.of_nat 4) with (2 ^ 32). unfold i32.
    rewrite Zplus_mod_idemp_l. by apply i32_id.
  - intros e Ht Hv. exists (mkEntry (le_term e) (buf_alloc (buf_bytes (le_buf e))) (le_val_type e) 0).
    split; [|done]. unfold le_deserialize, le_serialize, demo_log_lib.
    unfold demo_deserialize, demo_serialize. rewrite decide_True
      by (rewrite !length_app, !length_le_bytes; lia).
    rewrite take_app_length', (drop_app_length' _ _ 8) by (by rewrite length_le_bytes).
    rewrite take_app_length' by (by rewrite length_le_bytes).
    rewrite (app_assoc (le_bytes 8 _)), drop_app_length'
      by (by rewrite length_app, !length_le_bytes).
    rewrite !le_value_bytes, !Z.mod_small by (unfold in_u64 in *; lia). done.
Qed.

Definition demo_entry (t : Z) : log_entry := mkEntry t (buf_alloc ["a"; "b"; "c"]%byte) app_log 0.
Definition demo_log_ops : list log_op :=
  [LAppend (demo_entry 1); LAppend (demo_entry 1); LWriteAt 2 (demo_entry 2);
   LAppend (demo_entry 3); LCompact 1; LLastEntry; LEntriesExt 2 4 2].

(** Two entries in a store, and the list it represents. *)
Definition demo_store : inmem_log_store :=
  (run_ops true [LAppend (demo_entry 1); LAppend (demo_entry 2)] inmem_log_store_init).2.
Definition demo_list : alog := mkLog 1 [abs_entry (demo_entry 1); abs_entry (demo_entry 2)].

Lemma demo_repr : repr demo_store demo_list.
Proof.
  destruct (run_ops_refines true _ _ [LAppend (demo_entry 1); LAppend (demo_entry 2)] repr_init)
    as (vs & s' & Hrun & _ & Hr); [by vm_compute|].
  unfold demo_store. by rewrite Hrun.
Qed.

Lemma log_store_refines_list_witness :
  ops_ok demo_log_ops (mkLog 1 []) ∧
  ∃ vs s', run_ops true demo_log_ops inmem_log_store_init = (Ret vs, s') ∧
           val_map abs_entry <$> vs = (spec_ops demo_log_ops (mkLog 1 [])).1 ∧
           repr s' (spec_ops demo_log_ops (mkLog 1 [])).2.
Proof.
  assert (ops_ok demo_log_ops (mkLog 1 [])) as Hok.
  { simpl. unfold al_next, ae_size, vector_max_size. simpl. split_and!; try lia. }
  split; [exact Hok|apply (log_store_refines_list true demo_log_ops Hok)].
Defined.

Lemma pack_transfers_log_witness :
  al_slice demo_list 1 3 = al_entries demo_list ∧
  ∃ bytes t' es,
    pack 1 2 demo_store = (Ret bytes, demo_store) ∧
    apply_pack 1 bytes inmem_log_store_init = (Ret tt, t') ∧
    no_timestamp <$> es = no_timestamp <$> al_slice demo_list 1 3 ∧
    repr t' (al_splice (mkLog 1 []) 1 es).
Proof.
  split; [done|]. apply (pack_transfers_log demo_store demo_list inmem_log_store_init (mkLog 1 []) 1 2).
  - apply demo_repr.
  - apply repr_init.
  - by left.
  - done.
  - done.
  - unfold al_next. simpl. lia.
  - unfold in_i32. lia.
  - assert (packed_entries demo_store 1 2 = [demo_entry 1; demo_entry 2]) as -> by (by vm_compute).
    repeat constructor; unfold in_u64; simpl; lia.
  - by vm_compute.
Defined.

Lemma log_entries_ext_bound_witness :
  al_slice demo_list 1 3 ≠ [] ∧
  ∃ es k,
    log_entries_ext true 1 3 2 demo_store = (Ret es, demo_store) ∧
    abs_entry <$> es = take k (al_slice demo_list 1 3) ∧ (1 ≤ k ≤ 2)%nat ∧
    ae_size (take (k - 1) (al_slice demo_list 1 3)) < 2 ∧
    (k = 2%nat ∨ 2 ≤ ae_size (take k (al_slice demo_list 1 3))).
Proof.
  split; [done|]. apply (log_entries_ext_bound true demo_store demo_list 1 3 2).
  - apply demo_repr.
  - simpl. lia.
  - unfold al_next. simpl. lia.
  - lia.
  - unfold ae_size. simpl. lia.
Defined.

Lemma ext_agrees_with_log_entries_witness :
  log_entries_ext true 1 3 0 demo_store = log_entries true 1 3 demo_store ∧
  ∃ w, log_entries true 3 1 demo_store = (Throw w, demo_store).
Proof.
  split.
  - apply (ext_agrees_with_log_entries true demo_store 1 3); [lia|]. by vm_compute.
  - apply (ext_agrees_with_log_entries true demo_store 3 1); lia.
Defined.

Lemma compact_returns_witness :
  (∃ fuel r, compact fuel 1 demo_store = Some r) ∧
  ((∃ fuel r, compact fuel (2 ^ 64 - 1) demo_store = Some r) → False).
Proof.
  assert (in_u64 (start_idx_ demo_store)) as Hs
    by (rewrite (repr_start _ _ demo_repr); unfold in_u64; simpl; lia).
  split.
  - apply (compact_returns demo_store 1 Hs); [unfold in_u64|]; lia.
  - intros Hc. by apply (compact_returns demo_store (2 ^ 64 - 1) Hs) in Hc; [|unfold in_u64; lia].
Defined.

Lemma truncated_pack_half_applied_witness :
  al_entries (mkLog 1 []) = [] ∧
  ∃ w t', apply_pack 5
            (put_int 2 ++ concat (pack_item <$> (le_serialize <$> [demo_entry 1])) ++ [])
            inmem_log_store_init
          = (Throw w, t') ∧
          start_idx_ t' = 1 ∧
          (∀ i, 5 ≤ i < 5 + 1 → is_Some (logs_ t' !! i)) ∧ ∀ a, ¬ repr t' a.
Proof.
  split; [done|].
  apply (truncated_pack_half_applied inmem_log_store_init (mkLog 1 []) 5 2 [demo_entry 1] []).
  - apply repr_init.
  - done.
  - simpl. lia.
  - repeat constructor; unfold in_u64; simpl; lia.
  - repeat constructor. by vm_compute.
  - done.
  - simpl. lia.
  - simpl. lia.
  - unfold in_i32. lia.
  - simpl. lia.
Defined.

Lemma last_entry_race_witness :
  repr demo_store demo_list ∧
  ∃ n s1 d,
    next_slot demo_store = (Ret n, demo_store) ∧
    write_at 1 (Some (demo_entry 7)) demo_store = (Ret tt, s1) ∧
    last_entry_find n s1 = (Ret d, s1) ∧ abs_entry d = adummy ∧
    (∃ x, last_entry demo_store = (Ret x, demo_store) ∧
          Some (abs_entry x) = last (al_entries demo_list)) ∧
    (∃ x, last_entry s1 = (Ret x, s1) ∧ abs_entry x = abs_entry (demo_entry 7)).
Proof.
  split; [apply demo_repr|].
  apply (last_entry_race demo_store demo_list 1 (demo_entry 7) demo_repr).
  unfold al_next. simpl. lia.
Defined.

Lemma pack_missing_crashes_witness :
  repr demo_store demo_list ∧ ∃ w s', pack 2 2 demo_store = (Ub w, s').
Proof.
  split; [apply demo_repr|].
  apply (pack_missing_crashes demo_store demo_list 2 2 demo_repr); [lia..|].
  right. unfold al_next. simpl. lia.
Defined.
End LogStoreDemo.
