(* ===== verification/LogThreads.v ===== *)
(** * The log store, shared by threads

    [inmem_log_store] of [test_package/in_memory_log_store.cpp] is called by several threads of
    NuRaft.  A call is cut where it releases [logs_lock_]: [last_entry] takes the lock twice,
    [log_entries] and [log_entries_ext] once for every entry, and the others of [log_op] once;
    [pack] and [apply_pack] are single calls of [LogStore] only.  The reference is
    [LogStore]'s list with calls that happen at one moment each, between their invocation
    and their return; the histories of the store are shown to be histories of the reference
    as long as nobody removes what a call is still to read. *)

From stdpp Require Import base gmap strings list numbers relations.
From S2P Require Import Prelude Types LogStore.
Local Open Scope Z_scope.

(** How far a call is. *)
Inductive call_state :=
| Begins (o : log_op)
| FoundSlot (next_idx : Z)
| Collects (iis : list Z) (ret : list log_entry)
| CollectsExt (hint accum_size : Z) (iis : list Z) (ret : list log_entry)
| Returned (v : log_val log_entry).

Definition in_progress (c : call_state) : bool :=
  match c with FoundSlot _ | Collects _ _ | CollectsExt _ _ _ _ => true | _ => false end.

(** What the callers see: the call number [i] is made, and returns. *)
Inductive log_event (E : Type) :=
| Invoked (i : nat) (o : log_op)
| Responded (i : nat) (v : log_val E).
Arguments Invoked {_}.
Arguments Responded {_}.

Definition event_map {E F : Type} (f : E → F) (ev : log_event E) : log_event F :=
  match ev with
  | Invoked i o => Invoked i o
  | Responded i v => Responded i (val_map f v)
  end.

Definition returns (i : nat) (c : call_state) : list (log_event log_entry) :=
  match c with Returned v => [Responded i v] | _ => [] end.

Section log_threads.
Context `{LogLib} `{MsgTypes}.

(** Whether [assert] is compiled in. *)
Variable asserts : bool.

(** ** Sections *)

Definition begin_section (o : log_op) : M inmem_log_store call_state :=
  match o with
  | LLastEntry => FoundSlot <$> next_slot
  | LEntries start end_ =>
      if decide (vector_max_size < u64 (end_ - start)) then throw "vector::_M_default_append"
      else mret (Collects (seqZ start (end_ - start)) [])
  | LEntriesExt start end_ hint =>
      if hint <? 0 then mret (Returned (VEntries []))
      else mret (CollectsExt hint 0 (seqZ start (end_ - start)) [])
  | _ => Returned <$> run_op asserts o
  end.

Definition collect_section (iis : list Z) (ret : list log_entry) : M inmem_log_store call_state :=
  match iis with
  | [] => mret (Returned (VEntries ret))
  | ii :: iis' =>
      src ← find_or_assert asserts ii;
      mret (Collects iis' (ret ++ [make_clone src]))
  end.

Definition collect_ext_section (hint accum_size : Z) (iis : list Z) (ret : list log_entry)
  : M inmem_log_store call_state :=
  match iis with
  | [] => mret (Returned (VEntries ret))
  | ii :: iis' =>
      src ← find_or_assert asserts ii;
      let ret := ret ++ [make_clone src] in
      let accum_size := u64 (accum_size + Z.of_nat (buf_size (le_buf src))) in
      mret (if negb (hint =? 0) && (u64 hint <=? accum_size) then Returned (VEntries ret)
            else CollectsExt hint accum_size iis' ret)
  end.

Definition call_section (c : call_state) : M inmem_log_store call_state :=
  match c with
  | Begins o => begin_section o
  | FoundSlot next_idx => (λ e, Returned (VEntry e)) <$> last_entry_find next_idx
  | Collects iis ret => collect_section iis ret
  | CollectsExt hint accum_size iis ret => collect_ext_section hint accum_size iis ret
  | Returned v => mret (Returned v)
  end.

(** ** Interleavings *)

Record log_state := mkLogState {
  ls_store : inmem_log_store;
  ls_calls : list call_state;
}.

(** A call that removes nothing another call is still to read. *)
Definition undisturbed (o : log_op) (c : call_state) : Prop :=
  match o with
  | LWriteAt index _ =>
      match c with
      | FoundSlot n => n ≤ index
      | Collects iis _ | CollectsExt _ _ iis _ => Forall (λ i, i < index) iis
      | _ => True
      end
  | LCompact last =>
      match c with
      | FoundSlot n => last + 1 < n
      | Collects iis _ | CollectsExt _ _ iis _ => Forall (λ i, last < i) iis
      | _ => True
      end
  | _ => True
  end.

(** When NuRaft may start a call. *)
Definition may_begin (s : log_state) (o : log_op) : Prop :=
  ∃ a, repr (ls_store s) a ∧ op_ok o a ∧ Forall (undisturbed o) (ls_calls s).

Inductive log_step (s : log_state) : list (log_event log_entry) → log_state → Prop :=
| log_arrives o :
    log_step s [Invoked (length (ls_calls s)) o]
      (mkLogState (ls_store s) (ls_calls s ++ [Begins o]))
| log_begins i o c w :
    ls_calls s !! i = Some (Begins o) → may_begin s o →
    call_section (Begins o) (ls_store s) = (Ret c, w) →
    log_step s (returns i c) (mkLogState w (<[i := c]> (ls_calls s)))
| log_continues i c c' w :
    ls_calls s !! i = Some c → in_progress c = true →
    call_section c (ls_store s) = (Ret c', w) →
    log_step s (returns i c') (mkLogState w (<[i := c']> (ls_calls s))).

Definition log_initial : log_state := mkLogState inmem_log_store_init [].

(** One call with nothing in between. *)
Inductive call_alone : call_state * inmem_log_store → call_state * inmem_log_store → Prop :=
| call_runs c s c' s' :
    call_section c s = (Ret c', s') → call_alone (c, s) (c', s').

(** ** The reference: calls at one moment each *)

(** A call that was made, one that has happened, and one that has returned. *)
Inductive acall :=
| APending (o : log_op)
| ADone (v : log_val aentry)
| AReturned (v : log_val aentry).

Record atomic_state := mkAtomic {
  as_log : alog;
  as_calls : list acall;
}.

Inductive atomic_step (s : atomic_state) : list (log_event aentry) → atomic_state → Prop :=
| atomic_arrives o :
    atomic_step s [Invoked (length (as_calls s)) o] (mkAtomic (as_log s) (as_calls s ++ [APending o]))
| atomic_commits i o :
    as_calls s !! i = Some (APending o) → op_ok o (as_log s) →
    atomic_step s [] (mkAtomic (spec_op o (as_log s)).2
                        (<[i := ADone (spec_op o (as_log s)).1]> (as_calls s)))
| atomic_returns i v :
    as_calls s !! i = Some (ADone v) →
    atomic_step s [Responded i v] (mkAtomic (as_log s) (<[i := AReturned v]> (as_calls s))).

Definition atomic_initial : atomic_state := mkAtomic (mkLog 1 []) [].

(** ** The simulation *)

Definition lookups (a : alog) (iis : list Z) (xs : list aentry) : Prop :=
  Forall2 (λ i x, al_lookup a i = Some x) iis xs.

(** What is left of a batch after [accum_size] bytes. *)
Definition rest_of_batch (hint accum_size : Z) (xs : list aentry) : list aentry :=
  if decide (hint = 0) then xs else al_batch (hint - accum_size) xs.

Definition batch_bounds (hint accum_size : Z) (xs : list aentry) : Prop :=
  hint = 0 ∨
  0 < hint - accum_size ∧ 0 ≤ accum_size ∧ hint < 2 ^ 63 ∧ accum_size + ae_size xs < 2 ^ 64.

(** A call of the store and the call of the reference it belongs to; a call between its
    sections has happened already, and still finds what it returned. *)
Definition call_sim (a : alog) (c : call_state) (ac : acall) : Prop :=
  match c, ac with
  | Begins o, APending o' => o = o'
  | Returned v, AReturned v' => val_map abs_entry v = v'
  | FoundSlot n, ADone (VEntry x) =>
      1 ≤ n ≤ al_next a ∧ x = default adummy (al_lookup a (n - 1))
  | Collects iis ret, ADone (VEntries xs) =>
      ∃ ys, lookups a iis ys ∧ xs = (abs_entry <$> ret) ++ ys
  | CollectsExt hint accum_size iis ret, ADone (VEntries xs) =>
      ∃ ys, lookups a iis ys ∧ batch_bounds hint accum_size ys ∧
            xs = (abs_entry <$> ret) ++ rest_of_batch hint accum_size ys
  | _, _ => False
  end.

(** Where a call with result [v] is once the store's call is at [c]. *)
Definition finish (c : call_state) (v : log_val aentry) : acall :=
  match c with Returned _ => AReturned v | _ => ADone v end.

Record log_sim (s : log_state) (t : atomic_state) : Prop := {
  lm_repr : repr (ls_store s) (as_log t);
  lm_calls : Forall2 (call_sim (as_log t)) (ls_calls s) (as_calls t);
}.
End log_threads.

(** ** Lemmas *)

Section log_threads_lemmas.
Context `{LogLib} `{!LogLibOk} `{MsgTypes}.
Variable asserts : bool.
Implicit Types (a : alog) (s : inmem_log_store) (c : call_state) (iis : list Z).

(** An operation leaves the entries alone that it does not remove. *)
Lemma spec_op_lookup o a i x :
  op_ok o a → al_lookup a i = Some x →
  match o with LWriteAt j _ => i < j | LCompact last => last < i | _ => True end →
  al_lookup (spec_op o a).2 i = Some x.
Proof.
  intros Hok Hx Hi. assert (al_start a ≤ i < al_next a) as Hr by (apply al_lookup_is_Some; eauto).
  destruct o as [| | | |e|j e| | | | |last]; simpl in *; try done.
  - rewrite <- (take_ge (al_entries a) (length (al_entries a))) by done.
    rewrite al_lookup_truncate by done. unfold al_next in Hr.
    rewrite decide_False, decide_True by lia. done.
  - destruct Hok as [Hj _]. unfold al_next in *. rewrite al_lookup_truncate by lia.
    rewrite decide_False, decide_True by lia. done.
  - case_decide; [|done]. unfold al_lookup in *. simpl. rewrite decide_True in Hx by lia.
    rewrite decide_True, lookup_drop by lia. rewrite <- Hx. f_equal. lia.
Qed.

(** The index after the log does not go back below a slot nobody writes under. *)
Lemma spec_op_next o a n :
  op_ok o a → n ≤ al_next a →
  match o with LWriteAt j _ => n ≤ j | _ => True end → n ≤ al_next (spec_op o a).2.
Proof.
  intros Hok Hn Ho. destruct o as [| | | |e|j e| | | | |last]; simpl in *; try done;
    unfold al_next in *; simpl.
  - rewrite length_app. simpl. lia.
  - rewrite length_app, length_take. simpl. lia.
  - case_decide; simpl; [rewrite length_drop|]; lia.
Qed.

(** No operation makes an entry before the log. *)
Lemma spec_op_before o a i :
  op_ok o a → i < al_start a → al_lookup (spec_op o a).2 i = None.
Proof.
  intros Hok Hi. apply al_lookup_None. left.
  destruct o as [| | | |e|j e| | | | |last]; simpl in *; try done. case_decide; simpl; lia.
Qed.

Lemma lookups_stable o a iis xs :
  op_ok o a → lookups a iis xs →
  match o with
  | LWriteAt j _ => Forall (λ i, i < j) iis
  | LCompact last => Forall (λ i, last < i) iis
  | _ => True
  end → lookups (spec_op o a).2 iis xs.
Proof.
  intros Hok Hl. induction Hl as [|i x iis xs Hx Hl IH]; [by constructor|]. intros Ho.
  assert (match o with
          | LWriteAt j _ => i < j ∧ Forall (λ i, i < j) iis
          | LCompact last => last < i ∧ Forall (λ i, last < i) iis
          | _ => True
          end) as Hi by (destruct o; try done; by apply Forall_cons in Ho).
  constructor; [|apply IH; by destruct o; try apply Hi].
  apply spec_op_lookup; [done..|]. by destruct o; try apply Hi.
Qed.

(** A call between its sections is not affected by the calls of others. *)
Lemma call_sim_stable o a c ac :
  op_ok o a → undisturbed o c → call_sim a c ac → call_sim (spec_op o a).2 c ac.
Proof.
  intros Hok Ho. destruct c as [o'|n|iis ret|hint acc iis ret|v], ac as [o2|v2|v2]; simpl; try done;
    destruct v2 as [z|x|xs|]; try done.
  - intros [[Hn Hn'] Hx]. split; [split; [done|]; apply spec_op_next; [done..|]; by destruct o|].
    subst x. f_equal. destruct (al_lookup a (n - 1)) as [x|] eqn:Hl.
    + symmetry. apply spec_op_lookup; [done..|]. destruct o; simpl in *; lia || done.
    + symmetry. destruct (decide (n - 1 < al_start a)) as [Hlt|Hge]; [by apply spec_op_before|].
      destruct (proj2 (al_lookup_is_Some a (n - 1))) as [x Hx]; [lia|]. congruence.
  - intros (ys & Hl & ->). exists ys. split; [|done]. apply lookups_stable; [done..|].
    by destruct o.
  - intros (ys & Hl & Hb & ->). exists ys. split_and!; [|done|done]. apply lookups_stable; [done..|].
    by destruct o.
Qed.

(** The first section of a call is the operation. *)
Lemma begin_run s a o :
  repr s a → op_ok o a →
  ∃ c s', begin_section asserts o s = (Ret c, s') ∧ repr s' (spec_op o a).2 ∧
          call_sim (spec_op o a).2 c (finish c (spec_op o a).1).
Proof.
  intros Hr Hok. pose proof (repr_low _ _ Hr). pose proof (repr_high _ _ Hr).
  assert (∃ c s', (Returned <$> run_op asserts o) s = (Ret c, s') ∧ repr s' (spec_op o a).2 ∧
                  call_sim (spec_op o a).2 c (finish c (spec_op o a).1)) as Hatomic.
  { destruct (run_op_refines asserts s a o Hr Hok) as (v & s' & Hrun & Hv & Hr').
    exists (Returned v), s'. by rewrite (run_fmap _ _ _ _ _ Hrun). }
  destruct o as [| | | |e|j e|j|j|lo hi|lo hi hint|last]; try exact Hatomic; clear Hatomic; simpl.
  - exists (FoundSlot (al_next a)), s. rewrite (run_fmap _ _ _ _ _ (next_slot_run s a Hr)).
    split; [done|]. split; [done|]. split; [unfold al_next; lia|]. by rewrite al_lookup_last.
  - destruct Hok as (Hlo & Hhi & Hmax). rewrite u64_id by (unfold in_u64; lia).
    rewrite decide_False by lia. eexists _, s. split_and!; [done..|].
    exists (al_slice a lo hi). split; [by apply al_slice_lookup|done].
  - destruct (Z.ltb_spec hint 0) as [Hneg|Hpos].
    { rewrite decide_True by done. by eexists _, s. }
    rewrite decide_False by lia. destruct Hok as [?|(Hlo & Hhi & Hhint & Hsz)]; [lia|].
    eexists _, s. split_and!; [done..|]. exists (al_slice a lo hi).
    split_and!; [by apply al_slice_lookup| |].
    + destruct (decide (hint = 0)); [by left|right]. pose proof (ae_size_nonneg (al_slice a lo hi)). lia.
    + unfold rest_of_batch. case_decide as Hz; [|by rewrite Z.sub_0_r]. subst hint.
      by destruct (al_slice a lo hi).
Qed.

Lemma abs_snoc ret e : abs_entry <$> (ret ++ [make_clone e]) = (abs_entry <$> ret) ++ [abs_entry e].
Proof. by rewrite fmap_app, <- (abs_make_clone e). Qed.

Lemma collect_ext_section_run s a hint acc ii iis ret y ys :
  repr s a → al_lookup a ii = Some y → lookups a iis ys → batch_bounds hint acc (y :: ys) →
  ∃ c, collect_ext_section asserts hint acc (ii :: iis) ret s = (Ret c, s) ∧
       call_sim a c (finish c (VEntries ((abs_entry <$> ret) ++ rest_of_batch hint acc (y :: ys)))).
Proof.
  intros Hr Hy Hl Hb. destruct (find_or_assert_run asserts s a Hr ii y Hy) as (e & He & Habs).
  unfold collect_ext_section. rewrite (run_bind _ _ _ _ _ He). eexists. split; [done|].
  assert (Z.of_nat (buf_size (le_buf e)) = Z.of_nat (length (ae_bytes y))) as -> by by rewrite <- Habs.
  unfold rest_of_batch. destruct (Z.eqb_spec hint 0) as [->|Hne]; simpl.
  { exists ys. split_and!; [done|by left|]. by rewrite abs_snoc, Habs, <-app_assoc. }
  destruct Hb as [?|(Hd & Hacc & Hmax & Hsz)]; [done|]. rewrite ae_size_cons in Hsz.
  pose proof (ae_size_nonneg ys).
  rewrite !u64_id by (unfold in_u64; lia). rewrite (decide_False (P := hint = 0)) by done. simpl.
  rewrite (decide_False (P := hint - acc = 0)) by lia.
  destruct (Z.leb_spec hint (acc + Z.of_nat (length (ae_bytes y)))) as [Hle|Hgt].
  - rewrite decide_True by lia. simpl. by rewrite abs_snoc, Habs.
  - rewrite decide_False by lia. exists ys. split_and!; [done|right; lia|].
    unfold rest_of_batch. rewrite decide_False by done. rewrite abs_snoc, Habs, <-app_assoc. simpl.
    do 3 f_equal. lia.
Qed.

(** The other sections find what the call has returned already. *)
Lemma continue_run s a c ac :
  repr s a → in_progress c = true → call_sim a c ac →
  ∃ c' v, call_section asserts c s = (Ret c', s) ∧ ac = ADone v ∧ call_sim a c' (finish c' v).
Proof.
  intros Hr Hc. destruct c as [o'|n|iis ret|hint acc iis ret|v], ac as [o2|v2|v2]; try done;
    destruct v2 as [z|x|xs|]; try done; simpl.
  - intros [[Hn Hn'] ->]. unfold last_entry_find. pose proof (repr_high _ _ Hr).
    rewrite u64_id by (unfold in_u64; lia).
    destruct (clone_found_run "entry" s a (n - 1) Hr) as (e & He & Habs).
    rewrite (run_fmap _ _ _ _ _ He). eexists _, _. do 2 (split; [done|]). simpl. by rewrite Habs.
  - intros (ys & Hl & ->). destruct Hl as [|ii y iis ys Hy Hl]; simpl.
    { eexists _, _. do 2 (split; [done|]). simpl. by rewrite app_nil_r. }
    destruct (find_or_assert_run asserts s a Hr ii y Hy) as (e & He & Habs).
    rewrite (run_bind _ _ _ _ _ He). eexists _, _. do 2 (split; [done|]). exists ys. split; [done|].
    by rewrite abs_snoc, Habs, <-app_assoc.
  - intros (ys & Hl & Hb & ->). destruct Hl as [|ii y iis ys Hy Hl].
    { eexists _, _. do 2 (split; [done|]). simpl. unfold rest_of_batch.
      case_decide; simpl; by rewrite app_nil_r. }
    destruct (collect_ext_section_run s a hint acc ii iis ret y ys) as (c & ? & ?); [done..|].
    by eexists _, _.
Qed.

(** A store represents one list. *)
Lemma repr_unique s a a' : repr s a → repr s a' → a = a'.
Proof.
  intros Hr Hr'. destruct a as [st es], a' as [st' es'].
  assert (st = st') as <-.
  { pose proof (repr_start _ _ Hr). pose proof (repr_start _ _ Hr'). simpl in *. congruence. }
  f_equal. apply list_eq. intros k. pose proof (repr_low _ _ Hr) as Hlow. simpl in Hlow.
  pose proof (repr_abs_ne _ _ Hr (st + Z.of_nat k) ltac:(lia)) as E.
  rewrite (repr_abs_ne _ _ Hr') in E by lia. unfold al_lookup in E. simpl in E.
  rewrite !decide_True in E by lia. replace (Z.to_nat (st + Z.of_nat k - st)) with k in E by lia.
  by apply (inj (fmap Some)) in E.
Qed.

(** A call that moved on, among calls that are as they were. *)
Lemma calls_sim_insert a (cs : list call_state) (acs : list acall) i c ac :
  Forall2 (call_sim a) cs acs → call_sim a c ac → Forall2 (call_sim a) (<[i := c]> cs) (<[i := ac]> acs).
Proof. intros HF Hc. by apply Forall2_insert. Qed.

Lemma calls_sim_stable o a (cs : list call_state) (acs : list acall) :
  op_ok o a → Forall (undisturbed o) cs → Forall2 (call_sim a) cs acs →
  Forall2 (call_sim (spec_op o a).2) cs acs.
Proof.
  intros Hok Hu HF. induction HF as [|c ac cs acs Hc HF IH]; [constructor|].
  apply Forall_cons in Hu as [Hu1 Hu]. constructor; [by apply call_sim_stable|by apply IH].
Qed.

(** The reference returns when the store does. *)
Lemma atomic_finish (t : atomic_state) i v c :
  as_calls t !! i = Some (ADone v) → call_sim (as_log t) c (finish c v) →
  labelled_run atomic_step t (event_map abs_entry <$> returns i c)
    (mkAtomic (as_log t) (<[i := finish c v]> (as_calls t))).
Proof.
  intros Hi Hc. destruct c as [| | | |v']; simpl.
  5: { simpl in Hc. rewrite Hc. eapply (run_snoc _ _ []); [constructor|]. by constructor. }
  all: rewrite list_insert_id by done; destruct t; constructor.
Qed.

Lemma log_step_sim (s s' : log_state) evs (t : atomic_state) :
  log_sim s t → log_step asserts s evs s' →
  ∃ t', labelled_run atomic_step t (event_map abs_entry <$> evs) t' ∧ log_sim s' t'.
Proof.
  intros [Hr HF] Hs. destruct Hs as [o|i o c w Hi (a & Hra & Hok & Hu) Hrun|i c c' w Hi Hp Hrun].
  - eexists. split; [eapply (run_snoc _ _ []); [constructor|]; simpl; rewrite (Forall2_length _ _ _ HF);
      apply (atomic_arrives t o)|].
    split; [done|]. simpl. apply Forall2_app; [done|]. by constructor; [|constructor].
  - rewrite (repr_unique _ _ _ Hra Hr) in Hok. clear a Hra.
    destruct (begin_run (ls_store s) (as_log t) o Hr Hok) as (c2 & w2 & Hrun2 & Hr2 & Hc2).
    simpl in Hrun. rewrite Hrun in Hrun2. injection Hrun2 as <- <-.
    destruct (Forall2_lookup_l _ _ _ _ _ HF Hi) as ([o'|v|v] & Hai & Hsim); simpl in Hsim; [subst o'|done..].
    assert (i < length (as_calls t))%nat as Hlt by by eapply lookup_lt_Some.
    eexists. split.
    { apply (run_app _ _ [] _ _ _ (run_snoc _ _ [] _ [] _ (run_nil _ _) (atomic_commits t i o Hai Hok))).
      apply (atomic_finish _ i (spec_op o (as_log t)).1 c); [|done]. by apply list_lookup_insert_eq. }
    split; [done|]. simpl. rewrite list_insert_insert_eq.
    apply calls_sim_insert; [by apply calls_sim_stable|done].
  - destruct (Forall2_lookup_l _ _ _ _ _ HF Hi) as (ac & Hai & Hsim).
    destruct (continue_run (ls_store s) (as_log t) c ac Hr Hp Hsim) as (c2 & v & Hrun2 & -> & Hsim2).
    rewrite Hrun in Hrun2. injection Hrun2 as <- ->.
    eexists. split; [by apply (atomic_finish t i v c')|]. split; [done|]. simpl. by apply calls_sim_insert.
Qed.

Lemma log_run_sim h (s : log_state) :
  labelled_run (log_step asserts) log_initial h s →
  ∃ t, labelled_run atomic_step atomic_initial (event_map abs_entry <$> h) t ∧ log_sim s t.
Proof.
  intros Hr. induction Hr as [|h s1 evs s2 _ (t & Ht & Hsim) Hs].
  - exists atomic_initial. split; [constructor|]. split; [apply repr_init|constructor].
  - destruct (log_step_sim s1 s2 evs t Hsim Hs) as (t' & Ht' & Hsim').
    exists t'. split; [|done]. rewrite fmap_app. by eapply run_app.
Qed.

(** The loops, one iteration at a time. *)
Lemma collect_alone iis ret es s s' :
  collect asserts iis s = (Ret es, s') →
  rtc (call_alone asserts) (Collects iis ret, s) (Returned (VEntries (ret ++ es)), s').
Proof.
  revert ret es s. induction iis as [|ii iis IH]; intros ret es s; simpl.
  { intros [= <- <-]. rewrite app_nil_r. apply rtc_once. by constructor. }
  unfold mbind, M_bind. destruct (find_or_assert asserts ii s) as [[e|w|w] s1] eqn:He; [|done..].
  destruct (collect asserts iis s1) as [[rest|w|w] s2] eqn:Hc; [|done..]. intros [= <- <-].
  eapply rtc_l; [|eapply (IH (ret ++ [make_clone e])) in Hc; by rewrite <-app_assoc in Hc].
  constructor. simpl. by rewrite (run_bind _ _ _ _ _ He).
Qed.

Lemma collect_ext_alone hint acc iis ret es s s' :
  collect_ext asserts hint acc iis s = (Ret es, s') →
  rtc (call_alone asserts) (CollectsExt hint acc iis ret, s) (Returned (VEntries (ret ++ es)), s').
Proof.
  revert acc ret es s. induction iis as [|ii iis IH]; intros acc ret es s; simpl.
  { intros [= <- <-]. rewrite app_nil_r. apply rtc_once. by constructor. }
  unfold mbind at 1, M_bind at 1.
  destruct (find_or_assert asserts ii s) as [[e|w|w] s1] eqn:He; [|done..].
  set (acc1 := u64 (acc + Z.of_nat (buf_size (le_buf e)))).
  destruct (negb (hint =? 0) && (u64 hint <=? acc1)) eqn:Hb.
  - intros [= <- <-]. apply rtc_once. constructor. simpl.
    rewrite (run_bind _ _ _ _ _ He). fold acc1. by rewrite Hb.
  - unfold mbind, M_bind. destruct (collect_ext asserts hint acc1 iis s1) as [[rest|w|w] s2] eqn:Hc; [|done..].
    intros [= <- <-].
    eapply rtc_l; [|eapply (IH _ (ret ++ [make_clone e])) in Hc; by rewrite <-app_assoc in Hc].
    constructor. simpl. rewrite (run_bind _ _ _ _ _ He). fold acc1. by rewrite Hb.
Qed.
End log_threads_lemmas.

(** ** Properties *)

Section log_threads_theorems.
Context `{LogLib} `{!LogLibOk} `{MsgTypes}.
Variable asserts : bool.

(** C15: The log store is linearizable.  Whatever threads call, and however their locked
    sections interleave, as long as every call is one NuRaft may make and removes nothing that
    another is still to read: the history of invocations and returns, in the order in which
    they happened, is a history of the list in which each call happens at one moment between
    its invocation and its return, with the results the list gives at that moment.  So a
    call made after another has returned sees it.  The store represents the list at the
    end, a call that has not taken the lock yet has not happened, and every other one has. *)
Theorem log_calls_linearize (h : list (log_event log_entry)) (s : log_state) :
  labelled_run (log_step asserts) log_initial h s →
  ∃ t, labelled_run atomic_step atomic_initial (event_map abs_entry <$> h) t ∧
    repr (ls_store s) (as_log t) ∧
    length (ls_calls s) = length (as_calls t) ∧
    ∀ i c, ls_calls s !! i = Some c →
      match c with
      | Begins o => as_calls t !! i = Some (APending o)
      | Returned v => as_calls t !! i = Some (AReturned (val_map abs_entry v))
      | _ => ∃ v, as_calls t !! i = Some (ADone v)
      end.
Proof.
  intros Hr. destruct (log_run_sim asserts h s Hr) as (t & Ht & Hrep & HF).
  exists t. do 2 (split; [done|]). split; [by eapply Forall2_length|]. intros i c Hi.
  destruct (Forall2_lookup_l _ _ _ _ _ HF Hi) as ([o|v|v] & Hai & Hsim);
    destruct c; simpl in Hsim; try done; subst; eauto.
Qed.


(** A call that nobody interrupts is the operation. *)
Theorem lone_call_is_op (o : log_op) (st st' : inmem_log_store) (v : log_val log_entry) :
  run_op asserts o st = (Ret v, st') →
  rtc (call_alone asserts) (Begins o, st) (Returned v, st').
Proof.
  intros Hrun.
  assert (begin_section asserts o = Returned <$> run_op asserts o →
          rtc (call_alone asserts) (Begins o, st) (Returned v, st')) as Hone.
  { intros Ho. apply rtc_once. constructor. simpl. rewrite Ho. by apply run_fmap. }
  destruct o as [| | | |e|j e|j|j|lo hi|lo hi hint|last]; try (by apply Hone); clear Hone; simpl in Hrun.
  - unfold fmap, M_fmap, mbind, M_bind, last_entry in Hrun. unfold mbind, M_bind in Hrun. simpl in Hrun.
    destruct (last_entry_find (slot_after st) st) as [[e|x|x] s1] eqn:He; [|done..].
    injection Hrun as <- <-. eapply rtc_l; [by constructor|]. apply rtc_once. constructor. simpl.
    exact (run_fmap _ _ _ _ _ He).
  - unfold fmap, M_fmap, mbind, M_bind, log_entries in Hrun.
    destruct (decide (vector_max_size < u64 (hi - lo))) eqn:Hd; [done|].
    destruct (collect asserts _ st) as [[es|x|x] s1] eqn:Hc; [|done..]. injection Hrun as <- <-.
    eapply rtc_l; [constructor; simpl; by rewrite Hd|]. by apply (collect_alone asserts _ []).
  - unfold fmap, M_fmap, mbind, M_bind, log_entries_ext in Hrun.
    destruct (hint <? 0) eqn:Hd.
    { injection Hrun as <- <-. apply rtc_once. constructor. simpl. by rewrite Hd. }
    destruct (collect_ext asserts hint 0 _ st) as [[es|x|x] s1] eqn:Hc; [|done..]. injection Hrun as <- <-.
    eapply rtc_l; [constructor; simpl; by rewrite Hd|]. by apply (collect_ext_alone asserts hint 0 _ []).
Qed.

(** A compaction while a batch is being read: the entry is gone when the reader comes to it,
    and the reader fails its assertion or, without assertions, hands out the dummy entry in
    its place. *)
Theorem compaction_breaks_reader (st : inmem_log_store) (a : alog) (lo hi : Z) :
  repr st a → op_ok (LEntries lo hi) a → lo < hi →
  ∃ st', run_op asserts (LCompact (hi - 1)) st = (Ret VDone, st') ∧
    if asserts
    then (call_section asserts (Collects (seqZ lo (hi - lo)) []) st').1 = Ub "assert(0)"
    else ∃ e, call_section asserts (Collects (seqZ lo (hi - lo)) []) st'
                = (Ret (Collects (seqZ (lo + 1) (hi - lo - 1)) [e]), st') ∧ abs_entry e = adummy.
Proof.
  intros Hr (Hlo & Hhi & _) Hlt. pose proof (repr_low _ _ Hr) as Hlow. pose proof (repr_high _ _ Hr).
  destruct (repr_compact st a (hi - 1) Hr) as (st' & Hc & Hr'); [lia|].
  exists st'. split; [simpl; by rewrite Hc|].
  assert (logs_ st' !! lo = None) as Hnone.
  { eapply (repr_missing _ _ Hr'); [lia|]. apply al_lookup_None. simpl. rewrite decide_True by lia. simpl. lia. }
  rewrite seqZ_cons by lia. simpl. destruct (repr_dummy _ _ Hr') as (e & He & Habs).
  unfold find_or_assert, mbind, M_bind, gets. rewrite Hnone. destruct asserts; [done|]. simpl.
  rewrite He. simpl. exists (make_clone e). by rewrite abs_make_clone.
Qed.
End log_threads_theorems.

(** ** Witnesses *)

Module LogThreadsDemo.
Import Demo LogStoreDemo.

(** A thread appends, another asks for the last entry and is interrupted by a second append. *)
Definition demo_log1 : alog := mkLog 1 [abs_entry (demo_entry 1)].
Definition demo_store1 : inmem_log_store :=
  (run_ops true [LAppend (demo_entry 1)] inmem_log_store_init).2.

Lemma demo_repr1 : repr demo_store1 demo_log1.
Proof.
  destruct (run_ops_refines true _ _ [LAppend (demo_entry 1)] repr_init) as (vs & s' & Hrun & _ & Hr);
    [by vm_compute|]. unfold demo_store1. by rewrite Hrun.
Qed.

Definition demo_asked : log_state :=
  mkLogState demo_store1 [Returned (VNum 1); FoundSlot 2; Begins (LAppend (demo_entry 2))].

Lemma demo_asked_run :
  labelled_run (log_step true) log_initial
    [Invoked 0 (LAppend (demo_entry 1)); Responded 0 (VNum 1); Invoked 1 LLastEntry;
     Invoked 2 (LAppend (demo_entry 2))] demo_asked.
Proof.
  apply (run_snoc _ _ [Invoked 0 (LAppend (demo_entry 1)); Responded 0 (VNum 1); Invoked 1 LLastEntry]
           (mkLogState demo_store1 [Returned (VNum 1); FoundSlot 2])
           [Invoked 2 (LAppend (demo_entry 2))]); [|by constructor].
  apply (run_snoc _ _ [Invoked 0 (LAppend (demo_entry 1)); Responded 0 (VNum 1); Invoked 1 LLastEntry]
           (mkLogState demo_store1 [Returned (VNum 1); Begins LLastEntry]) []).
  2:{ apply (log_begins true (mkLogState demo_store1 [Returned (VNum 1); Begins LLastEntry]) 1 LLastEntry 
             (FoundSlot 2) demo_store1); [done| |by vm_compute].
      exists demo_log1. split; [apply demo_repr1|]. split; [done|]. by repeat constructor. }
  apply (run_snoc _ _ [Invoked 0 (LAppend (demo_entry 1)); Responded 0 (VNum 1)]
           (mkLogState demo_store1 [Returned (VNum 1)]) [Invoked 1 LLastEntry]); [|by constructor].
  apply (run_snoc _ _ [Invoked 0 (LAppend (demo_entry 1))]
           (mkLogState inmem_log_store_init [Begins (LAppend (demo_entry 1))]) [Responded 0 (VNum 1)]).
  { eapply (run_snoc _ _ [] _ [Invoked 0 (LAppend (demo_entry 1))]); by constructor. }
  apply (log_begins true (mkLogState inmem_log_store_init [Begins (LAppend (demo_entry 1))])
           0 (LAppend (demo_entry 1)) (Returned (VNum 1)) demo_store1);
    [done| |by vm_compute].
  exists (mkLog 1 []). split; [apply repr_init|]. split; [done|]. by repeat constructor.
Qed.

Definition demo_answered : log_state :=
  mkLogState demo_store
    [Returned (VNum 1); Returned (VEntry (make_clone (demo_entry 1))); Returned (VNum 2)].

Definition demo_history : list (log_event log_entry) :=
  [Invoked 0 (LAppend (demo_entry 1)); Responded 0 (VNum 1); Invoked 1 LLastEntry;
   Invoked 2 (LAppend (demo_entry 2)); Responded 2 (VNum 2);
   Responded 1 (VEntry (make_clone (demo_entry 1)))].

Lemma demo_answered_run : labelled_run (log_step true) log_initial demo_history demo_answered.
Proof.
  apply (run_app _ _ _ _ [Responded 2 (VNum 2); Responded 1 (VEntry (make_clone (demo_entry 1)))]
           _ demo_asked_run).
  apply (run_snoc _ _ [Responded 2 (VNum 2)]
           (mkLogState demo_store [Returned (VNum 1); FoundSlot 2; Returned (VNum 2)])
           [Responded 1 (VEntry (make_clone (demo_entry 1)))]).
  2:{ by apply (log_continues true
                  (mkLogState demo_store [Returned (VNum 1); FoundSlot 2; Returned (VNum 2)]) 1 (FoundSlot 2)
                  (Returned (VEntry (make_clone (demo_entry 1))))
                  demo_store); [..|vm_compute]. }
  eapply (run_snoc _ _ [] _ [Responded 2 (VNum 2)]); [constructor|].
  apply (log_begins true demo_asked 2 (LAppend (demo_entry 2)) (Returned (VNum 2)) demo_store);
    [done| |by vm_compute].
  exists demo_log1. split; [apply demo_repr1|]. split; [done|]. by repeat constructor.
Qed.

Lemma log_calls_linearize_witness :
  ∃ t, labelled_run atomic_step atomic_initial (event_map abs_entry <$> demo_history) t ∧
       repr demo_store (as_log t) ∧
       as_calls t !! 1%nat = Some (AReturned (VEntry (abs_entry (demo_entry 1)))).
Proof.
  destruct (log_calls_linearize true demo_history demo_answered demo_answered_run)
    as (t & Ht & Hr & _ & Hc).
  exists t. split; [done|]. split; [done|].
  exact (Hc 1%nat (Returned (VEntry (make_clone (demo_entry 1)))) eq_refl).
Defined.


Lemma lone_call_is_op_witness :
  rtc (call_alone true) (Begins (LEntries 1 3), demo_store)
    (Returned (VEntries [make_clone (make_clone (demo_entry 1)); make_clone (make_clone (demo_entry 2))]),
     demo_store).
Proof. apply (lone_call_is_op true (LEntries 1 3)). by vm_compute. Defined.

Lemma compaction_breaks_reader_witness :
  ∃ st', run_op true (LCompact 2) demo_store = (Ret VDone, st') ∧
         (call_section true (Collects (seqZ 1 2) []) st').1 = Ub "assert(0)".
Proof.
  apply (compaction_breaks_reader true demo_store demo_list 1 3 demo_repr); [|lia].
  by vm_compute.
Defined.
End LogThreadsDemo.
