(* ===== verification/StateManager.v ===== *)
(** * The example's state manager

    [simple_state_mgr] of [test_package/example_state_manager.cpp] keeps a group's
    configuration and vote in JSON files, one directory per group and server, and makes
    its log store and state machine; the state machine is [echo_state_machine] of
    [test_package/example_state_machine.h].  The JSON library is an interface ([JsonLib])
    with the laws it documents ([JsonLaws]); the file system is a map from names to
    contents, with the files that can be opened for writing as a parameter. *)

From stdpp Require Import base gmap strings list numbers pretty.
From Stdlib Require Import Strings.Byte Strings.Ascii.
From S2P Require Import Prelude Types LogStore.
Local Open Scope Z_scope.

(** [nlohmann::json]: values built from integers, strings, booleans, arrays and initializer
    lists of pairs; [operator[]] on a constant and on a mutable value; the conversions
    [static_cast]s and argument conversions use; the elements a range-based loop visits;
    [operator<<], whose text may be cut short by an exception ([false]); and [operator>>]
    ([None] is a [parse_error]). *)
Class JsonLib : Type := {
  json : Type;
  j_null : json;
  j_int : Z → json;
  j_str : string → json;
  j_bool : bool → json;
  j_array : list json → json;
  j_object : list (string * json) → json;
  j_is_object : json → bool;
  j_at_const : json → string → outcome json;
  j_at : json → string → outcome json;
  j_to_i32 : json → outcome Z;
  j_to_u64 : json → outcome Z;
  j_to_str : json → outcome string;
  j_to_bool : json → outcome bool;
  j_elems : json → list json;
  j_dump : json → string * bool;
  j_parse : string → option json;
}.

(** What the library documents. *)
Class JsonLaws `{JsonLib} : Prop := {
  is_object_object kvs : j_is_object (j_object kvs) = true;
  at_const_object kvs k v :
    NoDup kvs.*1 → (k, v) ∈ kvs → j_at_const (j_object kvs) k = Ret v;
  at_object kvs k v : NoDup kvs.*1 → (k, v) ∈ kvs → j_at (j_object kvs) k = Ret v;
  at_missing kvs k : k ∉ kvs.*1 → j_at (j_object kvs) k = Ret j_null;
  to_i32_int z : j_to_i32 (j_int z) = Ret (i32 z);
  to_u64_int z : j_to_u64 (j_int z) = Ret (u64 z);
  to_u64_null : j_to_u64 j_null = Throw "nlohmann::json::type_error";
  to_str_str s : j_to_str (j_str s) = Ret s;
  to_bool_bool b : j_to_bool (j_bool b) = Ret b;
  elems_array js : j_elems (j_array js) = js;
  parse_dump j : (j_dump j).2 = true → j_parse (j_dump j).1 = Some j;
}.

(** NuRaft's [cluster_config] and [srv_state]. *)
Record cluster_config := mkCluster {
  cc_log_idx : Z;
  cc_prev_log_idx : Z;
  cc_async : bool;
  cc_user_ctx : string;
  cc_servers : list srv_config;
}.

Record srv_state := mkSrvState { st_term : Z; st_voted_for : Z }.

(** [srv_config(id, endpoint)] and the value-initialised [srv_state()] and
    [cluster_config()]. *)
Class NuraftDefaults : Type := {
  new_srv_config : Z → string → srv_config;
  srv_state_init : srv_state;
  cluster_config_init : cluster_config;
}.

(** [srv_config(id, endpoint)] keeps its arguments. *)
Class NuraftDefaultsOk `{NuraftDefaults} : Prop := {
  new_srv_config_id id ep : sc_id (new_srv_config id ep) = id;
  new_srv_config_endpoint id ep : sc_endpoint (new_srv_config id ep) = ep;
}.

Record simple_state_mgr := mkMgr {
  _srv_id : Z;
  _srv_addr : string;
  _group_id : string;
}.

(** The files and their contents. *)
Abbreviation files := (gmap string string).

(** [std::error_condition]; [None] is success. *)
Inductive errc := no_such_file_or_directory | invalid_argument.

Section state_mgr.
Context `{UuidOps} `{JsonLib} `{NuraftDefaults}.

(** Whether an output stream can be opened: its directory exists and may be written. *)
Variable writable : string → bool.

Abbreviation FS := (M files).

(** A value of the JSON library as a step that leaves the files alone. *)
Definition lift {A : Type} (o : outcome A) : FS A := λ s, (o, s).

Definition simple_state_mgr_new (srv_id : Z) (srv_addr group_id : uuid) : simple_state_mgr :=
  mkMgr srv_id (uuid_to_string srv_addr) (uuid_to_string group_id).

Definition config_file (m : simple_state_mgr) : string :=
  _group_id m +:+ "_s" +:+ pretty (_srv_id m) +:+ "/config.json".

Definition state_file (m : simple_state_mgr) : string :=
  _group_id m +:+ "_s" +:+ pretty (_srv_id m) +:+ "/state.json".

(** Success carries the object read. *)
Definition jsonObjectFromFile (filename : string) : FS (errc + json) :=
  fs ← getS;
  match fs !! filename with
  | None => mret (inl no_such_file_or_directory)
  | Some txt =>
      match j_parse txt with
      | None => throw "nlohmann::json::parse_error"
      | Some j => if j_is_object j then mret (inr j) else mret (inl invalid_argument)
      end
  end.

Definition loadConfigFile (m : simple_state_mgr) : FS (errc + json) :=
  jsonObjectFromFile (config_file m).

Definition loadStateFile (m : simple_state_mgr) : FS (errc + json) :=
  jsonObjectFromFile (state_file m).

Definition fromServer (server : json) : FS srv_config :=
  id ← lift (j_at_const server "id"); id ← lift (j_to_i32 id);
  dc_id ← lift (j_at_const server "dc_id"); dc_id ← lift (j_to_i32 dc_id);
  endpoint ← lift (j_at_const server "endpoint");
  aux ← lift (j_at_const server "aux");
  learner ← lift (j_at_const server "learner");
  prior ← lift (j_at_const server "priority"); prior ← lift (j_to_i32 prior);
  endpoint ← lift (j_to_str endpoint);
  aux ← lift (j_to_str aux);
  learner ← lift (j_to_bool learner);
  mret (mkSrvConfig id dc_id endpoint aux learner prior false).

Fixpoint fromServers (servers : list json) : FS (list srv_config) :=
  match servers with
  | [] => mret []
  | server_conf :: servers' =>
      s ← fromServer server_conf; ss ← fromServers servers'; mret (s :: ss)
  end.

Definition toServer (c : srv_config) : json :=
  j_object [("id", j_int (sc_id c)); ("dc_id", j_int (sc_dc_id c));
            ("endpoint", j_str (sc_endpoint c)); ("aux", j_str (sc_aux c));
            ("learner", j_bool (sc_learner c)); ("priority", j_int (sc_priority c))]%string.

Definition toServers (server_list : list srv_config) : json := j_array (toServer <$> server_list).

Definition fromClusterConfig (c : json) : FS cluster_config :=
  log_idx ← lift (j_at_const c "log_idx");
  prev_log_idx ← lift (j_at_const c "prev_log_idx");
  eventual ← lift (j_at_const c "eventual_consistency");
  log_idx ← lift (j_to_u64 log_idx);
  prev_log_idx ← lift (j_to_u64 prev_log_idx);
  eventual ← lift (j_to_bool eventual);
  servers ← lift (j_at_const c "servers");
  ss ← fromServers (j_elems servers);
  mret (mkCluster log_idx prev_log_idx eventual EmptyString ss).

Definition load_config (m : simple_state_mgr) : FS cluster_config :=
  r ← loadConfigFile m;
  match r with
  | inr config_map => fromClusterConfig config_map
  | inl _ =>
      let conf := cluster_config_init in
      mret (mkCluster (cc_log_idx conf) (cc_prev_log_idx conf) (cc_async conf)
              (cc_user_ctx conf) (cc_servers conf ++ [new_srv_config (_srv_id m) (_srv_addr m)]))
  end.

(** [try { m } catch (std::out_of_range& e) { h }]: other exceptions pass. *)
Definition catch_out_of_range {A : Type} (m h : FS A) : FS A := λ s,
  match m s with
  | (Throw e, s') => if String.eqb e "std::out_of_range" then h s' else (Throw e, s')
  | r => r
  end.

(** [state] keeps its term when reading the vote fails. *)
Definition read_state (m : simple_state_mgr) : FS srv_state :=
  r ← loadStateFile m;
  match r with
  | inr state_map =>
      term ← catch_out_of_range
               (v ← lift (j_at state_map "term"); Some <$> lift (j_to_u64 v)) (mret None);
      match term with
      | None => mret srv_state_init
      | Some term =>
          catch_out_of_range
            (v ← lift (j_at state_map "voted_for");
             mkSrvState term <$> lift (j_to_i32 v))
            (mret (mkSrvState term (st_voted_for srv_state_init)))
      end
  | inl _ => mret srv_state_init
  end.

(** Opening a stream truncates its file; a failed [operator<<] leaves what it has written,
    and its exception is caught and logged. *)
Definition write_json (filename : string) (j : json) : FS unit :=
  if writable filename then modify (<[filename := (j_dump j).1]>) else mret tt.

Definition config_json (config : cluster_config) : json :=
  j_object [("log_idx", j_int (cc_log_idx config));
            ("prev_log_idx", j_int (cc_prev_log_idx config));
            ("eventual_consistency", j_bool (cc_async config));
            ("user_ctx", j_str (cc_user_ctx config));
            ("servers", toServers (cc_servers config))]%string.

Definition save_config (m : simple_state_mgr) (config : cluster_config) : FS unit :=
  write_json (config_file m) (config_json config).

Definition state_json (state : srv_state) : json :=
  j_object [("term", j_int (st_term state)); ("voted_for", j_int (st_voted_for state))]%string.

Definition save_state (m : simple_state_mgr) (state : srv_state) : FS unit :=
  write_json (state_file m) (state_json state).

Definition server_id (m : simple_state_mgr) : Z := _srv_id m.
Definition get_logstore_id (m : simple_state_mgr) : Z := 0.
Definition permanent_destroy (m : simple_state_mgr) : FS unit := mret tt.
Definition leave (m : simple_state_mgr) : FS unit := mret tt.
End state_mgr.

(** ** The state machine *)

(** [last_commit_idx_], and the lines it has logged. *)
Record echo_state_machine := mkEcho {
  last_commit_idx_ : Z;
  echoed : list (Z * list byte);
}.

Definition echo_init : echo_state_machine := mkEcho 0 [].

(** The C string at the front of some memory; [None] runs past its end. *)
Fixpoint c_string (bs : list byte) : option (list byte) :=
  match bs with
  | [] => None
  | b :: bs' => if Byte.eqb b "000"%byte then Some [] else (b ::.) <$> c_string bs'
  end.

Section echo.
(** Whether the logger prints messages of the level [info]. *)
Variable info : bool.

Abbreviation SMm := (M echo_state_machine).

(** [LOGINFO(.., log_idx, reinterpret_cast< const char* >(data.data()))] *)
Definition echo_line (log_idx : Z) (data : buffer) : SMm unit :=
  if info then
    txt ← deref "end of buffer" (c_string (drop (buf_pos data) (buf_bytes data)));
    modify (λ s, mkEcho (last_commit_idx_ s) (echoed s ++ [(log_idx, txt)]))
  else mret tt.

Definition commit (log_idx : Z) (data : buffer) : SMm (option buffer) :=
  echo_line log_idx data;;
  modify (λ s, mkEcho log_idx (echoed s));;
  mret None.

Definition pre_commit (log_idx : Z) (data : buffer) : SMm (option buffer) :=
  echo_line log_idx data;; mret None.

Definition rollback (log_idx : Z) (data : buffer) : SMm unit := echo_line log_idx data.

Definition last_commit_index : SMm Z := gets last_commit_idx_.
Definition apply_snapshot : SMm bool := mret true.
Definition read_snapshot_data : SMm Z := mret 0.
End echo.

(** The parts a state manager makes for NuRaft. *)
Definition load_log_store `{LogLib} `{MsgTypes} (m : simple_state_mgr) : inmem_log_store :=
  inmem_log_store_init.
Definition get_state_machine (m : simple_state_mgr) : echo_state_machine := echo_init.

(** What a saved configuration comes back as: its user context and the new-joiner flags of
    its servers are not restored. *)
Definition forget_joiner (c : srv_config) : srv_config :=
  mkSrvConfig (sc_id c) (sc_dc_id c) (sc_endpoint c) (sc_aux c) (sc_learner c)
    (sc_priority c) false.

Definition restored (c : cluster_config) : cluster_config :=
  mkCluster (cc_log_idx c) (cc_prev_log_idx c) (cc_async c) EmptyString
    (forget_joiner <$> cc_servers c).

Definition wf_srv (c : srv_config) : Prop :=
  in_i32 (sc_id c) ∧ in_i32 (sc_dc_id c) ∧ in_i32 (sc_priority c).

Definition wf_cluster (c : cluster_config) : Prop :=
  in_u64 (cc_log_idx c) ∧ in_u64 (cc_prev_log_idx c) ∧ Forall wf_srv (cc_servers c).

(** A computation that neither reads nor writes files. *)
Definition stateless {A : Type} (m : M files A) : Prop := ∃ o, ∀ fs, m fs = (o, fs).

(** ** Lemmas *)

Section state_mgr_lemmas.
Context `{UuidOps} `{!UuidLaws} `{JsonLib} `{!JsonLaws} `{NuraftDefaults}.
Variable writable : string → bool.
Implicit Types (m : simple_state_mgr) (fs : files).

(** Looking up a field of a literal object. *)
Ltac json_field :=
  match goal with
  | |- context [j_at_const (j_object ?l) ?k] =>
      erewrite (at_const_object l k) by
        first [ apply (bool_decide_unpack _); by vm_compute
              | repeat first [ apply list_elem_of_here | apply list_elem_of_further ] ]
  | |- context [j_at (j_object ?l) ?k] =>
      erewrite (at_object l k) by
        first [ apply (bool_decide_unpack _); by vm_compute
              | repeat first [ apply list_elem_of_here | apply list_elem_of_further ] ]
  end.

Lemma fromServer_toServer c fs :
  wf_srv c → fromServer (toServer c) fs = (Ret (forget_joiner c), fs).
Proof.
  intros (Hid & Hdc & Hp). unfold fromServer, toServer, mbind, M_bind, lift.
  repeat (json_field; cbn beta iota). simpl.
  rewrite ?to_i32_int, ?to_str_str, ?to_bool_bool. by rewrite !i32_id.
Qed.

Lemma fromServers_toServers cs fs :
  Forall wf_srv cs → fromServers (toServer <$> cs) fs = (Ret (forget_joiner <$> cs), fs).
Proof.
  induction 1 as [|c cs Hc _ IH]; [done|]. rewrite !fmap_cons. simpl fromServers.
  rewrite (run_bind _ _ _ _ _ (fromServer_toServer c fs Hc)).
  by rewrite (run_bind _ _ _ _ _ IH).
Qed.

Lemma fromClusterConfig_json c fs :
  wf_cluster c → fromClusterConfig (config_json c) fs = (Ret (restored c), fs).
Proof.
  intros (Hl & Hp & Hs). unfold fromClusterConfig, config_json, lift.
  unfold mbind at 1 2 3 4 5 6 7, M_bind at 1 2 3 4 5 6 7.
  repeat (json_field; cbn beta iota).
  rewrite !to_u64_int, !u64_id, to_bool_bool by done. cbn beta iota.
  unfold toServers. rewrite elems_array.
  by rewrite (run_bind _ _ _ _ _ (fromServers_toServers _ fs Hs)).
Qed.

(** A file that was written completely reads back. *)
Lemma read_written filename kvs fs :
  writable filename = true → (j_dump (j_object kvs)).2 = true →
  ∃ fs', write_json writable filename (j_object kvs) fs = (Ret tt, fs') ∧
         jsonObjectFromFile filename fs' = (Ret (inr (j_object kvs)), fs') ∧
         ∀ f, f ≠ filename → fs' !! f = fs !! f.
Proof.
  intros Hw Hd. unfold write_json. rewrite Hw. eexists. split; [done|]. split.
  - unfold jsonObjectFromFile, mbind, M_bind, getS. rewrite lookup_insert_eq.
    by rewrite parse_dump, is_object_object.
  - intros f Hf. by rewrite lookup_insert_ne.
Qed.

Lemma write_json_only filename j fs :
  ∃ fs', write_json writable filename j fs = (Ret tt, fs') ∧
         ∀ f, f ≠ filename → fs' !! f = fs !! f.
Proof.
  unfold write_json. destruct (writable filename); [|by exists fs].
  eexists. split; [done|]. intros f Hf. by rewrite lookup_insert_ne.
Qed.

(** Readers depend on their own file only. *)
Lemma jsonObjectFromFile_ext filename fs fs' :
  fs !! filename = fs' !! filename →
  (jsonObjectFromFile filename fs).1 = (jsonObjectFromFile filename fs').1.
Proof.
  unfold jsonObjectFromFile, mbind, M_bind, getS. intros ->.
  destruct (fs' !! filename); [|done]. destruct (j_parse s); [|done].
  by destruct (j_is_object j).
Qed.

Lemma stateless_lift {A : Type} (o : outcome A) : stateless (lift o).
Proof. by exists o. Qed.

Lemma stateless_ret {A : Type} (a : A) : stateless (mret a).
Proof. by exists (Ret a). Qed.

Lemma stateless_bind {A B : Type} (m : M files A) (k : A → M files B) :
  stateless m → (∀ a, stateless (k a)) → stateless (m ≫= k).
Proof.
  intros [[a|e|e] Hm] Hk.
  - destruct (Hk a) as [o Ho]. exists o. intros fs. by rewrite (run_bind _ _ _ _ _ (Hm fs)).
  - exists (Throw e). intros fs. unfold mbind, M_bind. by rewrite Hm.
  - exists (Ub e). intros fs. unfold mbind, M_bind. by rewrite Hm.
Qed.

Lemma stateless_fmap {A B : Type} (f : A → B) (m : M files A) : stateless m → stateless (f <$> m).
Proof. intros Hm. apply stateless_bind; [done|]. intros a. apply stateless_ret. Qed.

Lemma stateless_catch {A : Type} (m h : M files A) :
  stateless m → stateless h → stateless (catch_out_of_range m h).
Proof.
  intros [[a|e|e] Hm] [o Ho].
  - exists (Ret a). intros fs. unfold catch_out_of_range. by rewrite Hm.
  - destruct (String.eqb e "std::out_of_range") eqn:E.
    + exists o. intros fs. unfold catch_out_of_range. by rewrite Hm, E, Ho.
    + exists (Throw e). intros fs. unfold catch_out_of_range. by rewrite Hm, E.
  - exists (Ub e). intros fs. unfold catch_out_of_range. by rewrite Hm.
Qed.

Ltac stateless :=
  repeat first [ apply stateless_lift | apply stateless_ret | apply stateless_fmap
               | apply stateless_catch | apply stateless_bind; [|intros ?]
               | match goal with |- stateless (match ?x with _ => _ end) => destruct x end ].

Lemma stateless_fromServers js : stateless (fromServers js).
Proof. induction js as [|j js IH]; simpl; unfold fromServer; stateless; exact IH. Qed.

Lemma stateless_fromClusterConfig j : stateless (fromClusterConfig j).
Proof. unfold fromClusterConfig. stateless. apply stateless_fromServers. Qed.

(** A reader of one file that is stateless after it. *)
Lemma reader_ext {A : Type} filename (k : errc + json → M files A) fs fs' :
  (∀ r, stateless (k r)) → fs !! filename = fs' !! filename →
  ((jsonObjectFromFile filename ≫= k) fs).1 = ((jsonObjectFromFile filename ≫= k) fs').1.
Proof.
  intros Hk Hf. unfold jsonObjectFromFile, mbind, M_bind, getS. rewrite Hf.
  destruct (fs' !! filename) as [txt|]; [destruct (j_parse txt) as [j|]; [|done]|].
  - destruct (j_is_object j); simpl; [destruct (Hk (inr j)) as [o Ho]
      |destruct (Hk (inl invalid_argument)) as [o Ho]]; by rewrite !Ho.
  - destruct (Hk (inl no_such_file_or_directory)) as [o Ho]. simpl. by rewrite !Ho.
Qed.

Lemma load_config_ext m fs fs' :
  fs !! config_file m = fs' !! config_file m → (load_config m fs).1 = (load_config m fs').1.
Proof.
  apply (reader_ext (config_file m)). intros [e|j]; [stateless|].
  apply stateless_fromClusterConfig.
Qed.

Lemma read_state_ext m fs fs' :
  fs !! state_file m = fs' !! state_file m → (read_state m fs).1 = (read_state m fs').1.
Proof. apply (reader_ext (state_file m)). intros [e|j]; stateless. Qed.

(** The names of two managers' files. *)
Lemma file_names_inj (s1 s2 : Z) (g1 g2 : uuid) x y :
  uuid_to_string g1 +:+ "_s" +:+ pretty s1 +:+ x = uuid_to_string g2 +:+ "_s" +:+ pretty s2 +:+ y →
  String.length x = String.length y → s1 = s2 ∧ g1 = g2 ∧ x = y.
Proof.
  intros E Hlen. apply string_app_inj_l in E as [Hg E]; [|by rewrite !to_string_length].
  apply uuid_to_string_inj in Hg. apply string_app_inj_l in E as [_ E]; [|done].
  apply string_app_inj_len in E as [Hs ->]; [|done]. by apply (inj pretty) in Hs.
Qed.

Lemma config_state_files a1 a2 g1 g2 s1 s2 :
  config_file (simple_state_mgr_new s1 a1 g1) ≠ state_file (simple_state_mgr_new s2 a2 g2).
Proof.
  unfold config_file, state_file. simpl. intros E.
  apply string_app_inj_l in E as [_ E]; [|by rewrite !to_string_length].
  apply string_app_inj_l in E as [_ E]; [|done].
  assert (∀ p : string, p +:+ "/config.json" = (p +:+ "/c") +:+ "onfig.json") as Hc
    by (intros p; by rewrite <- string_app_assoc).
  assert (∀ p : string, p +:+ "/state.json" = (p +:+ "/") +:+ "state.json") as Hs
    by (intros p; by rewrite <- string_app_assoc).
  rewrite Hc, Hs in E. by apply string_app_inj_len in E as [_ E].
Qed.

Lemma c_string_terminated txt rest :
  "000"%byte ∉ txt → c_string (txt ++ "000"%byte :: rest) = Some txt.
Proof.
  induction txt as [|b txt IH]; simpl; intros Hn; [done|].
  apply not_elem_of_cons in Hn as [Hb Hn].
  destruct (Byte.eqb b "000"%byte) eqn:E; [apply byte_dec_bl in E; congruence|].
  by rewrite IH.
Qed.

Lemma c_string_unterminated bs : "000"%byte ∉ bs → c_string bs = None.
Proof.
  induction bs as [|b bs IH]; simpl; intros Hn; [done|].
  apply not_elem_of_cons in Hn as [Hb Hn].
  destruct (Byte.eqb b "000"%byte) eqn:E; [apply byte_dec_bl in E; congruence|].
  by rewrite IH.
Qed.
End state_mgr_lemmas.

(** ** Theorems *)

Section state_mgr_theorems.
Context `{UuidOps} `{!UuidLaws} `{JsonLib} `{!JsonLaws} `{NuraftDefaults}.
Variable writable : string → bool.

(** C31: A configuration that was saved is loaded again, with every server in its order, up to
    what the file does not restore: the user context, which is written and never read,
    and the new-joiner flags. *)
Theorem config_survives_restart (m : simple_state_mgr) (c : cluster_config) (fs : files) :
  wf_cluster c → writable (config_file m) = true → (j_dump (config_json c)).2 = true →
  ∃ fs', save_config writable m c fs = (Ret tt, fs') ∧
         load_config m fs' = (Ret (restored c), fs').
Proof.
  intros Hwf Hw Hd. destruct (read_written writable (config_file m) _ fs Hw Hd)
    as (fs' & Hs & Hr & _).
  exists fs'. split; [exact Hs|]. unfold load_config, loadConfigFile.
  rewrite (run_bind _ _ _ _ _ Hr). by apply fromClusterConfig_json.
Qed.

(** A term and vote that were saved are read again. *)
Theorem state_survives_restart (m : simple_state_mgr) (st : srv_state) (fs : files) :
  in_u64 (st_term st) → in_i32 (st_voted_for st) →
  writable (state_file m) = true → (j_dump (state_json st)).2 = true →
  ∃ fs', save_state writable m st fs = (Ret tt, fs') ∧ read_state m fs' = (Ret st, fs').
Proof.
  intros Ht Hv Hw Hd. destruct (read_written writable (state_file m) _ fs Hw Hd)
    as (fs' & Hs & Hr & _).
  exists fs'. split; [exact Hs|]. unfold read_state, loadStateFile.
  rewrite (run_bind _ _ _ _ _ Hr). unfold catch_out_of_range, lift, fmap, M_fmap, mbind, M_bind.
  erewrite (at_object _ "term") by
    first [ apply (bool_decide_unpack _); by vm_compute | apply list_elem_of_here ].
  rewrite to_u64_int. simpl.
  erewrite (at_object _ "voted_for") by
    first [ apply (bool_decide_unpack _); by vm_compute
          | apply list_elem_of_further, list_elem_of_here ].
  rewrite to_i32_int. simpl. rewrite u64_id, i32_id by done. by destruct st.
Qed.

(** Managers of different groups or servers use different files, and a manager keeps its
    configuration apart from its vote: saving for one changes nothing another reads. *)
Theorem saves_do_not_interfere (s1 s2 : Z) (a1 a2 g1 g2 : uuid) (c : cluster_config)
    (st : srv_state) (fs : files) :
  let m1 := simple_state_mgr_new s1 a1 g1 in
  let m2 := simple_state_mgr_new s2 a2 g2 in
  let fsc := (save_config writable m1 c fs).2 in
  let fss := (save_state writable m1 st fs).2 in
  (read_state m2 fsc).1 = (read_state m2 fs).1 ∧
  (load_config m2 fss).1 = (load_config m2 fs).1 ∧
  ((s1, g1) ≠ (s2, g2) →
   (load_config m2 fsc).1 = (load_config m2 fs).1 ∧
   (read_state m2 fss).1 = (read_state m2 fs).1).
Proof.
  intros m1 m2 fsc fss.
  destruct (write_json_only writable (config_file m1) (config_json c) fs) as (fs1 & E1 & Hc).
  destruct (write_json_only writable (state_file m1) (state_json st) fs) as (fs2 & E2 & Hs).
  unfold fsc, fss, save_config, save_state. rewrite E1, E2. simpl.
  split_and!; [apply read_state_ext, Hc, not_eq_sym, config_state_files
              |apply load_config_ext, Hs, config_state_files|].
  intros Hne. split; [apply load_config_ext, Hc|apply read_state_ext, Hs];
    intros E; apply Hne; apply (file_names_inj s2 s1 g2 g1) in E as (Es & Eg & _);
    done || congruence.
Qed.

(** When the files' directory does not exist, saving does nothing and reports nothing: after
    a restart the server has the default term and vote, and a configuration with itself
    as the only member. *)
Theorem unwritable_saves_are_lost (m : simple_state_mgr) (c : cluster_config) (st : srv_state)
    (fs : files) :
  writable (config_file m) = false → writable (state_file m) = false →
  fs !! config_file m = None → fs !! state_file m = None →
  save_config writable m c fs = (Ret tt, fs) ∧ save_state writable m st fs = (Ret tt, fs) ∧
  read_state m fs = (Ret srv_state_init, fs) ∧
  ∃ c', load_config m fs = (Ret c', fs) ∧
        cc_servers c' = cc_servers cluster_config_init ++ [new_srv_config (_srv_id m) (_srv_addr m)].
Proof.
  intros Hwc Hws Hc Hs. unfold save_config, save_state, write_json. rewrite Hwc, Hws.
  unfold read_state, load_config, loadStateFile, loadConfigFile, jsonObjectFromFile.
  unfold mbind, M_bind, getS. rewrite Hc, Hs. split_and!; [done..|]. by eexists.
Qed.

(** A configuration that cannot be printed (its user context is not valid text) overwrites
    the saved one: the failure is caught and logged, the file keeps the text printed so
    far, and the next [load_config] ends in an uncaught exception. *)
Theorem failed_save_corrupts_config (m : simple_state_mgr) (c : cluster_config) (fs : files) :
  writable (config_file m) = true →
  (j_dump (config_json c)).2 = false → j_parse (j_dump (config_json c)).1 = None →
  ∃ fs', save_config writable m c fs = (Ret tt, fs') ∧
         load_config m fs' = (Throw "nlohmann::json::parse_error", fs').
Proof.
  intros Hw Hd Hp. unfold save_config, write_json. rewrite Hw. eexists. split; [done|].
  unfold load_config, loadConfigFile, jsonObjectFromFile, mbind, M_bind, getS.
  by rewrite lookup_insert_eq, Hp.
Qed.

(** A state file without a term is not handled: the JSON library's exception is no
    [std::out_of_range], so the handler that should log and go on never runs. *)
Theorem malformed_state_throws (m : simple_state_mgr) kvs (fs : files) (txt : string) :
  fs !! state_file m = Some txt → j_parse txt = Some (j_object kvs) → "term"%string ∉ kvs.*1 →
  read_state m fs = (Throw "nlohmann::json::type_error", fs).
Proof.
  intros Hf Hp Hk.
  unfold read_state, loadStateFile, jsonObjectFromFile, mbind, M_bind, getS.
  rewrite Hf, Hp, is_object_object. unfold catch_out_of_range, lift, fmap, M_fmap, mbind, M_bind.
  simpl. by rewrite at_missing, to_u64_null.
Qed.
End state_mgr_theorems.

Section echo_theorems.

(** Committing a message logs it up to its terminator and moves the commit index.  Data
    without a terminator, which any client may append, is read past its end. *)
Theorem commit_echoes (log_idx : Z) (txt rest : list byte) (s : echo_state_machine) :
  ("000"%byte ∉ txt →
   ∃ s', commit true log_idx (buf_alloc (txt ++ "000"%byte :: rest)) s = (Ret None, s') ∧
         last_commit_idx_ s' = log_idx ∧ echoed s' = echoed s ++ [(log_idx, txt)]) ∧
  ("000"%byte ∉ txt → ∃ w, commit true log_idx (buf_alloc txt) s = (Ub w, s)) ∧
  ∃ s', commit false log_idx (buf_alloc txt) s = (Ret None, s') ∧
        last_commit_idx_ s' = log_idx ∧ echoed s' = echoed s.
Proof.
  unfold commit, echo_line, mbind, M_bind. simpl. rewrite !drop_0. split_and!.
  - intros Hn. rewrite c_string_terminated by done. simpl. eauto.
  - intros Hn. rewrite c_string_unterminated by done. simpl. eauto.
  - eexists. split; [done|]. done.
Qed.
End echo_theorems.

(** ** A concrete instance

    JSON values as trees, printed as the bits of their number; text with bytes beyond
    ASCII cannot be printed. *)

Module StateManagerDemo.
Import Demo.

Abbreviation tree := (gen_tree (Z + string)).

Definition tree_object (kvs : list (string * tree)) : tree :=
  GenNode 5 ((λ kv, GenNode 6 [GenLeaf (inr kv.1); kv.2]) <$> kvs).

Definition tree_find (k : string) (t : tree) : option tree :=
  match t with
  | GenNode 6 [GenLeaf (inr k'); v] => if decide (k = k') then Some v else None
  | _ => None
  end.

Definition tree_at (missing : outcome tree) (t : tree) (k : string) : outcome tree :=
  match t with
  | GenNode 5 ts => from_option Ret missing (head (omap (tree_find k) ts))
  | _ => Throw "nlohmann::json::type_error"
  end.

Definition ascii_text (s : string) : bool :=
  forallb (λ c, N.ltb (Ascii.N_of_ascii c) 128) (String.list_ascii_of_string s).

Fixpoint printable (t : tree) : bool :=
  match t with
  | GenLeaf (inl _) => true
  | GenLeaf (inr s) => ascii_text s
  | GenNode _ ts => forallb printable ts
  end.

Fixpoint print_bits (p : positive) : string :=
  match p with
  | xH => EmptyString
  | xO p' => String "0"%char (print_bits p')
  | xI p' => String "1"%char (print_bits p')
  end.

Fixpoint parse_bits (s : string) : option positive :=
  match s with
  | EmptyString => Some xH
  | String c s' =>
      if Ascii.eqb c "0"%char then xO <$> parse_bits s'
      else if Ascii.eqb c "1"%char then xI <$> parse_bits s' else None
  end.

Lemma parse_print_bits p : parse_bits (print_bits p) = Some p.
Proof. induction p as [p IH|p IH|]; simpl; [by rewrite IH..|done]. Qed.

#[export] Instance demo_json : JsonLib := {|
  json := tree;
  j_null := GenNode 0 [];
  j_int z := GenLeaf (inl z);
  j_str s := GenLeaf (inr s);
  j_bool b := GenNode (if b then 2 else 1) [];
  j_array js := GenNode 4 js;
  j_object := tree_object;
  j_is_object t := match t with GenNode 5 _ => true | _ => false end;
  j_at_const := tree_at (Ub "missing key");
  j_at := tree_at (Ret (GenNode 0 []));
  j_to_i32 t := match t with
                | GenLeaf (inl z) => Ret (i32 z)
                | _ => Throw "nlohmann::json::type_error"
                end;
  j_to_u64 t := match t with
                | GenLeaf (inl z) => Ret (u64 z)
                | _ => Throw "nlohmann::json::type_error"
                end;
  j_to_str t := match t with
                | GenLeaf (inr s) => Ret s
                | _ => Throw "nlohmann::json::type_error"
                end;
  j_to_bool t := match t with
                 | GenNode 1 _ => Ret false
                 | GenNode 2 _ => Ret true
                 | _ => Throw "nlohmann::json::type_error"
                 end;
  j_elems t := match t with GenNode 4 js => js | _ => [] end;
  j_dump t := if printable t then (print_bits (encode t), true) else ("{"%string, false);
  j_parse s := parse_bits s ≫= decode;
|}.

Lemma tree_find_here (k : string) (v : tree) kvs :
  NoDup kvs.*1 → (k, v) ∈ kvs →
  head (omap (tree_find k) ((λ kv, GenNode 6 [GenLeaf (inr kv.1); kv.2]) <$> kvs)) = Some v.
Proof.
  induction kvs as [|[k' v'] kvs IH]; intros Hnd Hin; [by apply elem_of_nil in Hin|].
  apply NoDup_cons in Hnd as [Hk Hnd]. csimpl. case_decide as Heq; [subst k'|].
  - apply elem_of_cons in Hin as [[= ->]|Hin]; [done|].
    exfalso. apply Hk. apply list_elem_of_fmap. by exists (k, v).
  - apply elem_of_cons in Hin as [[= -> ->]|Hin]; [done|]. by apply IH.
Qed.

Lemma tree_find_missing (k : string) (kvs : list (string * tree)) :
  k ∉ kvs.*1 →
  omap (tree_find k) ((λ kv, GenNode 6 [GenLeaf (inr kv.1); kv.2]) <$> kvs) = [].
Proof.
  induction kvs as [|[k' v'] kvs IH]; intros Hk; [done|].
  apply not_elem_of_cons in Hk as [Hne Hk]. csimpl. rewrite decide_False by done. by apply IH.
Qed.

#[export] Instance demo_json_laws : JsonLaws.
Proof.
  split; try done.
  - intros kvs k v Hnd Hin. simpl. by rewrite (tree_find_here k v).
  - intros kvs k v Hnd Hin. simpl. by rewrite (tree_find_here k v).
  - intros kvs k Hk. simpl. by rewrite (tree_find_missing k).
  - by intros [].
  - intros j. simpl. destruct (printable j); simpl; [|done]. intros _.
    rewrite parse_print_bits. simpl. apply decode_encode.
Qed.

#[export] Instance demo_defaults : NuraftDefaults := {|
  new_srv_config id ep := mkSrvConfig id 0 ep "" false 1 false;
  srv_state_init := mkSrvState 0 (-1);
  cluster_config_init := mkCluster 0 0 false "" [];
|}.

#[export] Instance demo_defaults_ok : NuraftDefaultsOk.
Proof. by split. Qed.

Definition demo_mgr : simple_state_mgr := simple_state_mgr_new 7 U1 U2.
Definition demo_config : cluster_config :=
  mkCluster 12 3 false "ctx"
    [mkSrvConfig 7 0 (demo_to_string U1) "" false 1 true;
     mkSrvConfig 9 0 (demo_to_string U0) "aux" true (-5) false].
Definition bad_config : cluster_config := mkCluster 12 3 false (String "255"%char "") [].

Lemma config_survives_restart_witness :
  wf_cluster demo_config ∧
  ∃ fs', save_config (λ _, true) demo_mgr demo_config ∅ = (Ret tt, fs') ∧
         load_config demo_mgr fs' = (Ret (restored demo_config), fs').
Proof.
  assert (wf_cluster demo_config) as Hwf.
  { split_and!; [unfold in_u64; simpl; lia..|].
    repeat constructor; unfold in_i32; simpl; lia. }
  split; [exact Hwf|].
  apply (config_survives_restart (λ _, true) demo_mgr demo_config ∅ Hwf); by vm_compute.
Defined.

Lemma state_survives_restart_witness :
  in_i32 (-1) ∧
  ∃ fs', save_state (λ _, true) demo_mgr (mkSrvState 4 (-1)) ∅ = (Ret tt, fs') ∧
         read_state demo_mgr fs' = (Ret (mkSrvState 4 (-1)), fs').
Proof.
  split; [unfold in_i32; lia|].
  apply (state_survives_restart (λ _, true) demo_mgr (mkSrvState 4 (-1)) ∅);
    [unfold in_u64; simpl; lia|unfold in_i32; simpl; lia|by vm_compute..].
Defined.

Lemma saves_do_not_interfere_witness :
  (7, U1) ≠ (7, U2) ∧
  (read_state (simple_state_mgr_new 7 U0 U2)
     (save_state (λ _, true) (simple_state_mgr_new 7 U0 U1) (mkSrvState 4 5) ∅).2).1 =
  Ret (mkSrvState 0 (-1)).
Proof.
  split; [done|].
  destruct (saves_do_not_interfere (H := demo_uuid_ops) (λ _, true) 7 7 U0 U0 U1 U2 demo_config (mkSrvState 4 5) ∅)
    as (_ & _ & Hne).
  destruct (Hne ltac:(done)) as [_ ->]. by vm_compute.
Defined.

Lemma unwritable_saves_are_lost_witness :
  (∅ : gmap string string) !! state_file demo_mgr = None ∧
  read_state demo_mgr (save_state (λ _, false) demo_mgr (mkSrvState 4 7) ∅).2 =
  (Ret (mkSrvState 0 (-1)), ∅).
Proof.
  split; [done|].
  destruct (unwritable_saves_are_lost (λ _, false) demo_mgr demo_config (mkSrvState 4 7) ∅)
    as (_ & -> & Hr & _); [done..|]. exact Hr.
Defined.

Lemma failed_save_corrupts_config_witness :
  j_parse (j_dump (config_json bad_config)).1 = None ∧
  ∃ fs', save_config (λ _, true) demo_mgr bad_config ∅ = (Ret tt, fs') ∧
         load_config demo_mgr fs' = (Throw "nlohmann::json::parse_error", fs').
Proof.
  split; [by vm_compute|].
  apply (failed_save_corrupts_config (λ _, true) demo_mgr bad_config ∅); by vm_compute.
Defined.

Lemma malformed_state_throws_witness :
  j_parse (j_dump (j_object [])).1 = Some (j_object []) ∧
  read_state demo_mgr {[state_file demo_mgr := (j_dump (j_object [])).1]} =
  (Throw "nlohmann::json::type_error", {[state_file demo_mgr := (j_dump (j_object [])).1]}).
Proof.
  split; [by vm_compute|].
  apply (malformed_state_throws demo_mgr [] _ (j_dump (j_object [])).1);
    [apply lookup_singleton_eq|by vm_compute|apply not_elem_of_nil].
Defined.

Lemma commit_echoes_witness :
  ("000"%byte ∉ ["h"; "i"]%byte) ∧
  (∃ s', commit true 5 (buf_alloc (["h"; "i"] ++ ["000"])%byte) echo_init = (Ret None, s') ∧
         last_commit_idx_ s' = 5 ∧ echoed s' = [(5, ["h"; "i"]%byte)]) ∧
  ∃ w, commit true 5 (buf_alloc ["h"; "i"]%byte) echo_init = (Ub w, echo_init).
Proof.
  assert ("000"%byte ∉ ["h"; "i"]%byte) as Hn.
  { by rewrite !elem_of_cons, elem_of_nil; intros [?|[?|?]]. }
  destruct (commit_echoes 5 ["h"; "i"]%byte [] echo_init) as (Ht & Hu & _).
  split_and!; [exact Hn|exact (Ht Hn)|exact (Hu Hn)].
Defined.
End StateManagerDemo.
