(* ===== verification/Lifecycle.v ===== *)
(** * The manager's life: construction, start, logging, destruction

    What a process sets up before it can use groups, and how it is taken down again: the
    worker pools and the certificate of the client factories ([src/lib/factory.cpp],
    [src/proto/proto_mesg_factory.cpp]), the constructor and destructor of [ManagerImpl] and
    [init_messaging] ([src/lib/manager_impl.cpp]), and the adapter that writes NuRaft's log
    ([src/lib/logger.hpp]).  A manager is the state of [Groups] and that of [DataService]
    together with its parameters, logger and factory. *)

From stdpp Require Import base gmap strings list numbers sets pretty.
From S2P Require Import Prelude Types Groups DataService.

(** ** Client factories *)

(** What factories share in a process: the worker pools that were created, the static
    [group_factory::m_ssl_cert], and the registered loggers. *)
Record globals := mkGlobals {
  workers : gset string;
  m_ssl_cert : string;
  loggers : gset string;
}.

Definition create_worker (name : string) : M globals unit := modify (λ g,
  mkGlobals ({[name]} ∪ workers g) (m_ssl_cert g) (loggers g)).

Definition raftWorkerName (worker_name : string) : string := "raft_" +:+ worker_name.
Definition dataWorkerName (worker_name : string) : string := "data_" +:+ worker_name.

(** [grpc_factory(raft_cli_thread_count, data_cli_thread_count, name)]; the result is
    [_worker_name]. *)
Definition grpc_factory_new (raft_cli_thread_count data_cli_thread_count : Z) (name : string)
  : M globals string :=
  (if (0 <? raft_cli_thread_count)%Z then create_worker (raftWorkerName name) else mret tt);;
  (if (0 <? data_cli_thread_count)%Z then create_worker (dataWorkerName name) else mret tt);;
  mret name.

(** [grpc_factory(cli_thread_count, name)] *)
Definition grpc_factory_new1 (cli_thread_count : Z) (name : string) : M globals string :=
  grpc_factory_new cli_thread_count 0 name.

(** A [group_factory]: its worker name, its token client, its message sizes. *)
Record gfactory := mkGFactory {
  gf_worker_name : string;
  m_token_client : option N;
  m_max_receive_message_size : Z;
  m_max_send_message_size : Z;
}.

Section factories.
Context `{UuidOps}.

Definition group_factory_new (raft_cli_thread_count data_cli_thread_count : Z) (name : uuid)
    (token_client : option N) (ssl_cert : string) (max_receive max_send : Z)
  : M globals gfactory :=
  worker_name ← grpc_factory_new raft_cli_thread_count data_cli_thread_count (uuid_to_string name);
  modify (λ g, mkGlobals (workers g) ssl_cert (loggers g));;
  mret (mkGFactory worker_name token_client max_receive max_send).

(** The constructor with one thread count. *)
Definition group_factory_new1 (cli_thread_count : Z) (name : uuid) (token_client : option N)
    (ssl_cert : string) : M globals gfactory :=
  group_factory_new cli_thread_count 0 name token_client ssl_cert 0 0.

(** [mesg_factory(g_factory, grp_id, ..)] *)
Definition mesg_factory_new (grp_id : uuid) : M globals string :=
  grpc_factory_new1 0 (uuid_to_string grp_id).
End factories.

(** The arguments [group_factory::create_client] makes a [messaging_client] with. *)
Record client_args := mkClientArgs {
  ca_raft_worker : string;
  ca_data_worker : string;
  ca_endpoint : string;
  ca_token : option N;
  ca_domain : string;
  ca_ssl_cert : string;
  ca_max_receive : Z;
  ca_max_send : Z;
}.

Definition factory_client_args (f : gfactory) (endpoint ssl_cert : string) : client_args :=
  mkClientArgs (raftWorkerName (gf_worker_name f)) (dataWorkerName (gf_worker_name f))
    endpoint (m_token_client f) EmptyString ssl_cert
    (m_max_receive_message_size f) (m_max_send_message_size f).

Definition messaging_client_args (f : gfactory) (endpoint : string) : M globals client_args :=
  gets (λ g, factory_client_args f endpoint (m_ssl_cert g)).

(** [grpc_client::init]: [None] is a missing stub.  A ready channel is kept, otherwise the
    channel and the stub are made again; the result tells which. *)
Definition grpc_client_init (stub : option N) (is_connection_ready : bool) (fresh : N)
  : option N * bool :=
  match stub with
  | Some n => if is_connection_ready then (Some n, false) else (Some fresh, true)
  | None => (Some fresh, true)
  end.

(** ** The logger adapter *)

Inductive sink := GlobalLog | CustomLog.
Inductive level_enum := L_critical | L_err | L_warn | L_info | L_debug | L_trace.

#[export] Instance sink_eq_dec : EqDecision sink.
Proof. solve_decision. Defined.
#[export] Instance level_enum_eq_dec : EqDecision level_enum.
Proof. solve_decision. Defined.

(** [put_details] by its [level]: the sinks it writes the line to, in order.  [enabled] is
    [LEVELCHECK]; a null custom logger is dereferenced. *)
Definition put_details (enabled : level_enum → bool) (custom_logger : option string) (level : Z)
  : outcome (list (sink * level_enum)) :=
  let to_custom (pre : list (sink * level_enum)) (l : level_enum) :=
    match custom_logger with
    | Some _ => Ret (pre ++ [(CustomLog, l)])
    | None => Ub "null _custom_logger"
    end in
  match level with
  | 1%Z => if enabled L_critical then to_custom [(GlobalLog, L_critical)] L_critical else Ret []
  | 2%Z => if enabled L_err then to_custom [(GlobalLog, L_err)] L_err else Ret []
  | 3%Z => if enabled L_warn then Ret [(GlobalLog, L_warn)] else Ret []
  | 4%Z => if enabled L_info then to_custom [] L_info else Ret []
  | 5%Z => if enabled L_debug then to_custom [] L_debug else Ret []
  | _ => if enabled L_trace then to_custom [] L_trace else Ret []
  end.

(** ** The manager *)

(** [NURAFT_MESG_CONFIG] *)
Record mesg_settings := mkSettings {
  grpc_raft_client_thread_cnt : Z;
  grpc_data_client_thread_cnt : Z;
  raft_scheduler_thread_cnt : Z;
}.

Section manager.
Context `{UuidOps} `{RaftParams}.

(** [Manager::Params] *)
Record Params := mkParams {
  server_uuid_ : uuid;
  mesg_port_ : Z;
  default_group_type_ : string;
  ssl_key_ : string;
  ssl_cert_ : string;
  ssl_ca_ : string;
  token_verifier_ : option N;
  token_client_ : option N;
  max_receive_message_size_ : Z;
  max_send_message_size_ : Z;
  enable_console_log_ : bool;
}.

(** [Manager::Params()]: everything value-initialised. *)
Definition Params_new : Params :=
  mkParams uuid_nil 0 EmptyString EmptyString EmptyString EmptyString None None 0 0 false.

(** [start_params_], [_srv_id], [_g_factory], [_custom_logger], the threads of
    [_scheduler], the maps of the manager and its service, and the gRPC server. *)
Record manager := mkManager {
  mg_params : Params;
  mg_srv_id : Z;
  mg_factory : gfactory;
  mg_logger : option string;
  mg_scheduler : Z;
  mg_world : world;
  mg_server : server_state;
}.

Definition new_world : world := mkWorld ∅ ∅ ∅ ∅ ∅ ∅ 0 [].

Definition logger_name (p : Params) : string := "nuraft_" +:+ uuid_to_string (server_uuid_ p).

(** [CreateCustomLogger] throws [spdlog_ex] for a name that is registered already, and
    when it cannot set up its output ([creates]); the handler takes the registered
    logger, which is null in the second case. *)
Definition custom_logger (creates : string → bool) (name : string) : M globals (option string) :=
  g ← getS;
  if decide (name ∈ loggers g) then mret (Some name)
  else if creates name
  then modify (λ g, mkGlobals (workers g) (m_ssl_cert g) ({[name]} ∪ loggers g));; mret (Some name)
  else mret None.

Definition engine_factory_new (cfg : mesg_settings) (p : Params) : M globals gfactory :=
  group_factory_new (grpc_raft_client_thread_cnt cfg) (grpc_data_client_thread_cnt cfg)
    (server_uuid_ p) (token_client_ p) (ssl_ca_ p) (max_receive_message_size_ p)
    (max_send_message_size_ p).

Definition ManagerImpl_new (cfg : mesg_settings) (creates : string → bool) (p : Params)
  : M globals manager :=
  g_factory ← engine_factory_new cfg p;
  logger ← custom_logger creates (logger_name p);
  mret (mkManager p (to_server_id (server_uuid_ p)) g_factory logger
          (raft_scheduler_thread_cnt cfg) new_world stopped).

(** The address [restart_server] makes its gRPC server for. *)
Definition listen_address (p : Params) : string := "0.0.0.0:" +:+ pretty (mesg_port_ p).

(** A call of [DataService] on a manager. *)
Definition in_server {A : Type} (m : M server_state A) (mg : manager) : outcome A * manager :=
  let '(r, s) := m (mg_server mg) in
  (r, mkManager (mg_params mg) (mg_srv_id mg) (mg_factory mg) (mg_logger mg) (mg_scheduler mg)
        (mg_world mg) s).

(** A call of [Groups] on a manager. *)
Definition in_world {A : Type} (m : M world A) (mg : manager) : outcome A * manager :=
  let '(r, w) := m (mg_world mg) in
  (r, mkManager (mg_params mg) (mg_srv_id mg) (mg_factory mg) (mg_logger mg) (mg_scheduler mg)
        w (mg_server mg)).

Definition init_messaging (lib : grpc_lib) (cfg : mesg_settings) (creates : string → bool)
    (p : Params) (application_alive with_data_svc : bool) : M globals manager :=
  if negb application_alive then ub "Could not acquire application!"
  else
    m ← ManagerImpl_new cfg creates p;
    match in_server (start lib with_data_svc) m with
    | (Ret _, m') => mret m'
    | (Throw e, _) => throw e
    | (Ub e, _) => ub e
    end.

(** ** The base of state managers *)

(** [mesg_state_mgr]: [m_repl_svc_ctx], for a server and a client factory, and whether
    [m_manager] has been set. *)
Record mesg_state_mgr := mkStateMgr {
  m_repl_svc_ctx : option (N * N);
  m_manager : bool;
}.

Definition make_repl_ctx (server cli_factory : N) (s : mesg_state_mgr) : mesg_state_mgr :=
  mkStateMgr (Some (server, cli_factory)) (m_manager s).
Definition set_manager_impl (s : mesg_state_mgr) : mesg_state_mgr :=
  mkStateMgr (m_repl_svc_ctx s) true.
Definition become_ready (s : mesg_state_mgr) : mesg_state_mgr := s.

Inductive ReturnCode := RcOk | RcReturnNull.

(** The defaults a state manager may override. *)
Definition raft_event (type : cb_type) : ReturnCode := RcOk.
Definition handle_raft_event (type : cb_type) : bool * ReturnCode := (false, raft_event type).

(** The calls of a trace that reach the state manager [sm]. *)
Definition smgr_call (sm : N) (s : mesg_state_mgr) (e : effect) : mesg_state_mgr :=
  match e with
  | BecomeReady n => if decide (n = sm) then become_ready s else s
  | SetManager n => if decide (n = sm) then set_manager_impl s else s
  | MakeReplCtx n server factory => if decide (n = sm) then make_repl_ctx server factory s else s
  | _ => s
  end.

Definition smgr_after (sm : N) (t : list effect) : mesg_state_mgr :=
  fold_left (smgr_call sm) t (mkStateMgr None false).

(** ** Destruction *)

(** What the destructor does, in order. *)
Inductive stop_event :=
| RaftEvent (e : effect)
| GrpcShutdown (server : N).

Definition ManagerImpl_destroy (env : app_env) (mg : manager) : outcome (list stop_event) :=
  match mesg_service (mg_server mg) with
  | None => Ret []
  | Some _ =>
      match svc_shutdown env (mg_world mg) with
      | (Ret _, w') =>
          match grpc_server (mg_server mg) with
          | Some n =>
              Ret ((RaftEvent <$> drop (length (trace (mg_world mg))) (trace w')) ++
                   [GrpcShutdown n])
          | None => Ub "null _grpc_server"
          end
      | (Throw e, _) => Throw e
      | (Ub e, _) => Ub e
      end
  end.

(** [ManagerImpl::get_srv_config_all] *)
Definition get_srv_config_all (group_id : uuid) (mg : manager) : outcome (list srv_config) :=
  match mesg_service (mg_server mg) with
  | None => Ub "null _mesg_service"
  | Some _ => (svc_get_srv_config_all group_id (mg_world mg)).1
  end.
End manager.

(** The severity a NuRaft level stands for. *)
Definition severity (level : Z) : level_enum :=
  match level with
  | 1%Z => L_critical | 2%Z => L_err | 3%Z => L_warn | 4%Z => L_info | 5%Z => L_debug
  | _ => L_trace
  end.

(** A manager that [init_messaging] may return: its ids agree, its servers and handlers are
    consistent, its logger is registered, no group exists yet. *)
Record manager_wf `{UuidOps} `{RaftParams} (g : globals) (m : manager) : Prop := {
  mw_id : mg_srv_id m = to_server_id (server_uuid_ (mg_params m));
  mw_id_range : (0 ≤ mg_srv_id m < 2 ^ 31)%Z;
  mw_server : server_wf (mg_server m);
  mw_started : is_Some (mesg_service (mg_server m));
  mw_logger : ∀ name, mg_logger m = Some name → name ∈ loggers g;
  mw_world : mg_world m = new_world;
}.

(** ** Lemmas *)

Section lifecycle_lemmas.
Context `{UuidOps} `{RaftParams}.

Lemma worker_names_differ name : raftWorkerName name ≠ dataWorkerName name.
Proof. done. Qed.

(** The pools a factory creates. *)
Lemma group_factory_new_run raft data name tok cert recv snd g :
  ∃ g', group_factory_new raft data name tok cert recv snd g =
        (Ret (mkGFactory (uuid_to_string name) tok recv snd), g') ∧
        loggers g' = loggers g ∧ m_ssl_cert g' = cert ∧
        ∀ w, w ∈ workers g' ↔
             w ∈ workers g ∨ (0 < raft)%Z ∧ w = raftWorkerName (uuid_to_string name) ∨
             (0 < data)%Z ∧ w = dataWorkerName (uuid_to_string name).
Proof.
  unfold group_factory_new, grpc_factory_new, create_worker, mbind, M_bind.
  destruct (Z.ltb_spec 0 raft), (Z.ltb_spec 0 data); simpl; eexists;
    (split_and!; [done..|]); intros w; simpl; rewrite ?elem_of_union, ?elem_of_singleton;
    split; intros; destruct_or?; destruct_and?; auto; lia.
Qed.

Lemma custom_logger_run creates name g :
  ∃ o g', custom_logger creates name g = (Ret o, g') ∧
          workers g' = workers g ∧ m_ssl_cert g' = m_ssl_cert g ∧ loggers g ⊆ loggers g' ∧
          (∀ n, o = Some n → n ∈ loggers g' ∧ n = name) ∧
          (o = None ↔ (name ∉ loggers g) ∧ creates name = false).
Proof.
  unfold custom_logger, mbind, M_bind, getS. destruct (decide (name ∈ loggers g)) as [Hin|Hin].
  { eexists (Some name), g. split_and!; [done..|by intros n [= <-]|]. by split; [|intros []]. }
  destruct (creates name); simpl; (eexists _, _; split_and!; [done..| | |]); simpl.
  - apply union_subseteq_r.
  - intros n [= <-]. rewrite elem_of_union, elem_of_singleton. auto.
  - by split; [|intros []].
  - done.
  - done.
  - by split.
Qed.

(** [put_details] by cases of the level, with and without a logger. *)
Lemma put_details_cases enabled level :
  (∀ name, put_details enabled (Some name) level =
    Ret (if enabled (severity level)
         then (if decide (1 ≤ level ≤ 3)%Z then [(GlobalLog, severity level)] else []) ++
              (if decide (level = 3%Z) then [] else [(CustomLog, severity level)])
         else [])) ∧
  put_details enabled None level =
    (if enabled (severity level)
     then if decide (level = 3%Z) then Ret [(GlobalLog, L_warn)] else Ub "null _custom_logger"
     else Ret []).
Proof.
  unfold put_details, severity.
  destruct level as [|p|p]; [|do 3 (try destruct p as [p|p|])|];
    (split; [intros name|]); case_match; repeat case_decide; done || lia.
Qed.

(** Starting a new manager: the server that could be made, or none. *)
Lemma start_run lib b s' :
  start lib b stopped = (Ret tt, s') →
  server_wf s' ∧ mesg_service s' = Some b ∧
  (grpc_server s' = None ∧ make_server_ok lib ≠ Ret true ∨
   grpc_server s' = Some 0%N ∧ make_server_ok lib = Ret true).
Proof.
  intros Hs. split; [apply (server_step_wf stopped); [by eapply step_start|by split]|].
  destruct (restart_run lib (mkServerState ∅ None (Some b) None 0 []) s' b eq_refl Hs)
    as [[-> Hm]|[-> Hm]]; (split; [done|]); [left|right]; done.
Qed.

Lemma ManagerImpl_new_run cfg creates p g :
  ∃ m g', ManagerImpl_new cfg creates p g = (Ret m, g') ∧
    mg_params m = p ∧ mg_srv_id m = to_server_id (server_uuid_ p) ∧
    gf_worker_name (mg_factory m) = uuid_to_string (server_uuid_ p) ∧
    mg_world m = new_world ∧ mg_server m = stopped ∧
    (∀ n, mg_logger m = Some n → n ∈ loggers g') ∧
    (mg_logger m = None ↔ (logger_name p ∉ loggers g) ∧ creates (logger_name p) = false) ∧
    m_ssl_cert g' = ssl_ca_ p ∧
    (let name := raftWorkerName (uuid_to_string (server_uuid_ p)) in
     name ∈ workers g' ↔ name ∈ workers g ∨ (0 < grpc_raft_client_thread_cnt cfg)%Z) ∧
    (let name := dataWorkerName (uuid_to_string (server_uuid_ p)) in
     name ∈ workers g' ↔ name ∈ workers g ∨ (0 < grpc_data_client_thread_cnt cfg)%Z).
Proof.
  unfold ManagerImpl_new, engine_factory_new.
  destruct (group_factory_new_run (grpc_raft_client_thread_cnt cfg)
              (grpc_data_client_thread_cnt cfg) (server_uuid_ p) (token_client_ p) (ssl_ca_ p)
              (max_receive_message_size_ p) (max_send_message_size_ p) g)
    as (g1 & Hf & Hl & Hc & Hw).
  destruct (custom_logger_run creates (logger_name p) g1)
    as (o & g2 & Ho & Hw2 & Hc2 & _ & Hsome & Hnone).
  rewrite (run_bind _ _ _ _ _ Hf), (run_bind _ _ _ _ _ Ho).
  eexists _, g2. split; [done|]. simpl. rewrite Hc2, Hc, Hw2, <- Hl.
  split_and!; try done; [by intros n Hn; apply Hsome|rewrite Hw; naive_solver..].
Qed.

Lemma init_messaging_run lib cfg creates p with_data_svc g m g' :
  init_messaging lib cfg creates p true with_data_svc g = (Ret m, g') →
  ∃ m0, ManagerImpl_new cfg creates p g = (Ret m0, g') ∧
        start lib with_data_svc stopped = (Ret tt, mg_server m) ∧
        m = mkManager (mg_params m0) (mg_srv_id m0) (mg_factory m0) (mg_logger m0)
              (mg_scheduler m0) (mg_world m0) (mg_server m).
Proof.
  destruct (ManagerImpl_new_run cfg creates p g) as (m0 & g0 & Hnew & Hprops).
  unfold init_messaging. simpl. rewrite (run_bind _ _ _ _ _ Hnew). unfold in_server.
  destruct Hprops as (_ & _ & _ & _ & Hst & _). rewrite Hst.
  destruct (start lib with_data_svc stopped) as [[[]|e|e] s'] eqn:Hs; [|done..].
  intros [= <- <-]. by exists m0.
Qed.

Lemma event_returns g type my_id leader_id w :
  ∃ w', generic_raft_event_handler g type my_id leader_id w = (Ret tt, w').
Proof.
  destruct type; try (by eexists). simpl. unfold exit_group, lookup_state_manager, mbind, M_bind, gets.
  destruct (default None (state_managers w !! g)); by eexists.
Qed.

Lemma destroy_run env m n :
  is_Some (mesg_service (mg_server m)) → grpc_server (mg_server m) = Some n →
  ManagerImpl_destroy env m =
  Ret ((RaftEvent <$> flat_map (λ gn, [StopServer gn.2; ShutdownServer gn.2])
                        (map_to_list (raft_servers (mg_world m)))) ++ [GrpcShutdown n]).
Proof.
  intros [b Hb] Hn. unfold ManagerImpl_destroy, svc_shutdown, mbind, M_bind, gets. rewrite Hb.
  destruct (stop_all_run env (map_to_list (raft_servers (mg_world m))) (mg_world m))
    as (w' & -> & ->).
  by rewrite Hn, drop_app_length.
Qed.
End lifecycle_lemmas.

(** ** Theorems *)

Section lifecycle_theorems.
Context `{UuidOps} `{!UuidLaws} `{RaftParams}.

(** Every manager [init_messaging] returns is well formed.  Its client factory asks for the
    worker pools the constructor created: each exists if its thread count is positive, or
    if it was there before.  Until another factory is made, its clients get the certificate
    of its parameters. *)
Theorem init_messaging_wf lib cfg creates p with_data_svc endpoint g m g' :
  init_messaging lib cfg creates p true with_data_svc g = (Ret m, g') →
  manager_wf g' m ∧ mesg_service (mg_server m) = Some with_data_svc ∧
  ∃ a, messaging_client_args (mg_factory m) endpoint g' = (Ret a, g') ∧
       (ca_raft_worker a ∈ workers g' ↔
        ca_raft_worker a ∈ workers g ∨ (0 < grpc_raft_client_thread_cnt cfg)%Z) ∧
       (ca_data_worker a ∈ workers g' ↔
        ca_data_worker a ∈ workers g ∨ (0 < grpc_data_client_thread_cnt cfg)%Z) ∧
       ca_ssl_cert a = ssl_ca_ p.
Proof.
  intros Hi. apply init_messaging_run in Hi as (m0 & Hnew & Hs & Hm).
  destruct (ManagerImpl_new_run cfg creates p g) as (m1 & g1 & Hnew1 & Hp & Hid & Hwn & Hw & _ & Hl & _ & Hc & Hr & Hd).
  rewrite Hnew1 in Hnew. injection Hnew as -> ->.
  destruct (start_run lib with_data_svc _ Hs) as (Hwf & Hsvc & _).
  rewrite Hm. simpl. split; [|split; [done|]].
  - split; simpl; rewrite ?Hid, ?Hp; [done|apply to_server_id_nonneg|done|by eexists|done|done].
  - eexists. split; [done|]. simpl. rewrite Hwn. auto.
Qed.

(** The destructor stops and shuts down the RAFT server of every group, each once, before
    it shuts down the gRPC server they use. *)
Theorem shutdown_order env m n :
  is_Some (mesg_service (mg_server m)) → grpc_server (mg_server m) = Some n →
  ∃ gs, ManagerImpl_destroy env m =
        Ret ((RaftEvent <$> flat_map (λ gn, [StopServer gn.2; ShutdownServer gn.2]) gs) ++
             [GrpcShutdown n]) ∧
        gs ≡ₚ map_to_list (raft_servers (mg_world m)).
Proof.
  intros Hb Hn. exists (map_to_list (raft_servers (mg_world m))). split; [|done].
  by apply destroy_run.
Qed.

(** When no gRPC server can be made (its port is taken, say), [init_messaging] returns a
    manager as if nothing had happened, and destroying that manager dereferences the
    null server.  With a server, destroying a new manager is fine. *)
Theorem failed_start_crashes_destructor lib cfg creates p with_data_svc env g m g' :
  init_messaging lib cfg creates p true with_data_svc g = (Ret m, g') →
  (make_server_ok lib = Ret true → ManagerImpl_destroy env m = Ret [GrpcShutdown 0]) ∧
  (make_server_ok lib ≠ Ret true → ∃ w, ManagerImpl_destroy env m = Ub w).
Proof.
  intros Hi. apply init_messaging_run in Hi as (m0 & Hnew & Hs & Hm).
  destruct (ManagerImpl_new_run cfg creates p g) as (m1 & g1 & Hnew1 & _ & _ & _ & Hw & _).
  rewrite Hnew1 in Hnew. injection Hnew as -> ->.
  destruct (start_run lib with_data_svc _ Hs) as (_ & Hsvc & Hg).
  assert (mg_world m = new_world) as Hwm by (by rewrite Hm).
  unfold ManagerImpl_destroy. rewrite Hsvc, Hwm.
  change (svc_shutdown env new_world) with (Ret tt, new_world).
  destruct Hg as [[-> Hno]|[-> Hyes]]; split; intros Hmk; try done. by eexists.
Qed.

(** NuRaft's log: an enabled message of level 1 to 3 reaches the process log, one of every
    level but 3 the manager's own log, which therefore misses all warnings; nothing else
    is written, and the severity is kept.  A manager without a logger of its own ends
    the process on every enabled message but a warning. *)
Theorem nuraft_log_routed enabled name level :
  (∃ lines, put_details enabled (Some name) level = Ret lines ∧
    ((GlobalLog, severity level) ∈ lines ↔ enabled (severity level) = true ∧ (1 ≤ level ≤ 3)%Z) ∧
    ((CustomLog, severity level) ∈ lines ↔ enabled (severity level) = true ∧ level ≠ 3%Z) ∧
    NoDup lines ∧ Forall (λ l, l.2 = severity level) lines) ∧
  ((∃ w, put_details enabled None level = Ub w) ↔
   enabled (severity level) = true ∧ level ≠ 3%Z).
Proof.
  destruct (put_details_cases enabled level) as [Hs Hn]. rewrite Hs, Hn.
  destruct (enabled (severity level)).
  2:{ split; [exists []; split_and!; [done|..|constructor|constructor]|];
        rewrite ?elem_of_nil; split; (by intros [] || by intros (? & [=])). }
  split.
  - eexists. split; [done|]. split_and!.
    + repeat case_decide; rewrite ?elem_of_app, ?list_elem_of_singleton, ?elem_of_nil;
        split; intros; destruct_or?; destruct_and?; try done; auto; lia.
    + repeat case_decide; rewrite ?elem_of_app, ?list_elem_of_singleton, ?elem_of_nil;
        split; intros; destruct_or?; destruct_and?; try done; auto; lia.
    + repeat case_decide; simpl;
        repeat (apply NoDup_cons_2; [by rewrite ?list_elem_of_singleton, ?elem_of_nil; auto|]);
        apply NoDup_nil_2.
    + repeat case_decide; simpl; repeat constructor.
  - case_decide; split; [by intros [w [=]]|by intros [_ ?]|by intros _|by eexists].
Qed.

(** The certificate is one for all factories of the process: making a second factory
    changes what the next clients of the first one are given. *)
Theorem ssl_cert_shared raft data n1 n2 tok1 tok2 cert1 cert2 r1 r2 s1 s2 endpoint g :
  ∃ f1 f2 g1 g2 a1 a2,
    group_factory_new raft data n1 tok1 cert1 r1 s1 g = (Ret f1, g1) ∧
    messaging_client_args f1 endpoint g1 = (Ret a1, g1) ∧
    group_factory_new raft data n2 tok2 cert2 r2 s2 g1 = (Ret f2, g2) ∧
    messaging_client_args f1 endpoint g2 = (Ret a2, g2) ∧
    ca_ssl_cert a1 = cert1 ∧ ca_ssl_cert a2 = cert2.
Proof.
  destruct (group_factory_new_run raft data n1 tok1 cert1 r1 s1 g) as (g1 & Hf1 & _ & Hc1 & _).
  destruct (group_factory_new_run raft data n2 tok2 cert2 r2 s2 g1) as (g2 & Hf2 & _ & Hc2 & _).
  by eexists _, _, g1, g2, _, _.
Qed.

(** A factory made with one thread count has no data workers: the clients it makes ask for
    a pool that does not exist, unless someone else created it. *)
Theorem one_count_factory_lacks_data_pool cnt name tok cert endpoint g :
  dataWorkerName (uuid_to_string name) ∉ workers g →
  ∃ f g' a, group_factory_new1 cnt name tok cert g = (Ret f, g') ∧
            messaging_client_args f endpoint g' = (Ret a, g') ∧
            (ca_data_worker a ∉ workers g') ∧ ((0 < cnt)%Z → ca_raft_worker a ∈ workers g').
Proof.
  intros Hn. destruct (group_factory_new_run cnt 0 name tok cert 0 0 g) as (g' & Hf & _ & _ & Hw).
  eexists _, g', _. split_and!; [done..| |]; simpl.
  - rewrite Hw. intros [?|[[_ E]|[? _]]]; [done| |lia].
    by apply (worker_names_differ (uuid_to_string name)).
  - intros Hc. apply Hw. auto.
Qed.

(** A first join of a group with the data service links its state manager: it points to its
    manager, its replication context is that of the server now published for the
    group, and RAFT events reach the manager and then its default handler. *)
Theorem join_links_state_mgr cfg env srv_id g gtype params sm w :
  manager_alive env = true → raft_servers w !! g = None → _data_service_enabled cfg = true →
  state_mgr_types w !! join_type cfg gtype = Some params → resolve env srv_id g w = Some sm →
  ∃ w' server factory,
    joinRaftGroup cfg env srv_id g gtype w = (Ret code.OK, w') ∧
    raft_servers w' !! g = Some server ∧
    smgr_after sm (trace w') = mkStateMgr (Some (server, factory)) true ∧
    ∀ type my_id leader_id, ∃ w'',
      generic_raft_event_handler g type my_id leader_id w' = (Ret tt, w'') ∧
      internal_raft_event_handler env (λ t, (handle_raft_event t).2) g type my_id leader_id w' =
      (Ret (Some RcOk), w'').
Proof.
  intros Ha Hs Hd Ht Hsm. unfold joinRaftGroup, mbind at 1, M_bind at 1.
  rewrite (join_prepare_run cfg env srv_id g gtype params sm w Ha Hs Ht Hsm).
  rewrite join_publish_run by done. eexists _, _, _. split_and!; [done|apply lookup_insert_eq|..].
  - unfold smgr_after, publish_world. simpl. rewrite Hd, !fold_left_app. unfold init_trace.
    rewrite !fold_left_app. simpl. rewrite !decide_True by done. done.
  - intros type my_id leader_id. unfold internal_raft_event_handler. rewrite Ha.
    destruct (event_returns g type my_id leader_id (publish_world cfg g
      (mkContext g (join_type cfg gtype) params sm (next_id w)) (init_world srv_id g sm w)))
      as (w'' & Hw''). exists w''. split; [done|]. by rewrite (run_bind _ _ _ _ _ Hw'').
Qed.
End lifecycle_theorems.

(** ** A concrete instance *)

Module LifecycleDemo.
Import Demo GroupsDemo.

Definition demo_lib (ok : outcome bool) : grpc_lib :=
  mkGrpcLib ok (λ _, true) (λ _, true) (λ _, true) (λ _ _, true).
Definition demo_settings : mesg_settings := mkSettings 1 8 1.
Definition demo_manager_params : Params :=
  mkParams (H := demo_uuid_ops) U1 9000 "default" "" "" "ca" None None 0 0 false.
Definition no_globals : globals := mkGlobals ∅ "" ∅.
Definition demo_start (ok : outcome bool) : outcome manager * globals :=
  init_messaging (demo_lib ok) demo_settings (λ _, true) demo_manager_params true true no_globals.

Definition two_groups : manager :=
  mkManager demo_manager_params 0 (mkGFactory "" None 0 0) None 1
    (mkWorld ∅ ∅ ∅ {[U0 := 5%N; U2 := 6%N]} ∅ ∅ 7 [])
    (mkServerState ∅ (Some 0%N) (Some true) (Some 0%N) 1 []).

Lemma init_messaging_wf_witness :
  ∃ m g', demo_start (Ret true) = (Ret m, g') ∧ manager_wf g' m.
Proof.
  destruct (demo_start (Ret true)) as [[m|e|e] g'] eqn:E;
    [|by vm_compute in E|by vm_compute in E].
  exists m, g'. split; [done|].
  apply (init_messaging_wf (demo_lib (Ret true)) demo_settings (λ _, true) demo_manager_params
           true "10.0.0.1:9000" no_globals m g' E).
Defined.

Lemma shutdown_order_witness :
  grpc_server (mg_server two_groups) = Some 0%N ∧
  ∃ gs, ManagerImpl_destroy demo_app two_groups =
        Ret ((RaftEvent <$> flat_map (λ gn, [StopServer gn.2; ShutdownServer gn.2]) gs) ++
             [GrpcShutdown 0]) ∧
        gs ≡ₚ map_to_list (raft_servers (mg_world two_groups)).
Proof. split; [done|]. by apply (shutdown_order demo_app two_groups 0). Defined.

Lemma failed_start_crashes_destructor_witness :
  ∃ m g' w, demo_start (Throw "address in use") = (Ret m, g') ∧
            ManagerImpl_destroy demo_app m = Ub w.
Proof.
  destruct (demo_start (Throw "address in use")) as [[m|e|e] g'] eqn:E;
    [|by vm_compute in E|by vm_compute in E].
  destruct (failed_start_crashes_destructor (demo_lib (Throw "address in use")) demo_settings
              (λ _, true) demo_manager_params true demo_app no_globals m g' E) as [_ Hub].
  destruct (Hub ltac:(done)) as [w Hw]. exists m, g', w. by split.
Defined.

Lemma one_count_factory_lacks_data_pool_witness :
  (dataWorkerName (demo_to_string U1) ∉ workers no_globals) ∧
  ∃ f g' a, group_factory_new1 2 U1 None "" no_globals = (Ret f, g') ∧
            messaging_client_args f "10.0.0.1:9000" g' = (Ret a, g') ∧
            (ca_data_worker a ∉ workers g') ∧ ((0 < 2)%Z → ca_raft_worker a ∈ workers g').
Proof.
  split; [apply not_elem_of_empty|].
  apply (one_count_factory_lacks_data_pool (H := demo_uuid_ops) 2 U1 None "" "10.0.0.1:9000" no_globals).
  apply not_elem_of_empty.
Defined.
End LifecycleDemo.
