(* ===== verification/ManagerApi.v ===== *)
(** * The application's interface

    The abstract class [Manager] of [include/nuraft_mesg/nuraft_mesg.hpp], through which
    an application uses the library, as a type class; what it promises, as a registry of
    groups; and [ManagerImpl] ([src/lib/manager_impl.hpp]) as the implementation, with
    the operations of [Groups], [DataService] and [Lifecycle].  A client's theorems are
    proved against the promise. *)

From stdpp Require Import base gmap strings list numbers sets.
From S2P Require Import Prelude Types Groups Threads DataService Lifecycle.

(** ** The interface *)

(** [Manager]: its virtual functions.  A function that returns a future is its synchronous
    part ([create_group], [become_leader]), or the result the future ends with. *)
Class Manager `{UuidOps} `{RaftParams} (S : Type) := mkManagerApi {
  api_register_mgr_type : string → raft_params → M S unit;
  api_lookup_state_manager : uuid → M S (option N);
  api_create_group : uuid → string → M S async_result;
  api_join_group : uuid → string → N → M S NullResult;
  api_add_member : uuid → uuid → M S NullResult;
  api_add_member_config : uuid → srv_config → M S NullResult;
  api_rem_member : uuid → uuid → M S NullResult;
  api_become_leader : uuid → M S async_result;
  api_append_entries : uuid → list buffer → M S NullResult;
  api_get_srv_config_all : uuid → M S (list srv_config);
  api_leave_group : uuid → M S unit;
  api_append_peers : uuid → list uuid → M S (list uuid);
  api_logstore_id : uuid → M S Z;
  api_server_id : M S Z;
  api_restart_server : M S unit;
  api_bind_data_service_request : string → uuid → option N → M S bool;
}.

Section calls.
Context `{UuidOps} `{RaftParams}.

(** A call of the interface, and what it answers. *)
Inductive api_call :=
| RegisterMgrType (group_type : string) (params : raft_params)
| LookupStateManager (g : uuid)
| CreateGroup (g : uuid) (group_type : string)
| JoinGroup (g : uuid) (group_type : string) (smgr : N)
| AddMember (g new_id : uuid)
| AddMemberConfig (g : uuid) (c : srv_config)
| RemMember (g old_id : uuid)
| LeaderOf (g : uuid)
| AppendEntries (g : uuid) (buf : list buffer)
| GetSrvConfigAll (g : uuid)
| LeaveGroup (g : uuid)
| AppendPeers (g : uuid) (servers : list uuid)
| LogstoreId (g : uuid)
| ServerId
| RestartServer
| BindDataServiceRequest (request_name : string) (g : uuid) (handler : option N).

Inductive api_answer :=
| AUnit
| AManager (smgr : option N)
| AAsync (r : async_result)
| AResult (r : NullResult)
| AConfigs (cs : list srv_config)
| APeers (servers : list uuid)
| ANumber (z : Z)
| ABool (b : bool).
End calls.

Section sessions.
Context `{UuidOps} `{RaftParams} {S : Type} `{!Manager S}.

Definition invoke (c : api_call) : M S api_answer :=
  match c with
  | RegisterMgrType t params => api_register_mgr_type t params;; mret AUnit
  | LookupStateManager g => AManager <$> api_lookup_state_manager g
  | CreateGroup g t => AAsync <$> api_create_group g t
  | JoinGroup g t smgr => AResult <$> api_join_group g t smgr
  | AddMember g new_id => AResult <$> api_add_member g new_id
  | AddMemberConfig g c => AResult <$> api_add_member_config g c
  | RemMember g old_id => AResult <$> api_rem_member g old_id
  | LeaderOf g => AAsync <$> api_become_leader g
  | AppendEntries g buf => AResult <$> api_append_entries g buf
  | GetSrvConfigAll g => AConfigs <$> api_get_srv_config_all g
  | LeaveGroup g => api_leave_group g;; mret AUnit
  | AppendPeers g servers => APeers <$> api_append_peers g servers
  | LogstoreId g => ANumber <$> api_logstore_id g
  | ServerId => ANumber <$> api_server_id
  | RestartServer => api_restart_server;; mret AUnit
  | BindDataServiceRequest name g handler => ABool <$> api_bind_data_service_request name g handler
  end.

(** What an application does with a manager. *)
Fixpoint session (cs : list api_call) : M S (list api_answer) :=
  match cs with
  | [] => mret []
  | c :: cs => a ← invoke c; rest ← session cs; mret (a :: rest)
  end.
End sessions.

(** ** What the interface promises *)

Section registry_data.
Context `{UuidOps}.

(** What an application can know of a manager: the registered types, the state manager of
    each group, the groups it serves and leads, the data-service methods it handles. *)
Record registry := mkRegistry {
  rg_types : gset string;
  rg_managers : gmap uuid N;
  rg_served : gset uuid;
  rg_leads : gset uuid;
  rg_methods : gset string;
}.

(** What the answers depend on besides: the manager's id and default type, whether it has
    a data service, the application's state managers, and their log stores and peers. *)
Record registry_env := mkRegistryEnv {
  re_id : Z;
  re_default_type : string;
  re_data : bool;
  re_make : uuid → N;
  re_logstore : N → Z;
  re_peers : N → list uuid;
}.
End registry_data.

Section registry.
Context `{UuidOps} `{RaftParams} (e : registry_env).

Definition with_managers (m : gmap uuid N) (r : registry) : registry :=
  mkRegistry (rg_types r) m (rg_served r) (rg_leads r) (rg_methods r).

Definition registry_join (g : uuid) (t : string) (r : registry) : Z * registry :=
  let t := if decide (t = EmptyString) then re_default_type e else t in
  if decide (g ∈ rg_served r) then (code.OK, r)
  else if decide (t ∈ rg_types r)
  then (code.OK,
        mkRegistry (rg_types r) (<[g := default (re_make e g) (rg_managers r !! g)]> (rg_managers r))
          ({[g]} ∪ rg_served r) (rg_leads r) (rg_methods r))
  else (code.SERVER_NOT_FOUND, r).

(** The command goes to NuRaft, whose answer the registry does not know, or there is
    nobody to take it. *)
Definition registry_command (g : uuid) (r : registry) : option api_answer :=
  if decide (g ∈ rg_served r) then None else Some (AResult (Unexpected code.SERVER_NOT_FOUND)).

Definition registry_call (c : api_call) (r : registry) : option api_answer * registry :=
  match c with
  | RegisterMgrType t _ =>
      (Some AUnit, mkRegistry ({[t]} ∪ rg_types r) (rg_managers r) (rg_served r) (rg_leads r)
                     (rg_methods r))
  | LookupStateManager g => (Some (AManager (rg_managers r !! g)), r)
  | CreateGroup g t =>
      let '(err, r') := registry_join g t r in
      (Some (AAsync (if decide (err ≠ code.OK) then Immediate (Unexpected err) else Deferred)), r')
  | JoinGroup g t smgr =>
      let r1 := with_managers (emplace g smgr (rg_managers r)).1 r in
      let '(err, r2) := registry_join g t r1 in
      if decide (err ≠ code.OK)
      then (Some (AResult (Unexpected err)), with_managers (delete g (rg_managers r2)) r2)
      else (Some (AResult (Value tt)), r2)
  | AddMember g _ | AddMemberConfig g _ | RemMember g _ | AppendEntries g _ =>
      (registry_command g r, r)
  | LeaderOf g =>
      (Some (AAsync (if decide (g ∈ rg_leads r) then Immediate (Value tt) else Deferred)), r)
  | GetSrvConfigAll g => (if decide (g ∈ rg_served r) then None else Some (AConfigs []), r)
  | LeaveGroup g =>
      (Some AUnit,
       match rg_managers r !! g with
       | None => r
       | Some _ => mkRegistry (rg_types r) (delete g (rg_managers r)) (rg_served r ∖ {[g]})
                     (rg_leads r) (rg_methods r)
       end)
  | AppendPeers g servers =>
      (Some (APeers (servers ++ from_option (re_peers e) [] (rg_managers r !! g))), r)
  | LogstoreId g => (Some (ANumber (from_option (re_logstore e) (2 ^ 32 - 1)%Z (rg_managers r !! g))), r)
  | ServerId => (Some (ANumber (re_id e)), r)
  | RestartServer => (Some AUnit, r)
  | BindDataServiceRequest name g handler =>
      let name := get_generic_method_name name g in
      if re_data e && bool_decide (is_Some handler) && bool_decide (name ∉ rg_methods r)
      then (Some (ABool true), mkRegistry (rg_types r) (rg_managers r) (rg_served r) (rg_leads r)
                                 ({[name]} ∪ rg_methods r))
      else (Some (ABool false), r)
  end.

(** The registry's answers in a session, and the registry after it. *)
Fixpoint registry_session (cs : list api_call) (r : registry)
  : list (option api_answer) * registry :=
  match cs with
  | [] => ([], r)
  | c :: cs =>
      let '(a, r1) := registry_call c r in
      let '(rest, r2) := registry_session cs r1 in
      (a :: rest, r2)
  end.

Definition matches (expected : option api_answer) (a : api_answer) : Prop :=
  match expected with Some a' => a = a' | None => True end.

(** Every served group has a state manager. *)
Definition registry_wf (r : registry) : Prop := rg_served r ⊆ dom (rg_managers r).

Definition empty_registry : registry := mkRegistry ∅ ∅ ∅ ∅ ∅.
End registry.

(** The promise: every call returns, answers as the registry says, and leaves the manager
    as the registry says. *)
Class ManagerSpec `{UuidOps} `{RaftParams} (S : Type) `{!Manager S} (e : registry_env) := {
  api_ok : S → Prop;
  api_view : S → registry;
  api_law : ∀ c s, api_ok s →
    ∃ a s', invoke c s = (Ret a, s') ∧ api_ok s' ∧
      api_view s' = (registry_call e c (api_view s)).2 ∧
      matches (registry_call e c (api_view s)).1 a;
}.

(** ** The implementation *)

Section manager_impl.
Context `{UuidOps} `{RaftParams}.
Context (lib : grpc_lib) (env : app_env) (ops : raft_ops).
Context (make_srv_config : Z → string → srv_config).
Context (load_config : N → option (list srv_config)) (get_logstore_id : N → Z).

(** A call that goes through [_mesg_service]. *)
Definition on_service {A : Type} (f : service_cfg → M world A) : M manager A := λ mg,
  match mesg_service (mg_server mg) with
  | None => (Ub "null _mesg_service", mg)
  | Some enabled =>
      in_world (f (mkServiceCfg (mg_srv_id mg) enabled (default_group_type_ (mg_params mg)))) mg
  end.

(** [ManagerImpl : Manager], in a release build; nothing else happens while a call
    waits. *)
Definition ManagerImpl : Manager manager := {|
  api_register_mgr_type t params := in_world (register_mgr_type true t params);
  api_lookup_state_manager g := in_world (lookup_state_manager g);
  api_create_group g t := on_service (λ cfg, create_group cfg env g t);
  api_join_group g t smgr := on_service (λ cfg, join_group cfg env g t (Some smgr));
  api_add_member g new_id := on_service (λ _, add_member ops make_srv_config g new_id []);
  api_add_member_config g c := on_service (λ _, add_member_config ops g c []);
  api_rem_member g old_id := on_service (λ _, rem_member ops g old_id);
  api_become_leader g := in_world (become_leader g);
  api_append_entries g buf := on_service (λ _, append_entries ops g buf);
  api_get_srv_config_all g := λ mg, (get_srv_config_all g mg, mg);
  api_leave_group g := in_world (leave_group env g);
  api_append_peers g servers := in_world (append_peers load_config g servers);
  api_logstore_id g := in_world (logstore_id get_logstore_id g);
  api_server_id := gets mg_srv_id;
  api_restart_server := in_server (restart_server lib);
  api_bind_data_service_request name g handler :=
    in_server (bind_data_service_request lib name g handler);
|}.

(** ** Abstraction *)

Context (e : registry_env).

(** The groups the process leads. *)
Definition leads (w : world) : gset uuid := dom (filter (λ gb, gb.2 = true) (is_leader w)).

Definition world_view (methods : gset string) (w : world) : registry :=
  mkRegistry (dom (state_mgr_types w)) (omap id (state_managers w)) (dom (raft_servers w)) (leads w)
    methods.

Definition impl_view (mg : manager) : registry :=
  world_view (dom (request_map (mg_server mg))) (mg_world mg).

(** The state managers in the map exist. *)
Definition managers_ok (w : world) : Prop :=
  ∀ g v, state_managers w !! g = Some v → is_Some v.

Record impl_ok (mg : manager) : Prop := {
  io_id : mg_srv_id mg = re_id e;
  io_type : default_group_type_ (mg_params mg) = re_default_type e;
  io_service : mesg_service (mg_server mg) = Some (re_data e);
  io_server : re_data e = true → is_Some (ds_server (mg_server mg));
  io_managers : managers_ok (mg_world mg);
}.

(** The surroundings: the gRPC library does what it is asked, the application is there and
    makes state managers, NuRaft drops the listener on shutdown and gives commands
    results, and the endpoints in a configuration are UUIDs. *)
Record env_good : Prop := {
  eg_lib : make_server_ok lib = Ret true ∧
           (∀ n, accepts_async_service lib n = true) ∧ (∀ n, accepts_raft_step lib n = true) ∧
           (∀ n, accepts_generic_service lib n = true) ∧
           (∀ n name, accepts_generic_rpc lib n name = true);
  eg_alive : manager_alive env = true;
  eg_releases : releases_listener env = true;
  eg_create : ∃ create, create_state_mgr env = Some create ∧
              ∀ g, create (re_id e) g = Some (re_make e g);
  eg_ops : ops_ok ops;
  eg_logstore : ∀ sm, get_logstore_id sm = re_logstore e sm;
  eg_peers : ∀ sm, match load_config sm with
                   | None => re_peers e sm = []
                   | Some cfgs => mapM (λ c, string_generator (sc_endpoint c)) cfgs = Some (re_peers e sm)
                   end;
}.

(** A call that returns [a] and moves the view to [r]. *)
Definition world_law {A : Type} (m : M world A) (w : world) (methods : gset string)
    (P : A → Prop) (r : registry) : Prop :=
  ∃ a w', m w = (Ret a, w') ∧ managers_ok w' ∧ P a ∧ world_view methods w' = r.
End manager_impl.

(** ** The implementation keeps the promise *)

Section impl_lemmas.
Context `{UuidOps} `{RaftParams}.
Context (lib : grpc_lib) (env : app_env) (ops : raft_ops).
Context (make_srv_config : Z → string → srv_config).
Context (load_config : N → option (list srv_config)) (get_logstore_id : N → Z).
Context (e : registry_env).
Context (Hgood : env_good lib env ops load_config get_logstore_id e).
Implicit Types (w : world) (g : uuid) (ms : gset string).

Lemma managers_view w g :
  managers_ok w → state_managers w !! g = Some <$> (omap id (state_managers w) !! g).
Proof.
  intros Hw. rewrite lookup_omap. destruct (state_managers w !! g) as [v|] eqn:Hg; [|done].
  by destruct (Hw g v Hg) as [sm ->].
Qed.

Lemma managers_ok_insert w w' g sm :
  managers_ok w → state_managers w' = <[g := Some sm]> (state_managers w) → managers_ok w'.
Proof.
  intros Hw Heq g' v. rewrite Heq, lookup_insert_Some. intros [[_ <-]|[_ Hv]]; [done|]. by eapply Hw.
Qed.

Lemma managers_ok_delete w w' g :
  managers_ok w → state_managers w' = delete g (state_managers w) → managers_ok w'.
Proof. intros Hw Heq g' v. rewrite Heq, lookup_delete_Some. intros [_ Hv]. by eapply Hw. Qed.

(** Calls that only add to the trace. *)
Lemma traced_law {A : Type} (m : M world A) w ms (P : A → Prop) es a :
  managers_ok w → m w = (Ret a, traced es w) → P a → world_law m w ms P (world_view ms w).
Proof. intros Hw Hm HP. by exists a, (traced es w). Qed.

Lemma join_served cfg srv_id g t n w :
  raft_servers w !! g = Some n → joinRaftGroup cfg env srv_id g t w = (Ret code.OK, w).
Proof.
  intros Hs. unfold joinRaftGroup, join_prepare, mbind, M_bind, gets.
  rewrite (eg_alive _ _ _ _ _ _ Hgood). cbn [negb]. by rewrite Hs.
Qed.

Lemma join_unknown cfg srv_id g t w :
  raft_servers w !! g = None → state_mgr_types w !! join_type cfg t = None →
  joinRaftGroup cfg env srv_id g t w = (Ret code.SERVER_NOT_FOUND, w).
Proof.
  intros Hs Ht. unfold joinRaftGroup, join_prepare, mbind, M_bind, gets.
  rewrite (eg_alive _ _ _ _ _ _ Hgood). cbn [negb]. rewrite Hs. fold (join_type cfg t).
  by rewrite group_init_unknown.
Qed.

Lemma join_law cfg g t w ms :
  _default_group_type cfg = re_default_type e → managers_ok w →
  world_law (joinRaftGroup cfg env (re_id e) g t) w ms
    (λ c, c = (registry_join e g t (world_view ms w)).1) (registry_join e g t (world_view ms w)).2.
Proof.
  intros Hd Hw. unfold registry_join, world_law. rewrite <- Hd. fold (join_type cfg t).
  cbn [rg_served rg_types rg_managers world_view].
  destruct (raft_servers w !! g) as [n|] eqn:Hs.
  { rewrite decide_True by by apply elem_of_dom_2 in Hs. exists code.OK, w.
    by rewrite (join_served cfg (re_id e) g t n w Hs). }
  rewrite decide_False by by apply not_elem_of_dom.
  destruct (state_mgr_types w !! join_type cfg t) as [params|] eqn:Ht.
  - rewrite decide_True by by apply elem_of_dom_2 in Ht.
    destruct (eg_create _ _ _ _ _ _ Hgood) as (create & Hc & Hmk).
    set (sm := default (re_make e g) (omap id (state_managers w) !! g)).
    assert (resolve env (re_id e) g w = Some sm) as Hsm.
    { unfold resolve, sm. rewrite (managers_view w g Hw).
      destruct (omap id (state_managers w) !! g); [done|]. cbn. rewrite Hc. apply Hmk. }
    rewrite (joinRaftGroup_run cfg env (re_id e) g t params sm w
               (eg_alive _ _ _ _ _ _ Hgood) Hs Ht Hsm).
    eexists _, _. split; [done|]. split; [by eapply (managers_ok_insert w)|]. split; [done|].
    unfold world_view. cbn. f_equal; [|by rewrite dom_insert_L].
    by rewrite (omap_insert_Some _ _ _ _ sm).
  - rewrite decide_False by by apply not_elem_of_dom. exists code.SERVER_NOT_FOUND, w.
    by rewrite (join_unknown cfg (re_id e) g t w Hs Ht).
Qed.

(** A flag that is [false], added where there was none. *)
Lemma leads_false w w' g :
  is_leader w !! g = None → is_leader w' = <[g := false]> (is_leader w) → leads w' = leads w.
Proof.
  intros Hg Heq. unfold leads. rewrite Heq, map_filter_insert_False by done. by rewrite delete_id.
Qed.

Lemma register_law t params w ms :
  managers_ok w →
  world_law (register_mgr_type true t params) w ms (λ _, True)
    (registry_call e (RegisterMgrType t params) (world_view ms w)).2.
Proof.
  intros Hw. unfold register_mgr_type, mbind, M_bind, gets, modify. unfold world_law. cbn.
  destruct (emplace t params (state_mgr_types w)) as [m b] eqn:He. cbn.
  exists tt, (set_types m w). split; [done|]. split; [done|]. split; [done|].
  unfold world_view. cbn. f_equal. destruct (state_mgr_types w !! t) as [p|] eqn:Ht.
  - rewrite (emplace_Some _ _ _ _ Ht) in He. injection He as <- <-.
    apply elem_of_dom_2 in Ht. set_solver.
  - rewrite (emplace_None _ _ _ Ht) in He. injection He as <- <-. apply dom_insert_L.
Qed.

Lemma create_law cfg g t w ms :
  _srv_id cfg = re_id e → _default_group_type cfg = re_default_type e → managers_ok w →
  let spec := registry_call e (CreateGroup g t) (world_view ms w) in
  world_law (create_group cfg env g t) w ms (λ a, spec.1 = Some (AAsync a)) spec.2.
Proof.
  intros Hid Hd Hw spec. set (w1 := set_leader (emplace g false (is_leader w)).1 w).
  assert (world_view ms w1 = world_view ms w) as Hview.
  { unfold world_view. f_equal. unfold w1. destruct (is_leader w !! g) as [b|] eqn:Hg.
    - by rewrite (emplace_Some _ _ _ _ Hg).
    - rewrite (emplace_None _ _ _ Hg). by apply (leads_false w _ g Hg). }
  destruct (join_law cfg g t w1 ms Hd Hw) as (c & w' & Hj & Hw' & Hc & Hv).
  rewrite Hview in Hc, Hv. subst c spec. cbn.
  destruct (registry_join e g t (world_view ms w)) as [err r].
  exists (if decide (err ≠ code.OK) then Immediate (Unexpected err) else Deferred), w'.
  split; [|done]. unfold create_group, mbind, M_bind, modify. fold w1. by rewrite Hid, Hj.
Qed.

Lemma join_group_law cfg g t sm w ms :
  _srv_id cfg = re_id e → _default_group_type cfg = re_default_type e → managers_ok w →
  let spec := registry_call e (JoinGroup g t sm) (world_view ms w) in
  world_law (join_group cfg env g t (Some sm)) w ms (λ a, spec.1 = Some (AResult a)) spec.2.
Proof.
  intros Hid Hd Hw spec. set (w1 := set_managers (emplace g (Some sm) (state_managers w)).1 w).
  assert (managers_ok w1 ∧ world_view ms w1 =
          with_managers (emplace g sm (rg_managers (world_view ms w))).1 (world_view ms w)) as [Hw1 Hview].
  { unfold w1. pose proof (managers_view w g Hw) as Hg.
    destruct (omap id (state_managers w) !! g) as [sm'|] eqn:Ho; cbn in Hg.
    - rewrite (emplace_Some _ _ _ _ Hg). cbn. by rewrite (emplace_Some _ _ _ _ Ho).
    - rewrite (emplace_None _ _ _ Hg). cbn. rewrite (emplace_None _ _ _ Ho).
      split; [by eapply (managers_ok_insert w)|]. unfold world_view. cbn.
      by rewrite (omap_insert_Some _ _ _ _ sm). }
  destruct (join_law cfg g t w1 ms Hd Hw1) as (c & w' & Hj & Hw' & Hc & Hv).
  rewrite Hview in Hc, Hv. subst c spec. cbn [registry_call].
  destruct (registry_join e g t _) as [err r]. cbn [fst snd] in *.
  unfold join_group, world_law, mbind, M_bind, modify at 1. fold w1. rewrite Hid, Hj.
  destruct (decide (err ≠ code.OK)); [|by exists (Value tt), w'].
  exists (Unexpected err), (set_managers (delete g (state_managers w')) w').
  split; [done|]. split; [by eapply (managers_ok_delete w')|]. split; [done|].
  unfold world_view. subst r. cbn. by rewrite omap_delete.
Qed.

Lemma leave_law g w ms :
  managers_ok w →
  world_law (leave_group env g) w ms (λ _, True)
    (registry_call e (LeaveGroup g) (world_view ms w)).2.
Proof.
  intros Hw. cbn. pose proof (managers_view w g Hw) as Hg.
  destruct (omap id (state_managers w) !! g) as [sm|] eqn:Ho; cbn in Hg.
  - destruct (leave_run env g w sm Hg) as (w' & Hl & Hm & Hs & Hf & Ht & _).
    rewrite (eg_releases _ _ _ _ _ _ Hgood) in Hs.
    exists tt, w'. split; [done|]. split; [by eapply (managers_ok_delete w)|]. split; [done|].
    unfold world_view, leads. rewrite Hm, Hs, Hf, Ht. by rewrite omap_delete, dom_delete_L.
  - exists tt, w. split; [|done]. unfold leave_group, mbind, M_bind, gets. by rewrite Hg.
Qed.

Lemma leader_law g w ms :
  managers_ok w →
  let spec := registry_call e (LeaderOf g) (world_view ms w) in
  world_law (become_leader g) w ms (λ a, spec.1 = Some (AAsync a)) spec.2.
Proof.
  intros Hw spec. unfold world_law, become_leader, leader_flag, index_or, mbind, M_bind, gets, modify.
  assert (∀ b, is_leader w !! g = Some b → g ∈ leads w ↔ b = true) as Hl.
  { intros b Hb. unfold leads. rewrite elem_of_dom. unfold is_Some. setoid_rewrite map_lookup_filter_Some. cbn. naive_solver. }
  subst spec. cbn. destruct (is_leader w !! g) as [b|] eqn:Hg.
  - cbn. eexists _, w. split; [by destruct w|]. split; [done|]. split; [|done].
    f_equal. f_equal. specialize (Hl b eq_refl). destruct b; case_decide; naive_solver.
  - cbn. eexists _, _. split; [done|]. split; [done|]. split.
    + rewrite decide_False; [done|]. unfold leads. rewrite elem_of_dom. intros [b Hb].
      apply map_lookup_filter_Some in Hb. naive_solver.
    + unfold world_view. f_equal. by apply (leads_false w _ g Hg).
Qed.

(** ** Commands *)

Lemma continue_returns ef answer w :
  answers answer is_Some → ∃ r es, continue_resp (raft_call ef answer) w = (Ret r, traced es w).
Proof.
  intros Ha. pose proof (continue_resp_run ef answer w) as Hr. cbn zeta in Hr.
  pose proof (Ha (trace w)) as H1. pose proof (Ha (trace w ++ [ef])) as H2.
  destruct (answer (trace w)) as [o|x|x]; [|by eauto|done]. destruct H1 as [r ->].
  destruct (decide _); [by eauto|].
  destruct (answer (trace w ++ [ef])) as [o|x|x]; [|by eauto|done]. destruct H2 as [r' ->]. eauto.
Qed.

Lemma command_law g (f : N → M world NullResult) w ms :
  managers_ok w → (∀ n, ∃ r es, f n w = (Ret r, traced es w)) →
  world_law (servers ← gets raft_servers;
             match servers !! g with
             | Some n => f n
             | None => mret (Unexpected code.SERVER_NOT_FOUND)
             end) w ms
    (λ a, matches (registry_command g (world_view ms w)) (AResult a)) (world_view ms w).
Proof.
  intros Hw Hf. unfold world_law, mbind, M_bind, gets, registry_command. cbn.
  destruct (raft_servers w !! g) as [n|] eqn:Hs.
  - destruct (Hf n) as (r & es & Hr). rewrite decide_True by by apply elem_of_dom_2 in Hs.
    by exists r, (traced es w).
  - rewrite decide_False by by apply not_elem_of_dom. by eexists _, w.
Qed.

Lemma in_config_run g endpoint w : ∃ b, in_config g endpoint w = (Ret b, w).
Proof.
  unfold in_config, svc_get_srv_config_all, mbind, M_bind, gets. simpl.
  destruct (raft_servers w !! g); by eexists.
Qed.

Lemma add_member_law g c w ms :
  managers_ok w →
  world_law (add_member_config ops g c []) w ms
    (λ a, matches (registry_command g (world_view ms w)) (AResult a)) (world_view ms w).
Proof.
  intros Hw. destruct (eg_ops _ _ _ _ _ _ Hgood) as (Hadd & _).
  destruct (command_law g (λ n, continue_resp (server_add_srv ops n c)) w ms Hw)
    as (r & w1 & Hr & Hw1 & Hm & Hv).
  { intros n. apply continue_returns, Hadd. }
  change (svc_add_member ops g c w = (Ret r, w1)) in Hr.
  unfold add_member_config, world_law. rewrite (run_bind _ _ _ _ _ Hr).
  destruct r as [u|err]; [|by exists (Unexpected err), w1].
  unfold registry_command in *. destruct (decide (g ∈ _)); [|done].
  destruct (in_config_run g (sc_endpoint c) w1) as [b Hb].
  assert (wait_for (in_config g (sc_endpoint c)) [] w1 = (Ret b, w1)) as Hwait.
  { unfold wait_for. rewrite (run_bind _ _ _ _ _ Hb). by destruct b. }
  rewrite (run_bind _ _ _ _ _ Hwait). by eexists _, w1.
Qed.

Lemma rem_member_law g old_id w ms :
  managers_ok w →
  world_law (rem_member ops g old_id) w ms
    (λ a, matches (registry_command g (world_view ms w)) (AResult a)) (world_view ms w).
Proof.
  intros Hw. destruct (eg_ops _ _ _ _ _ _ Hgood) as (_ & Hrem & _).
  apply command_law; [done|]. intros n. apply continue_returns, Hrem.
Qed.

Lemma append_entries_law g buf w ms :
  managers_ok w →
  world_law (append_entries ops g buf) w ms
    (λ a, matches (registry_command g (world_view ms w)) (AResult a)) (world_view ms w).
Proof.
  intros Hw. destruct (eg_ops _ _ _ _ _ _ Hgood) as (_ & _ & Happ & _).
  apply command_law; [done|]. intros n. apply continue_returns, Happ.
Qed.

Lemma append_peers_law g servers w ms :
  managers_ok w →
  let spec := registry_call e (AppendPeers g servers) (world_view ms w) in
  world_law (append_peers load_config g servers) w ms (λ a, spec.1 = Some (APeers a)) spec.2.
Proof.
  intros Hw spec. subst spec. unfold world_law, append_peers, mbind, M_bind, gets. cbn.
  rewrite (managers_view w g Hw). destruct (omap id (state_managers w) !! g) as [sm|]; cbn.
  2:{ eexists _, w. rewrite app_nil_r. done. }
  pose proof (eg_peers _ _ _ _ _ _ Hgood sm) as Hp. destruct (load_config sm) as [cfgs|].
  - rewrite Hp. by eexists _, w.
  - rewrite Hp, app_nil_r. by eexists _, w.
Qed.

Lemma logstore_law g w ms :
  managers_ok w →
  let spec := registry_call e (LogstoreId g) (world_view ms w) in
  world_law (logstore_id get_logstore_id g) w ms (λ a, spec.1 = Some (ANumber a)) spec.2.
Proof.
  intros Hw spec. subst spec. unfold world_law, logstore_id, mbind, M_bind, gets. cbn.
  rewrite (managers_view w g Hw). destruct (omap id (state_managers w) !! g) as [sm|]; cbn.
  - rewrite (eg_logstore _ _ _ _ _ _ Hgood). by eexists _, w.
  - by eexists _, w.
Qed.

Lemma lookup_law g w ms :
  managers_ok w →
  let spec := registry_call e (LookupStateManager g) (world_view ms w) in
  world_law (lookup_state_manager g) w ms (λ a, spec.1 = Some (AManager a)) spec.2.
Proof.
  intros Hw spec. subst spec. unfold world_law, lookup_state_manager, gets. cbn.
  rewrite (managers_view w g Hw). eexists _, w. split; [done|]. split; [done|]. split; [|done].
  by destruct (omap id (state_managers w) !! g).
Qed.

(** ** Calls on the manager *)

#[local] Instance impl : Manager manager :=
  ManagerImpl lib env ops make_srv_config load_config get_logstore_id.

Implicit Types mg : manager.

(** What a call must do, for the answer [f a] of its result [a]. *)
Definition lawful {A : Type} (m : M manager A) (f : A → api_answer) (c : api_call) mg : Prop :=
  let spec := registry_call e c (impl_view mg) in
  ∃ a mg', m mg = (Ret a, mg') ∧ impl_ok e mg' ∧ impl_view mg' = spec.2 ∧ matches spec.1 (f a).

Lemma in_world_lawful {A : Type} (m : M world A) f c mg (P : A → Prop) :
  impl_ok e mg →
  let spec := registry_call e c (impl_view mg) in
  world_law m (mg_world mg) (dom (request_map (mg_server mg))) P spec.2 →
  (∀ a, P a → matches spec.1 (f a)) → lawful (in_world m) f c mg.
Proof.
  intros [Hid Ht Hs Hds Hm] spec (a & w' & Hrun & Hw' & HP & Hv) Hf. unfold lawful, in_world.
  rewrite Hrun. eexists a, _. split; [done|]. split; [by split|]. split; [exact Hv|by apply Hf].
Qed.

Lemma on_service_lawful {A : Type} (k : service_cfg → M world A) f c mg (P : A → Prop) :
  impl_ok e mg →
  let spec := registry_call e c (impl_view mg) in
  (∀ cfg, _srv_id cfg = re_id e → _default_group_type cfg = re_default_type e →
     world_law (k cfg) (mg_world mg) (dom (request_map (mg_server mg))) P spec.2) →
  (∀ a, P a → matches spec.1 (f a)) → lawful (on_service k) f c mg.
Proof.
  intros Hok spec Hk Hf. unfold lawful, on_service. rewrite (io_service _ _ Hok).
  eapply in_world_lawful; [done| |done]. apply Hk; simpl; apply Hok.
Qed.

Lemma restart_lawful mg :
  impl_ok e mg → lawful (in_server (restart_server lib)) (λ _, AUnit) RestartServer mg.
Proof.
  intros [Hid Ht Hs Hds Hm]. destruct (eg_lib _ _ _ _ _ _ Hgood) as (Hmk & Has & Hrs & Hgs & Hrpc).
  unfold lawful, in_server. rewrite (restart_runs lib (mg_server mg) (re_data e)) by auto.
  eexists _, _. split; [done|]. split; [|done]. split; simpl; try done.
  destruct (re_data e); [by eexists|done].
Qed.

Lemma bind_lawful name g h mg :
  impl_ok e mg →
  lawful (in_server (bind_data_service_request lib name g h)) ABool (BindDataServiceRequest name g h) mg.
Proof.
  intros [Hid Ht Hs Hds Hm]. destruct (eg_lib _ _ _ _ _ _ Hgood) as (_ & _ & _ & _ & Hrpc).
  unfold lawful, in_server, bind_data_service_request, mbind, M_bind, gets. rewrite Hs. cbn [deref].
  cbn [registry_call]. destruct (re_data e) eqn:Hd; cbn.
  2:{ eexists _, _. split; [done|]. split; [by split; rewrite ?Hd|done]. }
  destruct (Hds eq_refl) as [n Hn]. unfold ds_bind, mbind, M_bind, gets. rewrite Hn. cbn.
  destruct h as [cb|]; cbn.
  2:{ eexists _, _. split; [done|]. split; [by split; rewrite ?Hd|done]. }
  set (nm := get_generic_method_name name g).
  destruct (request_map (mg_server mg) !! nm) as [old|] eqn:Hl.
  - rewrite (emplace_Some _ _ _ _ Hl), bool_decide_false by (apply elem_of_dom_2 in Hl; tauto). cbn.
    eexists _, _. split; [done|]. split; [by split; rewrite ?Hd|done].
  - rewrite (emplace_None _ _ _ Hl), bool_decide_true by by apply not_elem_of_dom. cbn.
    rewrite Hrpc. cbn. eexists _, _. split; [done|].
    split; [by split; simpl; rewrite ?Hd, ?Hn|]. split; [|done].
    unfold impl_view, world_view. cbn. by rewrite dom_insert_L.
Qed.

Lemma configs_lawful g mg :
  impl_ok e mg → lawful (λ mg, (get_srv_config_all g mg, mg)) AConfigs (GetSrvConfigAll g) mg.
Proof.
  intros Hok. unfold lawful, get_srv_config_all. rewrite (io_service _ _ Hok).
  unfold svc_get_srv_config_all, mbind, M_bind, gets. cbn.
  destruct (raft_servers (mg_world mg) !! g) as [n|] eqn:Hs; cbn.
  - rewrite decide_True by by apply elem_of_dom_2 in Hs. by eexists _, mg.
  - rewrite decide_False by by apply not_elem_of_dom. by eexists _, mg.
Qed.

#[local] Ltac answered := intros ? Ha; unfold impl_view; by rewrite Ha.

(** Every call is lawful. *)
Lemma invoke_lawful c mg : impl_ok e mg → lawful (invoke c) id c mg.
Proof.
  intros Hok. pose proof (io_managers _ _ Hok) as Hm.
  assert (∀ {A : Type} (m : M manager A) f, lawful m f c mg → lawful (f <$> m) id c mg) as Hmap.
  { intros A m f (a & mg' & Hr & ? & ? & ?). exists (f a), mg'. by rewrite (run_fmap _ _ _ _ _ Hr). }
  assert (∀ (m : M manager unit), lawful m (λ _, AUnit) c mg → lawful (m;; mret AUnit) id c mg) as Hunit.
  { intros m (a & mg' & Hr & ? & ? & ?). exists AUnit, mg'. by rewrite (run_bind _ _ _ _ _ Hr). }
  destruct c; cbn [invoke]; (apply Hmap || apply Hunit);
    [eapply in_world_lawful; [done|by apply register_law|done]
    |eapply in_world_lawful; [done|by apply lookup_law|answered]
    |eapply on_service_lawful; [done|by intros; apply create_law|answered]
    |eapply on_service_lawful; [done|by intros; apply join_group_law|answered]
    |eapply on_service_lawful; [done|by intros; apply add_member_law|done]
    |eapply on_service_lawful; [done|by intros; apply add_member_law|done]
    |eapply on_service_lawful; [done|by intros; apply rem_member_law|done]
    |eapply in_world_lawful; [done|by apply leader_law|answered]
    |eapply on_service_lawful; [done|by intros; apply append_entries_law|done]
    |by apply configs_lawful
    |eapply in_world_lawful; [done|by apply leave_law|done]
    |eapply in_world_lawful; [done|by apply append_peers_law|answered]
    |eapply in_world_lawful; [done|by apply logstore_law|answered]
    |eexists _, mg; split_and!; [done|done|done|cbn; by rewrite (io_id _ _ Hok)]
    |by apply restart_lawful
    |by apply bind_lawful].
Qed.
End impl_lemmas.

(** [ManagerImpl] keeps the promise of [Manager]. *)
Definition ManagerImpl_spec `{UuidOps} `{RaftParams} lib env ops make_srv_config load_config
    get_logstore_id (e : registry_env) (Hgood : env_good lib env ops load_config get_logstore_id e)
  : @ManagerSpec _ _ manager (ManagerImpl lib env ops make_srv_config load_config get_logstore_id) e := {|
  api_ok := impl_ok e;
  api_view := impl_view;
  api_law := invoke_lawful lib env ops make_srv_config load_config get_logstore_id e Hgood;
|}.

(** ** Clients *)

Section clients.
Context `{UuidOps} `{RaftParams} {S : Type} `{!Manager S} (e : registry_env) `{!ManagerSpec S e}.
Implicit Types (cs : list api_call) (r : registry) (s : S).

Lemma session_law cs s :
  api_ok s →
  ∃ l s', session cs s = (Ret l, s') ∧ api_ok s' ∧
    api_view s' = (registry_session e cs (api_view s)).2 ∧
    Forall2 matches (registry_session e cs (api_view s)).1 l.
Proof.
  revert s. induction cs as [|c cs IH]; intros s Hok.
  { exists [], s. repeat split; [done|constructor]. }
  destruct (api_law c s Hok) as (a & s1 & Hc & Hok1 & Hv1 & Hm1).
  destruct (IH s1 Hok1) as (l & s2 & Hl & Hok2 & Hv2 & Hm2).
  exists (a :: l), s2. cbn [session registry_session].
  rewrite (run_bind _ _ _ _ _ Hc), (run_bind _ _ _ _ _ Hl). split; [done|]. split; [done|].
  rewrite Hv1 in Hv2, Hm2. destruct (registry_call e c (api_view s)) as [a' r1]. cbn [fst snd] in *.
  destruct (registry_session e cs r1) as [l' r2]. split; [done|by constructor].
Qed.

Lemma registry_join_wf g t r : registry_wf r → registry_wf (registry_join e g t r).2.
Proof.
  unfold registry_join, registry_wf. intros Hr.
  destruct (decide (g ∈ rg_served r)); [done|]. destruct (decide (_ ∈ rg_types r)); [|done]. simpl.
  rewrite dom_insert_L. set_solver.
Qed.

Lemma registry_call_wf c r : registry_wf r → registry_wf (registry_call e c r).2.
Proof.
  intros Hr. destruct c; cbn [registry_call]; try done.
  - pose proof (registry_join_wf g group_type r Hr). by destruct (registry_join e g group_type r).
  - set (r1 := with_managers _ r). assert (registry_wf r1) as Hr1.
    { unfold registry_wf, r1 in *. cbn. destruct (rg_managers r !! g) as [sm|] eqn:Hg.
      - by rewrite (emplace_Some _ _ _ _ Hg).
      - rewrite (emplace_None _ _ _ Hg). cbn. rewrite dom_insert_L. set_solver. }
    pose proof (registry_join_wf g group_type r1 Hr1) as Hr2. unfold registry_join in *.
    destruct (decide (g ∈ rg_served r1)) as [Hin|Hin]; [done|].
    destruct (decide (_ ∈ rg_types r1)); [done|]. rewrite decide_True by done.
    unfold registry_wf in *. cbn in *. rewrite dom_delete_L. set_solver.
  - unfold registry_wf in *. destruct (rg_managers r !! g); cbn; [|done].
    rewrite dom_delete_L. set_solver.
  - by destruct (re_data e && _ && _).
Qed.

Lemma registry_session_wf cs r : registry_wf r → registry_wf (registry_session e cs r).2.
Proof.
  revert r. induction cs as [|c cs IH]; intros r Hr; [done|]. cbn [registry_session].
  pose proof (registry_call_wf c r Hr) as Hr1. destruct (registry_call e c r) as [a r1].
  pose proof (IH r1 Hr1). by destruct (registry_session e cs r1).
Qed.
End clients.

(** ** Properties *)

Section api_theorems.
Context `{UuidOps} `{RaftParams}.

(** C3: A new manager keeps every promise of the interface: whatever sequence of calls the
    application makes, all of them return, with the answers of a registry that starts
    empty, and the manager's groups, leaderships and methods are the registry's. *)
Theorem manager_implements_registry (lib : grpc_lib) (env : app_env) (ops : raft_ops)
    (make_srv_config : Z → string → srv_config) (load_config : N → option (list srv_config))
    (get_logstore_id : N → Z) (e : registry_env) (cfg : mesg_settings) (creates : string → bool)
    (p : Params) (with_data_svc : bool) (g g' : globals) (m : manager) (cs : list api_call) :
  env_good lib env ops load_config get_logstore_id e →
  re_id e = to_server_id (server_uuid_ p) → re_default_type e = default_group_type_ p →
  re_data e = with_data_svc →
  init_messaging lib cfg creates p true with_data_svc g = (Ret m, g') →
  ∃ l m', @session _ _ _ (ManagerImpl lib env ops make_srv_config load_config get_logstore_id) cs m
          = (Ret l, m') ∧
    impl_view m' = (registry_session e cs empty_registry).2 ∧
    Forall2 matches (registry_session e cs empty_registry).1 l.
Proof.
  intros Hgood Hid Hdt <- Hi. apply init_messaging_run in Hi as (m0 & Hnew & Hs & Hm).
  destruct (ManagerImpl_new_run cfg creates p g) as (m1 & g1 & Hnew1 & Hp & Hsrv & _ & Hw & _).
  rewrite Hnew1 in Hnew. injection Hnew as -> ->.
  destruct (eg_lib _ _ _ _ _ _ Hgood) as (Hmk & Has & Hrs & Hgs & Hrpc).
  change (restart_server lib (with_service (re_data e) stopped) = (Ret tt, mg_server m)) in Hs.
  rewrite (restart_runs lib _ (re_data e)) in Hs by auto. injection Hs as Hs.
  assert (impl_ok e m) as Hok.
  { rewrite Hm. split; cbn; rewrite ?Hsrv, ?Hp, ?Hw, <- ?Hs; [done|done|done| |by intros ?].
    intros ->. by eexists. }
  assert (impl_view m = empty_registry) as Hview by by rewrite Hm; unfold impl_view; cbn; rewrite Hw, <- Hs.
  rewrite <- Hview. set (spec := ManagerImpl_spec lib env ops make_srv_config load_config
                                   get_logstore_id e Hgood).
  destruct (session_law e (ManagerSpec0 := spec) cs m Hok) as (l & m' & Hl & _ & Hv & Hf). eauto.
Qed.

(** For every implementation of the interface: after any session, a group that is served
    can be looked up. *)
Theorem served_groups_managed {S : Type} `{!Manager S} (e : registry_env) `{!ManagerSpec S e}
    (cs : list api_call) (s : S) (g : uuid) :
  api_ok s → registry_wf (api_view s) →
  ∃ l s', session cs s = (Ret l, s') ∧
    (g ∈ rg_served (api_view s') →
     ∃ sm s'', invoke (LookupStateManager g) s' = (Ret (AManager (Some sm)), s'')).
Proof.
  intros Hok Hwf. destruct (session_law e cs s Hok) as (l & s' & Hl & Hok' & Hv & _).
  exists l, s'. split; [done|]. intros Hg.
  pose proof (registry_session_wf e cs _ Hwf) as Hwf'. rewrite <- Hv in Hwf'.
  apply Hwf', elem_of_dom in Hg as [sm Hsm].
  destruct (api_law (LookupStateManager g) s' Hok') as (a & s'' & Hr & _ & _ & Ha).
  cbn in Ha. rewrite Hsm in Ha. subst a. eauto.
Qed.

(** For every implementation: a new group can be created and left again; in between it has
    the application's state manager, and afterwards nothing is left of it. *)
Theorem create_leave_roundtrip {S : Type} `{!Manager S} (e : registry_env) `{!ManagerSpec S e}
    (s : S) (g : uuid) (t : string) :
  api_ok s → t ≠ EmptyString → t ∈ rg_types (api_view s) → (g ∉ rg_served (api_view s)) →
  rg_managers (api_view s) !! g = None →
  ∃ s', session [CreateGroup g t; LookupStateManager g; LeaveGroup g; LookupStateManager g] s =
        (Ret [AAsync Deferred; AManager (Some (re_make e g)); AUnit; AManager None], s') ∧
        api_view s' = api_view s.
Proof.
  intros Hok Hne Ht Hg Hm.
  set (cs := [CreateGroup g t; LookupStateManager g; LeaveGroup g; LookupStateManager g]).
  destruct (session_law e cs s Hok) as (l & s' & Hl & _ & Hv & Hf). exists s'.
  assert (registry_session e cs (api_view s) =
          ([Some (AAsync Deferred); Some (AManager (Some (re_make e g))); Some AUnit;
            Some (AManager None)], api_view s)) as Hspec.
  { unfold cs. cbn. unfold registry_join.
    rewrite (decide_False (P := t = EmptyString)), decide_False, decide_True by done. cbn.
    rewrite Hm, lookup_insert_eq. cbn. rewrite lookup_delete_eq. f_equal.
    destruct (api_view s) as [ts ms sv ls me]. cbn in *. f_equal.
    - by rewrite delete_insert_id.
    - set_solver. }
  rewrite Hspec in Hv, Hf. cbn in Hv, Hf. split; [|done]. rewrite Hl. do 2 f_equal.
  repeat match goal with H : Forall2 matches _ _ |- _ => inversion H; clear H; simplify_eq/= end.
  done.
Qed.
End api_theorems.

(** ** Witnesses *)

Module ManagerApiDemo.
Import Demo GroupsDemo ThreadsDemo LifecycleDemo.

Definition demo_env : registry_env :=
  mkRegistryEnv (H := demo_uuid_ops) (to_server_id (U1 : uuid)) "default" true (λ _, 100%N)
    (λ _, 7%Z) (λ _, []).

Lemma demo_env_good :
  env_good (demo_lib (Ret true)) demo_app demo_ops (λ _, None) (λ _, 7%Z) demo_env.
Proof.
  split; [done|done|done| |apply demo_ops_ok|done|done]. by eexists.
Qed.

#[local] Instance demo_impl : Manager manager :=
  ManagerImpl (demo_lib (Ret true)) demo_app demo_ops (λ id s, mkSrvConfig id 0 s EmptyString false 1 false)
    (λ _, None) (λ _, 7%Z).

#[local] Instance demo_spec : ManagerSpec manager demo_env :=
  ManagerImpl_spec _ _ _ _ _ _ demo_env demo_env_good.

Definition demo_session : list api_call :=
  [RegisterMgrType "default" 5; CreateGroup U2 ""; LookupStateManager U2;
   BindDataServiceRequest "read" U2 (Some 3%N); BindDataServiceRequest "read" U2 (Some 4%N);
   RestartServer; JoinGroup U0 "unknown" 8; LogstoreId U0; ServerId].

Definition demo_answers : list api_answer :=
  [AUnit; AAsync Deferred; AManager (Some 100%N); ABool true; ABool false; AUnit;
   AResult (Unexpected code.SERVER_NOT_FOUND); ANumber (2 ^ 32 - 1)%Z;
   ANumber (to_server_id (U1 : uuid))].

Lemma demo_registry :
  registry_session demo_env demo_session empty_registry =
  (Some <$> demo_answers,
   mkRegistry {["default"]} {[(U2 : uuid) := 100%N]} {[U2 : uuid]} ∅
     {[get_generic_method_name "read" (U2 : uuid)]}).
Proof. by vm_compute. Qed.

Lemma matches_all l l' : Forall2 matches (Some <$> l) l' → l' = l.
Proof.
  revert l'. induction l as [|a l IH]; intros l' Hf; inversion Hf as [|? a' ? ? Ha Hl]; [done|].
  cbn in Ha. rewrite Ha. f_equal. by apply IH.
Qed.

Lemma manager_implements_registry_witness :
  ∃ m g' m', demo_start (Ret true) = (Ret m, g') ∧ session demo_session m = (Ret demo_answers, m') ∧
    rg_served (impl_view m') = {[U2 : uuid]}.
Proof.
  destruct (demo_start (Ret true)) as [[m|x|x] g'] eqn:E; [|by vm_compute in E..].
  destruct (manager_implements_registry (demo_lib (Ret true)) demo_app demo_ops
              (λ id s, mkSrvConfig id 0 s EmptyString false 1 false) (λ _, None) (λ _, 7%Z)
              demo_env demo_settings (λ _, true) demo_manager_params true no_globals g' m demo_session
              demo_env_good eq_refl eq_refl eq_refl E) as (l & m' & Hl & Hv & Hf).
  rewrite demo_registry in Hv, Hf. apply matches_all in Hf as ->.
  exists m, g', m'. split; [done|]. split; [done|]. by rewrite Hv.
Defined.

(** A manager that has one type registered. *)
Definition typed_manager : manager :=
  mkManager demo_manager_params (to_server_id (U1 : uuid)) (mkGFactory "" None 0 0) None 1
    typed_world (mkServerState ∅ (Some 0%N) (Some true) (Some 0%N) 1 []).

Lemma typed_manager_ok : api_ok typed_manager.
Proof. split; [done|done|done|by eexists|]. intros g v Hv. by vm_compute in Hv. Qed.

Lemma served_groups_managed_witness :
  ∃ l s', session [CreateGroup U2 "default"; LeaveGroup U1] typed_manager = (Ret l, s') ∧
    (U2 ∈ rg_served (api_view s') →
     ∃ sm s'', invoke (LookupStateManager U2) s' = (Ret (AManager (Some sm)), s'')).
Proof.
  apply (served_groups_managed demo_env); [apply typed_manager_ok|]. apply empty_subseteq.
Defined.

Lemma create_leave_roundtrip_witness :
  ∃ s', session [CreateGroup U2 "default"; LookupStateManager U2; LeaveGroup U2;
                 LookupStateManager U2] typed_manager =
        (Ret [AAsync Deferred; AManager (Some 100%N); AUnit; AManager None], s') ∧
        api_view s' = api_view typed_manager.
Proof.
  apply (create_leave_roundtrip demo_env typed_manager U2 "default");
    [apply typed_manager_ok|done|by apply (bool_decide_unpack _)|apply not_elem_of_empty|done].
Defined.
End ManagerApiDemo.
