(* ===== verification/Settings.v ===== *)
(** * Settings

    The settings schema ([src/lib/nuraft_mesg_config.fbs]) with its defaults and field
    widths, the access macros ([src/lib/nuraft_mesg_config.hpp]), and what each part of
    the library is made with: the clients' deadlines ([DataPath]), the manager's worker
    threads ([Lifecycle]), the thread pools of the service ([RaftStep]). *)

From stdpp Require Import base gmap strings list numbers relations.
From S2P Require Import Prelude Types Codec Groups DataPath RaftStep DataService Lifecycle.

(** [NuraftMesgConfig], with [MesgFactoryConfig] inside. *)
Record NuraftMesgConfig := mkConfig {
  mesg_factory_config : mesg_cfg;
  cfg_grpc_raft_client_thread_cnt : Z;
  cfg_grpc_data_client_thread_cnt : Z;
  cfg_grpc_server_thread_cnt : Z;
  cfg_raft_leader_change_timeout_ms : Z;
  cfg_raft_scheduler_thread_cnt : Z;
  cfg_raft_append_entries_thread_cnt : Z;
  cfg_io_thread_pool_size : Z;
}.

Definition default_factory_config : mesg_cfg := mkCfg 2 2.
Definition default_config : NuraftMesgConfig := mkConfig default_factory_config 1 1 2 3200 2 2 0.

(** The settings of the process; [SETTINGS_INIT] starts from the defaults. *)
Definition settings_init : NuraftMesgConfig := default_config.

(** [NURAFT_MESG_CONFIG(path)]: the value of a field at the moment of the read. *)
Definition NURAFT_MESG_CONFIG {A : Type} (path : NuraftMesgConfig → A) : M NuraftMesgConfig A :=
  gets path.

(** The fields' types: [uint16], and [uint32] for the timeout and the I/O pool. *)
Definition uint16 (z : Z) : Prop := (0 ≤ z < 2 ^ 16)%Z.
Definition uint32 (z : Z) : Prop := (0 ≤ z < 2 ^ 32)%Z.

Record config_wf (c : NuraftMesgConfig) : Prop := {
  cw_raft_deadline : uint16 (raft_request_deadline_secs (mesg_factory_config c));
  cw_data_deadline : uint16 (data_request_deadline_secs (mesg_factory_config c));
  cw_raft_client : uint16 (cfg_grpc_raft_client_thread_cnt c);
  cw_data_client : uint16 (cfg_grpc_data_client_thread_cnt c);
  cw_server : uint16 (cfg_grpc_server_thread_cnt c);
  cw_timeout : uint32 (cfg_raft_leader_change_timeout_ms c);
  cw_scheduler : uint16 (cfg_raft_scheduler_thread_cnt c);
  cw_raft : uint16 (cfg_raft_append_entries_thread_cnt c);
  cw_io : uint32 (cfg_io_thread_pool_size c);
}.

(** ** What is made with them *)

(** The settings the manager's constructor reads. *)
Definition manager_settings : M NuraftMesgConfig mesg_settings :=
  raft ← NURAFT_MESG_CONFIG cfg_grpc_raft_client_thread_cnt;
  data ← NURAFT_MESG_CONFIG cfg_grpc_data_client_thread_cnt;
  scheduler ← NURAFT_MESG_CONFIG cfg_raft_scheduler_thread_cnt;
  mret (mkSettings raft data scheduler).

(** [msg_service::create], that is [proto_service::proto_service]: the two thread pools. *)
Definition create_service `{UuidOps} `{RaftParams} (w : world) : M NuraftMesgConfig service :=
  raft ← NURAFT_MESG_CONFIG cfg_raft_append_entries_thread_cnt;
  config_size ← NURAFT_MESG_CONFIG cfg_io_thread_pool_size;
  mret (start_service raft config_size w).

(** The wait of a future, in milliseconds. *)
Definition leader_change_timeout : M NuraftMesgConfig Z :=
  NURAFT_MESG_CONFIG cfg_raft_leader_change_timeout_ms.

(** ** Lemmas *)

Lemma default_config_wf : config_wf default_config.
Proof. split; cbn; unfold uint16, uint32; lia. Qed.

Lemma io_pool_size_bounds c :
  uint32 c → (1 ≤ calculate_io_pool_size c < 2 ^ 32)%Z.
Proof. unfold uint32, calculate_io_pool_size. intros Hc. case_decide; lia. Qed.

Section settings_lemmas.
Context `{UuidOps} `{MsgTypes} `{RaftParams}.

(** Without threads the RAFT pool runs nothing, and keeps what was posted to it. *)
Lemma raft_only_queued ion (s : service) t :
  service_inv 0 ion s → t ∈ tasks (raft_pool s) → t ∈ queue (raft_pool s).
Proof.
  intros Hi. pose proof (po_bound _ _ _ (si_raft _ _ _ Hi)) as Hb. unfold tasks.
  destruct (running (raft_pool s)) as [|r rs]; simpl in Hb; [by rewrite app_nil_r|lia].
Qed.

Lemma raft_queue_kept nd ops cfg addr ion (s s' : service) t :
  service_inv 0 ion s → service_step nd ops cfg addr s s' →
  t ∈ tasks (raft_pool s) → t ∈ tasks (raft_pool s').
Proof.
  intros Hi Hs Ht. destruct Hs as [env rpc request r w Hf Hrun|s1 [Hw|Hw]|w]; [| | |done].
  - destruct (receive_pools s w rpc request r (raftStep_cases _ _ _ _ _ _ _ Hrun))
      as [[_ Hsame]|([] & n & -> & Hpost & Hother)]; simpl in *.
    + pose proof (Hsame false) as Hf0. simpl in Hf0. by rewrite Hf0.
    + by rewrite Hother.
    + rewrite Hpost, post_tasks. by right.
  - exfalso. pose proof (po_size _ _ _ (si_raft _ _ _ Hi)) as Hz.
    pose proof (po_bound _ _ _ (si_raft _ _ _ Hi)) as Hb.
    destruct Hw as [p Hp|p t0 acts Hp _]; simpl in Hp.
    + destruct Hp as [n t0 q r0 a Hlt]. simpl in *. lia.
    + destruct Hp as [n q r1 t0 r2 a]. simpl in *. rewrite length_app in Hb. simpl in Hb. lia.
  - destruct (worker_step_work nd ops 0 ion true s s1 Hi Hw) as (_ & Ho & _). simpl in Ho. by rewrite Ho.
Qed.
End settings_lemmas.

(** ** Properties *)

Section settings_theorems.
Context `{UuidOps} `{MsgTypes} `{RaftParams}.

(** C33: Whatever the settings are, within the widths of their fields: the I/O pool has the
    configured number of threads, or 4 for 0, and never runs more tasks; the RAFT pool never
    runs more tasks than its setting; the counter of active RAFT threads is exact, and that of
    active I/O threads is exact as long as at most 2^31 - 1 tasks run, and wraps around above
    that, which a setting of 2^31 I/O threads or more allows. *)
Theorem configured_pools_bounded (nd : bool) (ops : step_ops) (cfg : service_cfg) (addr : uuid)
    (c c' : NuraftMesgConfig) (w : world) (s0 s : service) :
  config_wf c → create_service w c = (Ret s0, c') → rtc (service_step nd ops cfg addr) s0 s →
  let io_threads := if decide (cfg_io_thread_pool_size c = 0%Z) then 4%Z
                    else cfg_io_thread_pool_size c in
  let raft_running := Z.of_nat (length (running (raft_pool s))) in
  let io_running := Z.of_nat (length (running (io_pool s))) in
  pool_size (io_pool s) = io_threads ∧ (1 ≤ io_threads < 2 ^ 32)%Z ∧ (io_running ≤ io_threads)%Z ∧
  pool_size (raft_pool s) = cfg_raft_append_entries_thread_cnt c ∧
  (raft_running ≤ cfg_raft_append_entries_thread_cnt c < 2 ^ 16)%Z ∧
  active_threads (raft_pool s) = raft_running ∧
  (active_threads (io_pool s) = io_running ↔ (io_running < 2 ^ 31)%Z) ∧
  active_threads (io_pool s) = i32 io_running.
Proof.
  intros Hwf [= <- <-] Hs. pose proof (reachable_service nd ops cfg addr _ _ w s Hs) as [_ _ _ _ Hr Hio].
  destruct Hr as [Hrs _ Hrb Hra], Hio as [His _ Hib Hia].
  pose proof (cw_raft _ Hwf) as Hraft. pose proof (cw_io _ Hwf) as Hi. unfold uint16, uint32 in *. cbv zeta.
  assert (calculate_io_pool_size (cfg_io_thread_pool_size c) =
          if decide (cfg_io_thread_pool_size c = 0%Z) then 4%Z else cfg_io_thread_pool_size c) as Hsz.
  { unfold calculate_io_pool_size. repeat case_decide; lia. }
  rewrite Hsz in *. split; [done|]. split; [case_decide; lia|]. split; [case_decide; lia|].
  split; [done|]. split; [lia|]. split; [rewrite Hra, i32_id; unfold in_i32; lia|]. split; [|done].
  rewrite Hia. split.
  - intros Heq. pose proof (i32_range (Z.of_nat (length (running (io_pool s))))) as [_ ?]. lia.
  - intros Hlt. apply i32_id. unfold in_i32. lia.
Qed.

(** C35: A setting of 0 RAFT threads, which is no default as it is for the I/O pool: a message that
    is posted to the RAFT pool stays in its queue for ever and is never answered. *)
Theorem no_raft_threads_no_answers (nd : bool) (ops : step_ops) (cfg : service_cfg) (addr : uuid)
    (c c' : NuraftMesgConfig) (w : world) (s0 s s' : service) (t : task) :
  create_service w c = (Ret s0, c') → cfg_raft_append_entries_thread_cnt c = 0%Z →
  rtc (service_step nd ops cfg addr) s0 s → t ∈ tasks (raft_pool s) →
  rtc (service_step nd ops cfg addr) s s' →
  t ∈ queue (raft_pool s') ∧ tk_rpc t ∉ (responses s').*1.
Proof.
  intros [= <- <-] Hz Hs Ht Hs'. pose proof (reachable_service nd ops cfg addr _ _ w s Hs) as Hi.
  rewrite Hz in Hi. clear Hs.
  assert (t ∈ tasks (raft_pool s') ∧
          service_inv 0 (calculate_io_pool_size (cfg_io_thread_pool_size c)) s') as [Ht' Hi'].
  { induction Hs' as [|s1 s2 s3 Hstep _ IH]; [done|]. apply IH.
    - by eapply raft_queue_kept.
    - by eapply service_step_inv. }
  split; [by apply (raft_only_queued _ _ _ Hi')|].
  pose proof (si_received _ _ _ Hi') as Hnd. rewrite <-(si_accounted _ _ _ Hi') in Hnd.
  unfold accounted in Hnd. apply NoDup_app in Hnd as (_ & Hdisj & _). intros Hin.
  apply (Hdisj _ Hin). apply elem_of_app. left. apply list_elem_of_fmap. by exists t.
Qed.

(** The defaults: the manager's clients have one worker each, NuRaft's scheduler two threads,
    the service two RAFT and four I/O threads, requests two seconds and waits 3.2. *)
Theorem default_process (creates : string → bool) (p : Params) (g : globals)
    (w : world) :
  let '(st, c1) := manager_settings settings_init in
  let '(sv, c2) := create_service w c1 in
  c2 = default_config ∧ config_wf c2 ∧
  (∃ s, st = Ret s ∧ ∃ m g', ManagerImpl_new s creates p g = (Ret m, g') ∧
     mg_scheduler m = 2%Z ∧ raftWorkerName (uuid_to_string (server_uuid_ p)) ∈ workers g' ∧
     dataWorkerName (uuid_to_string (server_uuid_ p)) ∈ workers g') ∧
  (∃ s, sv = Ret s ∧ pool_size (raft_pool s) = 2%Z ∧ pool_size (io_pool s) = 4%Z) ∧
  leader_change_timeout c2 = (Ret 3200%Z, c2) ∧
  mesg_factory_config c2 = mkCfg 2 2.
Proof.
  cbn. split; [done|]. split; [apply default_config_wf|]. split; [|by split_and!; try eexists].
  eexists. split; [done|].
  destruct (ManagerImpl_new_run (mkSettings 1 1 2) creates p g)
    as (m & g' & Hnew & _ & _ & _ & _ & _ & _ & _ & _ & Hr & Hd).
  exists m, g'. split; [done|]. split; [|split; [by apply Hr; right|by apply Hd; right]].
  unfold ManagerImpl_new, mbind, M_bind in Hnew.
  destruct (engine_factory_new (mkSettings 1 1 2) p g) as [[f|x|x] g1]; [|done..].
  destruct (custom_logger creates (logger_name p) g1) as [[o|x|x] g2]; [|done..].
  by injection Hnew as <- _.
Qed.
End settings_theorems.

(** ** Witnesses *)

Module SettingsDemo.
Import Demo GroupsDemo RaftStepDemo.

Lemma configured_pools_bounded_witness :
  pool_size (io_pool both_queued) = 4%Z ∧ active_threads (io_pool both_queued) = 0%Z.
Proof.
  destruct (configured_pools_bounded (H := demo_uuid_ops) true demo_step_ops demo_service U2
              default_config default_config leader_world idle both_queued default_config_wf eq_refl
              both_queued_reachable) as (Hio & _ & _ & _ & _ & _ & _ & Ha).
  split; [exact Hio|exact Ha].
Defined.

(** The same service without RAFT threads. *)
Definition no_threads : NuraftMesgConfig := mkConfig default_factory_config 1 1 2 3200 2 0 0.
Definition threadless : service := start_service 0 0 leader_world.
Definition waiting_for_ever : service :=
  receive threadless leader_world 0 (demo_request 9) ([PostRaft 1], false).

Lemma no_raft_threads_no_answers_witness :
  config_wf no_threads ∧ mkTask 0 1 (demo_request 9) ∈ queue (raft_pool waiting_for_ever) ∧
  0%N ∉ (responses waiting_for_ever).*1.
Proof.
  split; [split; cbn; unfold uint16, uint32; lia|].
  apply (no_raft_threads_no_answers (H := demo_uuid_ops) true demo_step_ops demo_service U2 no_threads
           no_threads leader_world threadless waiting_for_ever waiting_for_ever (mkTask 0 1 (demo_request 9)));
    [done|done| |by vm_compute; left|done].
  apply rtc_once.
  apply (sv_receives (H := demo_uuid_ops) true demo_step_ops demo_service U2 threadless demo_app 0
           (demo_request 9) ([PostRaft 1], false) leader_world); [apply not_elem_of_nil|by vm_compute].
Defined.
End SettingsDemo.
