(* ===== verification/Examples.v ===== *)
(** * The example programs

    The client and the server of [test_package]: [example_client.cpp] sends one request to a
    member of a group and repeats it while the cluster is busy; [example_server.cpp] starts a
    manager and may create a group.  They compose the other files: requests run through
    [Redirect], what they append reaches the state machine of [StateManager], the server
    is a [Lifecycle] manager with [Groups]. *)

From stdpp Require Import base gmap strings list numbers pretty.
From Stdlib Require Import Strings.Byte Strings.Ascii.
From S2P Require Import Prelude Types Codec ClientPool DataPath Redirect.
From S2P Require Import LogStore StateManager Groups DataService Lifecycle.

(** ** [uuids.h] *)

Definition uuids : list string :=
  ["f0d3ec17-9075-429b-afa7-68d7542f7403"; "aa2018b3-2556-4d8e-a575-0a90d360b0bb";
   "d22e63a2-4993-4f0e-b19d-bfa5ace64e87"; "d68a6947-b976-4e78-9cf0-8cc6520ea266";
   "2da54edb-8e1d-4fc6-9ac3-4eade3aac0b4"]%string.

Definition guids : list string :=
  ["f0d3ec17-9075-429b-afa7-68d7542f7404"; "aa2018b3-2556-4d8e-a575-0a90d360b0bc";
   "d22e63a2-4993-4f0e-b19d-bfa5ace64e88"; "d68a6947-b976-4e78-9cf0-8cc6520ea267";
   "2da54edb-8e1d-4fc6-9ac3-4eade3aac0b5"]%string.

(** Indexing one of these arrays is undefined past its end. *)
Definition array_at (a : list string) (i : Z) : outcome string :=
  match (if decide (0 ≤ i)%Z then a !! Z.to_nat i else None) with
  | Some s => Ret s
  | None => Ub "index out of bounds"
  end.

Section examples.
Context `{UuidOps} `{MsgTypes} `{NuraftBytes} `{LogLib} `{NuraftDefaults}.

(** ** Finding a peer *)

(** The loop over the five peers, from [i]; [None] when none of them matches. *)
Fixpoint find_peer (id_str : string) (i : N) (peers : list string) : option string :=
  match peers with
  | [] => None
  | u :: rest =>
      if decide (u = id_str) then Some ("127.0.0.1:" +:+ pretty (9000 + i)%N)
      else find_peer id_str (i + 1) rest
  end.

(** [example_factory::lookupEndpoint]; an unknown peer fails the [RELEASE_ASSERT]. *)
Definition example_lookupEndpoint (client : uuid) : outcome string :=
  match find_peer (uuid_to_string client) 0 uuids with
  | Some ep => Ret ep
  | None => Ub "Missing Peer"
  end.

(** [Application::lookup_peer] *)
Definition lookup_peer (peer : uuid) : outcome string :=
  match find_peer (uuid_to_string peer) 0 uuids with
  | Some ep => Ret ep
  | None => Ub "Missing Peer"
  end.

(** ** The client's requests *)

Fixpoint until_nul (bs : list byte) : list byte :=
  match bs with
  | [] => []
  | b :: bs' => if Byte.eqb b "000"%byte then [] else b :: until_nul bs'
  end.

Definition string_bytes (s : string) : list byte :=
  byte_of_ascii <$> String.list_ascii_of_string s.

(** [buffer::alloc(message.length() + 1)], [put(message.c_str())], [pos(0)]: the text up to
    its first null byte and a terminator; the rest of the buffer is not written. *)
Definition message_buffer (message : string) : buffer :=
  let txt := until_nul (string_bytes message) in
  buf_alloc (txt ++ "000"%byte :: fresh_bytes (String.length message - length txt)).

(** Whether the loop goes on: [SERVER_IS_JOINING] or [CONFIG_CHANGING]. *)
Definition busy (result : NullResult) : bool :=
  match result with
  | Value _ => false
  | Unexpected c => bool_decide (c = code.SERVER_IS_JOINING ∨ c = code.CONFIG_CHANGING)
  end.

Section command.
Context (cfg : mesg_cfg) (factory : grpc_factory) (dest_cfg : srv_config).
Context (p : payload) (addr : uuid).

(** One request and [get()] on its future, against a cluster that answers by [answer];
    [None] when the future gets no value from the answers [fuel] allows. *)
Definition attempt (fuel : nat) (answer : RaftGroupMsg → handler_args)
  : M op_state (option NullResult) := λ o,
  match cluster_request cfg p addr factory dest_cfg o with
  | (Ret (Redirect.Immediate r, _), o') => (Ret (Some r), o')
  | (Ret (FutureOf n, fl), o') =>
      match drive cfg p addr factory answer fuel (mkRequest o' fl) with
      | Ret (_, r) => (Ret (promises (rq_op r) !! n), rq_op r)
      | Throw e => (Throw e, o')
      | Ub e => (Ub e, o')
      end
  | (Throw e, o') => (Throw e, o')
  | (Ub e, o') => (Ub e, o')
  end.

(** The [while] loop: each attempt meets the cluster as it then is.  [None] when an
    attempt blocks, or when it is still busy after the last of [answers]. *)
Fixpoint request_loop (fuel : nat) (result : NullResult)
    (answers : list (RaftGroupMsg → handler_args)) : M op_state (option NullResult) :=
  if busy result then
    match answers with
    | [] => mret None
    | answer :: rest =>
        r ← attempt fuel answer;
        match r with
        | None => mret None
        | Some result' => request_loop fuel result' rest
        end
    end
  else mret (Some result).

(** From the first value of [result] to the return code. *)
Definition command (fuel : nat) (answers : list (RaftGroupMsg → handler_args))
  : M op_state (option Z) :=
  r ← request_loop fuel (Unexpected code.SERVER_IS_JOINING) answers;
  mret ((λ res, match res with Value _ => 0 | Unexpected _ => -1 end%Z) <$> r).
End command.

(** A step that only computes. *)
Definition liftM {S A : Type} (o : outcome A) : M S A := λ s, (o, s).

(** [srv_config(leader_id, uuids[leader_id])] *)
Definition example_dest (leader_id : Z) : outcome srv_config :=
  match array_at uuids leader_id with
  | Ret u => Ret (new_srv_config leader_id u)
  | Throw e => Throw e
  | Ub e => Ub e
  end.

(** ** The client's factories *)

(** Whether [GrpcAsyncClient::make< messaging_client >] gives a client for these arguments
    while the given workers run. *)
Abbreviation make_client := (gset string → client_args → bool).

(** The network as a factory of the client sees it: a missing peer ends the process before
    its address is used. *)
Definition example_env (ready : N → bool) (makes : make_client) (f : gfactory) (g : globals)
  : net_env :=
  mkEnv (λ u, match example_lookupEndpoint u with Ret ep => ep | _ => EmptyString end) ready
    (λ endpoint, makes (workers g) (factory_client_args f endpoint (m_ssl_cert g))).

(** [GrpcAsyncClientWorker::shutdown_all()] *)
Definition shutdown_all : M globals unit :=
  modify (λ g, mkGlobals ∅ (m_ssl_cert g) (loggers g)).

(** What the three requests have in common: [example_factory(2, group_id)], a [mesg_factory]
    on top of it, both without clients, the request, and the end of the workers.  A request
    that blocks ends nothing. *)
Definition client_request_session (ready : N → bool) (makes : make_client) (group_id : uuid)
    (request : grpc_factory → M op_state (option Z)) : M globals (option Z) :=
  g_factory ← group_factory_new1 2 group_id None EmptyString;
  mesg_factory_new group_id;;
  g ← getS;
  let factory := mesg_factory (example_env ready makes g_factory g) 0 group_id "test_package" in
  r ← liftM (request factory (mkOp empty_pool 0 0 ∅)).1;
  match r with
  | None => mret None
  | Some ret => shutdown_all;; mret (Some ret)
  end.

Definition send_message (cfg : mesg_cfg) (ready : N → bool) (makes : make_client) (fuel : nat)
    (answers : list (RaftGroupMsg → handler_args)) (leader_id : Z) (group_id : uuid)
    (message : string) : M globals (option Z) :=
  client_request_session ready makes group_id (λ factory,
    dest_cfg ← liftM (example_dest leader_id);
    command cfg factory dest_cfg (AppendEntry (message_buffer message)) uuid_nil fuel answers).

(** The server's address is parsed in every iteration; it is the same each time. *)
Definition add_new_server (cfg : mesg_cfg) (ready : N → bool) (makes : make_client) (fuel : nat)
    (answers : list (RaftGroupMsg → handler_args)) (leader_id srv_id : Z) (group_id : uuid)
  : M globals (option Z) :=
  client_request_session ready makes group_id (λ factory,
    dest_cfg ← liftM (example_dest leader_id);
    u ← liftM (array_at uuids srv_id);
    srv_addr ← match string_generator u with
               | Some a => mret a
               | None => throw "invalid uuid string"
               end;
    command cfg factory dest_cfg (AddServer srv_id) srv_addr fuel answers).

Definition remove_server (cfg : mesg_cfg) (ready : N → bool) (makes : make_client) (fuel : nat)
    (answers : list (RaftGroupMsg → handler_args)) (leader_id : Z) (group_id : uuid) (srv_id : Z)
  : M globals (option Z) :=
  client_request_session ready makes group_id (λ factory,
    dest_cfg ← liftM (example_dest leader_id);
    command cfg factory dest_cfg (RemServer (i32 srv_id)) uuid_nil fuel answers).

(** The options of the client; [Clean] removes files of earlier runs. *)
Inductive client_option :=
| Clean
| Echo (message : string)
| Add (srv_id : Z)
| Remove (srv_id : Z)
| Help.

(** [main] *)
Definition client_main (cfg : mesg_cfg) (ready : N → bool) (makes : make_client) (fuel : nat)
    (answers : list (RaftGroupMsg → handler_args)) (group server : Z) (opt : client_option)
  : M globals (option Z) :=
  match opt with
  | Clean => mret (Some 0%Z)
  | _ =>
      guid_str ← liftM (array_at guids group);
      match string_generator guid_str with
      | None => mret (Some (-1)%Z)
      | Some gid =>
          match opt with
          | Echo message => send_message cfg ready makes fuel answers server gid message
          | Add srv_id => add_new_server cfg ready makes fuel answers server srv_id gid
          | Remove srv_id => remove_server cfg ready makes fuel answers server gid srv_id
          | Clean | Help => mret (Some 0%Z)
          end
      end
  end.
End examples.

(** ** The server *)

Inductive signal := SIGINT | SIGTERM | OtherSignal.

(** [handle]: the new value of [k_stop]. *)
Definition handle (sig : signal) (k_stop : bool) : bool :=
  match sig with
  | SIGINT | SIGTERM => true
  | OtherSignal => k_stop
  end.

Section server.
Context `{UuidOps} `{RaftParams}.

Record Application := mkApplication {
  port_ : Z;
  id_ : uuid;
}.

Definition app_create_state_mgr (app : Application) (srv_id : Z) (group_id : uuid)
  : simple_state_mgr :=
  simple_state_mgr_new srv_id (id_ app) group_id.

Context (lib : grpc_lib) (cfg : mesg_settings) (creates : string → bool).
(** A release build or not, the RAFT parameters of the example, and what the manager's
    service is told about the application. *)
Context (ndebug : bool) (r_params : raft_params) (env : app_env).

Definition app_params (app : Application) : Params :=
  let p := Params_new in
  mkParams (id_ app) (u16 (port_ app)) "test_package" (ssl_key_ p) (ssl_cert_ p) (ssl_ca_ p)
    (token_verifier_ p) (token_client_ p) (max_receive_message_size_ p)
    (max_send_message_size_ p) (enable_console_log_ p).

(** [Application::start]: the manager it keeps. *)
Definition app_start (app : Application) : M globals manager :=
  m ← init_messaging lib cfg creates (app_params app) true false;
  match in_world (register_mgr_type ndebug "test_package" r_params) m with
  | (Ret _, m') => mret m'
  | (Throw e, _) => throw e
  | (Ub e, _) => ub e
  end.

(** [manager_->create_group(gid, "test_package")]; its future is dropped. *)
Definition app_create_group (gid : uuid) (m : manager) : M globals manager :=
  let scfg := mkServiceCfg (mg_srv_id m) false (default_group_type_ (mg_params m)) in
  match in_world (create_group scfg env gid "test_package") m with
  | (Ret _, m') => mret m'
  | (Throw e, _) => throw e
  | (Ub e, _) => ub e
  end.

Definition parse_uuid (s : string) : M globals uuid :=
  match string_generator s with
  | Some u => mret u
  | None => throw "invalid uuid string"
  end.

(** [main], with the options [server_id] and [create]: its return code, and what the
    destruction of the application at its end does.  Nothing waits for [k_stop]. *)
Definition server_main (offset_id : Z) (create : option Z) : M globals (Z * list stop_event) :=
  u ← liftM (array_at uuids offset_id);
  server_uuid ← parse_uuid u;
  let app := mkApplication (u32 (9000 + offset_id)) server_uuid in
  m ← app_start app;
  m ← match create with
      | None => mret m
      | Some i =>
          g ← liftM (array_at guids i);
          gid ← parse_uuid g;
          app_create_group gid m
      end;
  evs ← liftM (ManagerImpl_destroy env m);
  mret (0%Z, evs).
End server.

(** ** Lemmas *)

Lemma until_nul_clean bs : "000"%byte ∉ until_nul bs.
Proof.
  induction bs as [|b bs IH]; simpl; [apply not_elem_of_nil|].
  destruct (Byte.eqb b "000"%byte) eqn:E; [apply not_elem_of_nil|].
  apply not_elem_of_cons. split; [|done]. intros <-. done.
Qed.

Lemma until_nul_id bs : "000"%byte ∉ bs → until_nul bs = bs.
Proof.
  induction bs as [|b bs IH]; simpl; [done|]. intros [Hb Hn]%not_elem_of_cons.
  destruct (Byte.eqb b "000"%byte) eqn:E; [apply byte_dec_bl in E; congruence|].
  by rewrite IH.
Qed.

Section command_lemmas.
Context `{UuidOps} `{!UuidLaws} `{MsgTypes} `{!MsgTypesOk} `{NuraftBytes}.
Context (cfg : mesg_cfg) (p : payload) (addr : uuid).
Context (env : net_env) (f : N) (gid : uuid) (gtype : string).
Context (dest_cfg : srv_config) (u leader : uuid) (d : Z).
Context (Hu : string_generator (sc_endpoint dest_cfg) = Some u).
Context (Hru : can_reach env u) (Hrl : can_reach env leader).
Context (Hd : (0 ≤ d)%Z) (Hid : u = leader ∨ sc_id dest_cfg ≠ d).

(** An attempt while the leader answers [c] takes at most two answers. *)
Lemma attempt_run answer c o :
  reachable_pool (op_pool o) → stable_leader leader d c answer →
  ∃ o', attempt cfg (mesg_factory env f gid gtype) dest_cfg p addr 2 answer o =
        (Ret (Some (code_result c)), o') ∧ reachable_pool (op_pool o').
Proof.
  intros Hr Hst.
  destruct (stable_leader_run cfg p addr env f gid gtype dest_cfg o u leader d c answer)
    as (n & fl & o' & ms & r & Hrun & Hdrive & _ & _ & _ & Hset & Hpool); [done..|].
  exists (rq_op r). split; [|done]. unfold attempt. by rewrite Hrun, Hdrive, Hset.
Qed.

Lemma request_loop_run cs c answers result o :
  reachable_pool (op_pool o) → busy result = true →
  Forall (λ c, busy (code_result c) = true) cs → busy (code_result c) = false →
  Forall2 (stable_leader leader d) (cs ++ [c]) answers →
  ∃ o', request_loop cfg (mesg_factory env f gid gtype) dest_cfg p addr 2 result answers o =
        (Ret (Some (code_result c)), o').
Proof.
  intros Hr Hb Hcs Hc HF. revert result answers o Hr Hb HF.
  induction Hcs as [|c0 cs Hc0 _ IH]; intros result answers o Hr Hb HF;
    apply Forall2_cons_inv_l in HF as (a & rest & Ha & HF & ->); simpl; rewrite Hb;
    destruct (attempt_run a _ o Hr Ha) as (o1 & Hrun & Hr1);
    rewrite (run_bind _ _ _ _ _ Hrun).
  - apply Forall2_nil_inv_l in HF as ->. exists o1. simpl. by rewrite Hc.
  - by apply IH.
Qed.
End command_lemmas.

(** When no client can be made, the first attempt never gets its answer. *)
Lemma unreachable_wrapper `{UuidOps} (env : net_env) (f : N) (gid u : uuid) (gtype : string) :
  make_ok env (lookupEndpoint env u) = false →
  heap (wrapper env f gid gtype u false empty_pool).2
    !! (wrapper env f gid gtype u false empty_pool).1 = Some ErrorClient.
Proof.
  intros Hm. unfold wrapper, transport, renew. simpl. rewrite lookup_empty, Hm.
  case_decide; simpl; unfold as_messaging; simpl; by rewrite lookup_insert_eq; simpl; rewrite lookup_insert_eq.
Qed.

Lemma attempt_blocks `{UuidOps} `{MsgTypes} `{!MsgTypesOk} `{NuraftBytes} (cfg : mesg_cfg)
    (env : net_env) (f : N) (gid : uuid) (gtype : string) dest_cfg u p addr fuel answer :
  string_generator (sc_endpoint dest_cfg) = Some u →
  make_ok env (lookupEndpoint env u) = false →
  ∃ o', attempt cfg (mesg_factory env f gid gtype) dest_cfg p addr fuel answer (mkOp empty_pool 0 0 ∅) =
        (Ret None, o').
Proof.
  intros Hu Hm. pose proof (unreachable_wrapper env f gid u gtype Hm) as He.
  unfold attempt, cluster_request, start_request, create_or_reinit_client_str. rewrite Hu.
  unfold mbind, M_bind, in_pool. rewrite mesg_refines by apply reachable_wf, rtc_refl.
  simpl op_pool. destruct (wrapper env f gid gtype u false empty_pool) as [w s']. simpl in He |- *.
  rewrite (send_error cfg _ _ _ He). simpl.
  destruct fuel; simpl; by eexists.
Qed.

(** ** Theorems *)

Section example_theorems.
Context `{UuidOps} `{!UuidLaws} `{MsgTypes} `{!MsgTypesOk} `{NuraftBytes} `{LogLib}.
Context `{NuraftDefaults} `{!NuraftDefaultsOk} `{RaftParams}.

Lemma find_peer_known (i : nat) (s : string) :
  uuids !! i = Some s → find_peer s 0 uuids = Some ("127.0.0.1:" +:+ pretty (9000 + N.of_nat i)%N).
Proof. do 5 (destruct i as [|i]; [intros [= <-]; by vm_compute|]). done. Qed.

Lemma find_peer_inv (i : nat) (s : string) :
  is_Some (uuids !! i) →
  find_peer s 0 uuids = Some ("127.0.0.1:" +:+ pretty (9000 + N.of_nat i)%N) → uuids !! i = Some s.
Proof.
  intros [x Hx] Hf. cbn [find_peer uuids] in Hf.
  do 5 (destruct i as [|i];
    [repeat case_decide; [..|done]; subst; try (by vm_compute in Hf); done|]). done.
Qed.

Lemma example_can_reach ready makes f g (i : nat) (u : uuid) :
  uuids !! i = Some (uuid_to_string u) →
  (∀ ep, makes (workers g) (factory_client_args f ep (m_ssl_cert g)) = true) →
  can_reach (example_env ready makes f g) u.
Proof.
  intros Hi Hm. split; [|apply Hm]. simpl. unfold example_lookupEndpoint.
  by rewrite (find_peer_known i).
Qed.

Lemma array_at_known (a : list string) (i : nat) s : a !! i = Some s → array_at a (Z.of_nat i) = Ret s.
Proof. intros Hi. unfold array_at. by rewrite decide_True, Nat2Z.id, Hi by lia. Qed.

(** The clients the example asks for: their factory has workers for RAFT requests and none
    for data. *)
Definition example_client_args (gid : uuid) (endpoint : string) : client_args :=
  factory_client_args (mkGFactory (uuid_to_string gid) None 0 0) endpoint EmptyString.

Definition example_workers (gid : uuid) (g : globals) : gset string :=
  {[raftWorkerName (uuid_to_string gid)]} ∪ workers g.

Lemma session_run ready makes gid request g :
  client_request_session ready makes gid request g =
  let g' := mkGlobals (example_workers gid g) EmptyString (loggers g) in
  let env := example_env ready makes (mkGFactory (uuid_to_string gid) None 0 0) g' in
  match (request (mesg_factory env 0 gid "test_package") (mkOp empty_pool 0 0 ∅)).1 with
  | Ret None => (Ret None, g')
  | Ret (Some ret) => (Ret (Some ret), mkGlobals ∅ EmptyString (loggers g))
  | Throw e => (Throw e, g')
  | Ub e => (Ub e, g')
  end.
Proof.
  unfold client_request_session, mbind, M_bind. simpl. unfold liftM.
  by destruct (request _ _) as [[[ret|]|e|e] o].
Qed.

(** The client against a cluster with a stable leader, if the library makes clients for a
    factory without data workers: it repeats its request while the cluster is joining a
    server or changing its configuration, and ends with the first other answer: return
    code 0 if the request succeeded and -1 if it failed. *)
Theorem example_client_settles (cfg : mesg_cfg) ready makes (gid : uuid) (i j : nat)
    (u leader : uuid) (d : Z) (message : string) (cs : list Z) (c : Z)
    (answers : list (RaftGroupMsg → handler_args)) (g : globals) :
  uuids !! i = Some (uuid_to_string u) → uuids !! j = Some (uuid_to_string leader) →
  (∀ ep, makes (example_workers gid g) (example_client_args gid ep) = true) →
  (0 ≤ d)%Z → u = leader ∨ Z.of_nat i ≠ d →
  Forall (λ c, busy (code_result c) = true) cs → busy (code_result c) = false →
  Forall2 (stable_leader leader d) (cs ++ [c]) answers →
  ∃ g', send_message cfg ready makes 2 answers (Z.of_nat i) gid message g =
        (Ret (Some (if decide (c = code.OK) then 0 else -1)%Z), g').
Proof.
  intros Hi Hj Hm Hd Hid Hcs Hc HF. unfold send_message. rewrite session_run. cbv zeta.
  set (env := example_env _ _ _ _). unfold example_dest, liftM.
  rewrite (array_at_known uuids i _ Hi). unfold mbind at 1, M_bind at 1. simpl.
  assert (∃ o', request_loop cfg (mesg_factory env 0 gid "test_package")
                  (new_srv_config (Z.of_nat i) (uuid_to_string u))
                  (AppendEntry (message_buffer message)) uuid_nil 2
                  (Unexpected code.SERVER_IS_JOINING) answers (mkOp empty_pool 0 0 ∅)
                = (Ret (Some (code_result c)), o')) as (o' & Hrun).
  { apply (request_loop_run cfg _ _ _ 0 gid _ _ u leader d) with (cs := cs); try done.
    - rewrite new_srv_config_endpoint. apply generator_to_string.
    - by apply (example_can_reach _ _ _ _ i).
    - by apply (example_can_reach _ _ _ _ j).
    - by rewrite new_srv_config_id.
    - apply rtc_refl. }
  unfold command. rewrite (run_bind _ _ _ _ _ Hrun). unfold code_result. simpl.
  case_decide; by eexists.
Qed.

(** If it makes none, the client waits for ever: the error client answers before [future()]
    is called, and the answer is lost. *)
Theorem example_client_blocks (cfg : mesg_cfg) ready makes (gid : uuid) (i : nat) (u : uuid)
    (message : string) (fuel : nat) answer (answers : list (RaftGroupMsg → handler_args))
    (g : globals) :
  uuids !! i = Some (uuid_to_string u) →
  (∀ ep, makes (example_workers gid g) (example_client_args gid ep) = false) →
  ∃ g', send_message cfg ready makes fuel (answer :: answers) (Z.of_nat i) gid message g
        = (Ret None, g').
Proof.
  intros Hi Hm. unfold send_message. rewrite session_run. cbv zeta.
  set (env := example_env _ _ _ _). unfold example_dest, liftM.
  rewrite (array_at_known uuids i _ Hi). unfold mbind at 1, M_bind at 1. simpl.
  unfold command. cbn [request_loop busy]. rewrite bool_decide_true by by left.
  edestruct (attempt_blocks cfg env 0 gid "test_package") as (o' & Ho').
  { rewrite new_srv_config_endpoint. apply generator_to_string. }
  { apply Hm. }
  unfold mbind, M_bind. rewrite Ho'. by eexists.
Qed.

(** A message of the client is printed by the state machine as it was given on the command
    line (up to a null byte), whatever the unwritten rest of its buffer holds. *)
Theorem client_message_echoed (message : string) (log_idx : Z) (s : echo_state_machine) :
  ∃ s', commit true log_idx (message_buffer message) s = (Ret None, s') ∧
        last_commit_idx_ s' = log_idx ∧
        echoed s' = echoed s ++ [(log_idx, until_nul (string_bytes message))] ∧
        ("000"%byte ∉ string_bytes message → until_nul (string_bytes message) = string_bytes message).
Proof.
  unfold commit, echo_line, message_buffer, mbind, M_bind. simpl. rewrite drop_0.
  rewrite c_string_terminated by apply until_nul_clean. simpl.
  eexists. split_and!; [done..|]. apply until_nul_id.
Qed.

(** The client finds the servers: the address either program looks up for one of the five
    peers has the port its server listens on, and different peers have different ones. *)
Theorem client_finds_server (i : nat) (u : uuid) :
  uuids !! i = Some (uuid_to_string u) →
  let port := pretty (9000 + N.of_nat i)%N in
  example_lookupEndpoint u = Ret ("127.0.0.1:" +:+ port) ∧
  lookup_peer u = Ret ("127.0.0.1:" +:+ port) ∧
  listen_address (app_params (mkApplication (u32 (9000 + Z.of_nat i)) u)) = "0.0.0.0:" +:+ port ∧
  ∀ v, lookup_peer v = lookup_peer u → v = u.
Proof.
  intros Hi port. unfold example_lookupEndpoint, lookup_peer. rewrite (find_peer_known i _ Hi).
  split_and!; [done..| |].
  - subst port. clear -Hi. do 5 (destruct i as [|i]; [by vm_compute|]). done.
  - intros v. destruct (find_peer (uuid_to_string v) 0 uuids) as [ep|] eqn:Hv; [|done].
    intros [= ->]. apply uuid_to_string_inj.
    assert (uuids !! i = Some (uuid_to_string v)) as Hv' by (apply find_peer_inv; [|done]; eauto).
    congruence.
Qed.

Lemma start_ok lib :
  make_server_ok lib = Ret true → accepts_async_service lib 0 = true →
  accepts_raft_step lib 0 = true →
  ∃ s', start lib false stopped = (Ret tt, s') ∧ mesg_service s' = Some false ∧
        grpc_server s' = Some 0%N.
Proof.
  intros Hm Ha Hs. unfold start, restart_server, mbind, M_bind, gets. simpl. rewrite Hm. simpl.
  unfold svc_associate, msg_associate, svc_bind, msg_bind, mbind, M_bind. simpl. rewrite Ha. simpl.
  rewrite Hs. simpl. by eexists.
Qed.

Lemma create_group_ok scfg env w gid gtype params cr :
  manager_alive env = true → create_state_mgr env = Some cr → (∀ id g, is_Some (cr id g)) →
  gtype ≠ EmptyString → state_mgr_types w !! gtype = Some params →
  state_managers w !! gid = None → raft_servers w !! gid = None →
  ∃ r w', create_group scfg env gid gtype w = (Ret r, w').
Proof.
  intros Hal Hcr Hsome Hty Ht Hm Hs. destruct (Hsome (Groups._srv_id scfg) gid) as [sm Hsm].
  unfold create_group, joinRaftGroup, join_prepare, group_init, mbind, M_bind, gets, modify.
  unfold set_leader, set_managers. rewrite Hal. simpl.
  rewrite Hs. rewrite decide_False by done. simpl. rewrite Ht. simpl.
  unfold emplace at 1. rewrite Hm. simpl. rewrite Hcr. simpl. rewrite Hsm. simpl. rewrite lookup_insert_eq. simpl.
  unfold join_publish, make_server, mbind, M_bind, gets, modify. simpl. rewrite Hs.
  destruct (_data_service_enabled scfg); simpl; by eexists _, _.
Qed.

Lemma app_start_ok lib cfg creates ndebug r_params app g :
  make_server_ok lib = Ret true → accepts_async_service lib 0 = true →
  accepts_raft_step lib 0 = true →
  ∃ m g', app_start lib cfg creates ndebug r_params app g = (Ret m, g') ∧
          mesg_service (mg_server m) = Some false ∧ grpc_server (mg_server m) = Some 0%N ∧
          mg_world m = mkWorld {["test_package"%string := r_params]} ∅ ∅ ∅ ∅ ∅ 0 [].
Proof.
  intros Hm Ha Hs. destruct (start_ok lib Hm Ha Hs) as (s' & Hst & Hsvc & Hgr).
  destruct (ManagerImpl_new_run cfg creates (app_params app) g)
    as (m & g' & Hnew & _ & _ & _ & Hw & Hsrv & _).
  unfold app_start, init_messaging. simpl. unfold mbind at 1, M_bind at 1.
  rewrite (run_bind _ _ _ _ _ Hnew). unfold in_server. rewrite Hsrv, Hst.
  unfold in_world, register_mgr_type, mbind, M_bind, gets. simpl. rewrite Hw. simpl.
  unfold emplace. rewrite lookup_empty. simpl. rewrite andb_false_r. by eexists _, _.
Qed.

(** The server does not wait for a signal: with or without a group to create, [main] returns
    0 right after the start, and on its way out the manager shuts its gRPC server down. *)
Theorem server_main_does_not_wait lib cfg creates ndebug r_params env cr (i : nat) (u : uuid)
    (create : option (nat * uuid)) g :
  uuids !! i = Some (uuid_to_string u) →
  make_server_ok lib = Ret true → accepts_async_service lib 0 = true →
  accepts_raft_step lib 0 = true →
  manager_alive env = true → create_state_mgr env = Some cr → (∀ id g, is_Some (cr id g)) →
  (∀ k gid, create = Some (k, gid) → guids !! k = Some (uuid_to_string gid)) →
  ∃ evs g', server_main lib cfg creates ndebug r_params env (Z.of_nat i)
              ((λ c, Z.of_nat c.1) <$> create) g = (Ret (0%Z, evs ++ [GrpcShutdown 0]), g').
Proof.
  intros Hi Hm Ha Hs Hal Hcr Hsome Hcreate. unfold server_main, liftM, parse_uuid.
  rewrite (array_at_known uuids i _ Hi). unfold mbind at 1, M_bind at 1.
  rewrite generator_to_string. unfold mbind at 1, M_bind at 1. cbn [mret M_ret].
  destruct (app_start_ok lib cfg creates ndebug r_params
              (mkApplication (u32 (9000 + Z.of_nat i)) u) g Hm Ha Hs)
    as (m & g' & Hst & Hsvc & Hgr & Hw).
  rewrite (run_bind _ _ _ _ _ Hst).
  assert (∃ m', match (λ c : nat * uuid, Z.of_nat c.1) <$> create with
                | None => mret m
                | Some k => gs ← liftM (array_at guids k); gid ← parse_uuid gs; app_create_group env gid m
                end g' = (Ret m', g') ∧ mg_server m' = mg_server m) as (m' & Hm' & Hsrv).
  { destruct create as [[k gid]|]; simpl; [|by exists m].
    destruct (create_group_ok (mkServiceCfg (mg_srv_id m) false (default_group_type_ (mg_params m)))
                env (mg_world m) gid "test_package" r_params cr) as (r & w' & Hcg);
      [done..|rewrite Hw; apply lookup_singleton_eq|by rewrite Hw|by rewrite Hw|].
    rewrite (array_at_known guids k _ (Hcreate k gid eq_refl)).
    unfold mbind, M_bind, liftM, parse_uuid. rewrite generator_to_string.
    unfold app_create_group, in_world. simpl. rewrite Hcg. by eexists. }
  unfold liftM, parse_uuid in Hm'. rewrite (run_bind _ _ _ _ _ Hm').
  unfold mbind, M_bind. rewrite (destroy_run env m' 0) by (rewrite Hsrv; done || by eexists).
  by eexists _, g'.
Qed.
End example_theorems.

(** ** A concrete instance: two of the peers and a group *)

Module ExamplesDemo.
Import Demo RedirectDemo GroupsDemo StateManagerDemo LogStoreDemo LifecycleDemo.

Inductive ex_uuid := Peer0 | Peer1 | Group0.

#[export] Instance ex_uuid_eq_dec : EqDecision ex_uuid.
Proof. solve_decision. Defined.

#[export] Instance ex_uuid_countable : Countable ex_uuid.
Proof.
  refine (inj_countable' (λ u, match u with Peer0 => 0 | Peer1 => 1 | Group0 => 2 end)
            (λ n, match n with 0 => Peer0 | 1 => Peer1 | _ => Group0 end) _).
  by intros [].
Defined.

Definition ex_to_string (u : ex_uuid) : string :=
  match u with
  | Peer0 => "f0d3ec17-9075-429b-afa7-68d7542f7403"
  | Peer1 => "aa2018b3-2556-4d8e-a575-0a90d360b0bb"
  | Group0 => "f0d3ec17-9075-429b-afa7-68d7542f7404"
  end%string.

Definition ex_generator (s : string) : option ex_uuid :=
  if decide (s = ex_to_string Peer0) then Some Peer0
  else if decide (s = ex_to_string Peer1) then Some Peer1
  else if decide (s = ex_to_string Group0) then Some Group0 else None.

#[local] Instance ex_uuid_ops : UuidOps := {|
  uuid := ex_uuid;
  uuid_to_string := ex_to_string;
  string_generator := ex_generator;
  uuid_hash := λ u, match u with Peer0 => 2 ^ 40 | Peer1 => 2 ^ 41 | Group0 => 0 end%Z;
  uuid_nil := Group0;
|}.

#[local] Instance ex_uuid_laws : UuidLaws.
Proof. split; intros []; by vm_compute. Qed.

(** The second peer leads; it is joining a server first, then it accepts. *)
Definition ex_hint : handler_args :=
  mkHandler (Some (mkGrpcResp (mkResp 1 0 256 256 0 false None 0 code.NOT_LEADER)
                     (ex_to_string Peer1))) None.
Definition ex_answer (c : Z) (m : RaftGroupMsg) : handler_args :=
  if decide (g_intended_addr m = ex_to_string Peer1)
  then mkHandler (Some (mkGrpcResp (mkResp 1 0 256 256 0 true None 0 c) EmptyString)) None
  else ex_hint.

Lemma ex_stable c : stable_leader Peer1 256 c (ex_answer c).
Proof. intros m. unfold ex_answer. simpl. case_decide; [by intros d'|]. by eexists. Qed.

Lemma example_client_settles_witness :
  busy (code_result code.SERVER_IS_JOINING) = true ∧
  ∃ g', send_message (H := ex_uuid_ops) demo_cfg (λ _, true) (λ _ _, true) 2
          [ex_answer code.SERVER_IS_JOINING; ex_answer code.OK] 0 Group0 "hello" no_globals =
        (Ret (Some 0%Z), g').
Proof.
  split; [done|].
  apply (example_client_settles (H := ex_uuid_ops) demo_cfg (λ _, true) (λ _ _, true) Group0 0 1
           Peer0 Peer1 256 "hello" [code.SERVER_IS_JOINING] code.OK);
    [done|done|done|lia|by right|by repeat constructor|done|].
  repeat constructor; apply ex_stable.
Defined.

(** A library that makes clients only if both their workers run. *)
Lemma example_client_blocks_witness :
  let makes ws a := bool_decide (ca_raft_worker a ∈ ws ∧ ca_data_worker a ∈ ws) in
  ∃ g', send_message (H := ex_uuid_ops) demo_cfg (λ _, true) makes 9 [ex_answer code.OK] 0 Group0
          "hello" no_globals = (Ret None, g').
Proof.
  intros makes.
  apply (example_client_blocks (H := ex_uuid_ops) demo_cfg (λ _, true) makes Group0 0 Peer0 "hello" 9);
    [done|].
  intros ep. by vm_compute.
Defined.

Lemma client_finds_server_witness :
  uuids !! 1%nat = Some (ex_to_string Peer1) ∧
  lookup_peer (H := ex_uuid_ops) Peer1 = Ret "127.0.0.1:9001"%string.
Proof.
  split; [done|].
  destruct (client_finds_server (H := ex_uuid_ops) 1 Peer1) as (_ & -> & _); [done|]. by vm_compute.
Defined.

Lemma server_main_does_not_wait_witness :
  uuids !! 0%nat = Some (ex_to_string Peer0) ∧
  ∃ evs g', server_main (demo_lib (Ret true)) demo_settings (λ _, true) true (0%nat : raft_params)
              (mkAppEnv true (Some (λ _ _, Some 100%N)) true) 0 (Some 0%Z) no_globals
            = (Ret (0%Z, evs ++ [GrpcShutdown 0]), g').
Proof.
  split; [done|].
  apply (server_main_does_not_wait (H := ex_uuid_ops) (demo_lib (Ret true)) demo_settings (λ _, true) true
           (0%nat : raft_params) (mkAppEnv true (Some (λ _ _, Some 100%N)) true) (λ _ _, Some 100%N)
           0 Peer0 (Some (0%nat, Group0)) no_globals);
    [done..|by eexists|by intros k gid [= <- <-]].
Defined.
End ExamplesDemo.
